(* ===== verification/_CoqProject ===== *)
-Q . S2P
Prelude.v
GoStd.v
Api.v
External.v
FakeKube.v
Operator.v
Fixtures.v
Postgres.v
Health.v
Promotion.v
RemoteClient.v
Metrics.v
Decision.v
Observe.v
Status.v
Failover.v
Automatic.v
Reconcile.v
Topology.v
Publish.v
Total.v
Progress.v
Detector.v
Isolation.v
Lag.v
GoFlag.v
Manager.v
DeepCopy.v
Schema.v
Passes.v
History.v
SingleWriter.v
Utils.v
