(* ===== verification/Prelude.v ===== *)
(** * cnpg-ha: a verification development

    ** The program

    cnpg-ha is a Kubernetes operator that keeps a PostgreSQL database highly
    available over several sites, each a Kubernetes cluster that runs a
    CloudNativePG (CNPG) Cluster. Its reconciler reads an HACluster object,
    observes every site (the Cluster object, and optionally PostgreSQL itself
    for the WAL position), moves the writes to a replica when a promote
    annotation or the automatic failover asks for it, publishes status,
    conditions, events and metrics, and converges the other sites toward the
    current primary.

    ** Files

    - [Prelude] (this file): scopes, hint databases, Go errors and results,
      tactics, generic lemmas (filters by position, invariants of closures).
    - [GoStd]: what the sources use of the language and its library: int64 and
      uint64 wrap-around, float64 as IEEE binary64, durations, string, number
      and URL functions, nil-able maps.
    - [Api]: src/api/v1alpha1/hacluster_types.go. Typed strings stay strings,
      pointers to values are options, times are nanoseconds in [Z].
    - [External]: the code outside the repository (controller-runtime client,
      unstructured helpers, condition helper, kubeconfig loader, pgx,
      Prometheus) as the class [Extern] of operations over an abstract [World].
      Each call may change the world, so every theorem without a law class
      holds for any answers, errors and concurrent activity. The documented
      behaviour a theorem relies on is in separate classes: [UnstructuredLaws],
      [ErrorLaws], [StatusLaws], [StoreLaws] (reads return what is stored,
      a write changes one object, a failed write changed nothing or exactly
      that, nobody else writes between two calls), [OtherCallsLaws] (calls
      about HAClusters and databases leave the Clusters alone), [PromLaws].
    - [FakeKube]: an in-memory instance that satisfies all of them; [Fixtures]:
      sample objects and states. The witnesses evaluate on these.
    - [Operator]: the process state [opstate] (failure counters, client cache,
      events, metrics, world, and the trace of calls with their answers), the
      state monad [M] the code runs in, with panics as an outcome, and the
      program logics: [talks] (the possible traces and answers), [wp], [wpt]
      (with the trace), [isQuiet] (reads only), [emits], [assured] (emits and
      value, relying on the answers), [keepsCount], [keepsClients], [returns].
    - [Postgres]: src/internal/postgres/probe.go. [Health]:
      src/internal/health/health.go. [Promotion]:
      src/internal/promotion/promotion.go. [RemoteClient]:
      src/internal/remoteclient/remoteclient.go. [Metrics]:
      src/internal/metrics/metrics.go.
    - src/internal/controller/hacluster_controller.go is split by concern:
      [Decision] (pure decisions), [Observe] (site observations), [Status]
      (statuses, conditions, events, gauges), [Failover] (runPromotion, the two
      handlers, the counter), [Reconcile] (topology and the loop).
    - [Automatic], [Topology], [Publish], [Total], [Progress]: theorems on the
      operations of the controller. [Detector]: a reconcile split into stages
      where the automatic failover starts ([Reconcile_stages] shows that the
      stages are the reconcile), and histories of whole reconciles of any
      HAClusters. [Isolation]: the frame of a reconcile with respect to the
      other HAClusters of the process. [Lag]: the arithmetic of
      lagMilliseconds.
    - [Schema]: the kubebuilder markers of hacluster_types.go (and, for the
      embedded conditions, the CRD under src/config/crd): validation and
      defaults, against the code's fallbacks and the statuses it sends.
    - [DeepCopy]: src/api/v1alpha1/zz_generated.deepcopy.go over an explicit
      heap; the embedded Kubernetes types are the classes [ExtTypes] and
      [ExtCopy] with the contract [ExtCopyLaws].
    - [GoFlag]: Go's flag package. [Manager]: src/cmd/main.go, the group and
      kinds of groupversion_info.go and SetupWithManager, as a process that
      makes the calls of the start sequence and exits; the class [Runtime] has
      the answers of controller-runtime.
    - [Passes]: an abstract plan of a pass for a deployment (which protocol
      steps it takes on which sites, in which order) that Reconcile refines.
      [History]: sequences of complete and crashed passes. [SingleWriter]: the
      same with the primary the status records, for any number of sites; its
      [wpf] reasons about runs whose answers are relied on.
    - [Utils]: src/test/utils/utils.go over the class [TestEnv] of the
      operating system, with bufio's line scanner.

    Definitions carry the names of the Go functions. A function that receives
    a pointer it changes returns the changed value; [replicaObs], mutated in
    place by applyPromotionEffect, is returned. A loop is a Fixpoint over the
    slice it ranges over, so no fuel is used anywhere.

    ** What the theorems show

    - Promotion: each step touches one object and is idempotent, with its
      effect and frame on success and on error; the sequence fences the old
      primary before anything else, never leaves two writers, and on success
      has moved the writes. No step lifts a fence.
    - Decisions: the current primary, the split-brain test, the choice of the
      target under both policies, thresholds and durations without overflow.
    - Failover: over any history of whole reconciles, a site is promoted only
      for an annotation in Manual mode naming a healthy replica, or at the end
      of a streak of unhealthy passes as long as the threshold and outside the
      stabilization window (the streak is one among the passes in Automatic
      mode: those in Manual mode are skipped and do not interrupt it); the rest
      of a reconcile promotes no site. What either handler reports did happen.
      A streak as long as the threshold is answered with a promotion, which
      completes if the API servers answer, is retried if it fails, and is
      recorded unless a third site was observed serving writes; every pass over
      an existing HACluster asks for the next one or reports an error.
    - Isolation: a reconcile of one HACluster leaves the failure counters and
      the gauges, counters and histograms of the others alone, and its events, patches and status
      updates are about its own object.
    - Observation is read-only and faithful to the objects read. Status,
      conditions and metrics mean what they are documented to mean.
      [Lag] shows that the lag in milliseconds is truncated, up to the relative
      error of one rounding, from the definition of binary64 multiplication.
    - Topology: without the AutoReplica opt-in no primary's spec is changed,
      and a successful pass leaves every Cluster it read following the current
      primary or fenced.
    - A pass as a whole refines its plan: at most one promotion, and convergence
      only after an acknowledged status, away from the primary it records and
      toward its replication endpoint. Over any history of passes, each cut
      short at any call, fenced sites stay fenced, a site became a primary only
      with another site out of the way, and two sites never both accept writes.
      For any number of sites, only the recorded primary accepts writes as long
      as every promotion is followed by a status that names it, as it is in a
      pass without an error; fenced Clusters must have been reported as not
      ready. A concrete history of three sites shows that a failover which
      fails after the promotion still ends with two writers.
    - API: the statuses sent are valid exactly when the site names are distinct
      and no message is too long; the code's fallbacks are the API's defaults.
      Deep copies denote the same value and share no storage.
    - Manager: the start order and the exit status, and the options of the
      servers as a function of the command line (the value each flag was given
      last, or its default).
    - Client cache: freshness, reuse, and provenance of every client under any
      interleaving of the lock sections.
    - PostgreSQL probe: LSN parsing (round trip, accepted texts and their order
      by the words of the text), connection string.
    - Reconcile returns for every behaviour of the environment if the patch of
      the annotation keeps the replica list, and panics exactly when the
      automatic failover reaches a replica without an observation; concrete runs
      exhibit that panic, the fencing of a live primary unknown to the status, a
      failure counter that survives Manual mode, a doubly bracketed address,
      a failed manual promotion that is not retried, a name clash no status
      survives, and an omitted spec.failover that disables promotions. The
      series of a site that left the spec are never removed.
    - Test helpers: uncommenting undoes commenting, and the search for the
      cert-manager CRDs by line is one in the whole output; long lines and a
      final line break of the target are lost.

    ** Not modelled

    Logging (log lines and the zap options), contexts and their timeouts, the
    scheme argument of clients, help texts of flags, and the printer columns of
    the CRD. The mutex of the failure counter is not modelled as a lock: its
    two operations are atomic steps. An object in the schema is the typed
    record: unknown fields are pruned, and an explicit zero is an absent field.

    The work queue of controller-runtime is outside the repository; a history
    is any sequence of requests, so every order in which the queue may hand
    them out is covered. The manager runs one reconcile at a time (main sets no
    other concurrency), so reconciles follow each other; only the client cache,
    which has its own locks, is also proved under interleaving. *)

From stdpp Require Export base tactics option list strings gmap pretty.
From Stdlib Require Export Ascii ZArith Lia.

(** ** Scopes, options and automation shared by every file *)

Declare Scope go_scope.
Delimit Scope go_scope with go.
Open Scope go_scope.
Open Scope Z_scope.

Create HintDb go discriminated.
Create Rewrite HintDb go_simpl.

(** String concatenation computes on a constructor. *)
#[global] Arguments String.append : simpl nomatch.

(** ** Go errors

    An [error] value is a chain: [fmt.Errorf("...: %w", err)] wraps a cause
    under a prefix, [fmt.Errorf] without [%w] builds a fresh leaf, a
    package-level [errors.New] variable is a sentinel that [errors.Is]
    compares by identity, and the Kubernetes API machinery returns status
    errors that carry a machine-readable reason. *)
Inductive goerr : Type :=
  | ErrorString (msg : string)
  | Sentinel (msg : string)
  | StatusError (reason : string) (msg : string)
  | Wrap (prefix : string) (cause : goerr).

(** [err.Error()]: a wrapping error renders as ["prefix: cause"]. *)
Fixpoint Error (e : goerr) : string :=
  match e with
  | ErrorString m | Sentinel m | StatusError _ m => m
  | Wrap p c => p +:+ ": " +:+ Error c
  end.

(** [errors.Is(err, target)] for a sentinel target. *)
Fixpoint errorsIs (e : goerr) (target : string) : bool :=
  match e with
  | Sentinel m => bool_decide (m = target)
  | Wrap _ c => errorsIs c target
  | _ => false
  end.

(** The reason of the status error at the bottom of a chain, if any. *)
Fixpoint statusReason (e : goerr) : option string :=
  match e with
  | StatusError r _ => Some r
  | Wrap _ c => statusReason c
  | _ => None
  end.

(** A [(value, error)] pair of a Go function that returns a zero value
    whenever the error is not nil. *)
Inductive result (A : Type) : Type :=
  | Ok (a : A)
  | Err (e : goerr).
Arguments Ok {A} _.
Arguments Err {A} _.

Definition isOk {A} (r : result A) : bool :=
  match r with Ok _ => true | Err _ => false end.

(** [if err != nil { return ..., fmt.Errorf("prefix: %w", err) }] *)
Definition wrapErr {A} (prefix : string) (r : result A) : result A :=
  match r with Ok a => Ok a | Err e => Err (Wrap prefix e) end.

Notation "'let?' x ':=' c 'in' k" :=
  (match c with Ok x => k | Err e => Err e end)
  (at level 10, x pattern, c at level 100, k at level 200) : go_scope.

(** ** Namespaced names *)

Record NamespacedName : Type := NN { nn_namespace : string; nn_name : string }.

#[export] Instance NamespacedName_eq_dec : EqDecision NamespacedName.
Proof. solve_decision. Defined.

#[export] Instance goerr_eq_dec : EqDecision goerr.
Proof. solve_decision. Defined.

#[export] Instance result_eq_dec {A} `{EqDecision A} : EqDecision (result A).
Proof. solve_decision. Defined.

#[export] Program Instance NamespacedName_countable : Countable NamespacedName :=
  inj_countable' (fun n => (nn_namespace n, nn_name n)) (fun p => NN p.1 p.2) _.
Next Obligation. by intros []. Qed.

(** ** Tactics *)

(** Split every [if]/[match] scrutinee in the goal, one at a time. *)
Ltac case_go := repeat (case_match; simplify_eq/=).

(** Turn the boolean tests of the code into propositions. *)
Ltac bool_prop :=
  repeat match goal with
  | H : andb _ _ = true |- _ => apply andb_true_iff in H as [? ?]
  | H : orb _ _ = false |- _ => apply orb_false_iff in H as [? ?]
  | H : negb _ = true |- _ => apply negb_true_iff in H
  | H : negb _ = false |- _ => apply negb_false_iff in H
  | H : Z.leb _ _ = true |- _ => apply Z.leb_le in H
  | H : Z.leb _ _ = false |- _ => apply Z.leb_gt in H
  | H : Z.ltb _ _ = true |- _ => apply Z.ltb_lt in H
  | H : Z.ltb _ _ = false |- _ => apply Z.ltb_ge in H
  | H : Z.eqb _ _ = true |- _ => apply Z.eqb_eq in H
  | H : Z.eqb _ _ = false |- _ => apply Z.eqb_neq in H
  | H : bool_decide _ = true |- _ => apply bool_decide_eq_true_1 in H
  | H : bool_decide _ = false |- _ => apply bool_decide_eq_false_1 in H
  end.

(** ** Generic lemmas *)

Lemma statusReason_wrap p e : statusReason (Wrap p e) = statusReason e.
Proof. done. Qed.

Lemma wrapErr_Ok {A} p (r : result A) a : wrapErr p r = Ok a <-> r = Ok a.
Proof. destruct r; simpl; naive_solver. Qed.

Lemma isOk_true {A} (r : result A) : isOk r = true <-> exists a, r = Ok a.
Proof. destruct r; naive_solver. Qed.

#[export] Hint Rewrite @wrapErr_Ok : go_simpl.

Lemma string_app_nil_r (s : string) : s +:+ "" = s.
Proof. induction s; simpl; congruence. Qed.

Lemma string_app_assoc (a b c : string) : (a +:+ b) +:+ c = a +:+ (b +:+ c).
Proof. induction a; simpl; congruence. Qed.

Lemma string_app_nonempty_l (a b : string) : a <> "" -> a +:+ b <> "".
Proof. by destruct a. Qed.

Lemma list_find_first {A} (P : A -> Prop) `{forall x, Decision (P x)} l i x :
  list_find P l = Some (i, x) <->
  l !! i = Some x /\ P x /\ (forall j y, l !! j = Some y -> (j < i)%nat -> ~ P y).
Proof. apply list_find_Some. Qed.

(** A property that every step preserves holds in every reachable state. *)
Lemma rtc_invariant {A} (R : relation A) (P : A -> Prop) x y :
  (forall a b, R a b -> P a -> P b) -> rtc R x y -> P x -> P y.
Proof. intros Hstep. induction 1; eauto. Qed.

(** Filtering, seen through positions: which elements satisfy [P], and where. *)
Section filter_positions.
Context {A : Type} (P : A -> Prop) `{!forall x, Decision (P x)}.

Lemma filter_nil_positions l :
  filter P l = [] <-> forall i x, l !! i = Some x -> ~ P x.
Proof.
  rewrite <- Forall_lookup. induction l as [|y l IH]; [done|].
  rewrite filter_cons, Forall_cons. case_decide; naive_solver.
Qed.

Lemma filter_pos l : (0 < length (filter P l))%nat <-> Exists P l.
Proof.
  rewrite Exists_exists. split.
  - intros Hl. destruct (filter P l) as [|x fl] eqn:E; [simpl in Hl; lia|].
    assert (Hx : x ∈ filter P l) by (rewrite E; by constructor).
    apply list_elem_of_filter in Hx as [? ?]. by exists x.
  - intros (x & Hx & HP). destruct (filter P l) as [|y fl] eqn:E; [|simpl; lia].
    assert (Hf : x ∈ filter P l) by (by apply list_elem_of_filter). rewrite E in Hf.
    by apply elem_of_nil in Hf.
Qed.

Lemma filter_one_position l x :
  filter P l = [x] <->
  exists i, l !! i = Some x /\ P x /\ forall j y, l !! j = Some y -> P y -> j = i.
Proof.
  induction l as [|y l IH]; [split; [done|by intros ([] & ? & _)]|].
  rewrite filter_cons. case_decide as Hy.
  - split.
    + intros [= -> Hl]. exists 0%nat. split_and!; [done|done|].
      intros [|j] z Hz Pz; [done|]. by destruct (proj1 (filter_nil_positions l) Hl j z Hz).
    + intros (i & Hi & Px & Hu). pose proof (Hu 0%nat y eq_refl Hy). subst i.
      simplify_eq/=. f_equal. apply filter_nil_positions.
      intros i z Hz Pz. by pose proof (Hu (S i) z Hz Pz).
  - rewrite IH. split.
    + intros (i & Hi & Px & Hu). exists (S i). split_and!; [done|done|].
      intros [|j] z Hz Pz; simplify_eq/=; [done|]. f_equal. by eapply Hu.
    + intros ([|i] & Hi & Px & Hu); simplify_eq/=; [done|]. exists i. split_and!; [done|done|].
      intros j z Hz Pz. by injection (Hu (S j) z Hz Pz).
Qed.

Lemma filter_two_positions l :
  (2 <= length (filter P l))%nat <->
  exists i j x y, (i < j)%nat /\ l !! i = Some x /\ l !! j = Some y /\ P x /\ P y.
Proof.
  induction l as [|z l IH]; [simpl; split; [lia|by intros ([] & ? & ? & ? & ? & ? & _)]|].
  rewrite filter_cons. case_decide as Hz.
  - simpl. split.
    + intros Hl. destruct (filter P l) as [|w fl] eqn:E; [simpl in Hl; lia|].
      assert (Hw : w ∈ filter P l) by (rewrite E; by constructor).
      apply list_elem_of_filter in Hw as [Pw [i Hi]%list_elem_of_lookup].
      exists 0%nat, (S i), z, w. split_and!; [lia|done..].
    + intros (i & [|j] & x & y & Hij & _ & Hj & _ & Py); [lia|].
      destruct (filter P l) eqn:E; simpl; [|lia].
      by destruct (proj1 (filter_nil_positions l) E j y Hj).
  - rewrite IH. split.
    + intros (i & j & x & y & ?). exists (S i), (S j), x, y. split_and!; [lia|naive_solver..].
    + intros ([|i] & [|j] & x & y & Hij & Hi & Hj & ?); simplify_eq/=; try lia; [naive_solver|].
      exists i, j, x, y. split_and!; [lia|naive_solver..].
Qed.
End filter_positions.
