(* ===== verification/GoStd.v ===== *)
(** * The fragment of the Go language and standard library the operator uses

    Machine integers with their wrap-around, [float64] as IEEE 754 binary64,
    [strings.Cut], [strconv.ParseUint]/[Itoa]/[Quote], [net.SplitHostPort] and
    [net.JoinHostPort], the escaping of [net/url], [time.Duration], and Go
    maps whose nil value reads as empty. *)

From S2P Require Import Prelude.
From Stdlib Require Export Floats.SpecFloat.

(** ** Machine integers *)

Definition int32_range (z : Z) : Prop := -2^31 <= z < 2^31.
Definition int64_range (z : Z) : Prop := -2^63 <= z < 2^63.
Definition uint64_range (z : Z) : Prop := 0 <= z < 2^64.

Definition wrap_int64 (z : Z) : Z := (z + 2^63) mod 2^64 - 2^63.
Definition wrap_uint64 (z : Z) : Z := z mod 2^64.

(** ** [float64] *)

Abbreviation float64 := spec_float.

Definition float_of_Z (z : Z) : float64 := binary_normalize 53 1024 z 0 false.
Definition float_mul (a b : float64) : float64 := SFmul 53 1024 a b.
Definition float_add (a b : float64) : float64 := SFadd 53 1024 a b.
Definition float_div (a b : float64) : float64 := SFdiv 53 1024 a b.

(** Truncation toward zero of a finite value. *)
Definition float_trunc (f : float64) : option Z :=
  match f with
  | S754_zero _ => Some 0
  | S754_finite s m e => Some ((if s then -1 else 1) * Z.shiftl (Z.pos m) e)
  | S754_infinity _ | S754_nan => None
  end.

(** [int64(f)]: the Go specification leaves the result implementation
    dependent when the truncated value does not fit; [oob] is what the
    implementation produces then. *)
Definition int64_of_float (oob : float64 -> Z) (f : float64) : Z :=
  match float_trunc f with
  | Some z => if (-2^63 <=? z) && (z <? 2^63) then z else oob f
  | None => oob f
  end.

(** ** [time.Duration] (nanoseconds, int64) *)

Definition Second : Z := 1000000000.

(** [t.Sub(u)] saturates at the bounds of [Duration]. *)
Definition timeSub (t u : Z) : Z := Z.max (-2^63) (Z.min (2^63 - 1) (t - u)).

(** [d.Seconds()] *)
Definition durationSeconds (d : Z) : float64 :=
  float_add (float_of_Z (Z.quot d Second))
            (float_div (float_of_Z (Z.rem d Second)) (float_of_Z Second)).

(** ** Strings *)

Definition byteOf (a : ascii) : Z := Z.of_N (N_of_ascii a).
Definition asciiOf (z : Z) : ascii := ascii_of_N (Z.to_N z).

(** [strings.Cut(s, sep)] for a one-byte separator. *)
Fixpoint Cut (sep : ascii) (s : string) : option (string * string) :=
  match s with
  | EmptyString => None
  | String c s' =>
      if Ascii.eqb c sep then Some (EmptyString, s')
      else match Cut sep s' with
           | Some (b, a) => Some (String c b, a)
           | None => None
           end
  end.

(** [strings.Contains(s, string(c))] *)
Fixpoint ContainsByte (c : ascii) (s : string) : bool :=
  match s with
  | EmptyString => false
  | String x s' => Ascii.eqb x c || ContainsByte c s'
  end.

(** [strconv.Itoa] *)
Definition Itoa (z : Z) : string := pretty z.

(** One byte of [strconv.Quote]: exact on ASCII; the bytes of a multi-byte
    rune are copied, which is what Quote does for a printable rune. *)
Definition hexDigitLower (d : Z) : ascii :=
  asciiOf (if d <? 10 then 48 + d else 87 + d).

Definition quoteByte (a : ascii) : string :=
  let c := byteOf a in
  let bs x := String (asciiOf 92) (String (asciiOf x) EmptyString) in
  if c =? 34 then bs 34 else if c =? 92 then bs 92
  else if c =? 7 then bs 97 else if c =? 8 then bs 98
  else if c =? 12 then bs 102 else if c =? 10 then bs 110
  else if c =? 13 then bs 114 else if c =? 9 then bs 116
  else if c =? 11 then bs 118
  else if (c <? 32) || (c =? 127)
       then bs 120 +:+ String (hexDigitLower (c / 16))
                       (String (hexDigitLower (c mod 16)) EmptyString)
       else String a EmptyString.

Fixpoint quoteBody (s : string) : string :=
  match s with
  | EmptyString => EmptyString
  | String a s' => quoteByte a +:+ quoteBody s'
  end.

Definition dquote : string := String (asciiOf 34) EmptyString.

(** [fmt.Sprintf("%q", s)] *)
Definition Quote (s : string) : string := dquote +:+ quoteBody s +:+ dquote.

(** [strings.Join(l, sep)] *)
Fixpoint Join (l : list string) (sep : string) : string :=
  match l with
  | [] => ""
  | [x] => x
  | x :: l' => x +:+ sep +:+ Join l' sep
  end.

(** [fmt.Sprintf("%v", l)] of a slice of strings and of a bool *)
Definition fmtStrings (l : list string) : string := "[" +:+ Join l " " +:+ "]".
Definition fmtBool (b : bool) : string := if b then "true" else "false".

(** ** [strconv.ParseUint] *)

Inductive numError := ErrSyntax | ErrRange.

(** [lower(c)] is [c | 0x20]. *)
Definition digitVal (c : Z) : option Z :=
  if (48 <=? c) && (c <=? 57) then Some (c - 48)
  else let l := Z.lor c 32 in
       if (97 <=? l) && (l <=? 122) then Some (l - 97 + 10) else None.

Fixpoint parseUintLoop (base cutoff maxVal : Z) (s : string) (n : Z)
    : Z + numError :=
  match s with
  | EmptyString => inl n
  | String a s' =>
      match digitVal (byteOf a) with
      | None => inr ErrSyntax
      | Some d =>
          if base <=? d then inr ErrSyntax
          else if cutoff <=? n then inr ErrRange
          else let m := wrap_uint64 (n * base) in
               let n1 := wrap_uint64 (m + d) in
               if (n1 <? m) || (maxVal <? n1) then inr ErrRange
               else parseUintLoop base cutoff maxVal s' n1
      end
  end.

(** [strconv.ParseUint(s, base, bitSize)] for an explicit base in 2..36 and
    a bit size in 1..64. *)
Definition ParseUint (s : string) (base bitSize : Z) : Z + numError :=
  match s with
  | EmptyString => inr ErrSyntax
  | _ => parseUintLoop base ((2^64 - 1) / base + 1)
           (wrap_uint64 (Z.shiftl 1 bitSize - 1)) s 0
  end.

Definition numErrorErr (s : string) (e : numError) : goerr :=
  ErrorString ("strconv.ParseUint: parsing " +:+ Quote s +:+ ": " +:+
    match e with ErrSyntax => "invalid syntax" | ErrRange => "value out of range" end).

(** ** [net.SplitHostPort] and [net.JoinHostPort] *)

Fixpoint indexByte (c : ascii) (s : string) : option nat :=
  match s with
  | EmptyString => None
  | String x s' => if Ascii.eqb x c then Some 0%nat else S <$> indexByte c s'
  end.

Fixpoint lastIndexByte (c : ascii) (s : string) : option nat :=
  match s with
  | EmptyString => None
  | String x s' =>
      match lastIndexByte c s' with
      | Some i => Some (S i)
      | None => if Ascii.eqb x c then Some 0%nat else None
      end
  end.

Fixpoint takeStr (n : nat) (s : string) : string :=
  match n, s with
  | S n', String a s' => String a (takeStr n' s')
  | _, _ => EmptyString
  end.

Fixpoint dropStr (n : nat) (s : string) : string :=
  match n, s with
  | S n', String _ s' => dropStr n' s'
  | _, _ => s
  end.

#[global] Arguments takeStr : simpl nomatch.
#[global] Arguments dropStr : simpl nomatch.

Definition colon : ascii := asciiOf 58.
Definition lbrack : ascii := asciiOf 91.
Definition rbrack : ascii := asciiOf 93.
Definition slash : ascii := asciiOf 47.

(** [None] is any of the errors of SplitHostPort. *)
Definition SplitHostPort (hostport : string) : option (string * string) :=
  match lastIndexByte colon hostport with
  | None => None
  | Some i =>
      let finish host j k :=
        if ContainsByte lbrack (dropStr j hostport) then None
        else if ContainsByte rbrack (dropStr k hostport) then None
        else Some (host, dropStr (S i) hostport) in
      if bool_decide (String.get 0 hostport = Some lbrack) then
        match indexByte rbrack hostport with
        | None => None
        | Some e =>
            if bool_decide (S e = i)
            then finish (dropStr 1 (takeStr e hostport)) 1%nat (S e)
            else None
        end
      else
        let host := takeStr i hostport in
        if ContainsByte colon host then None else finish host 0%nat 0%nat
  end.

Definition JoinHostPort (host port : string) : string :=
  if ContainsByte colon host then "[" +:+ host +:+ "]:" +:+ port
  else host +:+ ":" +:+ port.

(** ** Escaping of [net/url] *)

Inductive encoding := encodePath | encodeHost | encodeUserPassword | encodeQueryComponent.

Definition memByte (a : ascii) (s : string) : bool := ContainsByte a s.

Definition isAlnum (a : ascii) : bool :=
  let c := byteOf a in
  ((97 <=? c) && (c <=? 122)) || ((65 <=? c) && (c <=? 90)) || ((48 <=? c) && (c <=? 57)).

Definition shouldEscape (a : ascii) (mode : encoding) : bool :=
  if isAlnum a then false
  else if (match mode with encodeHost => true | _ => false end)
          && memByte a ("!$&'()*+,;=:[]<>" +:+ dquote) then false
  else if memByte a "-_.~" then false
  else if memByte a "$&+,/:;=?@" then
    match mode with
    | encodePath => memByte a "?"
    | encodeUserPassword => memByte a "@/?:"
    | encodeQueryComponent => true
    | encodeHost => true
    end
  else true.

Definition hexDigitUpper (d : Z) : ascii :=
  asciiOf (if d <? 10 then 48 + d else 55 + d).

Definition escapeByte (mode : encoding) (a : ascii) : string :=
  if shouldEscape a mode then
    if (match mode with encodeQueryComponent => true | _ => false end)
       && (byteOf a =? 32) then "+"
    else String (asciiOf 37) (String (hexDigitUpper (byteOf a / 16))
           (String (hexDigitUpper (byteOf a mod 16)) EmptyString))
  else String a EmptyString.

Fixpoint escape (mode : encoding) (s : string) : string :=
  match s with
  | EmptyString => EmptyString
  | String a s' => escapeByte mode a +:+ escape mode s'
  end.

(** [(&url.URL{Scheme, User, Host, Path, RawQuery}).String()] for a URL with
    a scheme, a user with a password, no opaque part and no fragment. *)
Definition URLString (scheme user password host path rawQuery : string) : string :=
  let p := if bool_decide (path = "*") then "*" else escape encodePath path in
  scheme +:+ "://" +:+ escape encodeUserPassword user +:+ ":" +:+
  escape encodeUserPassword password +:+ "@" +:+ escape encodeHost host +:+
  (if bool_decide (p <> "" /\ String.get 0 p <> Some slash /\ host <> "")
   then "/" else "") +:+ p +:+
  (if bool_decide (rawQuery <> "") then "?" +:+ rawQuery else "").

(** ** Go maps *)

(** [m[k]] of a [map[string]string], nil or not: the zero value when absent. *)
Definition mapIndex (m : option (gmap string string)) (k : string) : string :=
  default "" (m ≫= fun m' => m' !! k).

(** [if m == nil { m = map[string]string{} }; m[k] = v] *)
Definition mapSet (m : option (gmap string string)) (k v : string)
    : option (gmap string string) :=
  Some (<[k := v]> (default ∅ m)).

Definition mapDelete (m : option (gmap string string)) (k : string)
    : option (gmap string string) :=
  delete k <$> m.

(** ** Facts about machine integers *)

Lemma wrap_uint64_id z : uint64_range z -> wrap_uint64 z = z.
Proof. apply Z.mod_small. Qed.

Lemma wrap_uint64_range z : uint64_range (wrap_uint64 z).
Proof. apply Z.mod_pos_bound. lia. Qed.

Lemma wrap_int64_id z : int64_range z -> wrap_int64 z = z.
Proof. unfold wrap_int64, int64_range. intros. rewrite Z.mod_small; lia. Qed.

Lemma wrap_int64_range z : int64_range (wrap_int64 z).
Proof.
  unfold wrap_int64, int64_range.
  pose proof (Z.mod_pos_bound (z + 2^63) (2^64)). lia.
Qed.

Lemma timeSub_range t u : int64_range (timeSub t u).
Proof. unfold timeSub, int64_range. lia. Qed.

Lemma timeSub_lt t u c : -2^63 < c < 2^63 -> timeSub t u < c <-> t - u < c.
Proof. unfold timeSub. lia. Qed.

#[export] Hint Resolve wrap_uint64_range wrap_int64_range timeSub_range : go.

(** ** Facts about bytes and strings *)

Lemma byteOf_range a : 0 <= byteOf a < 256.
Proof.
  unfold byteOf. split; [lia|].
  pose proof (N_ascii_bounded a). lia.
Qed.

Lemma byteOf_asciiOf z : 0 <= z < 256 -> byteOf (asciiOf z) = z.
Proof. intros. unfold byteOf, asciiOf. rewrite N_ascii_embedding; lia. Qed.

Lemma byteOf_inj a b : byteOf a = byteOf b -> a = b.
Proof.
  unfold byteOf. intros ?%N2Z.inj.
  rewrite <- (ascii_N_embedding a), <- (ascii_N_embedding b). by f_equal.
Qed.

(** [Cut] returns the pieces around the first separator. *)
Lemma Cut_app sep b a :
  ContainsByte sep b = false -> Cut sep (b +:+ String sep a) = Some (b, a).
Proof.
  induction b as [|x b IH]; simpl; intros Hb.
  - by rewrite Ascii.eqb_refl.
  - apply orb_false_iff in Hb as [-> Hb]. by rewrite IH.
Qed.

Lemma Cut_inv sep s b a :
  Cut sep s = Some (b, a) -> s = b +:+ String sep a /\ ContainsByte sep b = false.
Proof.
  revert b. induction s as [|c s IH]; intros b; simpl; [done|].
  destruct (Ascii.eqb c sep) eqn:Hc.
  - apply Ascii.eqb_eq in Hc as ->. by intros [= <- <-].
  - destruct (Cut sep s) as [[b' a']|]; [|done]. intros [= <- <-].
    destruct (IH b' eq_refl) as [-> Hb']. simpl. by rewrite Hc, Hb'.
Qed.

Lemma Cut_Some sep s b a :
  Cut sep s = Some (b, a) <-> s = b +:+ String sep a /\ ContainsByte sep b = false.
Proof. split; [apply Cut_inv|]. intros [-> ?]. by apply Cut_app. Qed.

Lemma Cut_None sep s : Cut sep s = None <-> ContainsByte sep s = false.
Proof.
  induction s as [|c s IH]; simpl; [done|].
  destruct (Ascii.eqb c sep); simpl; [done|].
  rewrite <- IH. by destruct (Cut sep s) as [[]|].
Qed.

Lemma takeStr_app a b : takeStr (String.length a) (a +:+ b) = a.
Proof. induction a; simpl; [by destruct b|]. by f_equal. Qed.

Lemma dropStr_app a b : dropStr (String.length a) (a +:+ b) = b.
Proof. by induction a. Qed.

(** ** [ParseUint] in base 16 *)

(** The value of a digit string, most significant digit first. *)
Fixpoint digitsValue (base : Z) (s : string) (n : Z) : option Z :=
  match s with
  | EmptyString => Some n
  | String a s' =>
      match digitVal (byteOf a) with
      | Some d => if base <=? d then None else digitsValue base s' (n * base + d)
      | None => None
      end
  end.

Lemma digitVal_nonneg c d : digitVal c = Some d -> 0 <= d.
Proof. unfold digitVal. intros H. repeat case_match; bool_prop; simplify_eq; lia. Qed.

Lemma digitsValue_ge base s n v :
  0 < base -> 0 <= n -> digitsValue base s n = Some v -> n <= v.
Proof.
  intros Hb. revert n. induction s as [|a s IH]; simpl; intros n Hn; [by intros [= ->]|].
  destruct (digitVal (byteOf a)) as [d|] eqn:Hd; [|done].
  apply digitVal_nonneg in Hd. case_match; [done|].
  intros Hv%IH; nia.
Qed.

(** The loop accepts exactly the digit strings whose value fits. *)
Lemma parseUintLoop_spec maxVal s n v :
  0 <= n <= maxVal -> maxVal < 2^64 ->
  parseUintLoop 16 (2^60) maxVal s n = inl v <->
  digitsValue 16 s n = Some v /\ v <= maxVal.
Proof.
  intros Hn Hm. revert n Hn. induction s as [|a s IH]; intros n Hn; cbn -[Z.pow].
  { naive_solver lia. }
  destruct (digitVal (byteOf a)) as [d|] eqn:Hd; [|naive_solver].
  apply digitVal_nonneg in Hd.
  destruct (Z.leb_spec 16 d); [naive_solver|].
  assert (Hgt : forall v, digitsValue 16 s (n * 16 + d) = Some v -> n * 16 + d <= v)
    by (intros; eapply digitsValue_ge; eauto; lia).
  destruct (Z.leb_spec (2^60) n).
  { split; [done|]. intros [Hv%Hgt ?]. lia. }
  assert (Hr : uint64_range (n * 16)) by (unfold uint64_range; lia).
  assert (Hr' : uint64_range (n * 16 + d)) by (unfold uint64_range; lia).
  rewrite (wrap_uint64_id _ Hr), (wrap_uint64_id _ Hr').
  destruct (Z.ltb_spec (n * 16 + d) (n * 16)); [lia|]. simpl.
  destruct (Z.ltb_spec maxVal (n * 16 + d)).
  { split; [done|]. intros [Hv%Hgt ?]. lia. }
  apply IH. lia.
Qed.

Lemma ParseUint_hex32 s v :
  ParseUint s 16 32 = inl v <->
  s <> "" /\ digitsValue 16 s 0 = Some v /\ v < 2^32.
Proof.
  destruct s as [|a s]; [naive_solver|].
  unfold ParseUint.
  change ((2^64 - 1) / 16 + 1) with (2^60).
  change (wrap_uint64 (Z.shiftl 1 32 - 1)) with (2^32 - 1).
  rewrite parseUintLoop_spec by lia. naive_solver lia.
Qed.
