(* ===== verification/Api.v ===== *)
(** * The API types of [api/v1alpha1] and the Kubernetes types they embed

    One Rocq record per Go struct, one definition per typed string constant.
    The typed strings ([FailoverMode], [PromotionPolicy], [RejoinPolicy],
    [SiteRole]) stay strings: the Go code compares them with [==], and an
    object may carry a value outside the enumeration (the empty string of a
    hand-built object, for instance). *)

From S2P Require Import Prelude GoStd.

(** ** Typed strings of hacluster_types.go *)

Definition FailoverModeAutomatic : string := "Automatic".
Definition FailoverModeManual : string := "Manual".
Definition PromotionPolicyMostAdvancedLSN : string := "MostAdvancedLSN".
Definition PromotionPolicyOrdered : string := "Ordered".
Definition RejoinPolicyManual : string := "Manual".
Definition RejoinPolicyAutoReplica : string := "AutoReplica".
Definition SiteRolePrimary : string := "Primary".
Definition SiteRoleReplica : string := "Replica".
Definition SiteRoleUnknown : string := "Unknown".

(** ** Kubernetes types *)

(** corev1.SecretKeySelector: the name of a Secret and a key inside it. *)
Record SecretKeySelector : Type := mkSelector { sel_Name : string; sel_Key : string }.

(** metav1.Condition; [LastTransitionTime] in nanoseconds. *)
Record Condition : Type := mkCondition {
  cond_Type : string;
  cond_Status : string;
  cond_ObservedGeneration : Z;
  cond_LastTransitionTime : Z;
  cond_Reason : string;
  cond_Message : string
}.

Definition ConditionTrue : string := "True".
Definition ConditionFalse : string := "False".

(** ** The spec *)

Record ClusterRef : Type := mkClusterRef { cr_Name : string; cr_Namespace : string }.

Record PostgresProbe : Type := mkPostgresProbe {
  pp_Endpoint : string;
  pp_Port : Z;                      (* int32 *)
  pp_Database : string;
  pp_SSLMode : string;
  pp_UserSecretRef : SecretKeySelector;
  pp_PasswordSecretRef : SecretKeySelector
}.

Record PrimarySite : Type := mkPrimarySite {
  ps_Name : string;
  ps_ClusterRef : ClusterRef;
  ps_ReplicationEndpoint : string;
  ps_PostgresProbe : option PostgresProbe
}.

Record ReplicaSite : Type := mkReplicaSite {
  rs_Name : string;
  rs_KubeconfigSecretRef : SecretKeySelector;
  rs_ClusterRef : ClusterRef;
  rs_ReplicationEndpoint : string;
  rs_PostgresProbe : option PostgresProbe
}.

(** The zero value [hav1alpha1.ReplicaSite{}]. *)
Definition zeroReplicaSite : ReplicaSite :=
  mkReplicaSite "" (mkSelector "" "") (mkClusterRef "" "") "" None.

Record FailoverSpec : Type := mkFailoverSpec {
  fs_Mode : string;
  fs_HealthCheckIntervalSeconds : Z;  (* int32 *)
  fs_FailureThreshold : Z;            (* int32 *)
  fs_PromotionPolicy : string;
  fs_RejoinPolicy : string
}.

Record HAClusterSpec : Type := mkSpec {
  spec_Primary : PrimarySite;
  spec_Replicas : list ReplicaSite;
  spec_Failover : FailoverSpec
}.

(** ** The status *)

Record SiteStatus : Type := mkSiteStatus {
  ss_Name : string;
  ss_Role : string;
  ss_Reachable : bool;
  ss_Ready : bool;
  ss_Phase : string;
  ss_Message : string;
  ss_LastObservedTime : option Z;
  ss_CurrentLSN : string;
  ss_ReplicationLagMilliseconds : option Z
}.

Record HAClusterStatus : Type := mkStatus {
  st_CurrentPrimarySite : string;
  st_LastFailoverTime : option Z;
  st_ObservedGeneration : Z;
  st_Sites : list SiteStatus;
  st_Conditions : list Condition
}.

(** ** The object: the metadata the operator reads, the spec and the status *)

Record HACluster : Type := mkHACluster {
  ha_Name : string;
  ha_Namespace : string;
  ha_Generation : Z;
  ha_ResourceVersion : string;
  ha_Annotations : option (gmap string string);
  ha_Spec : HAClusterSpec;
  ha_Status : HAClusterStatus
}.

(** Assignments to the fields of [ha.Status] through the pointer. *)
Definition setStatus (st : HAClusterStatus) (ha : HACluster) : HACluster :=
  mkHACluster (ha_Name ha) (ha_Namespace ha) (ha_Generation ha) (ha_ResourceVersion ha)
    (ha_Annotations ha) (ha_Spec ha) st.

Definition setAnnotations (a : option (gmap string string)) (ha : HACluster) : HACluster :=
  mkHACluster (ha_Name ha) (ha_Namespace ha) (ha_Generation ha) (ha_ResourceVersion ha)
    a (ha_Spec ha) (ha_Status ha).

Definition setCurrentPrimarySite (s : string) (ha : HACluster) : HACluster :=
  let st := ha_Status ha in
  setStatus (mkStatus s (st_LastFailoverTime st) (st_ObservedGeneration st)
               (st_Sites st) (st_Conditions st)) ha.

Definition setLastFailoverTime (t : option Z) (ha : HACluster) : HACluster :=
  let st := ha_Status ha in
  setStatus (mkStatus (st_CurrentPrimarySite st) t (st_ObservedGeneration st)
               (st_Sites st) (st_Conditions st)) ha.

Definition setObservedGeneration (g : Z) (ha : HACluster) : HACluster :=
  let st := ha_Status ha in
  setStatus (mkStatus (st_CurrentPrimarySite st) (st_LastFailoverTime st) g
               (st_Sites st) (st_Conditions st)) ha.

Definition setSites (l : list SiteStatus) (ha : HACluster) : HACluster :=
  let st := ha_Status ha in
  setStatus (mkStatus (st_CurrentPrimarySite st) (st_LastFailoverTime st)
               (st_ObservedGeneration st) l (st_Conditions st)) ha.

Definition setConditionList (l : list Condition) (ha : HACluster) : HACluster :=
  let st := ha_Status ha in
  setStatus (mkStatus (st_CurrentPrimarySite st) (st_LastFailoverTime st)
               (st_ObservedGeneration st) (st_Sites st) l) ha.

(** The site names of a spec, declared primary first. *)
Definition siteNames (ha : HACluster) : list string :=
  ps_Name (spec_Primary (ha_Spec ha)) :: (rs_Name <$> spec_Replicas (ha_Spec ha)).

(** What the CRD validation guarantees of a stored spec: int32 fields, and
    (list-map keys plus the documented uniqueness) distinct site names. *)
Definition specWellFormed (ha : HACluster) : Prop :=
  NoDup (siteNames ha) /\
  "" ∉ siteNames ha /\
  int32_range (fs_HealthCheckIntervalSeconds (spec_Failover (ha_Spec ha))) /\
  int32_range (fs_FailureThreshold (spec_Failover (ha_Spec ha))).

#[export] Instance SecretKeySelector_eq_dec : EqDecision SecretKeySelector.
Proof. solve_decision. Defined.

#[export] Instance ClusterRef_eq_dec : EqDecision ClusterRef.
Proof. solve_decision. Defined.

#[export] Instance Condition_eq_dec : EqDecision Condition.
Proof. solve_decision. Defined.

#[export] Instance PostgresProbe_eq_dec : EqDecision PostgresProbe.
Proof. solve_decision. Defined.

#[export] Instance ReplicaSite_eq_dec : EqDecision ReplicaSite.
Proof. solve_decision. Defined.

#[export] Instance PrimarySite_eq_dec : EqDecision PrimarySite.
Proof. solve_decision. Defined.

#[export] Instance FailoverSpec_eq_dec : EqDecision FailoverSpec.
Proof. solve_decision. Defined.

#[export] Instance HAClusterSpec_eq_dec : EqDecision HAClusterSpec.
Proof. solve_decision. Defined.
