(* ===== verification/External.v ===== *)
(** * What the operator uses of code outside this repository

    The Kubernetes client, the [unstructured] helpers of apimachinery, the
    condition helper, client-go's kubeconfig loader, pgx and the Prometheus
    client are parameters of the development: the operations are the fields
    of the class [Extern], over an abstract [World] that each call may change
    (so answers, errors and concurrent activity of the environment are
    unconstrained). What a theorem relies on of their documented behaviour is
    stated in separate law classes, which only the theorems that need them
    assume: [UnstructuredLaws], [ErrorLaws], [StoreLaws], [OtherCallsLaws],
    [StatusLaws], [PromLaws]. *)

From S2P Require Import Prelude GoStd Api.

(** ** JSON values: Go's [any] as the unstructured helpers see it *)

Inductive json : Type :=
  | JNull
  | JBool (b : bool)
  | JInt (z : Z)
  | JFloat (f : float64)
  | JString (s : string)
  | JArr (l : list json)
  | JObj (m : gmap string json).

(** The meaning of a nested field: following a path of keys. *)
Inductive nested : Type :=
  | NFound (v : json)
  | NMissing             (* a key on the way is absent *)
  | NNull                (* a null on the way *)
  | NNotMap.             (* another non-object value on the way *)

Fixpoint field_at (v : json) (p : list string) : nested :=
  match p with
  | [] => NFound v
  | f :: p' =>
      match v with
      | JObj m => match m !! f with Some v' => field_at v' p' | None => NMissing end
      | JNull => NNull
      | _ => NNotMap
      end
  end.

Definition paths_disjoint (p q : list string) : Prop :=
  ~ p `prefix_of` q /\ ~ q `prefix_of` p.

#[export] Instance paths_disjoint_dec p q : Decision (paths_disjoint p q).
Proof. unfold paths_disjoint. apply _. Defined.

Definition nestedString (n : nested) : string :=
  match n with NFound (JString s) => s | _ => "" end.

(** The key under which the API server stores an object. *)
Definition objKey (o : json) : NamespacedName :=
  NN (nestedString (field_at o ["metadata"; "namespace"]))
     (nestedString (field_at o ["metadata"; "name"])).

Definition annotationsPath : list string := ["metadata"; "annotations"].

(** ** Typed objects the operator reads or writes through the client *)

(** corev1.Service: the metadata the operator uses; [svc_rest] stands for the
    fields it reads and sends back untouched. *)
Record Service : Type := mkService {
  svc_Namespace : string;
  svc_Name : string;
  svc_Annotations : option (gmap string string);
  svc_rest : json
}.

(** corev1.Secret *)
Record Secret : Type := mkSecret {
  sec_ResourceVersion : string;
  sec_Data : option (gmap string string)
}.

(** A metric vector: its full name and its label names. *)
Record metricVec : Type := mkVec { mv_name : string; mv_labels : list string }.

#[export] Instance metricVec_eq_dec : EqDecision metricVec.
Proof. solve_decision. Defined.

(** ** The operations *)

Class Extern : Type := {
  World : Type;
  client : Type;
  restConfig : Type;
  pgConn : Type;
  registry : Type;

  (** the clock behind [time.Now] and [metav1.Now] *)
  timeNow : World -> Z * World;

  (** result of [int64(f)] when [f] does not fit (implementation dependent) *)
  int64_oob : float64 -> Z;

  (** k8s.io/apimachinery/pkg/apis/meta/v1/unstructured *)
  NestedBool : json -> list string -> bool * bool * option goerr;
  NestedString : json -> list string -> string * bool * option goerr;
  NestedInt64 : json -> list string -> Z * bool * option goerr;
  NestedSlice : json -> list string -> list json * bool * option goerr;
  SetNestedField : json -> json -> list string -> result json;
  SetNestedSlice : json -> list json -> list string -> result json;
  GetAnnotations : json -> option (gmap string string);
  SetAnnotations : json -> option (gmap string string) -> json;

  (** apierrors.IsNotFound, client.IgnoreNotFound, meta.SetStatusCondition *)
  IsNotFound : goerr -> bool;
  IgnoreNotFound : goerr -> option goerr;
  SetStatusCondition : list Condition -> Condition -> list Condition;

  (** controller-runtime client.Client, at the types the operator uses;
      Patch and Status().Update return the object as decoded from the
      server's answer *)
  clientGetCluster : client -> NamespacedName -> World -> result json * World;
  clientUpdateCluster : client -> json -> World -> result unit * World;
  clientGetService : client -> NamespacedName -> World -> result Service * World;
  clientUpdateService : client -> Service -> World -> result unit * World;
  clientGetSecret : client -> NamespacedName -> World -> result Secret * World;
  clientGetHA : client -> NamespacedName -> World -> result HACluster * World;
  clientPatchHA : client -> HACluster -> string -> World -> result HACluster * World;
  clientStatusUpdate : client -> HACluster -> World -> result HACluster * World;

  (** clientcmd.RESTConfigFromKubeConfig and client.New *)
  RESTConfigFromKubeConfig : string -> result restConfig;
  clientNew : restConfig -> World -> result client * World;

  (** pgx: Connect, QueryRow(...).Scan(&bool, &string, &NullFloat64), Close *)
  pgConnect : string -> World -> result pgConn * World;
  pgQueryRowScan : pgConn -> string -> World ->
    result (bool * string * option float64) * World;
  pgClose : pgConn -> World -> World;

  (** prometheus vectors: WithLabelValues(...).Set / DeleteLabelValues /
      DeletePartialMatch / Inc / Observe *)
  gaugeSet : registry -> metricVec -> list string -> float64 -> registry;
  gaugeDelete : registry -> metricVec -> list string -> registry;
  gaugeDeletePartial : registry -> metricVec -> list (string * string) -> registry;
  counterInc : registry -> metricVec -> list string -> registry;
  histogramObserve : registry -> metricVec -> list string -> float64 -> registry
}.

(** ** Documented behaviour of the unstructured helpers *)

(** "NestedX returns the X value of a nested field. Returns false if the
    value is not found and an error if it is not an X" (or if a value on the
    way is not an object). *)
Definition nested_accessor {A} (get : json -> option A) (zero : A)
    (n : nested) (r : A * bool * option goerr) : Prop :=
  match n with
  | NFound v =>
      match get v with
      | Some a => r = (a, true, None)
      | None => exists e, r = (zero, false, Some e)
      end
  | NMissing | NNull => r = (zero, false, None)
  | NNotMap => exists e, r = (zero, false, Some e)
  end.

Definition asBool (v : json) : option bool := match v with JBool b => Some b | _ => None end.
Definition asString (v : json) : option string := match v with JString s => Some s | _ => None end.
Definition asInt (v : json) : option Z := match v with JInt z => Some z | _ => None end.
Definition asArr (v : json) : option (list json) := match v with JArr l => Some l | _ => None end.

(** "SetNestedField sets the value of a nested field to a deep copy of the
    value provided. Returns an error if value cannot be set because one of
    the nesting levels is not a map." *)
Definition set_accessor (o v : json) (p : list string) (r : result json) : Prop :=
  match field_at o p with
  | NFound _ | NMissing =>
      exists o', r = Ok o' /\ field_at o' p = NFound v /\
        forall q, paths_disjoint p q -> field_at o' q = field_at o q
  | NNull | NNotMap => exists e, r = Err e
  end.

(** The metadata of an object read from an API server is an object. *)
Definition metadataOk (o : json) : Prop :=
  exists m, field_at o ["metadata"] = NFound (JObj m).

Class UnstructuredLaws `{Extern} : Prop := {
  NestedBool_law o p : nested_accessor asBool false (field_at o p) (NestedBool o p);
  NestedString_law o p : nested_accessor asString "" (field_at o p) (NestedString o p);
  NestedInt64_law o p : nested_accessor asInt 0 (field_at o p) (NestedInt64 o p);
  NestedSlice_law o p : nested_accessor asArr [] (field_at o p) (NestedSlice o p);
  SetNestedField_law o v p : p <> [] -> set_accessor o v p (SetNestedField o v p);
  SetNestedSlice_law o l p : p <> [] -> set_accessor o (JArr l) p (SetNestedSlice o l p);
  (** annotations live under metadata.annotations *)
  GetAnnotations_ext o o' :
    field_at o annotationsPath = field_at o' annotationsPath ->
    GetAnnotations o = GetAnnotations o';
  GetSetAnnotations o m :
    metadataOk o -> GetAnnotations (SetAnnotations o (Some m)) = Some m;
  SetAnnotations_frame o a q :
    paths_disjoint annotationsPath q ->
    field_at (SetAnnotations o a) q = field_at o q;
  SetAnnotations_metadata o a : metadataOk o -> metadataOk (SetAnnotations o a)
}.

(** Documented behaviour of the error predicates: they look through wrapped
    errors for a status error with reason NotFound. *)
Class ErrorLaws `{Extern} : Prop := {
  IsNotFound_law e : IsNotFound e = true <-> statusReason e = Some "NotFound";
  IgnoreNotFound_law e : IgnoreNotFound e = if IsNotFound e then None else Some e
}.

(** meta.SetStatusCondition: replaces the condition of the same type or
    appends it; the transition time is kept while the status is unchanged. *)
Fixpoint findCondition (t : string) (l : list Condition) : option Condition :=
  match l with
  | [] => None
  | c :: l' => if decide (cond_Type c = t) then Some c else findCondition t l'
  end.

Class StatusLaws `{Extern} : Prop := {
  SetStatusCondition_same l c :
    exists c', findCondition (cond_Type c) (SetStatusCondition l c) = Some c' /\
      cond_Status c' = cond_Status c /\ cond_Reason c' = cond_Reason c /\
      cond_Message c' = cond_Message c /\
      cond_ObservedGeneration c' = cond_ObservedGeneration c;
  SetStatusCondition_other l c t :
    t <> cond_Type c ->
    findCondition t (SetStatusCondition l c) = findCondition t l;
  SetStatusCondition_types l c :
    cond_Type <$> SetStatusCondition l c =
    if decide (cond_Type c ∈ cond_Type <$> l) then cond_Type <$> l
    else (cond_Type <$> l) ++ [cond_Type c];
  SetStatusCondition_elements l c x :
    x ∈ SetStatusCondition l c -> x ∈ l \/
    (cond_Type x = cond_Type c /\ cond_Status x = cond_Status c /\
     cond_Reason x = cond_Reason c /\ cond_Message x = cond_Message c /\
     cond_ObservedGeneration x = cond_ObservedGeneration c)
}.

(** ** The store behind the clients

    [serverOf] says which API server a client talks to (two clients built
    from two versions of a kubeconfig may reach the same one); the [_At]
    functions are the objects stored there. *)
Class Store `{Extern} : Type := {
  Server : Type;
  Server_eq_dec :: EqDecision Server;
  serverOf : client -> Server;
  clusterAt : World -> Server -> NamespacedName -> option json;
  serviceAt : World -> Server -> NamespacedName -> option Service;
  secretAt : World -> Server -> NamespacedName -> option Secret;
  haAt : World -> Server -> NamespacedName -> option HACluster
}.

Record sameStore `{Store} (w w' : World) : Prop := {
  same_cluster s k : clusterAt w' s k = clusterAt w s k;
  same_service s k : serviceAt w' s k = serviceAt w s k;
  same_secret s k : secretAt w' s k = secretAt w s k;
  same_ha s k : haAt w' s k = haAt w s k
}.

(** What the main endpoint of an API server persists of an update: key,
    annotations and spec. Status and server-managed metadata may differ. *)
Record sameDesired (o o' : json) : Prop := {
  sd_key : objKey o = objKey o';
  sd_annotations : field_at o annotationsPath = field_at o' annotationsPath;
  sd_spec p : field_at o ("spec" :: p) = field_at o' ("spec" :: p)
}.

Record sameDesiredService (a b : Service) : Prop := {
  sds_key : NN (svc_Namespace a) (svc_Name a) = NN (svc_Namespace b) (svc_Name b);
  sds_annotations : svc_Annotations a = svc_Annotations b
}.

Definition svcKey (s : Service) : NamespacedName := NN (svc_Namespace s) (svc_Name s).
Definition haKey (ha : HACluster) : NamespacedName := NN (ha_Namespace ha) (ha_Name ha).

(** An optimistic write: on success the new value is stored up to [same]; on
    an error it may or may not have been applied (a lost answer), but NotFound
    means that there is no such object. *)
Definition writes_object {A} (same : A -> A -> Prop) (new : A) (old stored : option A)
    (r : result unit) : Prop :=
  match r with
  | Ok _ => exists x, stored = Some x /\ same new x
  | Err e =>
      (stored = old \/ exists x, stored = Some x /\ same new x) /\
      (statusReason e = Some "NotFound" -> stored = None)
  end.

(** Reads are consistent with the store and do not change it; a write touches
    the addressed object and nothing else. "NotFound" means absent; any other
    error says nothing about the object. *)
Class StoreLaws `{Store} : Prop := {
  timeNow_store w : sameStore w (timeNow w).2;
  getCluster_law c k w r w' :
    clientGetCluster c k w = (r, w') ->
    sameStore w w' /\
    match r with
    | Ok u => clusterAt w (serverOf c) k = Some u /\ objKey u = k /\ metadataOk u
    | Err e => statusReason e = Some "NotFound" -> clusterAt w (serverOf c) k = None
    end;
  getService_law c k w r w' :
    clientGetService c k w = (r, w') ->
    sameStore w w' /\
    match r with
    | Ok s => serviceAt w (serverOf c) k = Some s /\ svcKey s = k
    | Err e => statusReason e = Some "NotFound" -> serviceAt w (serverOf c) k = None
    end;
  getSecret_law c k w r w' :
    clientGetSecret c k w = (r, w') ->
    sameStore w w' /\
    match r with
    | Ok s => secretAt w (serverOf c) k = Some s
    | Err e => statusReason e = Some "NotFound" -> secretAt w (serverOf c) k = None
    end;
  updateCluster_law c u w r w' :
    clientUpdateCluster c u w = (r, w') ->
    writes_object sameDesired u (clusterAt w (serverOf c) (objKey u))
      (clusterAt w' (serverOf c) (objKey u)) r /\
    (forall s k, (s, k) <> (serverOf c, objKey u) -> clusterAt w' s k = clusterAt w s k) /\
    (forall s k, serviceAt w' s k = serviceAt w s k) /\
    (forall s k, secretAt w' s k = secretAt w s k) /\
    (forall s k, haAt w' s k = haAt w s k);
  updateService_law c u w r w' :
    clientUpdateService c u w = (r, w') ->
    writes_object sameDesiredService u (serviceAt w (serverOf c) (svcKey u))
      (serviceAt w' (serverOf c) (svcKey u)) r /\
    (forall s k, (s, k) <> (serverOf c, svcKey u) -> serviceAt w' s k = serviceAt w s k) /\
    (forall s k, clusterAt w' s k = clusterAt w s k) /\
    (forall s k, secretAt w' s k = secretAt w s k) /\
    (forall s k, haAt w' s k = haAt w s k);
  clientNew_store cfg w : sameStore w (clientNew cfg w).2
}.

(** A call about another object, or to PostgreSQL, leaves the Clusters alone. *)
Class OtherCallsLaws `{Store} : Prop := {
  getHA_clusters c k w s j : clusterAt (clientGetHA c k w).2 s j = clusterAt w s j;
  patchHA_clusters c ha body w s j : clusterAt (clientPatchHA c ha body w).2 s j = clusterAt w s j;
  statusUpdate_clusters c ha w s j : clusterAt (clientStatusUpdate c ha w).2 s j = clusterAt w s j;
  pgConnect_clusters dsn w s j : clusterAt (pgConnect dsn w).2 s j = clusterAt w s j;
  pgQuery_clusters c q w s j : clusterAt (pgQueryRowScan c q w).2 s j = clusterAt w s j;
  pgClose_clusters c w s j : clusterAt (pgClose c w) s j = clusterAt w s j
}.

(** ** The registry behind the Prometheus vectors *)
Class PromModel `{Extern} : Type := {
  gaugeRead : registry -> metricVec -> list string -> option float64;
  counterRead : registry -> metricVec -> list string -> Z;
  histogramRead : registry -> metricVec -> list string -> list float64   (* newest first *)
}.

(** DeletePartialMatch deletes the series that carry all the given pairs. *)
Definition labelsMatch (names ls : list string) (partial : list (string * string)) : bool :=
  forallb (fun p => bool_decide (p ∈ zip names ls)) partial.

Class PromLaws `{PromModel} : Prop := {
  gaugeRead_set reg v ls x v' ls' :
    gaugeRead (gaugeSet reg v ls x) v' ls' =
    if decide ((v, ls) = (v', ls')) then Some x else gaugeRead reg v' ls';
  gaugeRead_delete reg v ls v' ls' :
    gaugeRead (gaugeDelete reg v ls) v' ls' =
    if decide ((v, ls) = (v', ls')) then None else gaugeRead reg v' ls';
  gaugeRead_deletePartial reg v partial v' ls' :
    gaugeRead (gaugeDeletePartial reg v partial) v' ls' =
    if decide (v = v') then
      if labelsMatch (mv_labels v) ls' partial then None else gaugeRead reg v' ls'
    else gaugeRead reg v' ls';
  gaugeRead_inc reg v ls v' ls' :
    gaugeRead (counterInc reg v ls) v' ls' = gaugeRead reg v' ls';
  gaugeRead_observe reg v ls x v' ls' :
    gaugeRead (histogramObserve reg v ls x) v' ls' = gaugeRead reg v' ls';
  counterRead_inc reg v ls v' ls' :
    counterRead (counterInc reg v ls) v' ls' =
    if decide ((v, ls) = (v', ls')) then counterRead reg v ls + 1 else counterRead reg v' ls';
  counterRead_set reg v ls x v' ls' :
    counterRead (gaugeSet reg v ls x) v' ls' = counterRead reg v' ls';
  counterRead_observe reg v ls x v' ls' :
    counterRead (histogramObserve reg v ls x) v' ls' = counterRead reg v' ls';
  counterRead_delete reg v ls v' ls' :
    counterRead (gaugeDelete reg v ls) v' ls' = counterRead reg v' ls';
  counterRead_deletePartial reg v partial v' ls' :
    counterRead (gaugeDeletePartial reg v partial) v' ls' = counterRead reg v' ls';
  histogramRead_observe reg v ls x v' ls' :
    histogramRead (histogramObserve reg v ls x) v' ls' =
    if decide ((v, ls) = (v', ls')) then x :: histogramRead reg v ls else histogramRead reg v' ls';
  histogramRead_set reg v ls x v' ls' :
    histogramRead (gaugeSet reg v ls x) v' ls' = histogramRead reg v' ls';
  histogramRead_inc reg v ls v' ls' :
    histogramRead (counterInc reg v ls) v' ls' = histogramRead reg v' ls';
  histogramRead_delete reg v ls v' ls' :
    histogramRead (gaugeDelete reg v ls) v' ls' = histogramRead reg v' ls';
  histogramRead_deletePartial reg v partial v' ls' :
    histogramRead (gaugeDeletePartial reg v partial) v' ls' = histogramRead reg v' ls'
}.

(** ** Consequences used by the components *)

#[export] Instance sameDesired_equivalence : Equivalence sameDesired.
Proof.
  split.
  - by intros o.
  - intros o o' []. by split.
  - intros a b c [] []. split; intros; etrans; eauto.
Qed.

#[export] Instance sameStore_preorder `{Store} : PreOrder sameStore.
Proof.
  split.
  - by intros w.
  - intros a b c [] []. split; intros; etrans; eauto.
Qed.

Section unstructured_facts.
Context `{UnstructuredLaws}.

#[export] Instance GetAnnotations_proper : Proper (sameDesired ==> eq) GetAnnotations.
Proof. intros o o' [_ Ha _]. by apply GetAnnotations_ext. Qed.

Lemma nested_accessor_det {A} (get : json -> option A) zero n r r' :
  nested_accessor get zero n r -> nested_accessor get zero n r' ->
  r.1 = r'.1.
Proof.
  destruct n as [v| | |]; simpl; [destruct (get v)|..]; intros Hr Hr';
    repeat match goal with E : exists _, _ |- _ => destruct E end; by subst.
Qed.

Lemma NestedBool_spec_proper o o' p :
  sameDesired o o' -> (NestedBool o ("spec" :: p)).1 = (NestedBool o' ("spec" :: p)).1.
Proof.
  intros [_ _ Hs]. eapply nested_accessor_det; [apply NestedBool_law|].
  rewrite Hs. apply NestedBool_law.
Qed.

(** Reading back a field that was just set, and fields off its path. *)
Lemma set_accessor_Ok o v p o' :
  set_accessor o v p (Ok o') ->
  field_at o' p = NFound v /\ forall q, paths_disjoint p q -> field_at o' q = field_at o q.
Proof.
  unfold set_accessor. destruct (field_at o p).
  1,2: by intros (o1 & [= <-] & ? & ?).
  all: by intros [? ?].
Qed.

Lemma SetNestedField_Ok o v p o' :
  p <> [] -> SetNestedField o v p = Ok o' ->
  field_at o' p = NFound v /\ forall q, paths_disjoint p q -> field_at o' q = field_at o q.
Proof.
  intros Hp Ho. pose proof (SetNestedField_law o v p Hp) as L.
  rewrite Ho in L. by apply set_accessor_Ok in L.
Qed.

Lemma SetNestedSlice_Ok o l p o' :
  p <> [] -> SetNestedSlice o l p = Ok o' ->
  field_at o' p = NFound (JArr l) /\
  forall q, paths_disjoint p q -> field_at o' q = field_at o q.
Proof.
  intros Hp Ho. pose proof (SetNestedSlice_law o l p Hp) as L.
  rewrite Ho in L. by apply set_accessor_Ok in L.
Qed.

Lemma NestedBool_found o p b :
  field_at o p = NFound (JBool b) -> NestedBool o p = (b, true, None).
Proof. intros E. pose proof (NestedBool_law o p) as L. by rewrite E in L. Qed.

Lemma NestedBool_inv o p b :
  (NestedBool o p).1 = (b, true) -> field_at o p = NFound (JBool b).
Proof.
  pose proof (NestedBool_law o p) as L. unfold nested_accessor in L.
  destruct (field_at o p) as [v| | |]; [destruct v|..]; simpl in L; intros Hb;
    try match type of L with ex _ => destruct L as [e L] end;
    rewrite L in Hb; by simplify_eq/=.
Qed.
End unstructured_facts.
