(* ===== verification/FakeKube.v ===== *)
(** * An in-memory environment

    A concrete instance of [Extern] in the manner of the fake clients the
    repository's tests use: API servers named by strings hold clusters,
    services and secrets in finite maps, a set of servers can be down, a
    pending concurrent edit of the HACluster spec can be armed, and the clock
    is a field. The instance discharges every law class of [External], which
    shows that the laws can hold together, and the witnesses of the theorems
    that assume them evaluate on it. *)

From S2P Require Import Prelude GoStd Api External.

(** ** JSON paths *)

Definition mkPath (p : list string) (x : json) : json :=
  foldr (fun f acc => JObj {[f := acc]}) x p.

Fixpoint setAt (v : json) (p : list string) (x : json) : result json :=
  match p with
  | [] => Ok x
  | f :: p' =>
      match v with
      | JObj m =>
          match m !! f with
          | Some v' =>
              match setAt v' p' x with
              | Ok v2 => Ok (JObj (<[f := v2]> m))
              | Err e => Err e
              end
          | None => Ok (JObj (<[f := mkPath p' x]> m))
          end
      | _ => Err (ErrorString "value cannot be set because a level is not a map")
      end
  end.

Definition fakeNested {A} (get : json -> option A) (zero : A) (o : json) (p : list string)
    : A * bool * option goerr :=
  match field_at o p with
  | NFound v =>
      match get v with
      | Some a => (a, true, None)
      | None => (zero, false, Some (ErrorString "accessor error: unexpected type"))
      end
  | NMissing | NNull => (zero, false, None)
  | NNotMap => (zero, false, Some (ErrorString "accessor error: not a map"))
  end.

Definition fakeGetAnnotations (o : json) : option (gmap string string) :=
  match field_at o annotationsPath with
  | NFound (JObj m) =>
      let m' : gmap string string := omap asString m in
      if bool_decide (size m' = size m) then Some m' else None
  | _ => None
  end.

Definition fakeSetAnnotations (o : json) (a : option (gmap string string)) : json :=
  match a with
  | Some m =>
      match setAt o annotationsPath (JObj (JString <$> m)) with
      | Ok o' => o'
      | Err _ => o
      end
  | None =>
      match o with
      | JObj m =>
          match m !! "metadata" with
          | Some (JObj md) => JObj (<["metadata" := JObj (delete "annotations" md)]> m)
          | _ => o
          end
      | _ => o
      end
  end.

(** ** The world *)

Record fakeWorld : Type := mkFake {
  fw_clusters : gmap (string * NamespacedName) json;
  fw_services : gmap (string * NamespacedName) Service;
  fw_secrets : gmap (string * NamespacedName) Secret;
  fw_ha : gmap (string * NamespacedName) HACluster;
  fw_now : Z;
  fw_down : list string;
  fw_pendingSpec : option HAClusterSpec;
  fw_pg : gmap string (bool * string * option float64)
}.

Definition notFound : goerr := StatusError "NotFound" "not found".
Definition unavailable : goerr := StatusError "ServiceUnavailable" "connection refused".

Definition fakeGet {A} (sel : fakeWorld -> gmap (string * NamespacedName) A)
    (c : string) (k : NamespacedName) (w : fakeWorld) : result A * fakeWorld :=
  (if bool_decide (c ∈ fw_down w) then Err unavailable
   else match sel w !! (c, k) with Some x => Ok x | None => Err notFound end, w).

Definition undecodable : goerr := ErrorString "undecodable object".

(** The objects of the cluster map are keyed by their own metadata. *)
Definition fakeGetCluster (c : string) (k : NamespacedName) (w : fakeWorld)
    : result json * fakeWorld :=
  match fakeGet fw_clusters c k w with
  | (Ok u, w') =>
      (match field_at u ["metadata"] with
       | NFound (JObj _) => if bool_decide (objKey u = k) then Ok u else Err undecodable
       | _ => Err undecodable
       end, w')
  | r => r
  end.

Definition fakeGetService (c : string) (k : NamespacedName) (w : fakeWorld)
    : result Service * fakeWorld :=
  match fakeGet fw_services c k w with
  | (Ok s, w') => (if bool_decide (svcKey s = k) then Ok s else Err undecodable, w')
  | r => r
  end.

Definition setClusters (m : gmap (string * NamespacedName) json) (w : fakeWorld) : fakeWorld :=
  mkFake m (fw_services w) (fw_secrets w) (fw_ha w) (fw_now w) (fw_down w)
    (fw_pendingSpec w) (fw_pg w).

Definition setServices (m : gmap (string * NamespacedName) Service) (w : fakeWorld) : fakeWorld :=
  mkFake (fw_clusters w) m (fw_secrets w) (fw_ha w) (fw_now w) (fw_down w)
    (fw_pendingSpec w) (fw_pg w).

Definition setHA (m : gmap (string * NamespacedName) HACluster) (p : option HAClusterSpec)
    (w : fakeWorld) : fakeWorld :=
  mkFake (fw_clusters w) (fw_services w) (fw_secrets w) m (fw_now w) (fw_down w) p (fw_pg w).

Definition fakeUpdateCluster (c : string) (u : json) (w : fakeWorld)
    : result unit * fakeWorld :=
  if bool_decide (c ∈ fw_down w) then (Err unavailable, w)
  else match fw_clusters w !! (c, objKey u) with
       | Some _ => (Ok tt, setClusters (<[(c, objKey u) := u]> (fw_clusters w)) w)
       | None => (Err notFound, w)
       end.

Definition fakeUpdateService (c : string) (s : Service) (w : fakeWorld)
    : result unit * fakeWorld :=
  if bool_decide (c ∈ fw_down w) then (Err unavailable, w)
  else match fw_services w !! (c, svcKey s) with
       | Some _ => (Ok tt, setServices (<[(c, svcKey s) := s]> (fw_services w)) w)
       | None => (Err notFound, w)
       end.

(** The JSON merge patch that removes one annotation. *)
Definition removalPatch (key : string) : string :=
  "{" +:+ dquote +:+ "metadata" +:+ dquote +:+ ":{" +:+ dquote +:+ "annotations" +:+ dquote
  +:+ ":{" +:+ dquote +:+ key +:+ dquote +:+ ":null}}}".

(** A merge patch needs no resourceVersion: it applies to the stored object,
    including any edit made since the caller read it. *)
Definition fakePatchHA (edits : bool) (c : string) (ha : HACluster) (body : string) (w : fakeWorld)
    : result HACluster * fakeWorld :=
  if bool_decide (c ∈ fw_down w) then (Err unavailable, w)
  else match fw_ha w !! (c, haKey ha) with
       | Some h =>
           let h' := mkHACluster (ha_Name h) (ha_Namespace h) (ha_Generation h)
             (ha_ResourceVersion h)
             (filter (fun kv => removalPatch kv.1 <> body) <$> ha_Annotations h)
             (if edits then default (ha_Spec h) (fw_pendingSpec w) else ha_Spec ha) (ha_Status h) in
           (Ok h', setHA (<[(c, haKey ha) := h']> (fw_ha w)) None w)
       | None => (Err notFound, w)
       end.

Lemma fakePatchHA_calm c ha body w ha' :
  (fakePatchHA false c ha body w).1 = Ok ha' -> ha_Spec ha' = ha_Spec ha.
Proof.
  unfold fakePatchHA. case_bool_decide; [done|].
  destruct (fw_ha w !! (c, haKey ha)); [|done]. simpl. by intros [= <-].
Qed.

Definition fakeStatusUpdate (c : string) (ha : HACluster) (w : fakeWorld)
    : result HACluster * fakeWorld :=
  if bool_decide (c ∈ fw_down w) then (Err unavailable, w)
  else match fw_ha w !! (c, haKey ha) with
       | Some h =>
           let h' := setStatus (ha_Status ha) h in
           (Ok h', setHA (<[(c, haKey ha) := h']> (fw_ha w)) (fw_pendingSpec w) w)
       | None => (Err notFound, w)
       end.

Fixpoint fakeSetStatusCondition (l : list Condition) (c : Condition) : list Condition :=
  match l with
  | [] => [c]
  | old :: l' =>
      if decide (cond_Type old = cond_Type c) then
        mkCondition (cond_Type c) (cond_Status c) (cond_ObservedGeneration c)
          (if decide (cond_Status old = cond_Status c)
           then cond_LastTransitionTime old else cond_LastTransitionTime c)
          (cond_Reason c) (cond_Message c) :: l'
      else old :: fakeSetStatusCondition l' c
  end.

(** ** The registry *)

Record fakeRegistry : Type := mkRegistry {
  fr_gauges : gmap (string * list string * list string) float64;
  fr_counters : gmap (string * list string * list string) Z;
  fr_observations : list (metricVec * list string * float64)
}.

Definition seriesKey (v : metricVec) (ls : list string) : string * list string * list string :=
  (mv_name v, mv_labels v, ls).

Definition matchesSeries (v : metricVec) (partial : list (string * string))
    (k : string * list string * list string) : bool :=
  bool_decide (k.1 = (mv_name v, mv_labels v)) && labelsMatch (mv_labels v) k.2 partial.

(** With [edits] the armed edit of the spec takes place at the next patch;
    without it the caller gets the spec it sent. *)
Definition fakeExternOf (edits : bool) : Extern := {|
  World := fakeWorld;
  client := string;
  restConfig := string;
  pgConn := string;
  registry := fakeRegistry;
  timeNow w := (fw_now w, w);
  int64_oob _ := -2^63;
  NestedBool := fakeNested asBool false;
  NestedString := fakeNested asString "";
  NestedInt64 := fakeNested asInt 0;
  NestedSlice := fakeNested asArr [];
  SetNestedField o v p := setAt o p v;
  SetNestedSlice o l p := setAt o p (JArr l);
  GetAnnotations := fakeGetAnnotations;
  SetAnnotations := fakeSetAnnotations;
  IsNotFound e := bool_decide (statusReason e = Some "NotFound");
  IgnoreNotFound e := if bool_decide (statusReason e = Some "NotFound") then None else Some e;
  SetStatusCondition := fakeSetStatusCondition;
  clientGetCluster := fakeGetCluster;
  clientUpdateCluster := fakeUpdateCluster;
  clientGetService := fakeGetService;
  clientUpdateService := fakeUpdateService;
  clientGetSecret := fakeGet fw_secrets;
  clientGetHA := fakeGet fw_ha;
  clientPatchHA := fakePatchHA edits;
  clientStatusUpdate := fakeStatusUpdate;
  RESTConfigFromKubeConfig s :=
    if bool_decide (s = "garbage") then Err (ErrorString "invalid kubeconfig") else Ok s;
  clientNew cfg w := (Ok cfg, w);
  pgConnect dsn w :=
    (match fw_pg w !! dsn with Some _ => Ok dsn | None => Err unavailable end, w);
  pgQueryRowScan c _ w :=
    (match fw_pg w !! c with Some r => Ok r | None => Err unavailable end, w);
  pgClose _ w := w;
  gaugeSet reg v ls x :=
    mkRegistry (<[seriesKey v ls := x]> (fr_gauges reg)) (fr_counters reg) (fr_observations reg);
  gaugeDelete reg v ls :=
    mkRegistry (delete (seriesKey v ls) (fr_gauges reg)) (fr_counters reg) (fr_observations reg);
  gaugeDeletePartial reg v partial :=
    mkRegistry (filter (fun kv => matchesSeries v partial kv.1 = false) (fr_gauges reg))
      (fr_counters reg) (fr_observations reg);
  counterInc reg v ls :=
    mkRegistry (fr_gauges reg)
      (<[seriesKey v ls := default 0 (fr_counters reg !! seriesKey v ls) + 1]> (fr_counters reg))
      (fr_observations reg);
  histogramObserve reg v ls x :=
    mkRegistry (fr_gauges reg) (fr_counters reg) ((v, ls, x) :: fr_observations reg)
|}.

#[export] Instance fakeExtern : Extern := fakeExternOf true.

#[export] Instance fakeStore : Store := {
  Server := string;
  serverOf c := c;
  clusterAt w s k := fw_clusters w !! (s, k);
  serviceAt w s k := fw_services w !! (s, k);
  secretAt w s k := fw_secrets w !! (s, k);
  haAt w s k := fw_ha w !! (s, k)
}.

#[export] Instance fakeProm : PromModel := {
  gaugeRead reg v ls := fr_gauges reg !! seriesKey v ls;
  counterRead reg v ls := default 0 (fr_counters reg !! seriesKey v ls);
  histogramRead reg v ls := snd <$> filter (fun o => o.1 = (v, ls)) (fr_observations reg)
}.

(** ** The laws hold *)

Lemma mkPath_self p x : field_at (mkPath p x) p = NFound x.
Proof. induction p as [|f p IH]; simpl; [done|]. by rewrite lookup_singleton_eq. Qed.

Lemma paths_disjoint_cons f p q :
  paths_disjoint (f :: p) (f :: q) -> paths_disjoint p q.
Proof.
  intros [H1 H2]. split; intros H; [apply H1|apply H2]; by apply prefix_cons.
Qed.

Lemma mkPath_off p x q : paths_disjoint p q -> field_at (mkPath p x) q = NMissing.
Proof.
  revert q. induction p as [|f p IH]; intros q Hd.
  { destruct Hd as [[] _]. apply prefix_nil. }
  destruct q as [|g q]; [destruct Hd as [_ []]; apply prefix_nil|]. simpl.
  destruct (decide (f = g)) as [<-|Hne].
  - rewrite lookup_singleton_eq. apply IH. by eapply paths_disjoint_cons.
  - by rewrite lookup_singleton_ne.
Qed.

(** Writing at [f :: p] below an object: the new child decides. *)
Lemma field_at_insert_off f v m p q :
  paths_disjoint (f :: p) q ->
  (forall q', paths_disjoint p q' ->
    field_at v q' = match m !! f with Some v' => field_at v' q' | None => NMissing end) ->
  field_at (JObj (<[f := v]> m)) q = field_at (JObj m) q.
Proof.
  intros Hd Hv. destruct q as [|g q]; [destruct Hd as [_ []]; apply prefix_nil|]. simpl.
  destruct (decide (f = g)) as [<-|Hne].
  - rewrite lookup_insert_eq. rewrite Hv by (by eapply paths_disjoint_cons). done.
  - by rewrite lookup_insert_ne.
Qed.

Lemma setAt_accessor p : forall o v, set_accessor o v p (setAt o p v) \/ p = [].
Proof.
  induction p as [|f p IH]; intros o v; [by right|]. left.
  unfold set_accessor. simpl. destruct o; try by eexists.
  destruct (m !! f) as [v'|] eqn:Hf.
  - destruct (IH v' v) as [IHv| ->].
    + unfold set_accessor in IHv. destruct (field_at v' p) eqn:Hp.
      1,2: destruct IHv as (o' & -> & Ho & Hq); eexists; split; [done|]; split;
        [simpl; by rewrite lookup_insert_eq|];
        intros q Hd; apply (field_at_insert_off _ _ _ _ _ Hd); rewrite Hf; exact Hq.
      all: destruct IHv as [e ->]; by eexists.
    + simpl. eexists; split; [done|]. split; [simpl; by rewrite lookup_insert_eq|].
      intros q Hd. apply (field_at_insert_off _ _ _ _ _ Hd).
      intros q' [[] _]. apply prefix_nil.
  - eexists; split; [done|]. split; [simpl; rewrite lookup_insert_eq; apply mkPath_self|].
    intros q Hd. apply (field_at_insert_off _ _ _ _ _ Hd). rewrite Hf.
    intros; by apply mkPath_off.
Qed.

Lemma setAt_law o v p : p <> [] -> set_accessor o v p (setAt o p v).
Proof. intros Hp. by destruct (setAt_accessor p o v). Qed.

Lemma fakeNested_law {A} (get : json -> option A) zero o p :
  nested_accessor get zero (field_at o p) (fakeNested get zero o p).
Proof.
  unfold fakeNested, nested_accessor.
  destruct (field_at o p) as [v| | |]; [destruct (get v)|..]; eauto.
Qed.

Lemma omap_asString (m : gmap string string) : omap asString (JString <$> m) = m.
Proof. apply map_eq. intros k. rewrite lookup_omap, lookup_fmap. by destruct (m !! k). Qed.

Lemma setAnnotations_setAt o m :
  metadataOk o ->
  exists o', setAt o annotationsPath (JObj (JString <$> m)) = Ok o' /\
    field_at o' annotationsPath = NFound (JObj (JString <$> m)) /\
    forall q, paths_disjoint annotationsPath q -> field_at o' q = field_at o q.
Proof.
  intros [md Hmd].
  pose proof (setAt_law o (JObj (JString <$> m)) annotationsPath ltac:(done)) as L.
  unfold set_accessor in L. destruct (field_at o annotationsPath) eqn:E; [done|done|exfalso..].
  all: destruct o as [| | | | | |mm]; simpl in Hmd; try done;
    destruct (mm !! "metadata") as [x|] eqn:Hx; simplify_eq;
    unfold annotationsPath in E; simpl in E; rewrite Hx in E; by case_match.
Qed.

Lemma fakeGetAnnotations_ext o o' :
  field_at o annotationsPath = field_at o' annotationsPath ->
  fakeGetAnnotations o = fakeGetAnnotations o'.
Proof. unfold fakeGetAnnotations. by intros ->. Qed.

Lemma fakeGetSetAnnotations o m :
  metadataOk o -> fakeGetAnnotations (fakeSetAnnotations o (Some m)) = Some m.
Proof.
  intros Hm. unfold fakeSetAnnotations.
  destruct (setAnnotations_setAt o m Hm) as (o' & -> & Ho & _).
  unfold fakeGetAnnotations. rewrite Ho, omap_asString, bool_decide_eq_true_2; [done|].
  by rewrite map_size_fmap.
Qed.

Lemma fakeSetAnnotations_frame o a q :
  paths_disjoint annotationsPath q ->
  field_at (fakeSetAnnotations o a) q = field_at o q.
Proof.
  intros Hd. destruct a as [m|]; unfold fakeSetAnnotations.
  - pose proof (setAt_law o (JObj (JString <$> m)) annotationsPath ltac:(done)) as L.
    destruct (setAt o annotationsPath _) as [o'|]; [|done].
    apply set_accessor_Ok in L as [_ Hq]. by apply Hq.
  - destruct o as [| | | | | |mm]; try done.
    destruct (mm !! "metadata") as [[| | | | | |md]|] eqn:Hm; try done.
    apply (field_at_insert_off _ _ _ _ _ Hd). rewrite Hm.
    intros [|g q'] Hq; [destruct Hq as [_ []]; apply prefix_nil|]. simpl.
    rewrite lookup_delete_ne; [done|]. intros <-.
    destruct Hq as [[] _]. apply prefix_cons, prefix_nil.
Qed.

Lemma fakeSetAnnotations_metadata o a :
  metadataOk o -> metadataOk (fakeSetAnnotations o a).
Proof.
  intros Hm. destruct Hm as [md Hmd].
  destruct o as [| | | | | |mm]; simpl in Hmd; try done.
  destruct (mm !! "metadata") as [x|] eqn:Hx; simplify_eq.
  unfold fakeSetAnnotations, metadataOk, annotationsPath.
  destruct a as [m|]; simpl; rewrite Hx.
  - destruct (md !! "annotations"); simpl; rewrite lookup_insert_eq; by eexists.
  - simpl. rewrite lookup_insert_eq. by eexists.
Qed.

#[export] Instance fakeUnstructuredLaws : UnstructuredLaws.
Proof.
  split.
  1-4: intros; apply fakeNested_law.
  1,2: intros; by apply setAt_law.
  - apply fakeGetAnnotations_ext.
  - apply fakeGetSetAnnotations.
  - apply fakeSetAnnotations_frame.
  - apply fakeSetAnnotations_metadata.
Qed.

#[export] Instance fakeErrorLaws : ErrorLaws.
Proof. split; intros; simpl; [apply bool_decide_eq_true|done]. Qed.

#[export] Instance fakeStatusLaws : StatusLaws.
Proof.
  split; intros l c; simpl.
  - induction l as [|x l IH]; simpl; [rewrite decide_True by done; by eexists|].
    destruct (decide (cond_Type x = cond_Type c)); simpl.
    + rewrite decide_True by done. by eexists.
    + by rewrite decide_False.
  - intros t Ht. induction l as [|x l IH]; simpl; [by rewrite decide_False|].
    destruct (decide (cond_Type x = cond_Type c)); simpl.
    + rewrite !decide_False by congruence. done.
    + by rewrite IH.
  - induction l as [|x l IH]; [by rewrite decide_False by set_solver|]. simpl fakeSetStatusCondition.
    destruct (decide (cond_Type x = cond_Type c)) as [E|E].
    + rewrite (decide_True (P := cond_Type c ∈ _)) by set_solver. simpl. by rewrite E.
    + rewrite !fmap_cons, IH. repeat case_decide; set_solver.
  - intros x. induction l as [|y l IH]; simpl; [set_solver|].
    destruct (decide (cond_Type y = cond_Type c)); set_solver.
Qed.

#[export] Instance fakeStoreLaws : StoreLaws.
Proof.
  split; simpl.
  - done.
  - intros c k w r w'. unfold fakeGetCluster, fakeGet. case_bool_decide.
    { by intros [= <- <-]. }
    destruct (fw_clusters w !! (c, k)) as [u|] eqn:E; [|by intros [= <- <-]].
    intros Hr. split; [by simplify_eq|].
    destruct (field_at u ["metadata"]) as [[]| | |] eqn:Hm; simplify_eq; try done.
    case_bool_decide; [|done]. split_and!; [done|done|]. by eexists.
  - intros c k w r w'. unfold fakeGetService, fakeGet. case_bool_decide.
    { by intros [= <- <-]. }
    destruct (fw_services w !! (c, k)) as [u|] eqn:E; intros [= <- <-]; [|done].
    by case_bool_decide.
  - intros c k w r w'. unfold fakeGet. intros [= <- <-]. split; [done|].
    case_bool_decide; [done|]. by destruct (fw_secrets w !! (c, k)).
  - intros c u w r w'. unfold fakeUpdateCluster. case_bool_decide.
    { intros [= <- <-]. split; [split; [by left|done]|done]. }
    destruct (fw_clusters w !! (c, objKey u)) eqn:E; intros [= <- <-]; simpl.
    + split; [exists u; by rewrite lookup_insert_eq|]. split; [|done].
      intros s' k Hne. rewrite lookup_insert_ne; naive_solver.
    + split; [split; [by left|done]|done].
  - intros c u w r w'. unfold fakeUpdateService. case_bool_decide.
    { intros [= <- <-]. split; [split; [by left|done]|done]. }
    destruct (fw_services w !! (c, svcKey u)) eqn:E; intros [= <- <-]; simpl.
    + split; [exists u; by rewrite lookup_insert_eq|]. split; [|done].
      intros s' k Hne. rewrite lookup_insert_ne; naive_solver.
    + split; [split; [by left|done]|done].
  - done.
Qed.

Lemma seriesKey_inj v ls v' ls' : seriesKey v ls = seriesKey v' ls' <-> (v, ls) = (v', ls').
Proof. destruct v, v'. unfold seriesKey. simpl. naive_solver. Qed.

#[export] Instance fakePromLaws : PromLaws.
Proof.
  split; intros; simpl; try done.
  - rewrite lookup_insert. repeat case_decide; rewrite seriesKey_inj in *; naive_solver.
  - rewrite lookup_delete. repeat case_decide; rewrite seriesKey_inj in *; naive_solver.
  - rewrite map_lookup_filter. destruct (fr_gauges reg !! seriesKey v' ls') eqn:E; simpl.
    + unfold matchesSeries. simpl. destruct v as [n l], v' as [n' l']; simpl in *.
      case_decide; simplify_eq.
      * rewrite bool_decide_eq_true_2 by done. simpl. case_guard; case_match; simpl in *; congruence.
      * by rewrite bool_decide_eq_false_2 by (by intros [= -> ->]).
    + by repeat case_match.
  - rewrite lookup_insert. repeat case_decide; rewrite seriesKey_inj in *; naive_solver.
  - rewrite filter_cons. simpl. repeat case_decide; naive_solver.
Qed.

#[export] Instance fakeOtherCallsLaws : OtherCallsLaws.
Proof.
  split; simpl; try done; intros.
  - unfold fakePatchHA. case_bool_decide; [done|]. by destruct (fw_ha w !! _).
  - unfold fakeStatusUpdate. case_bool_decide; [done|]. by destruct (fw_ha w !! _).
Qed.
