(* ===== verification/Operator.v ===== *)
(** * The operator's state and the monad its code runs in

    [opstate] holds what the process keeps: the failure counters, the remote
    client cache, the events handed to the recorder, the metrics registry,
    and the world outside. Every call that leaves the process is appended,
    with its answer, to the trace [op_calls], so the order of the operator's
    actions can be stated for any behaviour of the environment. A Go run-time
    panic (an index out of range) is an outcome of its own. *)

From S2P Require Import Prelude GoStd Api External.

(** The outcome of running Go code: a value, or a run-time panic. *)
Inductive outcome (A : Type) : Type :=
  | Val (a : A)
  | Panicked.
Arguments Val {A} _.
Arguments Panicked {A}.

(** remoteclient.cachedClient *)
Record cachedClient `{Extern} : Type := mkCached {
  cc_cli : client;
  cc_resourceVersion : string
}.

(** A call of events.EventRecorder.Eventf. *)
Record Event : Type := mkEvent {
  ev_object : NamespacedName;
  ev_type : string;
  ev_reason : string;
  ev_action : string;
  ev_note : string
}.

(** One call to the environment, with its answer. *)
Inductive apicall `{Extern} : Type :=
  | CNow (t : Z)
  | CGetCluster (c : client) (k : NamespacedName) (r : result json)
  | CUpdateCluster (c : client) (u : json) (r : result unit)
  | CGetService (c : client) (k : NamespacedName) (r : result Service)
  | CUpdateService (c : client) (u : Service) (r : result unit)
  | CGetSecret (c : client) (k : NamespacedName) (r : result Secret)
  | CGetHA (c : client) (k : NamespacedName) (r : result HACluster)
  | CPatchHA (c : client) (ha : HACluster) (body : string) (r : result HACluster)
  | CStatusUpdate (c : client) (ha : HACluster) (r : result HACluster)
  | CNewClient (cfg : restConfig) (r : result client)
  | CPgConnect (dsn : string) (r : result pgConn)
  | CPgQuery (c : pgConn) (q : string) (r : result (bool * string * option float64))
  | CPgClose (c : pgConn).

Record opstate `{Extern} : Type := mkOp {
  op_world : World;
  op_failCount : gmap NamespacedName Z;
  op_clients : gmap string cachedClient;
  op_events : list Event;
  op_metrics : registry;
  op_calls : list apicall
}.

Arguments mkCached {_} _ _.
Arguments mkOp {_} _ _ _ _ _ _.
Arguments CNow {_} _.
Arguments CGetCluster {_} _ _ _.
Arguments CUpdateCluster {_} _ _ _.
Arguments CGetService {_} _ _ _.
Arguments CUpdateService {_} _ _ _.
Arguments CGetSecret {_} _ _ _.
Arguments CGetHA {_} _ _ _.
Arguments CPatchHA {_} _ _ _ _.
Arguments CStatusUpdate {_} _ _ _.
Arguments CNewClient {_} _ _.
Arguments CPgConnect {_} _ _.
Arguments CPgQuery {_} _ _ _.
Arguments CPgClose {_} _.

(** ** The monad *)

Definition M `{Extern} (A : Type) : Type := opstate -> outcome A * opstate.

#[export] Instance M_ret `{Extern} : MRet M := fun A a s => (Val a, s).

#[export] Instance M_bind `{Extern} : MBind M := fun A B k m s =>
  match m s with
  | (Val a, s') => k a s'
  | (Panicked, s') => (Panicked, s')
  end.

(** [if err := m; err != nil { return err }; k] *)
Notation "'try' x ':=' m 'in' k" :=
  (mbind (M := M) (fun r => match r with Ok x => k | Err e => mret (Err e) end) m)
  (at level 10, x name, m at level 100, k at level 200) : go_scope.

Section primitives.
Context `{Extern}.

Definition panic {A} : M A := fun s => (Panicked, s).

Definition gets {A} (f : opstate -> A) : M A := fun s => (Val (f s), s).

Definition setWorld (w : World) (s : opstate) : opstate :=
  mkOp w (op_failCount s) (op_clients s) (op_events s) (op_metrics s) (op_calls s).

(** The world moved to [w] while the calls [t] were made. *)
Definition advance (w : World) (t : list apicall) (s : opstate) : opstate :=
  mkOp w (op_failCount s) (op_clients s) (op_events s) (op_metrics s) (op_calls s ++ t).

Definition modifyFailCount (f : gmap NamespacedName Z -> gmap NamespacedName Z) : M unit :=
  fun s => (Val tt, mkOp (op_world s) (f (op_failCount s)) (op_clients s) (op_events s)
                      (op_metrics s) (op_calls s)).

Definition modifyClients (f : gmap string cachedClient -> gmap string cachedClient) : M unit :=
  fun s => (Val tt, mkOp (op_world s) (op_failCount s) (f (op_clients s)) (op_events s)
                      (op_metrics s) (op_calls s)).

Definition modifyMetrics (f : registry -> registry) : M unit :=
  fun s => (Val tt, mkOp (op_world s) (op_failCount s) (op_clients s) (op_events s)
                      (f (op_metrics s)) (op_calls s)).

Definition recordEvent (e : Event) : M unit :=
  fun s => (Val tt, mkOp (op_world s) (op_failCount s) (op_clients s) (op_events s ++ [e])
                      (op_metrics s) (op_calls s)).

(** A call to the environment. *)
Definition call {A} (f : World -> A * World) (log : A -> apicall) : M A := fun s =>
  let '(a, w') := f (op_world s) in (Val a, advance w' [log a] s).

Definition now : M Z := call timeNow CNow.
Definition getCluster c k : M (result json) := call (clientGetCluster c k) (CGetCluster c k).
Definition updateCluster c u : M (result unit) :=
  call (clientUpdateCluster c u) (CUpdateCluster c u).
Definition getService c k : M (result Service) := call (clientGetService c k) (CGetService c k).
Definition updateService c u : M (result unit) :=
  call (clientUpdateService c u) (CUpdateService c u).
Definition getSecret c k : M (result Secret) := call (clientGetSecret c k) (CGetSecret c k).
Definition getHA c k : M (result HACluster) := call (clientGetHA c k) (CGetHA c k).
Definition patchHA c ha body : M (result HACluster) :=
  call (clientPatchHA c ha body) (CPatchHA c ha body).
Definition statusUpdate c ha : M (result HACluster) :=
  call (clientStatusUpdate c ha) (CStatusUpdate c ha).
Definition newClient cfg : M (result client) := call (clientNew cfg) (CNewClient cfg).
Definition pgxConnect dsn : M (result pgConn) := call (pgConnect dsn) (CPgConnect dsn).
Definition pgxQuery c q : M (result (bool * string * option float64)) :=
  call (pgQueryRowScan c q) (CPgQuery c q).
Definition pgxClose c : M unit := call (fun w => (tt, pgClose c w)) (fun _ => CPgClose c).

(** The environment's side of one call, and of a sequence of calls. *)
Definition answers (a : apicall) (w w' : World) : Prop :=
  match a with
  | CNow t => timeNow w = (t, w')
  | CGetCluster c k r => clientGetCluster c k w = (r, w')
  | CUpdateCluster c u r => clientUpdateCluster c u w = (r, w')
  | CGetService c k r => clientGetService c k w = (r, w')
  | CUpdateService c u r => clientUpdateService c u w = (r, w')
  | CGetSecret c k r => clientGetSecret c k w = (r, w')
  | CGetHA c k r => clientGetHA c k w = (r, w')
  | CPatchHA c ha b r => clientPatchHA c ha b w = (r, w')
  | CStatusUpdate c ha r => clientStatusUpdate c ha w = (r, w')
  | CNewClient cfg r => clientNew cfg w = (r, w')
  | CPgConnect d r => pgConnect d w = (r, w')
  | CPgQuery c q r => pgQueryRowScan c q w = (r, w')
  | CPgClose c => pgClose c w = w'
  end.

Inductive exec : World -> list apicall -> World -> Prop :=
  | exec_nil w : exec w [] w
  | exec_cons w a w1 t w2 : answers a w w1 -> exec w1 t w2 -> exec w (a :: t) w2.

(** ** Weakest preconditions *)

Definition wp {A} (m : M A) (Q : outcome A -> opstate -> Prop) (s : opstate) : Prop :=
  Q (m s).1 (m s).2.

Lemma wp_ret {A} (a : A) Q s : Q (Val a) s -> wp (mret a) Q s.
Proof. done. Qed.

Lemma wp_bind {A B} (m : M A) (k : A -> M B) Q s :
  wp m (fun o s' => match o with Val a => wp (k a) Q s' | Panicked => Q Panicked s' end) s ->
  wp (m ≫= k) Q s.
Proof. unfold wp, mbind, M_bind. by destruct (m s) as [[a|] s']. Qed.

Lemma wp_mono {A} (m : M A) (P Q : outcome A -> opstate -> Prop) s :
  wp m P s -> (forall o s', P o s' -> Q o s') -> wp m Q s.
Proof. unfold wp. auto. Qed.

Lemma wp_run {A} (m : M A) Q s o s' : wp m Q s -> m s = (o, s') -> Q o s'.
Proof. unfold wp. intros Hq E. by rewrite E in Hq. Qed.

(** Reading a weakest precondition at a run whose outcome is known. *)
Lemma wp_val {A} (m : M A) Q s o : wp m Q s -> (m s).1 = o -> Q o (m s).2.
Proof. by intros Hq <-. Qed.

Lemma wp_call {A} (f : World -> A * World) log Q s :
  (forall a w', f (op_world s) = (a, w') -> Q (Val a) (advance w' [log a] s)) ->
  wp (call f log) Q s.
Proof. unfold wp, call. intros HQ. destruct (f (op_world s)) eqn:E. by apply HQ. Qed.

Lemma exec_app w t1 w1 t2 w2 : exec w t1 w1 -> exec w1 t2 w2 -> exec w (t1 ++ t2) w2.
Proof. induction 1; simpl; eauto using exec. Qed.

Lemma exec_app_inv w t1 t2 w2 :
  exec w (t1 ++ t2) w2 -> exists w1, exec w t1 w1 /\ exec w1 t2 w2.
Proof.
  revert w. induction t1 as [|a t1 IH]; simpl; intros w He.
  - exists w. split; [constructor|done].
  - inversion He as [|? ? wa ? ? Ha Ht]; subst.
    destruct (IH _ Ht) as (w1 & ? & ?). exists w1. eauto using exec.
Qed.

Lemma advance_advance w1 t1 w2 t2 s :
  advance w2 t2 (advance w1 t1 s) = advance w2 (t1 ++ t2) s.
Proof. unfold advance. simpl. by rewrite app_assoc. Qed.

Lemma advance_nil s : advance (op_world s) [] s = s.
Proof. destruct s. unfold advance. simpl. by rewrite app_nil_r. Qed.

(** [m] only talks to the environment: it leaves the other components of the
    state alone, and its trace and answer satisfy [R]. *)
Definition talks {A} (m : M A) (R : list apicall -> A -> Prop) : Prop :=
  forall s, exists t a w', m s = (Val a, advance w' t s) /\ exec (op_world s) t w' /\ R t a.

Lemma talks_ret {A} (a : A) (R : list apicall -> A -> Prop) : R [] a -> talks (mret a) R.
Proof.
  intros HR s. exists [], a, (op_world s). rewrite advance_nil.
  split_and!; [done|constructor|done].
Qed.

Lemma talks_bind {A B} (m : M A) (k : A -> M B) R S :
  talks m R -> (forall t a, R t a -> talks (k a) (fun t' b => S (t ++ t') b)) ->
  talks (m ≫= k) S.
Proof.
  intros Hm Hk s. destruct (Hm s) as (t & a & w & Em & Ex & HR).
  destruct (Hk t a HR (advance w t s)) as (t' & b & w' & Ek & Ex' & HS).
  exists (t ++ t'), b, w'. split_and!; [|by eapply exec_app|done].
  unfold mbind, M_bind. rewrite Em, Ek. by rewrite advance_advance.
Qed.

Lemma talks_mono {A} (m : M A) (R S : list apicall -> A -> Prop) :
  talks m R -> (forall t a, R t a -> S t a) -> talks m S.
Proof. intros Hm HRS s. destruct (Hm s) as (t & a & w & ? & ? & ?). exists t, a, w. auto. Qed.

Lemma talks_call {A} (f : World -> A * World) log (R : list apicall -> A -> Prop) :
  (forall a w w', f w = (a, w') -> answers (log a) w w') ->
  (forall a, R [log a] a) -> talks (call f log) R.
Proof.
  intros Ha HR s. unfold call. destruct (f (op_world s)) as [a w'] eqn:E.
  exists [log a], a, w'. split_and!; [done| |done].
  econstructor; [by apply Ha|constructor].
Qed.

Lemma talks_bind_call {A B} (f : World -> A * World) log (k : A -> M B) S :
  (forall a w w', f w = (a, w') -> answers (log a) w w') ->
  (forall a, talks (k a) (fun t' b => S (log a :: t') b)) ->
  talks (call f log ≫= k) S.
Proof.
  intros Ha Hk. eapply (talks_bind _ _ (fun t a => t = [log a])).
  - by apply talks_call.
  - intros t a ->. apply Hk.
Qed.

Lemma talks_wp {A} (m : M A) R Q s :
  talks m R ->
  (forall t a w', R t a -> exec (op_world s) t w' -> Q (Val a) (advance w' t s)) ->
  wp m Q s.
Proof.
  intros Hm HQ. destruct (Hm s) as (t & a & w & E & ? & ?).
  unfold wp. rewrite E. by apply HQ.
Qed.

Lemma talks_run {A} (m : M A) R s o s' :
  talks m R -> m s = (o, s') ->
  exists a t, o = Val a /\ s' = advance (op_world s') t s /\
    exec (op_world s) t (op_world s') /\ R t a.
Proof.
  intros Hm E. destruct (Hm s) as (t & a & w & E' & ? & ?).
  rewrite E' in E. simplify_eq. by exists a, t.
Qed.

(** ** Weakest preconditions with the trace

    [wpt m Q s]: the run of [m] from [s] appends to the trace a list [t] of
    calls the environment answered, and the outcome, the final state and [t]
    satisfy [Q]. *)
Definition wpt {A} (m : M A) (Q : outcome A -> opstate -> list apicall -> Prop)
    (s : opstate) : Prop :=
  exists t, op_calls (m s).2 = op_calls s ++ t /\ exec (op_world s) t (op_world (m s).2) /\
    Q (m s).1 (m s).2 t.

Lemma wpt_ret {A} (a : A) Q s : Q (Val a) s [] -> wpt (mret a) Q s.
Proof. intros HQ. exists []. split_and!; [by rewrite app_nil_r|constructor|done]. Qed.

Lemma wpt_panic {A} (Q : outcome A -> opstate -> list apicall -> Prop) s :
  Q Panicked s [] -> wpt panic Q s.
Proof. intros HQ. exists []. split_and!; [by rewrite app_nil_r|constructor|done]. Qed.

Lemma wpt_mono {A} (m : M A) (P Q : outcome A -> opstate -> list apicall -> Prop) s :
  wpt m P s -> (forall o s' t, P o s' t -> Q o s' t) -> wpt m Q s.
Proof. intros (t & ? & ? & HP) HPQ. exists t. auto. Qed.

(** A run has one trace. *)
Lemma wpt_and {A} (m : M A) (P Q : outcome A -> opstate -> list apicall -> Prop) s :
  wpt m P s -> wpt m Q s -> wpt m (fun o s' t => P o s' t /\ Q o s' t) s.
Proof.
  intros (t & Ht & Hx & HP) (t' & Ht' & _ & HQ). rewrite Ht in Ht'.
  apply app_inv_head in Ht' as <-. by exists t.
Qed.

Lemma wpt_bind {A B} (m : M A) (k : A -> M B) Q s :
  wpt m (fun o s1 t1 => match o with
    | Val a => wpt (k a) (fun o' s' t' => Q o' s' (t1 ++ t')) s1
    | Panicked => Q Panicked s1 t1
    end) s ->
  wpt (m ≫= k) Q s.
Proof.
  intros (t & Ht & Hx & Hq). unfold wpt, mbind, M_bind in *.
  destruct (m s) as [[a|] s1]; simpl in *.
  - destruct Hq as (t' & Ht' & Hx' & HQ). exists (t ++ t').
    split_and!; [by rewrite Ht', Ht, app_assoc|by eapply exec_app|done].
  - by exists t.
Qed.

Lemma wpt_talks {A} (m : M A) R Q s :
  talks m R ->
  (forall t a w', R t a -> exec (op_world s) t w' -> Q (Val a) (advance w' t s) t) ->
  wpt m Q s.
Proof.
  intros Hm HQ. destruct (Hm s) as (t & a & w & E & Hx & HR).
  exists t. rewrite E. split_and!; [done|done|by apply HQ].
Qed.

Lemma wpt_local {A} (m : M A) Q s :
  op_calls (m s).2 = op_calls s -> op_world (m s).2 = op_world s ->
  Q (m s).1 (m s).2 [] -> wpt m Q s.
Proof.
  intros Hc Hw HQ. exists []. rewrite app_nil_r. split_and!; [done| |done].
  rewrite Hw. constructor.
Qed.

Lemma wpt_call {A} (f : World -> A * World) log Q s :
  (forall a w w', f w = (a, w') -> answers (log a) w w') ->
  (forall a w', answers (log a) (op_world s) w' -> Q (Val a) (advance w' [log a] s) [log a]) ->
  wpt (call f log) Q s.
Proof.
  intros Ha HQ. eapply (wpt_talks _ (fun t a => t = [log a])); [by apply talks_call|].
  intros t a w' -> Hx. apply HQ. inversion Hx as [|? ? ? ? ? Hy Hn]; subst. by inversion Hn; subst.
Qed.

Lemma wpt_wp {A} (m : M A) Q s : wpt m Q s -> wp m (fun o s' => exists t, Q o s' t) s.
Proof. intros (t & _ & _ & HQ). by exists t. Qed.

(** A call that asks the API server to change an object. *)
Definition isWrite (a : apicall) : bool :=
  match a with
  | CUpdateCluster _ _ _ | CUpdateService _ _ _ | CPatchHA _ _ _ _ | CStatusUpdate _ _ _ => true
  | _ => false
  end.

Definition readOnly (t : list apicall) : Prop := Forall (fun a => isWrite a = false) t.

(** Between [s] and [s'] only reads were made, and of the process state at
    most the client cache changed. *)
Record quiet (s s' : opstate) (t : list apicall) : Prop := {
  quiet_reads : readOnly t;
  quiet_failCount : op_failCount s' = op_failCount s;
  quiet_events : op_events s' = op_events s;
  quiet_metrics : op_metrics s' = op_metrics s
}.

Lemma quiet_refl s : quiet s s [].
Proof. split; [constructor|done..]. Qed.

Lemma quiet_trans s s1 s2 t1 t2 : quiet s s1 t1 -> quiet s1 s2 t2 -> quiet s s2 (t1 ++ t2).
Proof.
  intros [] []. split; [by apply Forall_app|congruence..].
Qed.

Lemma quiet_advance w t s : readOnly t -> quiet s (advance w t s) t.
Proof. by split. Qed.

(** A program that is quiet from every state and does not panic. *)
Definition isQuiet {A} (m : M A) (P : A -> Prop) : Prop :=
  forall s, wpt m (fun o s' t => exists a, o = Val a /\ P a /\ quiet s s' t) s.

Lemma isQuiet_ret {A} (a : A) (P : A -> Prop) : P a -> isQuiet (mret a) P.
Proof. intros Ha s. apply wpt_ret. exists a. eauto using quiet_refl. Qed.

Lemma isQuiet_bind {A B} (m : M A) (k : A -> M B) (P : A -> Prop) (Q : B -> Prop) :
  isQuiet m P -> (forall a, P a -> isQuiet (k a) Q) -> isQuiet (m ≫= k) Q.
Proof.
  intros Hm Hk s. apply wpt_bind. eapply wpt_mono; [apply Hm|].
  intros o s1 t1 (a & -> & Ha & Hq). eapply wpt_mono; [by apply Hk|].
  intros o' s2 t2 (b & -> & Hb & Hq'). exists b. eauto using quiet_trans.
Qed.

Lemma isQuiet_talks {A} (m : M A) R (P : A -> Prop) :
  talks m R -> (forall t a, R t a -> readOnly t /\ P a) -> isQuiet m P.
Proof.
  intros Hm HR s. eapply wpt_talks; [done|]. intros t a w' Hr _.
  destruct (HR t a Hr) as [Hread HP]. exists a. eauto using quiet_advance.
Qed.

Lemma isQuiet_mono {A} (m : M A) (P Q : A -> Prop) :
  isQuiet m P -> (forall a, P a -> Q a) -> isQuiet m Q.
Proof.
  intros Hm HPQ s. eapply wpt_mono; [apply Hm|]. intros o s' t (a & ? & ? & ?). exists a. eauto.
Qed.

Lemma isQuiet_call {A} (f : World -> A * World) log (P : A -> Prop) :
  (forall a w w', f w = (a, w') -> answers (log a) w w') ->
  (forall a, isWrite (log a) = false) -> (forall a, P a) -> isQuiet (call f log) P.
Proof.
  intros Ha Hw HP. eapply (isQuiet_talks _ (fun t a => t = [log a])); [by apply talks_call|].
  intros t a ->. split; [by repeat constructor|done].
Qed.

(** Every call of [m] satisfies [P], whatever its outcome. *)
Definition emits {A} (P : apicall -> Prop) (m : M A) : Prop :=
  forall s, wpt m (fun _ _ t => Forall P t) s.

Lemma emits_ret {A} P (a : A) : emits P (mret a).
Proof. intros s. by apply wpt_ret. Qed.

Lemma emits_panic {A} P : emits P (panic : M A).
Proof. intros s. by apply wpt_panic. Qed.

Lemma emits_bind {A B} P (m : M A) (k : A -> M B) :
  emits P m -> (forall a, emits P (k a)) -> emits P (m ≫= k).
Proof.
  intros Hm Hk s. apply wpt_bind. eapply wpt_mono; [apply Hm|].
  intros [a|] s1 t1 H1; [|done]. eapply wpt_mono; [apply Hk|].
  intros o s2 t2 H2. by apply Forall_app.
Qed.

Lemma emits_call {A} P (f : World -> A * World) log :
  (forall a w w', f w = (a, w') -> answers (log a) w w') -> (forall a, P (log a)) ->
  emits P (call f log).
Proof. intros Ha HP s. apply wpt_call; [done|]. intros. by repeat constructor. Qed.

Lemma emits_local {A} P (m : M A) :
  (forall s, op_calls (m s).2 = op_calls s /\ op_world (m s).2 = op_world s) -> emits P m.
Proof. intros Hm s. destruct (Hm s). by apply wpt_local. Qed.

Lemma emits_quiet {A} (P : apicall -> Prop) (m : M A) Q :
  isQuiet m Q -> (forall a, isWrite a = false -> P a) -> emits P m.
Proof.
  intros Hq HP s. eapply wpt_mono; [apply Hq|]. intros o s' t (a & _ & _ & Hs).
  eapply Forall_impl; [apply Hs|done].
Qed.

Lemma emits_talks {A} (P : apicall -> Prop) (m : M A) R :
  talks m R -> (forall t a, R t a -> Forall P t) -> emits P m.
Proof. intros Hm HR s. eapply wpt_talks; [done|]. intros. by eapply HR. Qed.

(** Under [C], if every answer satisfies [R] then every call of [m] satisfies
    [G] and its value satisfies [P]. *)
Definition assured {A} (R G : apicall -> Prop) (C : Prop) (m : M A) (P : A -> Prop) : Prop :=
  forall s, wpt m (fun o _ t => C -> Forall R t -> Forall G t /\ forall a, o = Val a -> P a) s.

Lemma assured_ret {A} R G (C : Prop) (a : A) (P : A -> Prop) :
  (C -> P a) -> assured R G C (mret a) P.
Proof. intros Ha s. apply wpt_ret. intros HC _. split; [constructor|]. intros b [= <-]. auto. Qed.

Lemma assured_panic {A} R G C (P : A -> Prop) : assured R G C panic P.
Proof. intros s. apply wpt_panic. intros _ _. by split. Qed.

Lemma assured_bind {A B} R G C (m : M A) (k : A -> M B) (P : A -> Prop) (Q : B -> Prop) :
  assured R G C m P -> (forall a, assured R G (C /\ P a) (k a) Q) ->
  assured R G C (m ≫= k) Q.
Proof.
  intros Hm Hk s. apply wpt_bind. eapply wpt_mono; [apply Hm|].
  intros [a|] s1 t1 H1; [|intros HC Ht; split; [by apply H1|done]].
  eapply wpt_mono; [apply (Hk a)|]. intros o s2 t2 H2 HC [R1 R2]%Forall_app.
  destruct (H1 HC R1) as [G1 Pa]. destruct H2 as [G2 Qb]; [auto|done|].
  split; [by apply Forall_app|done].
Qed.

Lemma assured_mono {A} R G (C C' : Prop) (m : M A) (P Q : A -> Prop) :
  assured R G C' m P -> (C -> C') -> (forall a, C -> P a -> Q a) -> assured R G C m Q.
Proof.
  intros Hm HC HPQ s. eapply wpt_mono; [apply Hm|]. intros o s' t Ht Hc HR.
  destruct (Ht (HC Hc) HR). split; [done|]. eauto.
Qed.

Lemma assured_call {A} R (G : apicall -> Prop) (C : Prop) (f : World -> A * World) log (P : A -> Prop) :
  (forall a w w', f w = (a, w') -> answers (log a) w w') ->
  (forall a, C -> R (log a) -> G (log a) /\ P a) -> assured R G C (call f log) P.
Proof.
  intros Ha HG s. apply wpt_call; [done|]. intros a w' _ HC HR.
  apply Forall_cons_1 in HR as [HR _]. destruct (HG a HC HR). split; [by constructor|]. by intros b [= <-].
Qed.

Lemma assured_emits {A} R (G : apicall -> Prop) C (m : M A) : emits G m -> assured R G C m (fun _ => True).
Proof. intros Hm s. eapply wpt_mono; [apply Hm|]. by intros. Qed.

Lemma assured_quiet {A} R (G : apicall -> Prop) C (m : M A) (P : A -> Prop) :
  isQuiet m P -> (forall a, isWrite a = false -> G a) -> assured R G C m P.
Proof.
  intros Hq HG s. eapply wpt_mono; [apply Hq|]. intros o s' t (a & -> & Ha & Hs) _ _. split.
  - eapply Forall_impl; [apply Hs|done].
  - by intros b [= <-].
Qed.

(** A program that never panics, and whose value satisfies [P]. *)
Definition returns {A} (m : M A) (P : A -> Prop) : Prop :=
  forall s, exists a, (m s).1 = Val a /\ P a.

Lemma returns_ret {A} (a : A) (P : A -> Prop) : P a -> returns (mret a) P.
Proof. intros Ha s. by exists a. Qed.

Lemma returns_bind {A B} (m : M A) (k : A -> M B) (P : A -> Prop) (Q : B -> Prop) :
  returns m P -> (forall a, P a -> returns (k a) Q) -> returns (m ≫= k) Q.
Proof.
  intros Hm Hk s. unfold mbind, M_bind. destruct (Hm s) as (a & Ea & Ha).
  destruct (m s) as [o s1]. simpl in Ea. subst o. by apply Hk.
Qed.

Lemma returns_mono {A} (m : M A) (P Q : A -> Prop) :
  returns m P -> (forall a, P a -> Q a) -> returns m Q.
Proof. intros Hm HPQ s. destruct (Hm s) as (a & ? & ?). eauto. Qed.

Lemma returns_talks {A} (m : M A) R (P : A -> Prop) :
  talks m R -> (forall t a, R t a -> P a) -> returns m P.
Proof. intros Hm HP s. destruct (Hm s) as (t & a & w & -> & _ & Hr). exists a. eauto. Qed.

Lemma returns_quiet {A} (m : M A) P : isQuiet m P -> returns m P.
Proof. intros Hm s. destruct (Hm s) as (t & _ & _ & a & ? & ? & _). eauto. Qed.

Lemma returns_call {A} (f : World -> A * World) log (P : A -> Prop) :
  (forall w, P (f w).1) -> returns (call f log) P.
Proof.
  intros HP s. unfold call. specialize (HP (op_world s)).
  destruct (f (op_world s)) as [a w]. by exists a.
Qed.

(** A program that leaves the failure counters alone. *)
Definition keepsCount {A} (m : M A) : Prop :=
  forall s, wpt m (fun _ s' _ => op_failCount s' = op_failCount s) s.

Lemma keepsCount_ret {A} (a : A) : keepsCount (mret a).
Proof. intros s. by apply wpt_ret. Qed.

Lemma keepsCount_bind {A B} (m : M A) (k : A -> M B) :
  keepsCount m -> (forall a, keepsCount (k a)) -> keepsCount (m ≫= k).
Proof.
  intros Hm Hk s. apply wpt_bind. eapply wpt_mono; [apply Hm|].
  intros [a|] s1 t1 H1; [|done]. eapply wpt_mono; [apply Hk|].
  intros o s2 t2 H2. simpl in *. congruence.
Qed.

Lemma keepsCount_talks {A} (m : M A) R : talks m R -> keepsCount m.
Proof. intros Hm s. by eapply wpt_talks; [done|]. Qed.

Lemma keepsCount_call {A} (f : World -> A * World) log :
  (forall a w w', f w = (a, w') -> answers (log a) w w') -> keepsCount (call f log).
Proof. intros Ha s. by eapply wpt_call. Qed.

Lemma keepsCount_quiet {A} (m : M A) P : isQuiet m P -> keepsCount m.
Proof.
  intros Hq s. eapply wpt_mono; [apply Hq|]. intros o s' t (a & _ & _ & Hs). apply Hs.
Qed.

Lemma keepsCount_local {A} (m : M A) :
  (forall s, op_calls (m s).2 = op_calls s /\ op_world (m s).2 = op_world s /\
     op_failCount (m s).2 = op_failCount s) -> keepsCount m.
Proof. intros Hm s. destruct (Hm s) as (? & ? & ?). by apply wpt_local. Qed.

(** A program that leaves the cache of clients alone. *)
Definition keepsClients {A} (m : M A) : Prop := forall s, op_clients (m s).2 = op_clients s.

Lemma keepsClients_ret {A} (a : A) : keepsClients (mret a).
Proof. done. Qed.

Lemma keepsClients_panic {A} : keepsClients (panic : M A).
Proof. done. Qed.

Lemma keepsClients_bind {A B} (m : M A) (k : A -> M B) :
  keepsClients m -> (forall a, keepsClients (k a)) -> keepsClients (m ≫= k).
Proof.
  intros Hm Hk s. unfold mbind, M_bind. specialize (Hm s).
  destruct (m s) as [[a|] s1]; [|done]. simpl in Hm. by rewrite Hk.
Qed.

Lemma keepsClients_call {A} (f : World -> A * World) log : keepsClients (call f log).
Proof. intros s. unfold call. by destruct (f (op_world s)). Qed.

Lemma keepsClients_talks {A} (m : M A) R : talks m R -> keepsClients m.
Proof. intros Hm s. by destruct (Hm s) as (t & a & w & -> & _). Qed.

Lemma isQuiet_bind_call {A B} (f : World -> A * World) log (k : A -> M B) (Q : B -> Prop) :
  (forall a w w', f w = (a, w') -> answers (log a) w w') ->
  (forall a, isWrite (log a) = false) -> (forall a, isQuiet (k a) Q) ->
  isQuiet (call f log ≫= k) Q.
Proof.
  intros Ha Hw Hk. eapply (isQuiet_bind _ _ (fun _ => True)); [by apply isQuiet_call|eauto].
Qed.
End primitives.

(** One step of an [isQuiet] goal: the end, or a read. *)
Ltac quiet_step :=
  lazymatch goal with
  | |- isQuiet (mret _) _ => apply isQuiet_ret
  | |- isQuiet (mbind _ _) _ =>
      apply isQuiet_bind_call;
        [let E := fresh in intros ? ? ? E; first [exact E | by simplify_eq/=]|done|intros]
  end.

(** Symbolic execution of a [talks] goal: through the next call, whose answer
    is introduced, or to the end. *)
Ltac talks_step :=
  lazymatch goal with
  | |- talks (mret _) _ => apply talks_ret
  | |- talks (mbind _ _) _ =>
      eapply talks_bind_call; [let E := fresh in intros ? ? ? E; first [exact E | by simplify_eq/=]|intros]
  | |- talks _ _ => apply talks_call; [by intros|intros]
  end.

(** A program built from calls, events and metrics leaves the clients alone. *)
Ltac keeps_clients :=
  repeat first
    [ apply keepsClients_ret | apply keepsClients_panic | apply keepsClients_call
    | apply keepsClients_bind; [|intros] | solve [intros ?; done] | case_match ].
