(* ===== verification/Fixtures.v ===== *)
(** * Sample objects, worlds and states

    Concrete inputs in the in-memory environment of [FakeKube], in the manner
    of the fixtures of the repository's tests: a primary and a replica CNPG
    Cluster, their read-write Services, and an operator state over a world
    with two API servers. The witnesses of the theorems evaluate on them. *)

From S2P Require Import Prelude GoStd Api External FakeKube Operator.

Definition obj (l : list (string * json)) : json := JObj (list_to_map l).

Definition sampleMeta (ns name : string) : json :=
  obj [("namespace", JString ns); ("name", JString name)].

Definition sampleStatus (ready : Z) : json :=
  obj [("readyInstances", JInt ready); ("phase", JString "Cluster in healthy state")].

Definition samplePrimary (ns name : string) : json :=
  obj [("metadata", sampleMeta ns name); ("status", sampleStatus 1)].

(** A replica cluster whose only external cluster is [source] at [host]. *)
Definition sampleReplica (ns name source host : string) : json :=
  obj [("metadata", sampleMeta ns name);
       ("spec", obj
          [("replica", obj [("enabled", JBool true); ("source", JString source)]);
           ("externalClusters", JArr
             [obj [("name", JString source);
                   ("connectionParameters", obj [("host", JString host)])]])]);
       ("status", sampleStatus 1)].

(** A former primary that was set up for replication and is not a replica. *)
Definition sampleFormer (ns name source host : string) : json :=
  obj [("metadata", sampleMeta ns name);
       ("spec", obj
          [("externalClusters", JArr
             [obj [("name", JString source);
                   ("connectionParameters", obj [("host", JString host)])]])]);
       ("status", sampleStatus 1)].

Definition sampleService (ns name : string) : Service := mkService ns name None JNull.

(** The client of the API server of that name. *)
Definition site (name : string) : @client fakeExtern := name.

Definition emptyRegistry : fakeRegistry := mkRegistry ∅ ∅ [].

Definition emptyWorld : fakeWorld := mkFake ∅ ∅ ∅ ∅ 0 [] None ∅.

Definition fakeState (w : fakeWorld) : opstate := mkOp w ∅ ∅ [] emptyRegistry [].

(** Site "local" holds the primary, site "remote" a replica of it. *)
Definition twoSites : fakeWorld :=
  mkFake
    (list_to_map
       [(("local", NN "db" "pg"), sampleFormer "db" "pg" "peer" "remote-host");
        (("remote", NN "db" "pg"), sampleReplica "db" "pg" "peer" "local-host")])
    (list_to_map
       [(("local", NN "db" "pg-rw"), sampleService "db" "pg-rw");
        (("remote", NN "db" "pg-rw"), sampleService "db" "pg-rw")])
    ∅ ∅ 1000 [] None ∅.

(** The same, with the kubeconfig of "remote" in the Secret ops/b of "local". *)
Definition twoSitesKc : fakeWorld :=
  mkFake (fw_clusters twoSites) (fw_services twoSites)
    {[("local", NN "ops" "b") := mkSecret "1" (Some {["value" := "remote"]})]}
    ∅ 1000 [] None ∅.
