(* ===== verification/Postgres.v ===== *)
(** * internal/postgres: the WAL probe

    [ParseLSN] and the connection string are pure; [SQLProber_Probe] runs
    pgx through the monad. The theorems show that an LSN is parsed exactly
    (value, range, order, round trip with PostgreSQL's output format), that
    the host and port put into the URL can be split again, and that the
    credentials cannot leak out of the user-information part of the URL. *)

From S2P Require Import Prelude GoStd Api External Operator.

Definition DefaultPort : Z := 5432.
Definition defaultDatabase : string := "postgres".
Definition defaultSSLMode : string := "require".

Definition probeQuery : string := "
WITH state AS (
	SELECT pg_is_in_recovery() AS in_recovery
)
SELECT
	in_recovery,
	CASE
		WHEN in_recovery THEN COALESCE(pg_last_wal_replay_lsn(), '0/0'::pg_lsn)
		ELSE pg_current_wal_lsn()
	END::text AS current_lsn,
	CASE
		WHEN in_recovery AND pg_last_xact_replay_timestamp() IS NOT NULL
			THEN EXTRACT(EPOCH FROM clock_timestamp() - pg_last_xact_replay_timestamp())::double precision
		WHEN in_recovery THEN NULL
		ELSE 0
	END AS replay_lag_seconds
FROM state".

Record Config : Type := mkConfig {
  cfg_Host : string;
  cfg_Port : Z;            (* int32 *)
  cfg_Database : string;
  cfg_User : string;
  cfg_Password : string;
  cfg_SSLMode : string
}.

Record Result : Type := mkResult {
  res_InRecovery : bool;
  res_LSN : string;
  res_LSNValue : Z;        (* uint64 *)
  res_LagSeconds : option float64
}.

Definition ParseLSN (s : string) : result Z :=
  match Cut slash s with
  | None => Err (ErrorString "expected <hex>/<hex>")
  | Some (hi, lo) =>
      if bool_decide (hi = "") || bool_decide (lo = "")
      then Err (ErrorString "expected <hex>/<hex>")
      else
        match ParseUint hi 16 32 with
        | inr e => Err (Wrap "parse high word" (numErrorErr hi e))
        | inl hiN =>
            match ParseUint lo 16 32 with
            | inr e => Err (Wrap "parse low word" (numErrorErr lo e))
            | inl loN => Ok (wrap_uint64 (wrap_uint64 (Z.shiftl hiN 32) + loN))
            end
        end
  end.

Definition normalizeHostPort (host : string) (port : Z) : string :=
  match SplitHostPort host with
  | Some (h, p) => JoinHostPort h p
  | None =>
      match Cut colon host with
      | Some (h, p) =>
          if bool_decide (h <> "") && bool_decide (p <> "") && negb (ContainsByte colon p)
          then JoinHostPort h p
          else JoinHostPort host (Itoa port)
      | None => JoinHostPort host (Itoa port)
      end
  end.

Definition connString (cfg : Config) : string :=
  let port := if cfg_Port cfg =? 0 then DefaultPort else cfg_Port cfg in
  let db := if bool_decide (cfg_Database cfg = "") then defaultDatabase else cfg_Database cfg in
  let sslMode := if bool_decide (cfg_SSLMode cfg = "") then defaultSSLMode
                 else cfg_SSLMode cfg in
  URLString "postgres" (cfg_User cfg) (cfg_Password cfg)
    (normalizeHostPort (cfg_Host cfg) port) db
    ("sslmode=" +:+ escape encodeQueryComponent sslMode).

(** The [Prober] interface: one method. *)
Definition Prober `{Extern} : Type := Config -> M (result Result).

Definition SQLProber_Probe `{Extern} : Prober := fun cfg =>
  r ← pgxConnect (connString cfg);
  match r with
  | Err e => mret (Err (Wrap "connect postgres" e))
  | Ok conn =>
      row ← pgxQuery conn probeQuery;
      let res :=
        match row with
        | Err e => Err (Wrap "query wal progress" e)
        | Ok (inRecovery, lsn, lag) =>
            match ParseLSN lsn with
            | Err e => Err (Wrap ("parse lsn " +:+ Quote lsn) e)
            | Ok v => Ok (mkResult inRecovery lsn v lag)
            end
        end in
      pgxClose conn;; mret res
  end.

(** ** Reference definitions *)

(** PostgreSQL prints an LSN as two upper-case hexadecimal words separated by
    a slash; recent versions pad the low word with zeros. *)
Fixpoint hexWord (fuel : nat) (n : Z) (acc : string) : string :=
  match fuel with
  | O => acc
  | S fuel' =>
      let acc' := String (hexDigitUpper (n mod 16)) acc in
      if n <? 16 then acc' else hexWord fuel' (n / 16) acc'
  end.

Fixpoint zeros (n : nat) : string :=
  match n with O => "" | S n' => String (asciiOf 48) (zeros n') end.

Definition formatLSN (pad : nat) (v : Z) : string :=
  hexWord 8 (v / 2^32) "" +:+ String slash (zeros pad +:+ hexWord 8 (v mod 2^32) "").

(** Percent-decoding, as the receiving side applies it to a URL component. *)
Definition unhexUpper (a : ascii) : option Z :=
  let c := byteOf a in
  if (48 <=? c) && (c <=? 57) then Some (c - 48)
  else if (65 <=? c) && (c <=? 70) then Some (c - 55) else None.

Fixpoint unescape (s : string) : option string :=
  match s with
  | EmptyString => Some EmptyString
  | String a s' =>
      if Ascii.eqb a (asciiOf 37) then
        match s' with
        | String h (String l s'') =>
            match unhexUpper h, unhexUpper l with
            | Some x, Some y => String (asciiOf (16 * x + y)) <$> unescape s''
            | _, _ => None
            end
        | _ => None
        end
      else String a <$> unescape s'
  end.

(** ** LSN parsing *)

Lemma ParseLSN_Ok_iff s v :
  ParseLSN s = Ok v <->
  exists hi lo h l, s = hi +:+ String slash lo /\ ContainsByte slash hi = false /\
    hi <> "" /\ lo <> "" /\
    digitsValue 16 hi 0 = Some h /\ digitsValue 16 lo 0 = Some l /\
    0 <= h < 2^32 /\ 0 <= l < 2^32 /\ v = h * 2^32 + l.
Proof.
  assert (Hnn : forall s n, digitsValue 16 s 0 = Some n -> 0 <= n)
    by (intros; eapply digitsValue_ge; eauto; lia).
  assert (Hv : forall h l, 0 <= h < 2^32 -> 0 <= l < 2^32 ->
            wrap_uint64 (wrap_uint64 (Z.shiftl h 32) + l) = h * 2^32 + l).
  { intros h l Hh Hl. rewrite Z.shiftl_mul_pow2 by lia.
    rewrite !wrap_uint64_id; unfold uint64_range; try lia.
    rewrite wrap_uint64_id; unfold uint64_range; lia. }
  unfold ParseLSN. split.
  - destruct (Cut slash s) as [[hi lo]|] eqn:Hc; [|done]. apply Cut_inv in Hc as [-> Hno].
    case_bool_decide; [done|]. case_bool_decide; [done|]. simpl.
    destruct (ParseUint hi 16 32) as [h|] eqn:Eh; [|done].
    destruct (ParseUint lo 16 32) as [l|] eqn:El; [|done].
    apply ParseUint_hex32 in Eh as (_ & Eh & ?), El as (_ & El & ?).
    intros [= <-]. exists hi, lo, h, l. pose proof (Hnn _ _ Eh). pose proof (Hnn _ _ El).
    rewrite Hv by lia. split_and!; done || lia.
  - intros (hi & lo & h & l & -> & Hno & Hhi & Hlo & Eh & El & Hh & Hl & ->).
    rewrite Cut_app by done. rewrite !bool_decide_eq_false_2 by done. simpl.
    rewrite (proj2 (ParseUint_hex32 hi h)) by naive_solver.
    rewrite (proj2 (ParseUint_hex32 lo l)) by naive_solver.
    by rewrite Hv.
Qed.

Lemma hex_cases (P : Z -> Prop) :
  P 0 -> P 1 -> P 2 -> P 3 -> P 4 -> P 5 -> P 6 -> P 7 -> P 8 -> P 9 -> P 10 ->
  P 11 -> P 12 -> P 13 -> P 14 -> P 15 -> forall d, 0 <= d < 16 -> P d.
Proof.
  intros. assert (d = 0 \/ d = 1 \/ d = 2 \/ d = 3 \/ d = 4 \/ d = 5 \/ d = 6 \/ d = 7 \/ d = 8
    \/ d = 9 \/ d = 10 \/ d = 11 \/ d = 12 \/ d = 13 \/ d = 14 \/ d = 15) by lia.
  by repeat match goal with Hd : _ \/ _ |- _ => destruct Hd as [->|Hd] end; subst.
Qed.

Lemma digitVal_hexDigitUpper d :
  0 <= d < 16 -> digitVal (byteOf (hexDigitUpper d)) = Some d.
Proof. revert d. apply hex_cases; reflexivity. Qed.

Lemma hexDigitUpper_not_slash d :
  0 <= d < 16 -> Ascii.eqb (hexDigitUpper d) slash = false.
Proof. revert d. apply hex_cases; reflexivity. Qed.

Lemma digitsValue_hexWord fuel n acc :
  0 <= n < 16 ^ Z.of_nat fuel -> (0 < fuel)%nat ->
  digitsValue 16 (hexWord fuel n acc) 0 = digitsValue 16 acc n.
Proof.
  revert n acc. induction fuel as [|fuel IH]; intros n acc Hn Hf; [lia|]. simpl.
  assert (Hm : 0 <= n mod 16 < 16) by (apply Z.mod_pos_bound; lia).
  destruct (Z.ltb_spec n 16) as [Hlt|Hge].
  - simpl. rewrite digitVal_hexDigitUpper by done.
    rewrite (proj2 (Z.leb_gt _ _)) by lia. by rewrite Z.mod_small by lia.
  - rewrite Nat2Z.inj_succ, Z.pow_succ_r in Hn by lia.
    destruct fuel as [|fuel]; [simpl in Hn; lia|].
    rewrite IH; [|split; [apply Z.div_pos; lia|apply Z.div_lt_upper_bound; lia]|lia].
    simpl. rewrite digitVal_hexDigitUpper by done.
    rewrite (proj2 (Z.leb_gt _ _)) by lia. f_equal. pose proof (Z.div_mod n 16). lia.
Qed.

Lemma hexWord_nonempty fuel n acc : (0 < fuel)%nat -> hexWord fuel n acc <> "".
Proof.
  revert n acc. induction fuel as [|fuel IH]; intros n acc Hf; [lia|]. simpl.
  case_match; [done|]. destruct fuel; [done|]. apply IH. lia.
Qed.

Lemma hexWord_no_slash fuel n acc :
  ContainsByte slash acc = false -> ContainsByte slash (hexWord fuel n acc) = false.
Proof.
  revert n acc. induction fuel as [|fuel IH]; intros n acc Ha; [done|]. simpl.
  assert (Hs : ContainsByte slash (String (hexDigitUpper (n mod 16)) acc) = false).
  { simpl. rewrite hexDigitUpper_not_slash by (apply Z.mod_pos_bound; lia). done. }
  case_match; [done|]. by apply IH.
Qed.

Lemma digitsValue_zeros k s : digitsValue 16 (zeros k +:+ s) 0 = digitsValue 16 s 0.
Proof. by induction k. Qed.

(** C35. Every 64-bit WAL position survives the trip through PostgreSQL's text
    form: parsing the printed LSN, with or without zero padding of the low
    word, gives the position back. *)
Theorem ParseLSN_formatLSN pad v :
  uint64_range v -> ParseLSN (formatLSN pad v) = Ok v.
Proof.
  unfold uint64_range. intros Hv. apply ParseLSN_Ok_iff.
  assert (Hh : 0 <= v / 2^32 < 2^32)
    by (split; [apply Z.div_pos; lia|apply Z.div_lt_upper_bound; lia]).
  assert (Hl : 0 <= v mod 2^32 < 2^32) by (apply Z.mod_pos_bound; lia).
  eexists _, _, (v / 2^32), (v mod 2^32). split; [done|].
  rewrite digitsValue_zeros, !digitsValue_hexWord by (simpl; lia).
  split_and!; try done; try lia.
  - by apply hexWord_no_slash.
  - apply hexWord_nonempty. lia.
  - destruct pad; [|done]. exact (hexWord_nonempty 8 _ _ ltac:(lia)).
  - pose proof (Z.div_mod v (2^32)). lia.
Qed.

Lemma ParseLSN_formatLSN_witness :
  uint64_range 0x16B374D848 /\ ParseLSN "16/B374D848" = Ok 0x16B374D848.
Proof.
  assert (Hr : uint64_range 0x16B374D848) by (unfold uint64_range; lia).
  split; [done|]. exact (ParseLSN_formatLSN 0 0x16B374D848 Hr).
Defined.

(** The text [s] is a high and a low word in hexadecimal, of any length, around
    a slash. *)
Definition lsnWords (s : string) (h l : Z) : Prop :=
  exists hi lo, s = hi +:+ String slash lo /\ hi <> "" /\ lo <> "" /\
    digitsValue 16 hi 0 = Some h /\ digitsValue 16 lo 0 = Some l.

Lemma digitsValue_no_slash base s n v :
  digitsValue base s n = Some v -> ContainsByte slash s = false.
Proof.
  revert n. induction s as [|c s IH]; intros n; [done|]. simpl.
  destruct (Ascii.eqb_spec c slash) as [->|_]; [done|]. intros E.
  destruct (digitVal (byteOf c)); [|done]. case_match; [done|]. by eapply IH.
Qed.

Lemma lsnWords_unique s h l h' l' : lsnWords s h l -> lsnWords s h' l' -> h = h' /\ l = l'.
Proof.
  intros (hi & lo & -> & _ & _ & Eh & El) (hi' & lo' & E & _ & _ & Eh' & El').
  pose proof (Cut_app slash hi lo (digitsValue_no_slash _ _ _ _ Eh)) as C1.
  pose proof (Cut_app slash hi' lo' (digitsValue_no_slash _ _ _ _ Eh')) as C2.
  rewrite E, C2 in C1. by simplify_eq.
Qed.

Lemma ParseLSN_words s h l v :
  lsnWords s h l -> ParseLSN s = Ok v <-> h < 2^32 /\ l < 2^32 /\ v = h * 2^32 + l.
Proof.
  intros Hw. rewrite ParseLSN_Ok_iff. split.
  - intros (hi & lo & h' & l' & -> & _ & ? & ? & ? & ? & ? & ? & ->).
    destruct (lsnWords_unique _ _ _ h' l' Hw) as [-> ->]; [by exists hi, lo|]. lia.
  - destruct Hw as (hi & lo & -> & ? & ? & Eh & El). intros (? & ? & ->). exists hi, lo, h, l.
    pose proof (digitsValue_ge 16 hi 0 h ltac:(lia) ltac:(lia) Eh).
    pose proof (digitsValue_ge 16 lo 0 l ltac:(lia) ltac:(lia) El).
    split_and!; try done. by eapply digitsValue_no_slash.
Qed.

(** C36. Parsed LSNs are ordered like PostgreSQL orders WAL positions. For any
    two texts made of two hexadecimal words around a slash, in upper or lower
    case and with any padding: a text is accepted exactly when both of its
    words fit in 32 bits, its value is the high word times 2^32 plus the low
    word, which never wraps around, and two values compare by the high words of
    the texts, then by their low words. *)
Theorem ParseLSN_order a b ha la hb lb :
  lsnWords a ha la -> lsnWords b hb lb ->
  (forall v, ParseLSN a = Ok v <-> ha < 2^32 /\ la < 2^32 /\ v = ha * 2^32 + la) /\
  (forall va vb, ParseLSN a = Ok va -> ParseLSN b = Ok vb ->
     uint64_range va /\ (va < vb <-> ha < hb \/ ha = hb /\ la < lb)).
Proof.
  intros Ha Hb. split; [intros v; by apply ParseLSN_words|].
  intros va vb. rewrite (ParseLSN_words _ _ _ _ Ha), (ParseLSN_words _ _ _ _ Hb).
  destruct Ha as (hi & lo & _ & _ & _ & Eh & El), Hb as (hi' & lo' & _ & _ & _ & Eh' & El').
  apply digitsValue_ge in Eh, El, Eh', El'; [|lia..]. intros (? & ? & ->) (? & ? & ->).
  unfold uint64_range. lia.
Qed.

Lemma ParseLSN_order_witness :
  exists va vb, ParseLSN "0/FFFFFFFF" = Ok va /\ ParseLSN "1/0000000a" = Ok vb /\
    uint64_range va /\ va < vb.
Proof.
  exists 0xFFFFFFFF, 0x10000000A. split; [reflexivity|]. split; [reflexivity|].
  assert (Ha : lsnWords "0/FFFFFFFF" 0 0xFFFFFFFF) by by exists "0", "FFFFFFFF".
  assert (Hb : lsnWords "1/0000000a" 1 10) by by exists "1", "0000000a".
  destruct (ParseLSN_order "0/FFFFFFFF" "1/0000000a" 0 0xFFFFFFFF 1 10 Ha Hb) as [_ Ho].
  destruct (Ho 0xFFFFFFFF 0x10000000A eq_refl eq_refl) as [Hr Hlt].
  split; [exact Hr|apply Hlt; lia].
Defined.

(** ** Host and port *)

Lemma ContainsByte_app c a b : ContainsByte c (a +:+ b) = ContainsByte c a || ContainsByte c b.
Proof. induction a as [|x a IH]; simpl; [done|]. by rewrite IH, orb_assoc. Qed.

Lemma lastIndexByte_None c s : lastIndexByte c s = None <-> ContainsByte c s = false.
Proof.
  induction s as [|x s IH]; simpl; [done|].
  destruct (lastIndexByte c s), (Ascii.eqb x c), (ContainsByte c s); naive_solver.
Qed.

Lemma lastIndexByte_app c a b :
  ContainsByte c b = false -> lastIndexByte c (a +:+ String c b) = Some (String.length a).
Proof.
  intros Hb%lastIndexByte_None. induction a as [|x a IH]; simpl.
  - by rewrite Hb, Ascii.eqb_refl.
  - by rewrite IH.
Qed.

Lemma indexByte_app c a b :
  ContainsByte c a = false -> indexByte c (a +:+ String c b) = Some (String.length a).
Proof.
  induction a as [|x a IH]; simpl; intros Ha.
  - by rewrite Ascii.eqb_refl.
  - apply orb_false_iff in Ha as [-> Ha]. by rewrite IH.
Qed.

Lemma dropStr_S_app a c b : dropStr (S (String.length a)) (a +:+ String c b) = b.
Proof. by induction a. Qed.

Lemma last_split c s :
  ContainsByte c s = true ->
  exists a b, s = a +:+ String c b /\ ContainsByte c b = false.
Proof.
  induction s as [|x s IH]; simpl; [done|]. intros Hx.
  destruct (ContainsByte c s) eqn:Hs.
  - destruct IH as (a & b & -> & Hb); [done|]. by exists (String x a), b.
  - rewrite orb_false_r in Hx. apply Ascii.eqb_eq in Hx as ->. by exists "", s.
Qed.

Lemma string_app_assoc' h c a d b :
  h +:+ String c (a +:+ String d b) = (h +:+ String c a) +:+ String d b.
Proof. by rewrite string_app_assoc. Qed.

(** A character other than [c] at the head of a string without [c]. *)
Lemma get0_no_byte c s : ContainsByte c s = false -> String.get 0 s <> Some c.
Proof.
  destruct s as [|x s]; simpl; [done|]. intros [Hx _]%orb_false_iff [= ->].
  by rewrite Ascii.eqb_refl in Hx.
Qed.

Definition bracketFree (s : string) : Prop :=
  ContainsByte lbrack s = false /\ ContainsByte rbrack s = false.

Lemma SplitHostPort_plain h p :
  bracketFree h -> bracketFree p ->
  ContainsByte colon h = false -> ContainsByte colon p = false ->
  SplitHostPort (h +:+ String colon p) = Some (h, p).
Proof.
  intros [Hl Hr] [Pl Pr] Hc Pc. unfold SplitHostPort.
  rewrite lastIndexByte_app by done.
  rewrite bool_decide_eq_false_2.
  2: { apply get0_no_byte. rewrite ContainsByte_app, Hl. simpl. by rewrite Pl. }
  rewrite takeStr_app, Hc. simpl.
  rewrite !ContainsByte_app, Hl, Hr. simpl. rewrite Pl, Pr. by rewrite dropStr_S_app.
Qed.

Lemma SplitHostPort_bracketed h p :
  bracketFree h -> bracketFree p -> ContainsByte colon p = false ->
  SplitHostPort ("[" +:+ h +:+ "]:" +:+ p) = Some (h, p).
Proof.
  intros [Hl Hr] [Pl Pr] Pc. unfold SplitHostPort.
  assert (E : "[" +:+ h +:+ "]:" +:+ p = (String lbrack h +:+ String rbrack "") +:+ String colon p).
  { simpl. by rewrite string_app_assoc. }
  rewrite E at 1. rewrite lastIndexByte_app by done.
  rewrite bool_decide_eq_true_2 by done.
  assert (E2 : "[" +:+ h +:+ "]:" +:+ p = String lbrack h +:+ String rbrack (String colon p)) by done.
  rewrite E2, indexByte_app by (simpl; by rewrite Hr).
  assert (Hlen : String.length (String lbrack h +:+ String rbrack "") = S (String.length (String lbrack h))).
  { generalize (String lbrack h). intros x. induction x; simpl; congruence. }
  rewrite bool_decide_eq_true_2 by (by rewrite Hlen).
  rewrite takeStr_app, dropStr_S_app.
  change (dropStr 1 (String lbrack h +:+ String rbrack (String colon p)))
    with (h +:+ String rbrack (String colon p)).
  rewrite ContainsByte_app, Hl. cbn [ContainsByte orb]. rewrite Pl, Pr.
  change (String lbrack h +:+ String rbrack (String colon p)) with ("[" +:+ h +:+ "]:" +:+ p).
  by rewrite E, dropStr_S_app.
Qed.

Lemma pretty_N_go_no_byte c x s :
  (forall d, Ascii.eqb (pretty_N_char d) c = false) ->
  ContainsByte c s = false -> ContainsByte c (pretty_N_go x s) = false.
Proof.
  intros Hc. revert s. induction (N.lt_wf_0 x) as [x _ IH]; intros s Hs.
  destruct (N.eq_dec x 0) as [->|Hx]; [by rewrite pretty_N_go_0|].
  rewrite pretty_N_go_step by lia. apply IH; [by apply N.div_lt; lia|].
  simpl. by rewrite Hc.
Qed.

Lemma Itoa_no_byte c z :
  (forall d, Ascii.eqb (pretty_N_char d) c = false) -> Ascii.eqb (asciiOf 45) c = false ->
  ContainsByte c (Itoa z) = false.
Proof.
  intros Hd Hm. unfold Itoa, pretty, pretty_Z.
  assert (Hp : forall p : positive, ContainsByte c (pretty_N_go (N.pos p) "") = false)
    by (intros; by apply pretty_N_go_no_byte).
  destruct z as [|p|p]; simpl.
  - pose proof (Hd 0%N) as H0. simpl in H0. by rewrite H0.
  - apply Hp.
  - change (Ascii.eqb (asciiOf 45) c || ContainsByte c (pretty_N_go (N.pos p) "") = false).
    by rewrite Hm, Hp.
Qed.

Lemma Itoa_plain port : bracketFree (Itoa port) /\ ContainsByte colon (Itoa port) = false.
Proof.
  unfold bracketFree. split_and!; apply Itoa_no_byte; try done; intros d; unfold pretty_N_char; by repeat case_match.
Qed.

Lemma JoinHostPort_plain h p :
  ContainsByte colon h = false -> JoinHostPort h p = h +:+ String colon p.
Proof. unfold JoinHostPort. by intros ->. Qed.

Lemma SplitHostPort_too_many x b :
  bracketFree (x +:+ String colon b) -> ContainsByte colon x = true ->
  ContainsByte colon b = false -> SplitHostPort (x +:+ String colon b) = None.
Proof.
  intros [Hl Hr] Hx Hb. unfold SplitHostPort. rewrite lastIndexByte_app by done.
  rewrite bool_decide_eq_false_2 by (by apply get0_no_byte). by rewrite takeStr_app, Hx.
Qed.

Lemma SplitHostPort_no_colon h : ContainsByte colon h = false -> SplitHostPort h = None.
Proof. intros Hc%lastIndexByte_None. unfold SplitHostPort. by rewrite Hc. Qed.

Lemma bracketFree_app a b : bracketFree (a +:+ b) <-> bracketFree a /\ bracketFree b.
Proof.
  unfold bracketFree. rewrite !ContainsByte_app, !orb_false_iff. tauto.
Qed.

Lemma JoinHostPort_splits h p :
  bracketFree h -> bracketFree p -> ContainsByte colon p = false ->
  SplitHostPort (JoinHostPort h p) = Some (h, p).
Proof.
  intros Hh Hp Hc. unfold JoinHostPort. destruct (ContainsByte colon h) eqn:E.
  - by apply SplitHostPort_bracketed.
  - by apply SplitHostPort_plain.
Qed.

(** For a host without brackets (a DNS name, an IPv4 or a bare IPv6
    address, with or without a port) the host-port pair put into the URL can
    be split again: an explicit port of the endpoint wins, the configured
    port is used otherwise, and a bare IPv6 address is bracketed. *)
Theorem normalizeHostPort_splits host port :
  bracketFree host ->
  SplitHostPort (normalizeHostPort host port) =
    Some (match Cut colon host with
          | None => (host, Itoa port)
          | Some (h, p) => if ContainsByte colon p then (host, Itoa port) else (h, p)
          end).
Proof.
  intros Hb. destruct (Itoa_plain port) as [Ib Ic]. unfold normalizeHostPort.
  destruct (Cut colon host) as [[h p]|] eqn:Hc.
  - apply Cut_inv in Hc as [-> Hh].
    assert (Hs : bracketFree h /\ bracketFree p).
    { apply bracketFree_app in Hb as [? [H1 H2]]. done. }
    destruct Hs as [Hbh Hbp]. destruct (ContainsByte colon p) eqn:Hp.
    + destruct (last_split _ _ Hp) as (a & b & -> & Hbb).
      rewrite (string_app_assoc' h colon a colon b) in Hb |- *.
      rewrite (SplitHostPort_too_many (h +:+ String colon a) b Hb); [| |done].
      2: { by rewrite ContainsByte_app, orb_true_r. }
      rewrite andb_false_r. apply JoinHostPort_splits; assumption.
    + rewrite (SplitHostPort_plain h p) by done. by apply JoinHostPort_splits.
  - apply Cut_None in Hc. rewrite (SplitHostPort_no_colon host) by done.
    by apply JoinHostPort_splits.
Qed.

Lemma normalizeHostPort_splits_witness :
  bracketFree "pg-rw.site-a.svc:6432" /\
  SplitHostPort (normalizeHostPort "pg-rw.site-a.svc:6432" 5432) =
    Some ("pg-rw.site-a.svc", "6432").
Proof.
  split; [by split|].
  exact (normalizeHostPort_splits "pg-rw.site-a.svc:6432" 5432 (conj eq_refl eq_refl)).
Defined.

(** A bracketed IPv6 literal without a port, a form RFC 3986 prescribes,
    is bracketed a second time: the host-port pair in the URL is then not a
    valid address. *)
Theorem normalizeHostPort_bracketed_v6 :
  normalizeHostPort "[2001:db8::1]" DefaultPort = "[[2001:db8::1]]:5432" /\
  SplitHostPort (normalizeHostPort "[2001:db8::1]" DefaultPort) = None.
Proof. split; vm_compute; reflexivity. Qed.

(** ** Credentials in the connection URL *)

Definition atSign : ascii := asciiOf 64.

(** A property of a byte that can be checked on each of the 256 values. *)
Lemma ascii_cases (P : ascii -> bool) :
  forallb (fun n => P (ascii_of_nat n)) (seq 0 256) = true -> forall a, P a = true.
Proof.
  intros Hf a. rewrite forallb_forall in Hf.
  rewrite <- (ascii_nat_embedding a). apply Hf, in_seq.
  pose proof (nat_ascii_bounded a). lia.
Qed.

Definition safeByte (sep a : ascii) : bool :=
  negb (ContainsByte sep (escapeByte encodeUserPassword a)).

Lemma escape_no_sep sep s :
  (forall a, safeByte sep a = true) ->
  ContainsByte sep (escape encodeUserPassword s) = false.
Proof.
  intros Hs. induction s as [|a s IH]; simpl; [done|].
  rewrite ContainsByte_app, IH, orb_false_r. by apply negb_true_iff, Hs.
Qed.

Lemma escape_no_at s : ContainsByte atSign (escape encodeUserPassword s) = false.
Proof. apply escape_no_sep, ascii_cases. vm_compute. reflexivity. Qed.

Lemma escape_no_colon s : ContainsByte colon (escape encodeUserPassword s) = false.
Proof. apply escape_no_sep, ascii_cases. vm_compute. reflexivity. Qed.

(** Each escaped byte is either itself, and not a percent sign, or a percent
    sign followed by the two hexadecimal digits of its code. *)
Definition escapeShape (a : ascii) : bool :=
  match escapeByte encodeUserPassword a with
  | String x EmptyString => Ascii.eqb x a && negb (Ascii.eqb x (asciiOf 37))
  | String p (String h (String l EmptyString)) =>
      Ascii.eqb p (asciiOf 37) &&
      match unhexUpper h, unhexUpper l with
      | Some x, Some y => Ascii.eqb (asciiOf (16 * x + y)) a
      | _, _ => false
      end
  | _ => false
  end.

Lemma escapeShape_all a : escapeShape a = true.
Proof. apply ascii_cases. vm_compute. reflexivity. Qed.

Lemma unescape_escapeByte a s :
  unescape (escapeByte encodeUserPassword a +:+ s) = String a <$> unescape s.
Proof.
  pose proof (escapeShape_all a) as Hs. unfold escapeShape in Hs.
  destruct (escapeByte encodeUserPassword a) as [|p [|h [|l [|]]]]; try done.
  - apply andb_true_iff in Hs as [->%Ascii.eqb_eq Hp%negb_true_iff].
    cbn [String.append unescape]. by rewrite Hp.
  - apply andb_true_iff in Hs as [Hp Hs]. cbn [String.append unescape]. rewrite Hp.
    destruct (unhexUpper h), (unhexUpper l); try done. by apply Ascii.eqb_eq in Hs as ->.
Qed.

Lemma unescape_escape s : unescape (escape encodeUserPassword s) = Some s.
Proof. induction s as [|a s IH]; [done|]. cbn [escape]. by rewrite unescape_escapeByte, IH. Qed.

(** Credentials cannot escape their part of the connection URL: whatever
    bytes the user name and the password hold, the text between the scheme
    and the first '@' is the escaped user, a ':' and the escaped password,
    the first ':' in it separates the two, and decoding gives the original
    credentials back. *)
Theorem connString_credentials cfg :
  exists eu ep rest,
    connString cfg = "postgres://" +:+ (eu +:+ String colon ep) +:+ String atSign rest /\
    Cut atSign ((eu +:+ String colon ep) +:+ String atSign rest)
      = Some (eu +:+ String colon ep, rest) /\
    Cut colon (eu +:+ String colon ep) = Some (eu, ep) /\
    unescape eu = Some (cfg_User cfg) /\ unescape ep = Some (cfg_Password cfg).
Proof.
  exists (escape encodeUserPassword (cfg_User cfg)),
    (escape encodeUserPassword (cfg_Password cfg)).
  eexists. split_and!.
  - unfold connString, URLString. rewrite string_app_assoc. reflexivity.
  - apply Cut_app. rewrite ContainsByte_app, escape_no_at. simpl. apply escape_no_at.
  - apply Cut_app, escape_no_colon.
  - apply unescape_escape.
  - apply unescape_escape.
Qed.

(** A successful probe of PostgreSQL carries the value of the LSN it
    reports, and every connection that was opened is closed, on every path. *)
Theorem SQLProber_Probe_run `{Extern} cfg :
  talks (SQLProber_Probe cfg) (fun t r =>
    match r with
    | Ok v => ParseLSN (res_LSN v) = Ok (res_LSNValue v)
    | Err _ => True
    end /\
    forall conn, CPgConnect (connString cfg) (Ok conn) ∈ t -> last t = Some (CPgClose conn)).
Proof.
  unfold SQLProber_Probe. talks_step. destruct a as [conn|e].
  - talks_step. rename a into row. talks_step. talks_step. split.
    + destruct row as [[[rec lsn] lag]|e]; [|done].
      destruct (ParseLSN lsn) eqn:E; done.
    + simpl. intros c. rewrite !elem_of_cons. intros [[= ->]|[[=]|[[=]|[]%not_elem_of_nil]]].
      done.
  - talks_step. split; [done|]. intros c. rewrite list_elem_of_singleton. by intros [=].
Qed.
