(* ===== verification/Health.v ===== *)
(** * internal/health: the health of one site, read from its CNPG Cluster *)

From S2P Require Import Prelude GoStd Api External Operator FakeKube Fixtures.

Record SiteHealth : Type := mkHealth {
  sh_Reachable : bool;
  sh_Primary : bool;
  sh_Ready : bool;
  sh_Phase : string;
  sh_Reason : string;
  sh_TimelineID : Z;               (* int64 *)
  sh_LSNKnown : bool;
  sh_LSN : string;
  sh_LSNValue : Z;                 (* uint64 *)
  sh_LagSeconds : option float64
}.

Definition replicaEnabledPath : list string := ["spec"; "replica"; "enabled"].

Section health.
Context `{Extern}.

Definition parseCluster (u : json) : SiteHealth :=
  let '(replicaEnabled, found, _) := NestedBool u replicaEnabledPath in
  let '(phase, _, _) := NestedString u ["status"; "phase"] in
  let '(timelineID, _, _) := NestedInt64 u ["status"; "timelineID"] in
  let '(readyInstances, _, _) := NestedInt64 u ["status"; "readyInstances"] in
  let ready := 0 <? readyInstances in
  mkHealth false (negb found || negb replicaEnabled) ready phase
    (if negb ready
     then "not ready (phase=" +:+ Quote phase +:+ ", readyInstances="
          +:+ Itoa readyInstances +:+ ")"
     else "")
    timelineID false "" 0 None.

Definition setReachable (h : SiteHealth) : SiteHealth :=
  mkHealth true (sh_Primary h) (sh_Ready h) (sh_Phase h) (sh_Reason h) (sh_TimelineID h)
    (sh_LSNKnown h) (sh_LSN h) (sh_LSNValue h) (sh_LagSeconds h).

Definition Probe (cli : client) (ref : NamespacedName) : M SiteHealth :=
  r ← getCluster cli ref;
  match r with
  | Err e =>
      mret (mkHealth false false false ""
              ("get cnpg cluster " +:+ nn_namespace ref +:+ "/" +:+ nn_name ref +:+ ": "
               +:+ Error e) 0 false "" 0 None)
  | Ok u => mret (setReachable (parseCluster u))
  end.

(** What the observation of a Cluster object means. *)
Definition clusterIsReplica (u : json) : Prop :=
  field_at u replicaEnabledPath = NFound (JBool true).

Definition readyInstancesOf (u : json) : Z :=
  match field_at u ["status"; "readyInstances"] with NFound (JInt n) => n | _ => 0 end.

#[export] Instance clusterIsReplica_dec u : Decision (clusterIsReplica u).
Proof.
  unfold clusterIsReplica. destruct (field_at u replicaEnabledPath) as [[|[]| | | | |]| | |];
    first [by left | by right].
Defined.

Section laws.
Context `{!UnstructuredLaws}.

Lemma NestedBool_replica u :
  (negb (NestedBool u replicaEnabledPath).1.2 || negb (NestedBool u replicaEnabledPath).1.1)
  = negb (bool_decide (clusterIsReplica u)).
Proof.
  pose proof (NestedBool_law u replicaEnabledPath) as L. unfold nested_accessor in L.
  case_bool_decide as Hd; unfold clusterIsReplica in Hd.
  - rewrite Hd in L. simpl in L. by rewrite L.
  - destruct (field_at u replicaEnabledPath) as [[|[]| | | | |]| | |]; simpl in L;
      try match type of L with ex _ => destruct L as [e L] end; by rewrite L.
Qed.

Lemma NestedInt64_value u p :
  (NestedInt64 u p).1.1 = match field_at u p with NFound (JInt n) => n | _ => 0 end.
Proof.
  pose proof (NestedInt64_law u p) as L. unfold nested_accessor in L.
  destruct (field_at u p) as [[]| | |]; simpl in L;
    try match type of L with ex _ => destruct L as [e L] end; by rewrite L.
Qed.

Lemma parseCluster_fields u :
  sh_Primary (parseCluster u) = negb (bool_decide (clusterIsReplica u)) /\
  sh_Ready (parseCluster u) = (0 <? readyInstancesOf u) /\
  (sh_Reason (parseCluster u) = "" <-> sh_Ready (parseCluster u) = true).
Proof.
  rewrite <- NestedBool_replica. unfold readyInstancesOf. rewrite <- NestedInt64_value.
  unfold parseCluster.
  destruct (NestedBool u replicaEnabledPath) as [[en fo] e0].
  destruct (NestedString u _) as [[ph f1] e1].
  destruct (NestedInt64 u ["status"; "timelineID"]) as [[tl f2] e2].
  destruct (NestedInt64 u ["status"; "readyInstances"]) as [[n f3] e3]; simpl.
  split_and!; [done|done|]. by destruct (0 <? n).
Qed.

(** The role and readiness the operator derives from a CNPG Cluster are
    the documented ones: a site is a primary exactly when
    spec.replica.enabled is not the boolean true, ready exactly when
    status.readyInstances is a positive integer, and carries an explanation
    exactly when it is not ready. *)
Theorem parseCluster_spec u :
  (sh_Primary (parseCluster u) = true <-> ~ clusterIsReplica u) /\
  (sh_Ready (parseCluster u) = true <-> 0 < readyInstancesOf u) /\
  (sh_Reason (parseCluster u) = "" <-> sh_Ready (parseCluster u) = true).
Proof.
  destruct (parseCluster_fields u) as (-> & -> & Hr). split_and!; [|apply Z.ltb_lt|done].
  rewrite negb_true_iff. apply bool_decide_eq_false.
Qed.
End laws.

Lemma Probe_talks cli ref :
  talks (Probe cli ref) (fun t h => exists r, t = [CGetCluster cli ref r] /\
    match r with
    | Ok u => h = setReachable (parseCluster u)
    | Err _ => sh_Reachable h = false /\ sh_Primary h = false /\ sh_Ready h = false /\
               sh_Reason h <> ""
    end).
Proof.
  unfold Probe. talks_step. destruct a as [u|e]; talks_step; eexists; (split; [done|]); done.
Qed.

(** Probing a site is one read and never an error or a panic: an
    unanswered read yields an unreachable, not ready, non-primary observation
    with a reason; an answered one yields the parsed Cluster, marked
    reachable. Nothing else of the operator's state changes. *)
Theorem Probe_run cli ref s :
  exists h w r, Probe cli ref s = (Val h, advance w [CGetCluster cli ref r] s) /\
    clientGetCluster cli ref (op_world s) = (r, w) /\
    match r with
    | Ok u => h = setReachable (parseCluster u)
    | Err _ => sh_Reachable h = false /\ sh_Primary h = false /\ sh_Ready h = false /\
               sh_Reason h <> ""
    end.
Proof.
  destruct (Probe_talks cli ref s) as (t & h & w & E & Hx & r & -> & Hr).
  exists h, w, r. inversion Hx as [|? ? w1 ? ? Ha Hn]; subst. by inversion Hn; subst.
Qed.
End health.

(** A site whose Cluster has no replica section and one ready instance. *)
Lemma parseCluster_spec_witness :
  sh_Primary (parseCluster (samplePrimary "db" "pg-prod")) = true /\
  (sh_Primary (parseCluster (samplePrimary "db" "pg-prod")) = true <->
    ~ clusterIsReplica (samplePrimary "db" "pg-prod")).
Proof.
  split; [vm_compute; reflexivity|].
  exact (proj1 (parseCluster_spec (samplePrimary "db" "pg-prod"))).
Defined.
