(* ===== verification/Promotion.v ===== *)
(** * internal/promotion: the idempotent steps of a failover

    [Fence], [Promote], [Reconfigure] and [FlipCiliumService] as monadic
    programs. For each step an inductive relation lists its possible runs
    (the calls it makes and the error it returns, branch by branch), the step
    is shown to follow it for any behaviour of the API server, and under the
    store laws the effect on the stored object is derived. *)

From S2P Require Import Prelude GoStd Api External Operator FakeKube Fixtures Health.

Definition AnnotationFenced : string := "cnpg.io/fencedInstances".
Definition FencedAllInstances : string := "[" +:+ dquote +:+ "*" +:+ dquote +:+ "]".
Definition AnnotationCiliumGlobal : string := "service.cilium.io/global".
Definition AnnotationCiliumAffinity : string := "service.cilium.io/affinity".

Record Ref : Type := mkRef { ref_Namespace : string; ref_Name : string }.

Inductive ServiceRole : Type := RoleLocal | RoleRemote.

Definition affinityValue (r : ServiceRole) : string :=
  match r with RoleRemote => "remote" | RoleLocal => "local" end.

Definition refKey (ref : Ref) : NamespacedName := NN (ref_Namespace ref) (ref_Name ref).

(** The ["%s/%s"] of the error prefixes. *)
Definition refString (ref : Ref) : string := ref_Namespace ref +:+ "/" +:+ ref_Name ref.

Definition getPrefix (ref : Ref) : string := "get cnpg cluster " +:+ refString ref.

Section promotion.
Context `{Extern}.

(** ** Fence *)

(** The Cluster carries the annotation that fences every instance. *)
Definition fenced (u : json) : Prop :=
  mapIndex (GetAnnotations u) AnnotationFenced = FencedAllInstances.

Definition fenceObject (u : json) : json :=
  SetAnnotations u (mapSet (GetAnnotations u) AnnotationFenced FencedAllInstances).

Definition Fence (cli : client) (ref : Ref) : M (result unit) :=
  r ← getCluster cli (refKey ref);
  match r with
  | Err e => mret (Err (Wrap (getPrefix ref) e))
  | Ok u =>
      if bool_decide (mapIndex (GetAnnotations u) AnnotationFenced = FencedAllInstances)
      then mret (Ok tt)
      else
        r' ← updateCluster cli (fenceObject u);
        mret (wrapErr ("fence cnpg cluster " +:+ refString ref) r')
  end.

(** ** Promote *)

Definition Promote (cli : client) (ref : Ref) : M (result unit) :=
  r ← getCluster cli (refKey ref);
  match r with
  | Err e => mret (Err (Wrap (getPrefix ref) e))
  | Ok u =>
      let '(enabled, found, err) := NestedBool u replicaEnabledPath in
      match err with
      | Some e => mret (Err (Wrap ("read spec.replica.enabled " +:+ refString ref) e))
      | None =>
          if negb found || negb enabled then mret (Ok tt)
          else
            match SetNestedField u (JBool false) replicaEnabledPath with
            | Err e => mret (Err (Wrap ("set spec.replica.enabled " +:+ refString ref) e))
            | Ok u' =>
                r' ← updateCluster cli u';
                mret (wrapErr ("promote cnpg cluster " +:+ refString ref) r')
            end
      end
  end.

(** ** Reconfigure *)

Definition externalClustersPath : list string := ["spec"; "externalClusters"].
Definition replicaSourcePath : list string := ["spec"; "replica"; "source"].

(** [name, _ := m["name"].(string)] *)
Definition externalName (m : gmap string json) : string :=
  match m !! "name" with Some (JString s) => s | _ => "" end.

(** The loop [for i, e := range externals] from index [i]. *)
Fixpoint findExternal (externals : list json) (source : string) (i : nat) : option nat :=
  match externals with
  | [] => None
  | JObj m :: rest =>
      if bool_decide (externalName m = source) then Some i else findExternal rest source (S i)
  | _ :: rest => findExternal rest source (S i)
  end.

Definition externalClusterIndex (externals : list json) (source : string) : result nat :=
  if bool_decide (source = "") then
    if bool_decide (length externals <> 1%nat)
    then Err (ErrorString ("spec.replica.source unset and " +:+ Itoa (Z.of_nat (length externals))
                           +:+ " externalClusters (ambiguous)"))
    else Ok 0%nat
  else
    match findExternal externals source 0 with
    | Some i => Ok i
    | None => Err (ErrorString ("spec.replica.source " +:+ Quote source
                                +:+ " has no matching externalCluster"))
    end.

(** [conn, _ := ext["connectionParameters"].(map[string]any)], nil replaced
    by an empty map *)
Definition connectionParameters (ext : gmap string json) : gmap string json :=
  match ext !! "connectionParameters" with Some (JObj c) => c | _ => ∅ end.

(** [conn["host"] == sourceHost] *)
Definition hostIs (conn : gmap string json) (host : string) : bool :=
  match conn !! "host" with Some (JString h) => bool_decide (h = host) | _ => false end.

(** [conn["host"] = sourceHost; ext["connectionParameters"] = conn] *)
Definition repointExternal (ext : gmap string json) (host : string) : json :=
  JObj (<["connectionParameters" :=
            JObj (<["host" := JString host]> (connectionParameters ext))]> ext).

(** What Reconfigure decides from the Cluster it read. The index that
    externalClusterIndex returns is in range (externalClusterIndex_spec), so
    the last case of [reconfigureObject] is the failed type assertion only. *)
Inductive reconfigurePlan : Type :=
  | PlanFail (e : goerr)
  | PlanNothing
  | PlanWrite (u : json).

Definition reconfigureObject (ref : Ref) (u : json) (sourceHost : string) : reconfigurePlan :=
  let '(externals, _, err) := NestedSlice u externalClustersPath in
  match err with
  | Some e => PlanFail (Wrap ("read spec.externalClusters " +:+ refString ref) e)
  | None =>
      if bool_decide (length externals = 0%nat)
      then PlanFail (ErrorString ("reconfigure cnpg cluster " +:+ refString ref
                                  +:+ ": no spec.externalClusters to repoint"))
      else
        let '(source, _, _) := NestedString u replicaSourcePath in
        match externalClusterIndex externals source with
        | Err e => PlanFail (Wrap ("reconfigure cnpg cluster " +:+ refString ref) e)
        | Ok idx =>
            match externals !! idx with
            | Some (JObj ext) =>
                let '(enabled, _, _) := NestedBool u replicaEnabledPath in
                if enabled && hostIs (connectionParameters ext) sourceHost then PlanNothing
                else
                  match SetNestedSlice u (<[idx := repointExternal ext sourceHost]> externals)
                          externalClustersPath with
                  | Err e => PlanFail (Wrap ("set spec.externalClusters " +:+ refString ref) e)
                  | Ok u1 =>
                      match SetNestedField u1 (JBool true) replicaEnabledPath with
                      | Err e => PlanFail (Wrap ("set spec.replica.enabled " +:+ refString ref) e)
                      | Ok u2 => PlanWrite u2
                      end
                  end
            | _ => PlanFail (ErrorString ("reconfigure cnpg cluster " +:+ refString ref
                     +:+ ": externalClusters[" +:+ Itoa (Z.of_nat idx) +:+ "] is not an object"))
            end
        end
  end.

Definition Reconfigure (cli : client) (ref : Ref) (sourceHost : string) : M (result unit) :=
  if bool_decide (sourceHost = "")
  then mret (Err (ErrorString ("reconfigure cnpg cluster " +:+ refString ref
                               +:+ ": empty source host")))
  else
    r ← getCluster cli (refKey ref);
    match r with
    | Err e => mret (Err (Wrap (getPrefix ref) e))
    | Ok u =>
        match reconfigureObject ref u sourceHost with
        | PlanFail e => mret (Err e)
        | PlanNothing => mret (Ok tt)
        | PlanWrite u' =>
            r' ← updateCluster cli u';
            mret (wrapErr ("reconfigure cnpg cluster " +:+ refString ref) r')
        end
    end.

(** ** FlipCiliumService *)

Definition svcNameOf (ref : Ref) : string := ref_Name ref +:+ "-rw".
Definition svcKeyOf (ref : Ref) : NamespacedName := NN (ref_Namespace ref) (svcNameOf ref).

(** The Service is global with the affinity of [role]. *)
Definition flipped (role : ServiceRole) (svc : Service) : Prop :=
  mapIndex (svc_Annotations svc) AnnotationCiliumGlobal = "true" /\
  mapIndex (svc_Annotations svc) AnnotationCiliumAffinity = affinityValue role.

Definition flipObject (role : ServiceRole) (svc : Service) : Service :=
  mkService (svc_Namespace svc) (svc_Name svc)
    (mapSet (mapSet (svc_Annotations svc) AnnotationCiliumGlobal "true")
       AnnotationCiliumAffinity (affinityValue role))
    (svc_rest svc).

Definition FlipCiliumService (cli : client) (ref : Ref) (role : ServiceRole) : M (result unit) :=
  r ← getService cli (svcKeyOf ref);
  match r with
  | Err e => mret (Err (Wrap ("get service " +:+ ref_Namespace ref +:+ "/" +:+ svcNameOf ref) e))
  | Ok svc =>
      if bool_decide (mapIndex (svc_Annotations svc) AnnotationCiliumGlobal = "true") &&
         bool_decide (mapIndex (svc_Annotations svc) AnnotationCiliumAffinity
                      = affinityValue role)
      then mret (Ok tt)
      else
        r' ← updateService cli (flipObject role svc);
        mret (wrapErr ("update service " +:+ ref_Namespace ref +:+ "/" +:+ svcNameOf ref) r')
  end.

#[export] Instance fenced_dec u : Decision (fenced u).
Proof. unfold fenced. apply _. Defined.

#[export] Instance flipped_dec role svc : Decision (flipped role svc).
Proof. unfold flipped. apply _. Defined.

(** ** The runs of each step *)

Inductive fence_run (c : client) (ref : Ref) : list apicall -> result unit -> Prop :=
  | fence_unread e :
      fence_run c ref [CGetCluster c (refKey ref) (Err e)] (Err (Wrap (getPrefix ref) e))
  | fence_already u :
      fenced u -> fence_run c ref [CGetCluster c (refKey ref) (Ok u)] (Ok tt)
  | fence_write u r :
      ~ fenced u ->
      fence_run c ref [CGetCluster c (refKey ref) (Ok u); CUpdateCluster c (fenceObject u) r]
        (wrapErr ("fence cnpg cluster " +:+ refString ref) r).

Inductive promote_run (c : client) (ref : Ref) : list apicall -> result unit -> Prop :=
  | promote_unread e :
      promote_run c ref [CGetCluster c (refKey ref) (Err e)] (Err (Wrap (getPrefix ref) e))
  | promote_malformed u e :
      (NestedBool u replicaEnabledPath).2 <> None \/
      ((NestedBool u replicaEnabledPath).1 = (true, true) /\
       forall u', SetNestedField u (JBool false) replicaEnabledPath <> Ok u') ->
      promote_run c ref [CGetCluster c (refKey ref) (Ok u)] (Err e)
  | promote_already u :
      (NestedBool u replicaEnabledPath).1 <> (true, true) ->
      promote_run c ref [CGetCluster c (refKey ref) (Ok u)] (Ok tt)
  | promote_write u u' r :
      (NestedBool u replicaEnabledPath).1 = (true, true) ->
      SetNestedField u (JBool false) replicaEnabledPath = Ok u' ->
      promote_run c ref [CGetCluster c (refKey ref) (Ok u); CUpdateCluster c u' r]
        (wrapErr ("promote cnpg cluster " +:+ refString ref) r).

Inductive reconfigure_run (c : client) (ref : Ref) (host : string)
    : list apicall -> result unit -> Prop :=
  | reconfigure_empty e : host = "" -> reconfigure_run c ref host [] (Err e)
  | reconfigure_unread e :
      host <> "" -> reconfigure_run c ref host [CGetCluster c (refKey ref) (Err e)]
        (Err (Wrap (getPrefix ref) e))
  | reconfigure_refuse u e :
      host <> "" -> reconfigureObject ref u host = PlanFail e ->
      reconfigure_run c ref host [CGetCluster c (refKey ref) (Ok u)] (Err e)
  | reconfigure_already u :
      host <> "" -> reconfigureObject ref u host = PlanNothing ->
      reconfigure_run c ref host [CGetCluster c (refKey ref) (Ok u)] (Ok tt)
  | reconfigure_write u u' r :
      host <> "" -> reconfigureObject ref u host = PlanWrite u' ->
      reconfigure_run c ref host [CGetCluster c (refKey ref) (Ok u); CUpdateCluster c u' r]
        (wrapErr ("reconfigure cnpg cluster " +:+ refString ref) r).

Inductive flip_run (c : client) (ref : Ref) (role : ServiceRole)
    : list apicall -> result unit -> Prop :=
  | flip_unread e :
      flip_run c ref role [CGetService c (svcKeyOf ref) (Err e)]
        (Err (Wrap ("get service " +:+ ref_Namespace ref +:+ "/" +:+ svcNameOf ref) e))
  | flip_already svc :
      flipped role svc -> flip_run c ref role [CGetService c (svcKeyOf ref) (Ok svc)] (Ok tt)
  | flip_write svc r :
      ~ flipped role svc ->
      flip_run c ref role
        [CGetService c (svcKeyOf ref) (Ok svc); CUpdateService c (flipObject role svc) r]
        (wrapErr ("update service " +:+ ref_Namespace ref +:+ "/" +:+ svcNameOf ref) r).

Lemma Fence_talks c ref : talks (Fence c ref) (fence_run c ref).
Proof.
  unfold Fence. talks_step. destruct a as [u|e].
  - case_bool_decide; repeat talks_step; by constructor.
  - talks_step. constructor.
Qed.

Lemma Promote_talks c ref : talks (Promote c ref) (promote_run c ref).
Proof.
  unfold Promote. talks_step. destruct a as [u|e]; [|talks_step; constructor].
  destruct (NestedBool u replicaEnabledPath) as [[en fo] err] eqn:E.
  destruct err; [talks_step; constructor; left; by rewrite E|].
  destruct (negb fo || negb en) eqn:Hb.
  - talks_step. apply promote_already. rewrite E. by intros [= -> ->].
  - apply orb_false_iff in Hb as [Hf%negb_false_iff Hn%negb_false_iff]. subst.
    destruct (SetNestedField u (JBool false) replicaEnabledPath) eqn:Hs.
    + repeat talks_step. eapply promote_write; [by rewrite E|done].
    + talks_step. constructor. right. by rewrite E, Hs.
Qed.

Lemma Reconfigure_talks c ref host : talks (Reconfigure c ref host) (reconfigure_run c ref host).
Proof.
  unfold Reconfigure. case_bool_decide; [talks_step; by constructor|].
  talks_step. destruct a as [u|e]; [|talks_step; by constructor].
  destruct (reconfigureObject ref u host) eqn:E; repeat talks_step; by econstructor.
Qed.

Lemma FlipCiliumService_talks c ref role :
  talks (FlipCiliumService c ref role) (flip_run c ref role).
Proof.
  unfold FlipCiliumService. talks_step. destruct a as [svc|e]; [|talks_step; constructor].
  destruct (bool_decide _ && bool_decide _) eqn:E; bool_prop.
  - talks_step. by constructor.
  - repeat talks_step. constructor. intros [? ?]. by rewrite !bool_decide_eq_true_2 in E.
Qed.

(** ** Effect on the stored objects *)

Section store.
Context `{!UnstructuredLaws} `{!Store} `{!StoreLaws}.

(** The store moved from [w] to [w'] changing at most the Cluster of [c] at
    [k], which is then related to its old value by [R]. *)
Definition cluster_change (c : client) (k : NamespacedName) (R : json -> json -> Prop)
    (w w' : World) : Prop :=
  (exists u u', clusterAt w (serverOf c) k = Some u /\
     clusterAt w' (serverOf c) k = Some u' /\ R u u') /\
  (forall s j, (s, j) <> (serverOf c, k) -> clusterAt w' s j = clusterAt w s j) /\
  (forall s j, serviceAt w' s j = serviceAt w s j) /\
  (forall s j, secretAt w' s j = secretAt w s j) /\
  (forall s j, haAt w' s j = haAt w s j).

Definition service_change (c : client) (k : NamespacedName) (R : Service -> Service -> Prop)
    (w w' : World) : Prop :=
  (exists u u', serviceAt w (serverOf c) k = Some u /\
     serviceAt w' (serverOf c) k = Some u' /\ R u u') /\
  (forall s j, (s, j) <> (serverOf c, k) -> serviceAt w' s j = serviceAt w s j) /\
  (forall s j, clusterAt w' s j = clusterAt w s j) /\
  (forall s j, secretAt w' s j = secretAt w s j) /\
  (forall s j, haAt w' s j = haAt w s j).

(** The effect of a step that answered [r]: on success the change happened;
    on an error either nothing did, or it did and the answer was lost. *)
Definition effect (change : World -> World -> Prop) (r : result unit) (w w' : World) : Prop :=
  match r with
  | Ok _ => change w w'
  | Err _ => sameStore w w' \/ change w w'
  end.

Lemma effect_wrap change p r w w' :
  effect change (wrapErr p r) w w' <-> effect change r w w'.
Proof. by destruct r. Qed.

Lemma exec_one a w w' : exec w [a] w' -> answers a w w'.
Proof. intros Hx. inversion Hx as [|? ? w1 ? ? Ha Hn]; subst. by inversion Hn; subst. Qed.

Lemma exec_two a b w w' :
  exec w [a; b] w' -> exists w1, answers a w w1 /\ answers b w1 w'.
Proof. intros Hx. inversion Hx as [|? ? w1 ? ? Ha Hn]; subst. exists w1. by split; [|apply exec_one]. Qed.

Lemma read_cluster_same c k r w w' : exec w [CGetCluster c k r] w' -> sameStore w w'.
Proof. by intros [Hs _]%exec_one%getCluster_law. Qed.

Lemma read_service_same c k r w w' : exec w [CGetService c k r] w' -> sameStore w w'.
Proof. by intros [Hs _]%exec_one%getService_law. Qed.

(** A read that found [u] leaves the store as it is. *)
Lemma read_unchanged (R : json -> json -> Prop) c k u w w' :
  exec w [CGetCluster c k (Ok u)] w' -> R u u -> cluster_change c k R w w'.
Proof.
  intros [Hs (Hu & _)]%exec_one%getCluster_law HR.
  split; [exists u, u; by rewrite (same_cluster _ _ Hs)|].
  destruct Hs. by split_and!.
Qed.

(** A read followed by an update of the same object. *)
Lemma read_write (R : json -> json -> Prop) c k u u' r w w' :
  exec w [CGetCluster c k (Ok u); CUpdateCluster c u' r] w' ->
  objKey u' = objKey u ->
  (metadataOk u -> forall x, sameDesired u' x -> R u x) ->
  effect (cluster_change c k R) r w w'.
Proof.
  intros (w1 & Hg & Hu)%exec_two Hk HR.
  apply getCluster_law in Hg as [Hst (Hc & <- & Hm)]. destruct Hst as [S1 S2 S3 S4].
  apply updateCluster_law in Hu as (Hw & Hf & Hsv & Hse & Hha). rewrite Hk in *.
  assert (Hch : forall x, clusterAt w' (serverOf c) (objKey u) = Some x -> sameDesired u' x ->
                cluster_change c (objKey u) R w w').
  { intros x Hx Hs. split; [exists u, x; split_and!; auto|].
    split_and!; intros; by rewrite ?Hf, ?Hsv, ?Hse, ?Hha. }
  destruct r; [destruct Hw as (x & ? & ?); by eapply Hch|].
  destruct Hw as [[Hw|(x & ? & ?)] _]; [left|right; by eapply Hch].
  split; intros; rewrite ?Hsv, ?Hse, ?Hha; [|done..].
  destruct (decide ((s, k) = (serverOf c, objKey u))) as [[= -> ->]|];
    [by rewrite Hw|by rewrite Hf].
Qed.

Lemma read_service_unchanged (R : Service -> Service -> Prop) c k u w w' :
  exec w [CGetService c k (Ok u)] w' -> R u u -> service_change c k R w w'.
Proof.
  intros [Hs (Hu & _)]%exec_one%getService_law HR.
  split; [exists u, u; by rewrite (same_service _ _ Hs)|].
  destruct Hs. by split_and!.
Qed.

Lemma read_write_service (R : Service -> Service -> Prop) c k u u' r w w' :
  exec w [CGetService c k (Ok u); CUpdateService c u' r] w' ->
  svcKey u' = svcKey u ->
  (forall x, sameDesiredService u' x -> R u x) ->
  effect (service_change c k R) r w w'.
Proof.
  intros (w1 & Hg & Hu)%exec_two Hk HR.
  apply getService_law in Hg as [Hst (Hc & <-)]. destruct Hst as [S1 S2 S3 S4].
  apply updateService_law in Hu as (Hw & Hf & Hcl & Hse & Hha). rewrite Hk in *.
  assert (Hch : forall x, serviceAt w' (serverOf c) (svcKey u) = Some x ->
                sameDesiredService u' x -> service_change c (svcKey u) R w w').
  { intros x Hx Hs. split; [exists u, x; split_and!; auto|].
    split_and!; intros; by rewrite ?Hf, ?Hcl, ?Hse, ?Hha. }
  destruct r; [destruct Hw as (x & ? & ?); by eapply Hch|].
  destruct Hw as [[Hw|(x & ? & ?)] _]; [left|right; by eapply Hch].
  split; intros; rewrite ?Hcl, ?Hse, ?Hha; [done| |done..].
  destruct (decide ((s, k) = (serverOf c, svcKey u))) as [[= -> ->]|];
    [by rewrite Hw|by rewrite Hf].
Qed.

Lemma objKey_frame o o' p :
  (forall q, paths_disjoint p q -> field_at o' q = field_at o q) ->
  paths_disjoint p ["metadata"; "namespace"] -> paths_disjoint p ["metadata"; "name"] ->
  objKey o' = objKey o.
Proof. intros Hq Hns Hnm. unfold objKey. by rewrite !Hq. Qed.

Lemma disjoint_head f g p q : f <> g -> paths_disjoint (f :: p) (g :: q).
Proof. intros Hne. split; intros [x Hx]; simpl in Hx; congruence. Qed.

Lemma fenced_proper u u' : sameDesired u u' -> fenced u <-> fenced u'.
Proof. intros Hs. unfold fenced. by rewrite (GetAnnotations_proper _ _ Hs). Qed.

Lemma clusterIsReplica_proper u u' :
  sameDesired u u' -> clusterIsReplica u <-> clusterIsReplica u'.
Proof. intros [_ _ Hs]. unfold clusterIsReplica, replicaEnabledPath. by rewrite Hs. Qed.

Lemma mapIndex_set m k v : mapIndex (mapSet m k v) k = v.
Proof. unfold mapIndex, mapSet. simpl. by rewrite lookup_insert_eq. Qed.

Lemma mapIndex_set_ne m k v k' : k <> k' -> mapIndex (mapSet m k v) k' = mapIndex m k'.
Proof.
  intros Hne. unfold mapIndex, mapSet. simpl. rewrite lookup_insert_ne by done.
  by destruct m.
Qed.

(** What a fence changes of a Cluster: the one annotation. *)
Definition fence_change (u u' : json) : Prop :=
  fenced u' /\
  (forall k, k <> AnnotationFenced ->
    mapIndex (GetAnnotations u') k = mapIndex (GetAnnotations u) k) /\
  (forall p, field_at u' ("spec" :: p) = field_at u ("spec" :: p)).

Lemma fenceObject_change u x :
  metadataOk u -> sameDesired (fenceObject u) x -> fence_change u x.
Proof.
  intros Hm Hs. unfold fence_change. rewrite <- (fenced_proper _ _ Hs).
  unfold fenced. rewrite <- (GetAnnotations_proper _ _ Hs). unfold fenceObject at 1 2.
  assert (Ha : forall k, mapIndex (GetAnnotations (fenceObject u)) k =
      mapIndex (mapSet (GetAnnotations u) AnnotationFenced FencedAllInstances) k).
  { intros k. unfold fenceObject, mapSet at 1. by rewrite GetSetAnnotations. }
  split_and!.
  - fold (fenceObject u). by rewrite Ha, mapIndex_set.
  - intros k Hk. fold (fenceObject u). by rewrite Ha, mapIndex_set_ne.
  - intros p. rewrite <- (sd_spec _ _ Hs). apply SetAnnotations_frame. by apply disjoint_head.
Qed.

Lemma fenceObject_key u : objKey (fenceObject u) = objKey u.
Proof.
  eapply (objKey_frame _ _ annotationsPath);
    [intros; by apply SetAnnotations_frame|by apply (bool_decide_unpack _)..].
Qed.

Lemma fence_run_effect c ref t r w w' :
  exec w t w' -> fence_run c ref t r ->
  effect (cluster_change c (refKey ref) fence_change) r w w'.
Proof.
  intros Hx Hr. inversion Hr as [|u Hf|u r' Hf]; subst.
  - left. by eapply read_cluster_same.
  - eapply read_unchanged; [done|]. by split_and!.
  - apply effect_wrap.
    eapply read_write; [done|apply fenceObject_key|eauto using fenceObject_change].
Qed.

(** What a promotion changes of a Cluster: spec.replica.enabled. *)
Definition promote_change (u u' : json) : Prop :=
  ~ clusterIsReplica u' /\
  GetAnnotations u' = GetAnnotations u /\
  (forall p, paths_disjoint replicaEnabledPath ("spec" :: p) ->
    field_at u' ("spec" :: p) = field_at u ("spec" :: p)).

Lemma promote_run_effect c ref t r w w' :
  exec w t w' -> promote_run c ref t r ->
  effect (cluster_change c (refKey ref) promote_change) r w w'.
Proof.
  intros Hx Hr. inversion Hr as [| |u Hf|u u' r' Hf Hs]; subst.
  1,2: left; by eapply read_cluster_same.
  - eapply read_unchanged; [done|]. split; [|done]. intros Hc. apply Hf.
    by rewrite (NestedBool_found _ _ _ Hc).
  - apply effect_wrap. apply SetNestedField_Ok in Hs as [Hset Hframe]; [|done].
    eapply read_write; [done| |].
    + eapply objKey_frame; [done|by apply disjoint_head..].
    + intros _ x Hx'. unfold promote_change. rewrite <- (GetAnnotations_proper _ _ Hx').
      split_and!.
      * unfold clusterIsReplica, replicaEnabledPath in *.
        rewrite <- (sd_spec _ _ Hx'), Hset. congruence.
      * apply GetAnnotations_ext, Hframe. by apply disjoint_head.
      * intros q Hq. rewrite <- (sd_spec _ _ Hx'). by apply Hframe.
Qed.

(** [ext], at [idx] of spec.externalClusters, is the external cluster that
    spec.replica.source selects. *)
Definition selectedExternal (u : json) (l : list json) (idx : nat) (ext : gmap string json)
    : Prop :=
  field_at u externalClustersPath = NFound (JArr l) /\
  externalClusterIndex l (nestedString (field_at u replicaSourcePath)) = Ok idx /\
  l !! idx = Some (JObj ext).

(** A replica that streams from [host]: replica mode is on, and the selected
    external cluster has that host. *)
Definition streamsFrom (host : string) (u : json) : Prop :=
  clusterIsReplica u /\
  exists l idx ext, selectedExternal u l idx ext /\
    hostIs (connectionParameters ext) host = true.

Lemma NestedString_value u p : (NestedString u p).1.1 = nestedString (field_at u p).
Proof.
  pose proof (NestedString_law u p) as L. unfold nested_accessor in L.
  destruct (field_at u p) as [[]| | |]; simpl in L;
    try match type of L with ex _ => destruct L as [e L] end; by rewrite L.
Qed.

Lemma NestedSlice_inv u p l f :
  NestedSlice u p = (l, f, None) -> l <> [] -> field_at u p = NFound (JArr l).
Proof.
  intros E Hl. pose proof (NestedSlice_law u p) as L. unfold nested_accessor in L.
  rewrite E in L. destruct (field_at u p) as [[]| | |]; simpl in L; naive_solver.
Qed.

Lemma NestedBool_enabled u :
  (NestedBool u replicaEnabledPath).1.1 = true <-> clusterIsReplica u.
Proof.
  split.
  - intros E. apply (NestedBool_inv u replicaEnabledPath true).
    pose proof (NestedBool_law u replicaEnabledPath) as L. unfold nested_accessor in L.
    destruct (field_at u replicaEnabledPath) as [[]| | |]; simpl in L;
      try match type of L with ex _ => destruct L as [e L] end; rewrite L in *; simplify_eq/=; done.
  - intros Hc. by rewrite (NestedBool_found _ _ _ Hc).
Qed.

(** Repointing an external cluster keeps its name, so the same one stays
    selected. *)
Lemma findExternal_repoint l source i idx ext host :
  l !! idx = Some (JObj ext) ->
  findExternal (<[idx := repointExternal ext host]> l) source i = findExternal l source i.
Proof.
  revert i idx. induction l as [|x l IH]; intros i [|idx] Hx; simplify_eq/=.
  - unfold externalName. by rewrite lookup_insert_ne.
  - by destruct x; rewrite IH.
Qed.

Lemma externalClusterIndex_repoint l source idx ext host :
  l !! idx = Some (JObj ext) ->
  externalClusterIndex (<[idx := repointExternal ext host]> l) source
  = externalClusterIndex l source.
Proof.
  intros Hx. unfold externalClusterIndex. rewrite length_insert.
  by rewrite findExternal_repoint.
Qed.

Lemma repointExternal_host ext host :
  exists ext', repointExternal ext host = JObj ext' /\
    hostIs (connectionParameters ext') host = true.
Proof.
  eexists. split; [done|]. unfold connectionParameters at 1. rewrite lookup_insert_eq.
  unfold hostIs. rewrite lookup_insert_eq. by apply bool_decide_eq_true_2.
Qed.

Lemma repointExternal_id ext host :
  hostIs (connectionParameters ext) host = true -> repointExternal ext host = JObj ext.
Proof.
  unfold repointExternal, connectionParameters, hostIs.
  destruct (ext !! "connectionParameters") as [[]|] eqn:E; try by rewrite ?lookup_empty.
  destruct (m !! "host") as [[]|] eqn:Eh; try done. intros Hb. bool_prop. subst.
  by rewrite (insert_id m), insert_id.
Qed.

(** The branches of [reconfigureObject]. *)
Lemma reconfigureObject_nothing ref u host :
  reconfigureObject ref u host = PlanNothing -> streamsFrom host u.
Proof.
  unfold reconfigureObject.
  destruct (NestedSlice u externalClustersPath) as [[l f] e] eqn:El. destruct e; [done|].
  case_bool_decide as Hl; [done|].
  pose proof (NestedString_value u replicaSourcePath) as Hsrc.
  destruct (NestedString u replicaSourcePath) as [[src ?] ?]. simpl in Hsrc. subst src.
  destruct (externalClusterIndex l _) as [idx|] eqn:Hi; [|done].
  destruct (l !! idx) as [[]|] eqn:Hx; try done.
  pose proof (NestedBool_enabled u) as Hen.
  destruct (NestedBool u replicaEnabledPath) as [[en ?] ?]. simpl in Hen.
  destruct (en && _) eqn:Hb; [|repeat case_match; done]. bool_prop. intros _.
  split; [by apply Hen|]. exists l, idx, m. split; [|done]. split_and!; [|done..].
  eapply NestedSlice_inv; [done|]. by intros ->.
Qed.

Lemma reconfigureObject_write ref u host u' :
  reconfigureObject ref u host = PlanWrite u' ->
  exists l idx ext u1,
    selectedExternal u l idx ext /\
    SetNestedSlice u (<[idx := repointExternal ext host]> l) externalClustersPath = Ok u1 /\
    SetNestedField u1 (JBool true) replicaEnabledPath = Ok u' /\
    ~ streamsFrom host u.
Proof.
  unfold reconfigureObject.
  destruct (NestedSlice u externalClustersPath) as [[l f] e] eqn:El. destruct e; [done|].
  case_bool_decide as Hl; [done|].
  pose proof (NestedString_value u replicaSourcePath) as Hsrc.
  destruct (NestedString u replicaSourcePath) as [[src ?] ?]. simpl in Hsrc. subst src.
  destruct (externalClusterIndex l _) as [idx|] eqn:Hi; [|done].
  destruct (l !! idx) as [[]|] eqn:Hx; try done.
  pose proof (NestedBool_enabled u) as Hen.
  destruct (NestedBool u replicaEnabledPath) as [[en ?] ?]. simpl in Hen.
  destruct (en && _) eqn:Hb; [done|].
  destruct (SetNestedSlice _ _ _) as [u1|] eqn:Hs; [|done].
  destruct (SetNestedField _ _ _) as [u2|] eqn:Hf; [|done]. intros [= <-].
  assert (Hfa : field_at u externalClustersPath = NFound (JArr l)).
  { eapply NestedSlice_inv; [done|]. by intros ->. }
  exists l, idx, m, u1. split_and!; [by split_and!|done|done|].
  intros (Hr & l' & idx' & ext' & (Hfa' & Hi' & Hx') & Hh).
  apply Hen in Hr. simplify_eq/=. congruence.
Qed.

(** What a reconfiguration changes of a Cluster: replica mode is switched on
    and the host of the one selected external cluster is set. *)
Definition reconfigure_change (host : string) (u u' : json) : Prop :=
  streamsFrom host u' /\
  (exists l idx ext, selectedExternal u l idx ext /\
    field_at u' externalClustersPath
    = NFound (JArr (<[idx := repointExternal ext host]> l))) /\
  GetAnnotations u' = GetAnnotations u /\
  (forall p, paths_disjoint externalClustersPath ("spec" :: p) ->
    paths_disjoint replicaEnabledPath ("spec" :: p) ->
    field_at u' ("spec" :: p) = field_at u ("spec" :: p)).

Lemma reconfigure_nothing_change host u : streamsFrom host u -> reconfigure_change host u u.
Proof.
  intros Hs. split; [done|]. destruct Hs as (_ & l & idx & ext & Hsel & Hh).
  split; [|done]. exists l, idx, ext. split; [done|]. destruct Hsel as (Hf & _ & Hx).
  by rewrite repointExternal_id, list_insert_id.
Qed.

Lemma reconfigure_write_change host u l idx ext u1 u' x :
  selectedExternal u l idx ext ->
  SetNestedSlice u (<[idx := repointExternal ext host]> l) externalClustersPath = Ok u1 ->
  SetNestedField u1 (JBool true) replicaEnabledPath = Ok u' ->
  sameDesired u' x -> reconfigure_change host u x.
Proof.
  intros Hsel S1 S2 Hx. destruct Hsel as (Hf & Hi & Hl).
  apply SetNestedSlice_Ok in S1 as [S1 F1]; [|done].
  apply SetNestedField_Ok in S2 as [S2 F2]; [|done].
  assert (Hext : field_at x externalClustersPath
                 = NFound (JArr (<[idx := repointExternal ext host]> l))).
  { unfold externalClustersPath in *. rewrite <- (sd_spec _ _ Hx), F2; [done|].
    by apply (bool_decide_unpack _). }
  assert (Hfr : forall p, paths_disjoint externalClustersPath ("spec" :: p) ->
      paths_disjoint replicaEnabledPath ("spec" :: p) ->
      field_at x ("spec" :: p) = field_at u ("spec" :: p)).
  { intros p Hp Hq. by rewrite <- (sd_spec _ _ Hx), F2, F1. }
  destruct (repointExternal_host ext host) as (ext' & He & Hh).
  split_and!.
  - split; [unfold clusterIsReplica, replicaEnabledPath in *; by rewrite <- (sd_spec _ _ Hx)|].
    exists (<[idx := repointExternal ext host]> l), idx, ext'. split; [|done].
    split_and!; [done| |rewrite <- He; apply list_lookup_insert_eq; by eapply lookup_lt_Some].
    rewrite externalClusterIndex_repoint by done.
    unfold replicaSourcePath. rewrite Hfr; [done|by apply (bool_decide_unpack _)..].
  - by exists l, idx, ext.
  - rewrite <- (GetAnnotations_proper _ _ Hx).
    apply GetAnnotations_ext. rewrite F2, F1; [done|by apply disjoint_head..].
  - done.
Qed.

Lemma reconfigure_run_effect c ref host t r w w' :
  exec w t w' -> reconfigure_run c ref host t r ->
  effect (cluster_change c (refKey ref) (reconfigure_change host)) r w w'.
Proof.
  intros Hx Hr. inversion Hr as [| | |u Hh Hp|u u' r' Hh Hp]; subst.
  - left. by inversion Hx.
  - left. by eapply read_cluster_same.
  - left. by eapply read_cluster_same.
  - eapply read_unchanged; [done|].
    by eapply reconfigure_nothing_change, reconfigureObject_nothing.
  - apply effect_wrap.
    apply reconfigureObject_write in Hp as (l & idx & ext & u1 & Hsel & S1 & S2 & _).
    eapply read_write; [done| |eauto using reconfigure_write_change].
    apply SetNestedSlice_Ok in S1 as [_ F1]; [|done].
    apply SetNestedField_Ok in S2 as [_ F2]; [|done].
    unfold objKey. by rewrite !F2, !F1 by (by apply disjoint_head).
Qed.

(** What a flip changes of a Service: the two Cilium annotations. *)
Definition flip_change (role : ServiceRole) (svc svc' : Service) : Prop :=
  flipped role svc' /\
  (forall k, k <> AnnotationCiliumGlobal -> k <> AnnotationCiliumAffinity ->
    mapIndex (svc_Annotations svc') k = mapIndex (svc_Annotations svc) k).

Lemma flipObject_change role svc x :
  sameDesiredService (flipObject role svc) x -> flip_change role svc x.
Proof.
  intros [_ Ha]. simpl in Ha. split; [split|]; rewrite <- Ha.
  - by rewrite mapIndex_set_ne, mapIndex_set.
  - by rewrite mapIndex_set.
  - intros k Hg Hf. by rewrite !mapIndex_set_ne.
Qed.

Lemma flip_run_effect c ref role t r w w' :
  exec w t w' -> flip_run c ref role t r ->
  effect (service_change c (svcKeyOf ref) (flip_change role)) r w w'.
Proof.
  intros Hx Hr. inversion Hr as [|u Hf|u r' Hf]; subst.
  - left. by eapply read_service_same.
  - eapply read_service_unchanged; [done|]. by split.
  - apply effect_wrap. eapply read_write_service; [done|done|eauto using flipObject_change].
Qed.

(** ** The steps as one family *)

Inductive step : Type :=
  | StepFence
  | StepPromote
  | StepReconfigure (host : string)
  | StepFlip (role : ServiceRole).

Definition runStep (st : step) (c : client) (ref : Ref) : M (result unit) :=
  match st with
  | StepFence => Fence c ref
  | StepPromote => Promote c ref
  | StepReconfigure host => Reconfigure c ref host
  | StepFlip role => FlipCiliumService c ref role
  end.

(** What a successful step establishes of the store. *)
Definition step_change (st : step) (c : client) (ref : Ref) : World -> World -> Prop :=
  match st with
  | StepFence => cluster_change c (refKey ref) fence_change
  | StepPromote => cluster_change c (refKey ref) promote_change
  | StepReconfigure host => cluster_change c (refKey ref) (reconfigure_change host)
  | StepFlip role => service_change c (svcKeyOf ref) (flip_change role)
  end.

Definition step_run (st : step) (c : client) (ref : Ref) : list apicall -> result unit -> Prop :=
  match st with
  | StepFence => fence_run c ref
  | StepPromote => promote_run c ref
  | StepReconfigure host => reconfigure_run c ref host
  | StepFlip role => flip_run c ref role
  end.

Lemma runStep_talks st c ref : talks (runStep st c ref) (step_run st c ref).
Proof.
  destruct st; [apply Fence_talks|apply Promote_talks|apply Reconfigure_talks|
                apply FlipCiliumService_talks].
Qed.

Lemma step_run_effect st c ref t r w w' :
  exec w t w' -> step_run st c ref t r -> effect (step_change st c ref) r w w'.
Proof.
  destruct st; [apply fence_run_effect|apply promote_run_effect|
                apply reconfigure_run_effect|apply flip_run_effect].
Qed.

(** A read of the changed object returns what the change left there. *)
Lemma reread_cluster R c k w w1 u w2 :
  cluster_change c k R w w1 -> answers (CGetCluster c k (Ok u)) w1 w2 -> exists u0, R u0 u.
Proof.
  intros ((u0 & u1 & _ & Hu & HR) & _) [_ (Hg & _)]%getCluster_law. exists u0. congruence.
Qed.

Lemma reread_service R c k w w1 u w2 :
  service_change c k R w w1 -> answers (CGetService c k (Ok u)) w1 w2 -> exists u0, R u0 u.
Proof.
  intros ((u0 & u1 & _ & Hu & HR) & _) [_ (Hg & _)]%getService_law. exists u0. congruence.
Qed.

(** A run of a step over an object the step has already changed makes at most
    one call, a read. *)
Lemma step_run_again st c ref w w1 t r w2 :
  step_change st c ref w w1 -> exec w1 t w2 -> step_run st c ref t r ->
  (length t <= 1)%nat /\ Forall (fun a => isWrite a = false) t.
Proof.
  intros Hch Hx Hr. destruct st; simpl in *;
    inversion Hr; subst; simpl; (split; [lia|by repeat constructor]) || exfalso;
    apply exec_two in Hx as (? & Hg & _).
  - destruct (reread_cluster _ _ _ _ _ _ _ Hch Hg) as (? & Hf & _). done.
  - destruct (reread_cluster _ _ _ _ _ _ _ Hch Hg) as (? & Hf & _). by apply Hf, (NestedBool_inv _ _ true).
  - destruct (reread_cluster _ _ _ _ _ _ _ Hch Hg) as (? & Hf & _).
    by edestruct reconfigureObject_write as (? & ? & ? & ? & _ & _ & _ & ?).
  - destruct (reread_service _ _ _ _ _ _ _ Hch Hg) as (? & Hf & _). done.
Qed.

(** A trace without writes leaves the store as it is. *)
Lemma read_only_same st c ref t r w w' :
  exec w t w' -> step_run st c ref t r -> (length t <= 1)%nat -> sameStore w w'.
Proof.
  intros Hx Hr Hl. destruct st; simpl in Hr; inversion Hr; subst; simpl in Hl;
    try lia; eauto using read_cluster_same, read_service_same.
  by inversion Hx.
Qed.

Lemma step_keeps_fence st c ref w w' srv k u :
  step_change st c ref w w' -> clusterAt w srv k = Some u -> fenced u ->
  exists u', clusterAt w' srv k = Some u' /\ fenced u'.
Proof.
  intros Hch Hu Hf. destruct (decide ((srv, k) = (serverOf c, refKey ref))) as [[= -> ->]|Hne].
  - destruct st; [..|destruct Hch as (_ & _ & Hc & _); exists u; by rewrite Hc];
      destruct Hch as ((u0 & u' & Hu0 & Hu' & Hr) & _); simplify_eq; exists u'; split; try done.
    + apply Hr.
    + unfold fenced. destruct Hr as (_ & -> & _). done.
    + unfold fenced. destruct Hr as (_ & _ & -> & _). done.
  - exists u. split; [|done]. destruct st; destruct Hch as (_ & Hc & Hs & _);
      rewrite ?Hc by done; by rewrite ?Hs.
Qed.

(** ** Properties *)

(** C25. Whatever the API server answers, a step (Fence, Promote, Reconfigure
    or FlipCiliumService) never panics, and it touches one object only. On
    success that object has the promised state: fenced; no longer a replica,
    with every other spec field and all annotations kept; a replica streaming
    from the given host, with only the selected externalCluster's host and
    replica.enabled changed; or a global Service with the wanted affinity. On
    an error either nothing was changed, or exactly that change was applied
    and the answer was lost. *)
Theorem step_effect st c ref s :
  wp (runStep st c ref) (fun o s' => exists r, o = Val r /\
    effect (step_change st c ref) r (op_world s) (op_world s')) s.
Proof.
  eapply talks_wp; [apply runStep_talks|]. intros t r w' Hr Hx.
  exists r. split; [done|]. by eapply step_run_effect.
Qed.

(** C26. Every step is idempotent: once a step has succeeded, running it again
    makes at most one call, a read, sends no write, and leaves the store as it
    is. *)
Theorem step_idempotent st c ref s :
  let s1 := (runStep st c ref s).2 in
  let s2 := (runStep st c ref s1).2 in
  (runStep st c ref s).1 = Val (Ok tt) ->
  sameStore (op_world s1) (op_world s2) /\
  exists t, s2 = advance (op_world s2) t s1 /\ (length t <= 1)%nat /\
    Forall (fun a => isWrite a = false) t.
Proof.
  intros s1 s2 E. subst s1 s2. destruct (runStep st c ref s) as [o1 s1] eqn:R1.
  simpl in *. subst o1. destruct (runStep st c ref s1) as [o2 s2] eqn:R2. simpl.
  eapply talks_run in R1 as (r & t1 & [= <-] & _ & X1 & S1); [|apply runStep_talks].
  eapply talks_run in R2 as (r2 & t2 & _ & E2 & X2 & S2); [|apply runStep_talks].
  pose proof (step_run_effect _ _ _ _ _ _ _ X1 S1) as Hch. simpl in Hch.
  destruct (step_run_again _ _ _ _ _ _ _ _ Hch X2 S2) as [Hl Hw].
  split; [|by exists t2]. by eapply read_only_same.
Qed.

(** No step of the package lifts a fence: a Cluster that carries the
    fencing annotation still carries it after any Fence, Promote, Reconfigure
    or FlipCiliumService on any site, successful or not. A former primary that
    the operator fenced and rebuilt as a replica therefore stays fenced until
    someone outside the operator removes the annotation. *)
Theorem fence_never_lifted st c ref s srv k u :
  clusterAt (op_world s) srv k = Some u -> fenced u ->
  wp (runStep st c ref) (fun _ s' =>
    exists u', clusterAt (op_world s') srv k = Some u' /\ fenced u') s.
Proof.
  intros Hu Hf. eapply talks_wp; [apply runStep_talks|]. intros t r w' Hr Hx.
  pose proof (step_run_effect _ _ _ _ _ _ _ Hx Hr) as Hch. simpl.
  destruct r; [by eapply step_keeps_fence|].
  destruct Hch as [Hs|Hch]; [exists u; by rewrite (same_cluster _ _ Hs)|].
  by eapply step_keeps_fence.
Qed.
End store.

(** [v] is an object of that name. *)
Definition namedExternal (source : string) (v : json) : Prop :=
  match v with JObj m => externalName m = source | _ => False end.

#[local] Instance namedExternal_dec source v : Decision (namedExternal source v).
Proof. destruct v; simpl; apply _. Defined.

Lemma findExternal_find l source i :
  findExternal l source i
  = (fun p => (i + p.1)%nat) <$> list_find (namedExternal source) l.
Proof.
  revert i. induction l as [|x l IH]; intros i; [done|]. simpl.
  destruct (decide (namedExternal source x)) as [Hn|Hn].
  - destruct x; try done. simpl in Hn. rewrite bool_decide_eq_true_2 by done.
    simpl. by rewrite Nat.add_0_r.
  - rewrite <- option_fmap_compose.
    transitivity (findExternal l source (S i));
      [destruct x; try done; simpl in Hn; by rewrite bool_decide_eq_false_2|].
    rewrite IH. apply option_fmap_ext. intros []. simpl. lia.
Qed.

(** externalClusterIndex returns exactly the external cluster that
    spec.replica.source designates: the first object of that name, or, when
    the source is unset, the only element; in every other case it is an error,
    and the returned index is always in range (indexing the slice with it
    cannot panic). *)
Theorem externalClusterIndex_spec externals source i :
  externalClusterIndex externals source = Ok i <->
  (i < length externals)%nat /\
  ((source = "" /\ length externals = 1%nat) \/
   (source <> "" /\
    (exists m, externals !! i = Some (JObj m) /\ externalName m = source) /\
    forall j m, (j < i)%nat -> externals !! j = Some (JObj m) -> externalName m <> source)).
Proof.
  unfold externalClusterIndex. case_bool_decide as Hs; [case_bool_decide as Hl|].
  - split; [done|]. naive_solver lia.
  - split; [intros [= <-]|intros [Hi _]]; [|f_equal]; [split; [|left]; split_and?|]; lia || done.
  - rewrite findExternal_find. split.
    + destruct (list_find _ _) as [[i' x]|] eqn:E; simpl; intros; simplify_eq.
      apply list_find_first in E as (Hx & Hn & Hmin).
      split; [by eapply lookup_lt_Some|]. right. destruct x; try done.
      split_and!; [done|by eauto|]. intros j m' Hj Hl. by apply (Hmin j (JObj m')).
    + intros [_ [[? _]|(_ & (m & Hx & Hn) & Hmin)]]; [done|].
      replace (list_find _ _) with (Some (i, JObj m)); [done|]. symmetry.
      apply list_find_first. split_and!; [done|done|].
      intros j [] Hj Hlt; try by intros []. by eapply Hmin.
Qed.
End promotion.

Definition pgRef : Ref := mkRef "db" "pg".

Lemma step_effect_witness :
  (runStep (StepReconfigure "new-host") (site "local") pgRef (fakeState twoSites)).1 = Val (Ok tt) /\
  cluster_change (site "local") (NN "db" "pg") (reconfigure_change "new-host") twoSites
    (op_world (runStep (StepReconfigure "new-host") (site "local") pgRef (fakeState twoSites)).2).
Proof.
  split; [vm_compute; reflexivity|].
  refine (let E := _ in let '(ex_intro _ r (conj Er Hr)) := wp_val _ _ _ (Val (Ok tt))
    (step_effect (StepReconfigure "new-host") (site "local") pgRef (fakeState twoSites)) E in _).
  injection Er as <-. exact Hr.
Unshelve.
  vm_compute. reflexivity.
Defined.

Lemma step_idempotent_witness :
  let s1 := (runStep StepPromote (site "remote") pgRef (fakeState twoSites)).2 in
  let s2 := (runStep StepPromote (site "remote") pgRef s1).2 in
  length (op_calls s1) = 2%nat /\ sameStore (op_world s1) (op_world s2).
Proof.
  intros s1 s2. split; [vm_compute; reflexivity|].
  apply (step_idempotent StepPromote (site "remote") pgRef (fakeState twoSites)).
  vm_compute. reflexivity.
Defined.

Lemma fence_never_lifted_witness :
  let s1 := (runStep StepFence (site "local") pgRef (fakeState twoSites)).2 in
  wp (runStep (StepReconfigure "new-host") (site "local") pgRef) (fun _ s' =>
    exists u', clusterAt (op_world s') "local" (NN "db" "pg") = Some u' /\ fenced u') s1.
Proof.
  intros s1.
  refine (fence_never_lifted (StepReconfigure "new-host") (site "local") pgRef s1
    "local" (NN "db" "pg") _ eq_refl _).
  vm_compute. reflexivity.
Defined.
