(* ===== verification/RemoteClient.v ===== *)
(** * internal/remoteclient: the cache of remote Kubernetes clients

    [GetOrCreate] as the code runs it, then as the atomic sections its locks
    delimit, so that several reconciles, [Invalidate] and a changing world can
    interleave between them. *)

From S2P Require Import Prelude GoStd Api External FakeKube Operator Fixtures.

Definition ErrSecretKeyEmptyMsg : string := "kubeconfig secret key is empty".
Definition ErrSecretKeyEmpty : goerr := Sentinel ErrSecretKeyEmptyMsg.

Definition cacheKey (namespace : string) (secretRef : SecretKeySelector) : string :=
  namespace +:+ "/" +:+ sel_Name secretRef +:+ "#" +:+ sel_Key secretRef.

(** Names as the API server admits them: a namespace has no slash, a Secret
    name no hash sign. *)
Definition validRef (namespace : string) (secretRef : SecretKeySelector) : Prop :=
  ContainsByte "/" namespace = false /\ ContainsByte "#" (sel_Name secretRef) = false.

Lemma cacheKey_injective ns ref ns' ref' :
  validRef ns ref -> validRef ns' ref' -> cacheKey ns ref = cacheKey ns' ref' ->
  ns = ns' /\ ref = ref'.
Proof.
  intros [Hn Hr] [Hn' Hr'] E. destruct ref as [n k], ref' as [n' k'].
  unfold cacheKey in E. simpl in *.
  apply (f_equal (Cut "/")) in E. rewrite !Cut_app in E by done. injection E as -> E.
  apply (f_equal (Cut "#")) in E. rewrite !Cut_app in E by done. by injection E as -> ->.
Qed.

Section remoteclient.
Context `{Extern}.

Definition NewCache : gmap string cachedClient := ∅.

(** The bytes of a usable key of a Secret. *)
Definition secretBytes (sec : Secret) (key : string) : option string :=
  match sec_Data sec ≫= lookup key with
  | Some b => if bool_decide (b = "") then None else Some b
  | None => None
  end.

Definition loadKubeconfig (hubClient : client) (namespace : string)
    (secretRef : SecretKeySelector) : M (result (string * string)) :=
  r ← getSecret hubClient (NN namespace (sel_Name secretRef));
  match r with
  | Err e => mret (Err (Wrap ("get kubeconfig secret " +:+ namespace +:+ "/"
                              +:+ sel_Name secretRef) e))
  | Ok secret =>
      match secretBytes secret (sel_Key secretRef) with
      | None => mret (Err (Wrap ("secret " +:+ namespace +:+ "/" +:+ sel_Name secretRef
                  +:+ " key " +:+ Quote (sel_Key secretRef)) ErrSecretKeyEmpty))
      | Some kubeconfigBytes => mret (Ok (kubeconfigBytes, sec_ResourceVersion secret))
      end
  end.

Definition clientFromKubeconfig (kubeconfig namespace name : string) : M (result client) :=
  match RESTConfigFromKubeConfig kubeconfig with
  | Err e => mret (Err (Wrap ("parse kubeconfig from secret " +:+ namespace +:+ "/" +:+ name) e))
  | Ok restConfig =>
      r ← newClient restConfig;
      mret (wrapErr ("build client from kubeconfig " +:+ namespace +:+ "/" +:+ name) r)
  end.

Definition cacheLookup (key : string) : M (option cachedClient) :=
  gets (fun s => op_clients s !! key).

(** [if ok && ent.resourceVersion == rv] *)
Definition freshClient (ent : option cachedClient) (rv : string) : option client :=
  match ent with
  | Some e => if bool_decide (cc_resourceVersion e = rv) then Some (cc_cli e) else None
  | None => None
  end.

Definition GetOrCreate (hubClient : client) (namespace : string)
    (secretRef : SecretKeySelector) : M (result client) :=
  let key := cacheKey namespace secretRef in
  r ← loadKubeconfig hubClient namespace secretRef;
  match r with
  | Err err =>
      ent ← cacheLookup key;
      mret (match ent with Some e => Ok (cc_cli e) | None => Err err end)
  | Ok (kubeconfig, rv) =>
      ent ← cacheLookup key;
      match freshClient ent rv with
      | Some cli => mret (Ok cli)
      | None =>
          try cli := clientFromKubeconfig kubeconfig namespace (sel_Name secretRef) in
          modifyClients (insert key (mkCached cli rv));;
          mret (Ok cli)
      end
  end.

Definition Invalidate (namespace : string) (secretRef : SecretKeySelector) : M unit :=
  modifyClients (delete (cacheKey namespace secretRef)).

Definition PutForTest (namespace : string) (secretRef : SecretKeySelector) (cli : client)
    : M unit :=
  modifyClients (insert (cacheKey namespace secretRef) (mkCached cli "")).

(** ** The answers the environment can give, as pure functions *)

(** What loadKubeconfig makes of the answer to its read. *)
Definition kubeconfigOf (namespace : string) (secretRef : SecretKeySelector)
    (r : result Secret) : result (string * string) :=
  match r with
  | Err e => Err (Wrap ("get kubeconfig secret " +:+ namespace +:+ "/" +:+ sel_Name secretRef) e)
  | Ok sec =>
      match secretBytes sec (sel_Key secretRef) with
      | None => Err (Wrap ("secret " +:+ namespace +:+ "/" +:+ sel_Name secretRef
                  +:+ " key " +:+ Quote (sel_Key secretRef)) ErrSecretKeyEmpty)
      | Some b => Ok (b, sec_ResourceVersion sec)
      end
  end.

Lemma loadKubeconfig_talks hub ns ref :
  talks (loadKubeconfig hub ns ref) (fun t r => exists rs,
    t = [CGetSecret hub (NN ns (sel_Name ref)) rs] /\ r = kubeconfigOf ns ref rs).
Proof.
  unfold loadKubeconfig. talks_step. destruct a as [sec|e]; simpl.
  - destruct (secretBytes sec (sel_Key ref)) eqn:E; talks_step;
      exists (Ok sec); simpl; by rewrite E.
  - talks_step. by exists (Err e).
Qed.

Lemma clientFromKubeconfig_talks kc ns n :
  talks (clientFromKubeconfig kc ns n) (fun t r =>
    match r with
    | Ok cli => exists cfg, RESTConfigFromKubeConfig kc = Ok cfg /\ t = [CNewClient cfg (Ok cli)]
    | Err _ => (t = [] /\ forall cfg, RESTConfigFromKubeConfig kc <> Ok cfg) \/
               exists cfg e, t = [CNewClient cfg (Err e)]
    end).
Proof.
  unfold clientFromKubeconfig. destruct (RESTConfigFromKubeConfig kc) as [cfg|] eqn:E.
  - talks_step. talks_step. destruct a; simpl; eauto.
  - talks_step. by left.
Qed.

(** The runs of GetOrCreate over a cache whose entry for the key is [ent]:
    calls made, answer, and the new entry if one is stored. *)
Inductive goc_run (hub : client) (ns : string) (ref : SecretKeySelector)
    (ent : option cachedClient) : list apicall -> result client -> option cachedClient -> Prop :=
  | goc_stale rs e c :
      kubeconfigOf ns ref rs = Err e -> ent = Some c ->
      goc_run hub ns ref ent [CGetSecret hub (NN ns (sel_Name ref)) rs] (Ok (cc_cli c)) None
  | goc_unreadable rs e :
      kubeconfigOf ns ref rs = Err e -> ent = None ->
      goc_run hub ns ref ent [CGetSecret hub (NN ns (sel_Name ref)) rs] (Err e) None
  | goc_hit rs kc rv cli :
      kubeconfigOf ns ref rs = Ok (kc, rv) -> ent = Some (mkCached cli rv) ->
      goc_run hub ns ref ent [CGetSecret hub (NN ns (sel_Name ref)) rs] (Ok cli) None
  | goc_failed rs kc rv t e :
      kubeconfigOf ns ref rs = Ok (kc, rv) -> freshClient ent rv = None ->
      ((t = [] /\ forall cfg, RESTConfigFromKubeConfig kc <> Ok cfg) \/
       exists cfg e', t = [CNewClient cfg (Err e')]) ->
      goc_run hub ns ref ent (CGetSecret hub (NN ns (sel_Name ref)) rs :: t) (Err e) None
  | goc_built rs kc rv cfg cli :
      kubeconfigOf ns ref rs = Ok (kc, rv) -> freshClient ent rv = None ->
      RESTConfigFromKubeConfig kc = Ok cfg ->
      goc_run hub ns ref ent
        [CGetSecret hub (NN ns (sel_Name ref)) rs; CNewClient cfg (Ok cli)]
        (Ok cli) (Some (mkCached cli rv)).

(** The state after a run that made the calls [t] and stored [upd] at [key]. *)
Definition cacheState (w : World) (t : list apicall) (key : string)
    (upd : option cachedClient) (s : opstate) : opstate :=
  mkOp w (op_failCount s)
    (match upd with Some c => <[key := c]> (op_clients s) | None => op_clients s end)
    (op_events s) (op_metrics s) (op_calls s ++ t).

Lemma freshClient_Some ent rv cli :
  freshClient ent rv = Some cli <-> ent = Some (mkCached cli rv).
Proof.
  destruct ent as [[c v]|]; simpl; [|naive_solver].
  case_bool_decide; split; naive_solver.
Qed.

Lemma GetOrCreate_run hub ns ref s :
  exists t r upd w,
    GetOrCreate hub ns ref s = (Val r, cacheState w t (cacheKey ns ref) upd s) /\
    exec (op_world s) t w /\
    goc_run hub ns ref (op_clients s !! cacheKey ns ref) t r upd.
Proof.
  unfold GetOrCreate, mbind, M_bind.
  destruct (loadKubeconfig_talks hub ns ref s) as (t & r & w & -> & Hx & rs & -> & ->).
  destruct (kubeconfigOf ns ref rs) as [[kc rv]|e] eqn:E; simpl.
  - unfold cacheLookup, gets. simpl.
    destruct (freshClient (op_clients s !! cacheKey ns ref) rv) as [cli|] eqn:F.
    + eexists _, _, None, w. split; [done|]. split; [done|].
      eapply goc_hit; [done|]. by apply freshClient_Some.
    + unfold mbind, M_bind.
      set (s1 := advance w _ s).
      destruct (clientFromKubeconfig_talks kc ns (sel_Name ref) s1)
        as (t2 & r2 & w2 & -> & Hx2 & Hr2).
      destruct r2 as [cli|e2].
      * destruct Hr2 as (cfg & Hcfg & ->). simpl.
        eexists [_; _], _, (Some _), w2. split_and!; [|by eapply (exec_app _ [_])|by eapply goc_built].
        unfold cacheState, s1, advance. simpl. by rewrite <- app_assoc.
      * eexists (_ :: t2), _, None, w2. split_and!; [|by eapply (exec_app _ [_])|by eapply goc_failed].
        unfold cacheState, s1, advance. simpl. by rewrite <- app_assoc.
  - destruct (op_clients s !! cacheKey ns ref) as [c|] .
    + eexists _, _, None, w. split; [done|]. split; [done|]. by eapply goc_stale.
    + eexists _, _, None, w. split; [done|]. split; [done|]. by eapply goc_unreadable.
Qed.

(** ** Properties of one call *)

(** C28. After GetOrCreate the cache is as fresh as the Secret it read: when the
    Secret is readable at resourceVersion rv, a returned client is the one the
    cache now holds for the key, marked with exactly that rv, so a rotated
    kubeconfig is never answered with the client of the old one. When the
    Secret cannot be used, a client is returned iff one was cached, and that
    one. An error leaves the cache as it was, and the other keys, the failure
    counters, the events and the metrics are never touched. *)
Theorem GetOrCreate_fresh hub ns ref s :
  wp (GetOrCreate hub ns ref) (fun o s' => exists r rs t,
    o = Val r /\
    op_calls s' = op_calls s ++ CGetSecret hub (NN ns (sel_Name ref)) rs :: t /\
    match kubeconfigOf ns ref rs, r with
    | Ok (_, rv), Ok cli => op_clients s' !! cacheKey ns ref = Some (mkCached cli rv)
    | Ok _, Err _ => op_clients s' = op_clients s
    | Err e, _ =>
        op_clients s' = op_clients s /\
        r = match op_clients s !! cacheKey ns ref with Some c => Ok (cc_cli c) | None => Err e end
    end /\
    (forall k, k <> cacheKey ns ref -> op_clients s' !! k = op_clients s !! k) /\
    op_failCount s' = op_failCount s /\ op_events s' = op_events s /\
    op_metrics s' = op_metrics s) s.
Proof.
  unfold wp. destruct (GetOrCreate_run hub ns ref s) as (t & r & upd & w & -> & _ & Hr).
  unfold cacheState. simpl. inversion Hr; subst; simpl;
    eexists _, _, _; (split; [done|split; [done|]]);
    match goal with E : kubeconfigOf _ _ _ = _ |- _ => rewrite E end;
    split_and!; try done; try congruence.
  - by rewrite H1.
  - by rewrite H1.
  - by rewrite lookup_insert_eq.
  - intros k Hk. by rewrite lookup_insert_ne.
Qed.

(** A client is built once per version of the kubeconfig: a call that reads
    the Secret at the resourceVersion the cached client was built from returns
    that client, makes no other call and leaves the cache as it is. *)
Theorem GetOrCreate_hit hub ns ref s cli kc rv :
  op_clients s !! cacheKey ns ref = Some (mkCached cli rv) ->
  kubeconfigOf ns ref (clientGetSecret hub (NN ns (sel_Name ref)) (op_world s)).1
  = Ok (kc, rv) ->
  wp (GetOrCreate hub ns ref) (fun o s' =>
    o = Val (Ok cli) /\ length (op_calls s') = S (length (op_calls s)) /\
    op_clients s' = op_clients s) s.
Proof.
  intros Hc Hk. unfold wp.
  destruct (GetOrCreate_run hub ns ref s) as (t & r & upd & w & -> & Hx & Hr). simpl.
  rewrite Hc in Hr. rewrite length_app.
  assert (Hfst : forall rs t', t = CGetSecret hub (NN ns (sel_Name ref)) rs :: t' ->
                 kubeconfigOf ns ref rs = Ok (kc, rv)).
  { intros rs t' ->. inversion Hx as [|? ? ? ? ? Ha]; subst. simpl in Ha. by rewrite Ha in Hk. }
  inversion Hr as [? ? ? E|? ? E ?|? ? ? ? E He|? ? ? ? ? E F|? ? ? ? ? E F]; subst;
    rewrite (Hfst _ _ eq_refl) in E; simplify_eq; simpl in *.
  - split_and!; [done|lia|done].
  - by rewrite bool_decide_eq_true_2 in F.
  - by rewrite bool_decide_eq_true_2 in F.
Qed.

(** ** Interleaving

    The locks of GetOrCreate protect single map accesses, so between them
    other goroutines run. A call is the sequence of its atomic sections; the
    program counter carries the values the code has in its locals. [PDone]
    also records the resourceVersion the call read, if it read one. *)
Inductive pc : Type :=
  | PLoad
  | PFallback (err : goerr)
  | PLookup (kubeconfig rv : string)
  | PBuild (kubeconfig rv : string)
  | PStore (cli : client) (rv : string)
  | PDone (seen : option string) (r : result client).

Definition section_step (hub : client) (ns : string) (ref : SecretKeySelector) (p : pc) : M pc :=
  match p with
  | PLoad =>
      r ← loadKubeconfig hub ns ref;
      mret (match r with Err e => PFallback e | Ok (kc, rv) => PLookup kc rv end)
  | PFallback err =>
      ent ← cacheLookup (cacheKey ns ref);
      mret (PDone None (match ent with Some e => Ok (cc_cli e) | None => Err err end))
  | PLookup kc rv =>
      ent ← cacheLookup (cacheKey ns ref);
      mret (match freshClient ent rv with
            | Some cli => PDone (Some rv) (Ok cli)
            | None => PBuild kc rv
            end)
  | PBuild kc rv =>
      r ← clientFromKubeconfig kc ns (sel_Name ref);
      mret (match r with Ok cli => PStore cli rv | Err e => PDone (Some rv) (Err e) end)
  | PStore cli rv =>
      modifyClients (insert (cacheKey ns ref) (mkCached cli rv));;
      mret (PDone (Some rv) (Ok cli))
  | PDone seen r => mret (PDone seen r)
  end.

Fixpoint sections (n : nat) (hub : client) (ns : string) (ref : SecretKeySelector) (p : pc)
    : M pc :=
  match n with
  | O => mret p
  | S n' => p' ← section_step hub ns ref p; sections n' hub ns ref p'
  end.

Record thread : Type := mkThread {
  th_namespace : string; th_ref : SecretKeySelector; th_pc : pc
}.

Definition setPc (p : pc) (th : thread) : thread :=
  mkThread (th_namespace th) (th_ref th) p.

(** One step of the process: a goroutine starts a call or runs its next
    section, a client is invalidated, or the world outside moves. *)
Inductive sys_step (hub : client) : gmap nat thread * opstate -> gmap nat thread * opstate -> Prop :=
  | sys_call ths s i ns ref :
      ths !! i = None -> validRef ns ref ->
      sys_step hub (ths, s) (<[i := mkThread ns ref PLoad]> ths, s)
  | sys_section ths s i th p' s' :
      ths !! i = Some th ->
      section_step hub (th_namespace th) (th_ref th) (th_pc th) s = (Val p', s') ->
      sys_step hub (ths, s) (<[i := setPc p' th]> ths, s')
  | sys_invalidate ths s ns ref s' :
      Invalidate ns ref s = (Val tt, s') ->
      sys_step hub (ths, s) (ths, s')
  | sys_world ths s w :
      sys_step hub (ths, s) (ths, setWorld w s).

(** [c] was built from the kubeconfig of the Secret [ref] as it was at the
    resourceVersion [c] carries. *)
Definition built (hub : client) (calls : list apicall) (ns : string) (ref : SecretKeySelector)
    (c : cachedClient) : Prop :=
  exists sec kc cfg,
    CGetSecret hub (NN ns (sel_Name ref)) (Ok sec) ∈ calls /\
    secretBytes sec (sel_Key ref) = Some kc /\
    sec_ResourceVersion sec = cc_resourceVersion c /\
    RESTConfigFromKubeConfig kc = Ok cfg /\
    CNewClient cfg (Ok (cc_cli c)) ∈ calls.

Definition loaded (hub : client) (calls : list apicall) (ns : string) (ref : SecretKeySelector)
    (kc rv : string) : Prop :=
  exists sec, CGetSecret hub (NN ns (sel_Name ref)) (Ok sec) ∈ calls /\
    secretBytes sec (sel_Key ref) = Some kc /\ sec_ResourceVersion sec = rv.

Definition pc_ok (hub : client) (calls : list apicall) (ns : string) (ref : SecretKeySelector)
    (p : pc) : Prop :=
  match p with
  | PLookup kc rv | PBuild kc rv => loaded hub calls ns ref kc rv
  | PStore cli rv | PDone (Some rv) (Ok cli) => built hub calls ns ref (mkCached cli rv)
  | PDone None (Ok cli) => exists rv, built hub calls ns ref (mkCached cli rv)
  | _ => True
  end.

Record sys_ok (hub : client) (st : gmap nat thread * opstate) : Prop := {
  ok_cache k c : op_clients st.2 !! k = Some c ->
    exists ns ref, validRef ns ref /\ k = cacheKey ns ref /\ built hub (op_calls st.2) ns ref c;
  ok_threads i th : st.1 !! i = Some th ->
    validRef (th_namespace th) (th_ref th) /\
    pc_ok hub (op_calls st.2) (th_namespace th) (th_ref th) (th_pc th)
}.

(** More calls never undo what earlier ones established. *)
Lemma built_mono hub calls t ns ref c :
  built hub calls ns ref c -> built hub (calls ++ t) ns ref c.
Proof.
  intros (sec & kc & cfg & Hs & ? & ? & ? & Hn). exists sec, kc, cfg.
  split_and!; try done; apply elem_of_app; by left.
Qed.

Lemma loaded_mono hub calls t ns ref kc rv :
  loaded hub calls ns ref kc rv -> loaded hub (calls ++ t) ns ref kc rv.
Proof. intros (sec & Hs & ? & ?). exists sec. split_and!; try done. apply elem_of_app. by left. Qed.

Lemma pc_ok_mono hub calls t ns ref p :
  pc_ok hub calls ns ref p -> pc_ok hub (calls ++ t) ns ref p.
Proof.
  destruct p as [| | | | |[rv|] [cli|]]; simpl; eauto using built_mono, loaded_mono.
  intros [rv Hb]. eauto using built_mono.
Qed.

Definition cache_ok (hub : client) (s : opstate) : Prop :=
  forall k c, op_clients s !! k = Some c ->
    exists ns ref, validRef ns ref /\ k = cacheKey ns ref /\ built hub (op_calls s) ns ref c.

Lemma cache_ok_advance hub w t s : cache_ok hub s -> cache_ok hub (advance w t s).
Proof.
  intros Hok k c Hc. destruct (Hok k c Hc) as (ns & ref & ? & ? & ?).
  exists ns, ref. split_and!; [done..|by apply built_mono].
Qed.

Lemma cache_ok_lookup hub s ns ref c :
  cache_ok hub s -> validRef ns ref -> op_clients s !! cacheKey ns ref = Some c ->
  built hub (op_calls s) ns ref c.
Proof.
  intros Hok Hv Hc. destruct (Hok _ _ Hc) as (ns' & ref' & Hv' & Hk & Hb).
  by destruct (cacheKey_injective _ _ _ _ Hv Hv' Hk) as [-> ->].
Qed.

(** Every section keeps the invariant and only appends to the trace. *)
Lemma section_step_ok hub ns ref p s p' s' :
  section_step hub ns ref p s = (Val p', s') ->
  validRef ns ref -> cache_ok hub s -> pc_ok hub (op_calls s) ns ref p ->
  cache_ok hub s' /\ pc_ok hub (op_calls s') ns ref p' /\
  exists t, op_calls s' = op_calls s ++ t.
Proof.
  intros E Hv Hok Hp. destruct p as [|err|kc rv|kc rv|cli rv|seen r];
    unfold section_step, mbind, M_bind in E; simpl in Hp.
  - destruct (loadKubeconfig_talks hub ns ref s) as (t & r & w & E' & _ & rs & -> & ->).
    rewrite E' in E. unfold mret, M_ret in E. injection E as <- <-.
    split_and!; [by apply cache_ok_advance| |by eexists].
    destruct (kubeconfigOf ns ref rs) as [[kc rv]|e] eqn:Ek; [|done]. simpl.
    destruct rs as [sec|e]; [|done]. simpl in Ek.
    destruct (secretBytes sec (sel_Key ref)) eqn:Eb; [|done]. simplify_eq.
    exists sec. split_and!; [apply elem_of_app; right; by constructor|done..].
  - unfold cacheLookup, gets, mret, M_ret in E. injection E as <- <-.
    split_and!; [done| |by exists []; rewrite app_nil_r].
    destruct (op_clients s !! cacheKey ns ref) as [[cli rv]|] eqn:Ec; [|done].
    exists rv. by apply cache_ok_lookup.
  - unfold cacheLookup, gets, mret, M_ret in E. injection E as <- <-.
    split_and!; [done| |by exists []; rewrite app_nil_r].
    destruct (freshClient _ rv) as [cli|] eqn:Ef; [|done].
    apply freshClient_Some in Ef. by apply cache_ok_lookup.
  - destruct (clientFromKubeconfig_talks kc ns (sel_Name ref) s) as (t & r & w & E' & _ & Hr).
    rewrite E' in E. unfold mret, M_ret in E. injection E as <- <-.
    split_and!; [by apply cache_ok_advance| |by eexists].
    destruct r as [cli|e]; [|done]. destruct Hr as (cfg & Hcfg & ->).
    destruct Hp as (sec & Hs & Hb & Hrv). exists sec, kc, cfg.
    split_and!; try done; apply elem_of_app; [by left|right; by constructor].
  - unfold modifyClients, mret, M_ret in E. injection E as <- <-.
    split_and!; [|done|by exists []; rewrite app_nil_r].
    intros k c. simpl. rewrite lookup_insert_Some. intros [[<- <-]|[_ Hc]]; eauto.
  - unfold mret, M_ret in E. injection E as <- <-.
    split_and!; [done|done|by exists []; rewrite app_nil_r].
Qed.

Lemma sys_step_ok hub st st' : sys_step hub st st' -> sys_ok hub st -> sys_ok hub st'.
Proof.
  intros Hst [Hc Ht]. inversion Hst as [ths s i ns ref Hi Hv|ths s i th p' s' Hi Hs|
    ths s ns ref s' Hs|ths s w]; subst; simpl in *.
  - split; simpl; [done|]. intros j th. rewrite lookup_insert_Some.
    intros [[_ <-]|[_ Hj]]; [done|by eapply Ht].
  - destruct (Ht i th Hi) as [Hv Hp].
    destruct (section_step_ok _ _ _ _ _ _ _ Hs Hv Hc Hp) as (Hc' & Hp' & t & Et).
    split; simpl; [done|]. intros j th'. rewrite lookup_insert_Some.
    intros [[_ <-]|[_ Hj]]; [done|]. destruct (Ht j th' Hj). rewrite Et.
    split; [done|by apply pc_ok_mono].
  - injection Hs as <-. split; simpl; [|done].
    intros k c [_ Hk]%lookup_delete_Some. by apply Hc.
  - by split.
Qed.

(** C27. Under any interleaving of reconciles, invalidations and changes of the
    world, starting from an empty cache: a finished GetOrCreate that read the
    Secret at resourceVersion rv and returned a client returns one that was
    built from that very Secret's kubeconfig at that rv, although other
    goroutines may have overwritten the entry meanwhile; one that could not
    read the Secret returns a client built from an earlier version of it. No
    call ever returns the client of another Secret. *)
Theorem GetOrCreate_interleaved hub s ths s' i th seen cli :
  op_clients s = NewCache ->
  rtc (sys_step hub) (∅, s) (ths, s') ->
  ths !! i = Some th -> th_pc th = PDone seen (Ok cli) ->
  exists rv, built hub (op_calls s') (th_namespace th) (th_ref th) (mkCached cli rv) /\
    (seen = Some rv \/ seen = None).
Proof.
  intros H0 Hrtc Hi Hd.
  assert (Hok : sys_ok hub (ths, s')).
  { eapply rtc_invariant; [apply sys_step_ok|done|]. split; simpl; [by rewrite H0|done]. }
  destruct (ok_threads _ _ Hok i th Hi) as [_ Hp]. rewrite Hd in Hp. simpl in Hp.
  destruct seen as [rv|]; [by eauto|]. destruct Hp as [rv Hb]. eauto.
Qed.

(** The atomic sections are GetOrCreate: run one after the other without
    interruption, four of them take a call from its start to the same answer
    in the same state as the function as written. *)
Theorem sections_GetOrCreate hub ns ref s :
  exists seen, sections 4 hub ns ref PLoad s
  = match GetOrCreate hub ns ref s with
    | (Val r, s') => (Val (PDone seen r), s')
    | (Panicked, s') => (Panicked, s')
    end.
Proof.
  unfold GetOrCreate. simpl. unfold mbind, M_bind, mret, M_ret.
  destruct (loadKubeconfig_talks hub ns ref s) as (t & r & w & -> & _ & _).
  destruct r as [[kc rv]|e]; simpl; [|by eexists].
  unfold cacheLookup, gets.
  destruct (freshClient _ rv) as [cli|]; simpl; [by eexists|].
  unfold mbind, M_bind, mret, M_ret. set (s1 := advance w t s).
  destruct (clientFromKubeconfig_talks kc ns (sel_Name ref) s1) as (t2 & r2 & w2 & -> & _ & _).
  destruct r2; simpl; by eexists.
Qed.
End remoteclient.

(** The hub holds the kubeconfig of "remote" at resourceVersion 7. *)
Definition kcRef : SecretKeySelector := mkSelector "remote-kubeconfig" "value".

Definition hubWorld : fakeWorld :=
  mkFake ∅ ∅ {[("hub", NN "ops" "remote-kubeconfig") :=
                 mkSecret "7" (Some {["value" := "remote"]})]} ∅ 0 [] None ∅.

Lemma GetOrCreate_hit_witness :
  let s := (GetOrCreate (site "hub") "ops" kcRef (fakeState hubWorld)).2 in
  length (op_calls s) = 2%nat /\
  wp (GetOrCreate (site "hub") "ops" kcRef) (fun o s' =>
    o = Val (Ok "remote") /\ length (op_calls s') = S (length (op_calls s)) /\
    op_clients s' = op_clients s) s.
Proof.
  intros s. split; [vm_compute; reflexivity|].
  refine (GetOrCreate_hit (site "hub") "ops" kcRef s (site "remote") "remote" "7" _ _);
    reflexivity.
Defined.

Definition sectionAt (p : pc) (s : opstate) : opstate :=
  (section_step (site "hub") "ops" kcRef p s).2.

Definition loadedState : opstate := sectionAt PLoad (fakeState hubWorld).
Definition builtState : opstate := sectionAt (PBuild "remote" "7") loadedState.
Definition storedState : opstate := sectionAt (PStore (site "remote") "7") builtState.

Definition callAt (p : pc) : gmap nat thread := {[0%nat := mkThread "ops" kcRef p]}.

Lemma GetOrCreate_interleaved_witness :
  exists rv, built (site "hub") (op_calls storedState) "ops" kcRef (mkCached (site "remote") rv) /\
    (Some "7" = Some rv \/ Some "7" = None).
Proof.
  refine (GetOrCreate_interleaved (site "hub") (fakeState hubWorld)
    (callAt (PDone (Some "7") (Ok (site "remote")))) storedState 0
    (mkThread "ops" kcRef (PDone (Some "7") (Ok (site "remote")))) (Some "7") (site "remote")
    eq_refl _ eq_refl eq_refl).
  eapply (rtc_l _ _ (callAt PLoad, fakeState hubWorld)).
  { apply (sys_call _ ∅ _ 0%nat "ops" kcRef); [reflexivity|by split]. }
  eapply (rtc_l _ _ (callAt (PLookup "remote" "7"), loadedState)).
  { apply (sys_section _ (callAt PLoad) _ 0%nat (mkThread "ops" kcRef PLoad));
      reflexivity. }
  eapply (rtc_l _ _ (callAt (PBuild "remote" "7"), loadedState)).
  { apply (sys_section _ (callAt (PLookup "remote" "7")) _ 0%nat
      (mkThread "ops" kcRef (PLookup "remote" "7"))); reflexivity. }
  eapply (rtc_l _ _ (callAt (PStore (site "remote") "7"), builtState)).
  { apply (sys_section _ (callAt (PBuild "remote" "7")) _ 0%nat
      (mkThread "ops" kcRef (PBuild "remote" "7"))); reflexivity. }
  apply rtc_once.
  apply (sys_section _ (callAt (PStore (site "remote") "7")) _ 0%nat
      (mkThread "ops" kcRef (PStore (site "remote") "7"))); reflexivity.
Defined.
