(* ===== verification/Metrics.v ===== *)
(** * internal/metrics: the operator's Prometheus collectors

    Each vector with its name and label names, and the setters as updates of
    the registry. A [WithLabelValues] whose number of values differs from the
    vector's labels panics, as the client library documents. *)

From S2P Require Import Prelude GoStd Api External FakeKube Operator Fixtures.

Definition subsystem : string := "cnpg_ha".

Definition siteLabels : list string := ["hacluster"; "namespace"; "site"].

Definition CurrentPrimarySite : metricVec := mkVec (subsystem +:+ "_current_primary_site") siteLabels.
Definition SiteReachable : metricVec := mkVec (subsystem +:+ "_site_reachable") siteLabels.
Definition SiteReady : metricVec := mkVec (subsystem +:+ "_site_ready") siteLabels.
Definition ReplicaLagSeconds : metricVec := mkVec (subsystem +:+ "_replica_lag_seconds") siteLabels.
Definition ReplicaLagBytes : metricVec := mkVec (subsystem +:+ "_replica_lag_bytes") siteLabels.
Definition SiteCurrentLSNBytes : metricVec :=
  mkVec (subsystem +:+ "_site_current_lsn_bytes") siteLabels.
Definition SiteLSNInfo : metricVec :=
  mkVec (subsystem +:+ "_site_lsn_info") ["hacluster"; "namespace"; "site"; "lsn"].
Definition SplitBrain : metricVec := mkVec (subsystem +:+ "_split_brain") ["hacluster"; "namespace"].
Definition FailoverTotal : metricVec :=
  mkVec (subsystem +:+ "_failover_total") ["hacluster"; "namespace"; "mode"].
Definition FailoverDurationSeconds : metricVec :=
  mkVec (subsystem +:+ "_failover_duration_seconds") ["hacluster"; "namespace"; "mode"].

(** The collectors MustRegister hands to the registry, in its order. *)
Definition MustRegister : list metricVec :=
  [CurrentPrimarySite; SiteReachable; SiteReady; ReplicaLagSeconds; ReplicaLagBytes;
   SiteCurrentLSNBytes; SiteLSNInfo; SplitBrain; FailoverTotal; FailoverDurationSeconds].

Definition boolGauge (b : bool) : float64 := if b then float_of_Z 1 else float_of_Z 0.

Section metrics.
Context `{Extern}.

(** [vec.WithLabelValues(ls...)], then [f] on the series *)
Definition WithLabelValues (v : metricVec) (ls : list string)
    (f : registry -> metricVec -> list string -> registry) : M unit :=
  if bool_decide (length ls = length (mv_labels v))
  then modifyMetrics (fun reg => f reg v ls) else panic.

Definition setGauge (v : metricVec) (ls : list string) (x : float64) : M unit :=
  WithLabelValues v ls (fun reg v ls => gaugeSet reg v ls x).

Definition SetSite (haNamespace haName site : string) (isPrimary reachable ready : bool) : M unit :=
  setGauge CurrentPrimarySite [haName; haNamespace; site] (boolGauge isPrimary);;
  setGauge SiteReachable [haName; haNamespace; site] (boolGauge reachable);;
  setGauge SiteReady [haName; haNamespace; site] (boolGauge ready).

Definition SetReplicaLag (haNamespace haName site : string) (seconds : float64) : M unit :=
  setGauge ReplicaLagSeconds [haName; haNamespace; site] seconds.

Definition ClearReplicaLag (haNamespace haName site : string) : M unit :=
  modifyMetrics (fun reg => gaugeDelete reg ReplicaLagSeconds [haName; haNamespace; site]).

Definition SetReplicaLagBytes (haNamespace haName site : string) (bytes : float64) : M unit :=
  setGauge ReplicaLagBytes [haName; haNamespace; site] bytes.

Definition ClearReplicaLagBytes (haNamespace haName site : string) : M unit :=
  modifyMetrics (fun reg => gaugeDelete reg ReplicaLagBytes [haName; haNamespace; site]).

Definition SetSiteCurrentLSNBytes (haNamespace haName site : string) (bytes : float64) : M unit :=
  setGauge SiteCurrentLSNBytes [haName; haNamespace; site] bytes.

Definition ClearSiteCurrentLSNBytes (haNamespace haName site : string) : M unit :=
  modifyMetrics (fun reg => gaugeDelete reg SiteCurrentLSNBytes [haName; haNamespace; site]).

Definition siteMatch (haNamespace haName site : string) : list (string * string) :=
  [("hacluster", haName); ("namespace", haNamespace); ("site", site)].

Definition SetSiteLSNInfo (haNamespace haName site lsn : string) : M unit :=
  modifyMetrics (fun reg => gaugeDeletePartial reg SiteLSNInfo (siteMatch haNamespace haName site));;
  setGauge SiteLSNInfo [haName; haNamespace; site; lsn] (float_of_Z 1).

Definition ClearSiteLSNInfo (haNamespace haName site : string) : M unit :=
  modifyMetrics (fun reg => gaugeDeletePartial reg SiteLSNInfo (siteMatch haNamespace haName site)).

Definition SetSplitBrain (haNamespace haName : string) (splitBrain : bool) : M unit :=
  setGauge SplitBrain [haName; haNamespace] (boolGauge splitBrain).

Definition IncFailover (haNamespace haName mode : string) : M unit :=
  WithLabelValues FailoverTotal [haName; haNamespace; mode] counterInc.

Definition ObserveFailoverDuration (haNamespace haName mode : string) (seconds : float64) : M unit :=
  WithLabelValues FailoverDurationSeconds [haName; haNamespace; mode]
    (fun reg v ls => histogramObserve reg v ls seconds).

(** ** Facts *)

Section laws.
Context `{!PromModel} `{!PromLaws}.

Lemma labelsMatch_site ns h site h' ns' site' l :
  labelsMatch (mv_labels SiteLSNInfo) (h' :: ns' :: site' :: l) (siteMatch ns h site)
  = bool_decide ((h', ns', site') = (h, ns, site)).
Proof.
  destruct l; unfold labelsMatch; simpl; apply eq_true_iff_eq;
  rewrite !andb_true_iff, !bool_decide_eq_true, !elem_of_cons, ?elem_of_nil;
  (split; [intros (Hh & Hn & Hs & _)|intros [= -> -> ->]; split_and!; try done; auto]).
  all: naive_solver.
Qed.

(** Reads off the series an update addresses. *)
Lemma gaugeRead_set_eq reg v ls x : gaugeRead (gaugeSet reg v ls x) v ls = Some x.
Proof. by rewrite gaugeRead_set, decide_True. Qed.

Lemma gaugeRead_set_ne reg v ls x v' ls' :
  (v, ls) <> (v', ls') -> gaugeRead (gaugeSet reg v ls x) v' ls' = gaugeRead reg v' ls'.
Proof. intros Hne. by rewrite gaugeRead_set, decide_False. Qed.

Lemma gaugeRead_delete_eq reg v ls : gaugeRead (gaugeDelete reg v ls) v ls = None.
Proof. by rewrite gaugeRead_delete, decide_True. Qed.

Lemma gaugeRead_delete_ne reg v ls v' ls' :
  (v, ls) <> (v', ls') -> gaugeRead (gaugeDelete reg v ls) v' ls' = gaugeRead reg v' ls'.
Proof. intros Hne. by rewrite gaugeRead_delete, decide_False. Qed.

Lemma gaugeRead_partial_vec reg v partial v' ls' :
  v <> v' -> gaugeRead (gaugeDeletePartial reg v partial) v' ls' = gaugeRead reg v' ls'.
Proof. intros Hne. by rewrite gaugeRead_deletePartial, decide_False. Qed.

Lemma gaugeRead_partial_site reg ns h site h' ns' site' l :
  gaugeRead (gaugeDeletePartial reg SiteLSNInfo (siteMatch ns h site)) SiteLSNInfo
    (h' :: ns' :: site' :: l)
  = if decide ((h', ns', site') = (h, ns, site)) then None
    else gaugeRead reg SiteLSNInfo (h' :: ns' :: site' :: l).
Proof.
  rewrite gaugeRead_deletePartial, decide_True, labelsMatch_site by done.
  case_bool_decide; by case_decide.
Qed.

Lemma setGauge_run v ls x s :
  length ls = length (mv_labels v) ->
  setGauge v ls x s = modifyMetrics (fun reg => gaugeSet reg v ls x) s.
Proof. intros Hl. unfold setGauge, WithLabelValues. by rewrite bool_decide_eq_true_2. Qed.

(** Publishing a WAL position keeps one series per site: after
    SetSiteLSNInfo the only lsn label of that site is the new one, with value
    1, and the series of every other site, HACluster and vector are as they
    were; it never panics on a wrong number of labels. *)
Theorem SetSiteLSNInfo_single ns h site lsn s :
  wp (SetSiteLSNInfo ns h site lsn) (fun o s' => o = Val tt /\
    (forall l, gaugeRead (op_metrics s') SiteLSNInfo [h; ns; site; l]
               = if decide (l = lsn) then Some (float_of_Z 1) else None) /\
    (forall h' ns' site' l, (h', ns', site') <> (h, ns, site) ->
       gaugeRead (op_metrics s') SiteLSNInfo [h'; ns'; site'; l]
       = gaugeRead (op_metrics s) SiteLSNInfo [h'; ns'; site'; l]) /\
    (forall v ls, v <> SiteLSNInfo ->
       gaugeRead (op_metrics s') v ls = gaugeRead (op_metrics s) v ls)) s.
Proof.
  unfold wp, SetSiteLSNInfo, mbind, M_bind. cbn [modifyMetrics op_metrics].
  rewrite setGauge_run by done. simpl. split_and!; [done| | |].
  - intros l. rewrite gaugeRead_set, gaugeRead_partial_site, (decide_True (P := _ = (h, ns, site))) by done.
    repeat case_decide; naive_solver.
  - intros h' ns' site' l Hne. rewrite gaugeRead_set_ne by (intros [=]; naive_solver).
    by rewrite gaugeRead_partial_site, decide_False.
  - intros v ls Hv. rewrite gaugeRead_set_ne by naive_solver. by rewrite gaugeRead_partial_vec.
Qed.
End laws.
End metrics.

(** MustRegister never panics on a duplicate: the ten collectors have
    pairwise different names, and no vector repeats a label. *)
Theorem MustRegister_distinct :
  NoDup (mv_name <$> MustRegister) /\ Forall (fun v => NoDup (mv_labels v)) MustRegister.
Proof.
  split; [by apply (bool_decide_unpack _)|].
  unfold MustRegister. repeat constructor; by apply (bool_decide_unpack _).
Qed.

Lemma SetSiteLSNInfo_single_witness :
  wp (SetSiteLSNInfo "ops" "ha" "b" "0/3000060") (fun o s' => o = Val tt /\
    gaugeRead (op_metrics s') SiteLSNInfo ["ha"; "ops"; "b"; "0/3000060"] = Some (float_of_Z 1))
    (fakeState emptyWorld).
Proof.
  destruct (SetSiteLSNInfo_single "ops" "ha" "b" "0/3000060" (fakeState emptyWorld))
    as (Ho & Hl & _).
  split; [exact Ho|]. rewrite Hl. reflexivity.
Defined.
