(* ===== verification/Decision.v ===== *)
(** * internal/controller: observations and the decisions taken on them

    The pure part of the reconciler: which site is the primary, whether there
    is a split-brain, which replica to promote, after how many failures and
    how long after the last failover. *)

From S2P Require Import Prelude GoStd Api External Operator Health.

Record siteObservation : Type := mkObs {
  o_name : string;
  o_reachable : bool;
  o_primary : bool;
  o_ready : bool;
  o_phase : string;
  o_reason : string;
  o_timelineID : Z;              (* int64 *)
  o_lsnKnown : bool;
  o_lsn : string;
  o_lsnValue : Z;                (* uint64 *)
  o_lagSeconds : option float64
}.

Definition siteObsFromHealth (name : string) (h : SiteHealth) : siteObservation :=
  mkObs name (sh_Reachable h) (sh_Primary h) (sh_Ready h) (sh_Phase h) (sh_Reason h)
    (sh_TimelineID h) (sh_LSNKnown h) (sh_LSN h) (sh_LSNValue h) (sh_LagSeconds h).

(** ** The current primary *)

Definition primaryReady (o : siteObservation) : bool :=
  o_reachable o && o_primary o && o_ready o.

Definition primaryReadyCandidates (primary : siteObservation) (replicas : list siteObservation)
    : list string :=
  (if primaryReady primary then [o_name primary] else []) ++
  flat_map (fun r => if primaryReady r then [o_name r] else []) replicas.

Definition decideCurrentPrimary (primary : siteObservation) (replicas : list siteObservation)
    : string * bool :=
  match primaryReadyCandidates primary replicas with
  | [c] => (c, true)
  | _ => ("", false)
  end.

Definition detectSplitBrain (primary : siteObservation) (replicas : list siteObservation)
    : list string :=
  let candidates := primaryReadyCandidates primary replicas in
  if bool_decide (length candidates <= 1)%nat then [] else candidates.

Definition findObservation (name : string) (primary : siteObservation)
    (replicas : list siteObservation) : option siteObservation :=
  if bool_decide (o_name primary = name) then Some primary
  else snd <$> list_find (fun o => o_name o = name) replicas.

(** ** The promotion target *)

Definition moreAdvanced (candidate current : siteObservation) : bool :=
  if negb (Bool.eqb (o_lsnKnown candidate) (o_lsnKnown current)) then o_lsnKnown candidate
  else if o_lsnKnown candidate then o_lsnValue current <? o_lsnValue candidate
  else o_timelineID current <? o_timelineID candidate.

(** [!o.reachable || !o.ready || o.primary] negated *)
Definition healthyReplica (o : siteObservation) : bool :=
  negb (negb (o_reachable o) || negb (o_ready o) || o_primary o).

(** The loop over ha.Spec.Replicas from index [i]; [best] is None for -1. An
    index out of range of the observations is a run-time panic. *)
Fixpoint chooseLoop (mostAdvanced : bool) (failedPrimary : string)
    (replicaObs : list siteObservation) (reps : list ReplicaSite) (i : nat) (best : option nat)
    : outcome (option nat) :=
  match reps with
  | [] => Val best
  | rep :: rest =>
      let continue best' := chooseLoop mostAdvanced failedPrimary replicaObs rest (S i) best' in
      if bool_decide (rs_Name rep = failedPrimary) then continue best
      else
        match replicaObs !! i with
        | None => Panicked
        | Some o =>
            if negb (healthyReplica o) then continue best
            else
              match best with
              | None => if negb mostAdvanced then Val (Some i) else continue (Some i)
              | Some b =>
                  match replicaObs !! b with
                  | None => Panicked
                  | Some ob => if moreAdvanced o ob then continue (Some i) else continue best
                  end
              end
        end
  end.

Definition chooseTarget (ha : HACluster) (replicaObs : list siteObservation)
    (failedPrimary : string) : outcome (ReplicaSite * nat * bool) :=
  let mostAdvanced :=
    bool_decide (fs_PromotionPolicy (spec_Failover (ha_Spec ha)) = PromotionPolicyMostAdvancedLSN) in
  let replicas := spec_Replicas (ha_Spec ha) in
  match chooseLoop mostAdvanced failedPrimary replicaObs replicas 0 None with
  | Panicked => Panicked
  | Val None => Val (zeroReplicaSite, 0%nat, false)
  | Val (Some best) =>
      match replicas !! best with
      | None => Panicked
      | Some rep => Val (rep, best, true)
      end
  end.

Definition findReplica (ha : HACluster) (name : string) : ReplicaSite * nat * bool :=
  match list_find (fun rep => rs_Name rep = name) (spec_Replicas (ha_Spec ha)) with
  | Some (i, rep) => (rep, i, true)
  | None => (zeroReplicaSite, 0%nat, false)
  end.

Definition replicationEndpointFor (ha : HACluster) (siteName : string) : string :=
  if bool_decide (siteName = ps_Name (spec_Primary (ha_Spec ha)))
  then ps_ReplicationEndpoint (spec_Primary (ha_Spec ha))
  else
    match list_find (fun rep => rs_Name rep = siteName) (spec_Replicas (ha_Spec ha)) with
    | Some (_, rep) => rs_ReplicationEndpoint rep
    | None => ""
    end.

Definition currentPrimaryForPromotion (ha : HACluster) (primaryObs : siteObservation)
    (replicaObs : list siteObservation) : result string :=
  let splitBrain := detectSplitBrain primaryObs replicaObs in
  if bool_decide (0 < length splitBrain)%nat
  then Err (ErrorString ("split-brain observed among sites " +:+ fmtStrings splitBrain))
  else if negb (bool_decide (st_CurrentPrimarySite (ha_Status ha) = ""))
  then Ok (st_CurrentPrimarySite (ha_Status ha))
  else
    match decideCurrentPrimary primaryObs replicaObs with
    | (observed, true) => Ok observed
    | (_, false) => Ok (ps_Name (spec_Primary (ha_Spec ha)))
    end.

(** ** The effect of a promotion on the observations *)

Record promotionEffect : Type := mkEffect { pe_demoted : string; pe_promoted : string }.

Definition noEffect : promotionEffect := mkEffect "" "".

Definition didPromote (e : promotionEffect) : bool := negb (bool_decide (pe_promoted e = "")).

(** The closure [set] of setObservationRole. *)
Definition setRole (primary : bool) (o : siteObservation) : siteObservation :=
  mkObs (o_name o) (o_reachable o) primary (if negb primary then false else o_ready o)
    (o_phase o) (o_reason o) (o_timelineID o) (o_lsnKnown o) (o_lsn o) (o_lsnValue o)
    (o_lagSeconds o).

Definition setObservationRole (siteName : string) (primary : bool)
    (obs : siteObservation * list siteObservation) : siteObservation * list siteObservation :=
  let '(primaryObs, replicaObs) := obs in
  if bool_decide (o_name primaryObs = siteName) then (setRole primary primaryObs, replicaObs)
  else
    match list_find (fun o => o_name o = siteName) replicaObs with
    | Some (i, o) => (primaryObs, <[i := setRole primary o]> replicaObs)
    | None => (primaryObs, replicaObs)
    end.

Definition applyPromotionEffect (e : promotionEffect)
    (obs : siteObservation * list siteObservation) : siteObservation * list siteObservation :=
  if negb (didPromote e) then obs
  else setObservationRole (pe_promoted e) true (setObservationRole (pe_demoted e) false obs).

(** ** Thresholds and durations *)

Definition defaultFailureThreshold : Z := 3.
Definition defaultHealthCheckInterval : Z := 10 * Second.
Definition minStabilizationCooldown : Z := 30 * Second.
Definition requeuePeriod : Z := 30 * Second.

Definition effectiveFailureThreshold (f : FailoverSpec) : Z :=
  if fs_FailureThreshold f <? 2 then defaultFailureThreshold else fs_FailureThreshold f.

Definition effectiveHealthInterval (f : FailoverSpec) : Z :=
  if fs_HealthCheckIntervalSeconds f <? 1 then defaultHealthCheckInterval
  else wrap_int64 (fs_HealthCheckIntervalSeconds f * Second).

Definition stabilizationCooldown (f : FailoverSpec) : Z :=
  let c := wrap_int64 (3 * effectiveHealthInterval f) in
  if minStabilizationCooldown <? c then c else minStabilizationCooldown.

(** ** Facts about the candidates *)

Definition servesWrites (o : siteObservation) : Prop := primaryReady o = true.

#[export] Instance servesWrites_dec o : Decision (servesWrites o).
Proof. unfold servesWrites. apply _. Defined.

Lemma primaryReadyCandidates_filter p rs :
  primaryReadyCandidates p rs = o_name <$> filter servesWrites (p :: rs).
Proof.
  unfold primaryReadyCandidates.
  assert (E : flat_map (fun r => if primaryReady r then [o_name r] else []) rs
              = o_name <$> filter servesWrites rs).
  { induction rs as [|r rs IH]; [done|]. simpl. rewrite filter_cons, IH.
    case_decide as Hr; unfold servesWrites in Hr; by destruct (primaryReady r). }
  rewrite E, filter_cons.
  case_decide as Hp; unfold servesWrites in Hp; by destruct (primaryReady p).
Qed.

Lemma decide_filter p rs n :
  decideCurrentPrimary p rs = (n, true) <->
  exists o, filter servesWrites (p :: rs) = [o] /\ o_name o = n.
Proof.
  unfold decideCurrentPrimary. rewrite primaryReadyCandidates_filter.
  destruct (filter servesWrites (p :: rs)) as [|o [|o' l]]; simpl; naive_solver.
Qed.

Lemma splitBrain_filter p rs :
  detectSplitBrain p rs =
  if decide (2 <= length (filter servesWrites (p :: rs)))%nat
  then o_name <$> filter servesWrites (p :: rs) else [].
Proof.
  unfold detectSplitBrain. rewrite primaryReadyCandidates_filter, length_fmap.
  case_bool_decide; case_decide; done || lia.
Qed.

Lemma splitBrain_nil p rs :
  detectSplitBrain p rs = [] <-> (length (filter servesWrites (p :: rs)) <= 1)%nat.
Proof.
  rewrite splitBrain_filter. case_decide; [|split; [lia|done]].
  destruct (filter _ _); simpl in *; [lia|]. split; [done|lia].
Qed.

(** decideCurrentPrimary names a site exactly when that site, and no other
    position of the observation list, is reachable, CNPG-primary and ready;
    otherwise it answers the empty name and false. *)
Theorem decideCurrentPrimary_unique p rs n :
  (decideCurrentPrimary p rs = (n, true) <->
   exists i o, (p :: rs) !! i = Some o /\ o_name o = n /\ servesWrites o /\
     forall j o', (p :: rs) !! j = Some o' -> servesWrites o' -> j = i) /\
  (snd (decideCurrentPrimary p rs) = false -> decideCurrentPrimary p rs = ("", false)).
Proof.
  split.
  - rewrite decide_filter. split.
    + intros (o & (i & Hi & Ho & Hu)%filter_one_position & Hn). by exists i, o.
    + intros (i & o & Hi & Hn & Ho & Hu). exists o. split; [|done].
      apply filter_one_position. by exists i.
  - unfold decideCurrentPrimary. by destruct (primaryReadyCandidates p rs) as [|? []].
Qed.

(** detectSplitBrain reports a conflict exactly when two different sites
    are both reachable, CNPG-primary and ready; it then lists every such site,
    declared primary first and replicas in spec order, and decideCurrentPrimary
    refuses to pick one. *)
Theorem detectSplitBrain_spec p rs :
  (detectSplitBrain p rs <> [] <->
   exists i j x y, (i < j)%nat /\ (p :: rs) !! i = Some x /\ (p :: rs) !! j = Some y /\
     servesWrites x /\ servesWrites y) /\
  (detectSplitBrain p rs <> [] ->
   detectSplitBrain p rs = o_name <$> filter servesWrites (p :: rs) /\
   decideCurrentPrimary p rs = ("", false)).
Proof.
  split.
  - rewrite splitBrain_nil, <- (filter_two_positions servesWrites). lia.
  - rewrite splitBrain_nil. intros Hl. split.
    + rewrite splitBrain_filter. by rewrite decide_True by lia.
    + unfold decideCurrentPrimary. rewrite primaryReadyCandidates_filter.
      destruct (filter _ _) as [|? []]; simpl in *; done || lia.
Qed.

(** ** Facts about the target choice *)

(** How far a site is: known LSNs rank above unknown ones, which are compared
    by timeline. *)
Definition advancement (o : siteObservation) : Z * Z :=
  if o_lsnKnown o then (1, o_lsnValue o) else (0, o_timelineID o).

Definition above (a b : Z * Z) : Prop := b.1 < a.1 \/ (a.1 = b.1 /\ b.2 < a.2).

Lemma moreAdvanced_above x y :
  moreAdvanced x y = true <-> above (advancement x) (advancement y).
Proof.
  unfold moreAdvanced, advancement, above.
  destruct (o_lsnKnown x), (o_lsnKnown y); simpl; rewrite ?Z.ltb_lt; naive_solver lia.
Qed.

Lemma moreAdvanced_not_above x y :
  moreAdvanced x y = false <-> ~ above (advancement x) (advancement y).
Proof. by rewrite <- moreAdvanced_above, not_true_iff_false. Qed.

Lemma healthyReplica_true o :
  healthyReplica o = true <-> o_reachable o = true /\ o_ready o = true /\ o_primary o = false.
Proof.
  unfold healthyReplica. destruct (o_reachable o), (o_ready o), (o_primary o); simpl; intuition.
Qed.

Section choice.
Context (mostAdvanced : bool) (failed : string).
Context (obs : list siteObservation) (reps : list ReplicaSite).

(** Replica [i] may be promoted, and was observed as [o]. *)
Definition eligible (i : nat) (o : siteObservation) : Prop :=
  (exists rep, reps !! i = Some rep /\ rs_Name rep <> failed) /\
  obs !! i = Some o /\ o_reachable o = true /\ o_ready o = true /\ o_primary o = false.

(** [b] wins against every eligible replica below index [n]. *)
Definition winner (n b : nat) : Prop :=
  exists o, eligible b o /\ (b < n)%nat /\
    forall j oj, eligible j oj -> (j < n)%nat ->
      if mostAdvanced
      then ((j < b)%nat -> above (advancement o) (advancement oj)) /\
           ~ above (advancement oj) (advancement o)
      else (b <= j)%nat.

Definition chosen (n : nat) (best : option nat) : Prop :=
  match best with
  | Some b => winner n b
  | None => forall j o, eligible j o -> (n <= j)%nat
  end.

Lemma eligible_functional i o o' : eligible i o -> eligible i o' -> o = o'.
Proof. intros (_ & E & _) (_ & E' & _). congruence. Qed.

Lemma winner_unique n b b' : winner n b -> winner n b' -> b = b'.
Proof.
  intros (o & He & Hb & Hw) (o' & He' & Hb' & Hw').
  specialize (Hw _ _ He' Hb'). specialize (Hw' _ _ He Hb).
  destruct mostAdvanced; [|lia]. destruct Hw as [H1 H2], Hw' as [H1' H2'].
  destruct (Nat.lt_trichotomy b b') as [Hlt|[|Hlt]]; [|done|].
  - by specialize (H1' Hlt).
  - by specialize (H1 Hlt).
Qed.

(** Extending the range by one index. *)
Lemma chosen_skip n best : (forall o, ~ eligible n o) -> chosen n best -> chosen (S n) best.
Proof.
  intros Hn. destruct best as [b|]; simpl.
  - intros (o & He & Hb & Hw). exists o. split_and!; [done|lia|].
    intros j oj Hj Hlt. destruct (decide (j = n)) as [->|]; [by destruct (Hn oj)|].
    apply Hw; [done|lia].
  - intros Hw j o Hj. destruct (decide (j = n)) as [->|]; [by destruct (Hn o)|].
    specialize (Hw j o Hj). lia.
Qed.

Lemma winner_first n o :
  eligible n o -> (forall j oj, eligible j oj -> (n <= j)%nat) -> winner (S n) n.
Proof.
  intros He Hmin. exists o. split_and!; [done|lia|]. intros j oj Hj Hlt.
  specialize (Hmin j oj Hj). assert (j = n) as -> by lia. destruct mostAdvanced; [|lia].
  rewrite (eligible_functional _ _ _ Hj He). unfold above. lia.
Qed.

Lemma winner_replace n b o ob :
  mostAdvanced = true -> winner n b -> eligible n o -> obs !! b = Some ob ->
  moreAdvanced o ob = true -> winner (S n) n.
Proof.
  intros Hm (ob' & Hb & Hlt & Hw) Hn E Hmore.
  assert (ob' = ob) as -> by (destruct Hb as (_ & ? & _); congruence).
  exists o. split_and!; [done|lia|]. rewrite Hm in *. intros j oj Hj Hjn.
  apply moreAdvanced_above in Hmore. unfold above in *.
  destruct (decide (j = n)) as [->|].
  - rewrite (eligible_functional _ _ _ Hj Hn). lia.
  - destruct (Hw j oj Hj ltac:(lia)) as [_ Hnot]. lia.
Qed.

Lemma winner_keep n b o ob :
  mostAdvanced = true -> winner n b -> eligible n o -> obs !! b = Some ob ->
  moreAdvanced o ob = false -> winner (S n) b.
Proof.
  intros Hm (ob' & Hb & Hlt & Hw) Hn E Hmore.
  assert (ob' = ob) as -> by (destruct Hb as (_ & ? & _); congruence).
  exists ob. split_and!; [done|lia|]. rewrite Hm in *. intros j oj Hj Hjn.
  destruct (decide (j = n)) as [->|]; [|apply Hw; [done|lia]].
  rewrite (eligible_functional _ _ _ Hj Hn). split; [lia|by apply moreAdvanced_not_above].
Qed.

Lemma winner_final n b : mostAdvanced = false -> winner (S b) b -> (b < n)%nat -> winner n b.
Proof.
  intros Hm (o & He & _ & Hw) Hn. exists o. split_and!; [done|done|]. rewrite Hm in *.
  intros j oj Hj _. destruct (decide (j < S b)%nat); [by eapply Hw|lia].
Qed.

Lemma chooseLoop_chosen rest i best :
  (length reps <= length obs)%nat -> rest = drop i reps -> (i <= length reps)%nat ->
  (mostAdvanced = false -> best = None) -> chosen i best ->
  exists best', chooseLoop mostAdvanced failed obs rest i best = Val best' /\
    chosen (length reps) best'.
Proof.
  intros Hlen. revert i best. induction rest as [|rep rest IH]; intros i best Hd Hi Hord Hc.
  { exists best. split; [done|]. symmetry in Hd. apply drop_nil_inv in Hd.
    by replace (length reps) with i by lia. }
  assert (Hrep : reps !! i = Some rep).
  { rewrite <- (Nat.add_0_r i), <- lookup_drop, <- Hd. done. }
  pose proof (lookup_lt_Some _ _ _ Hrep).
  destruct (lookup_lt_is_Some_2 obs i ltac:(lia)) as [o Ho].
  assert (Hd' : rest = drop (S i) reps).
  { by rewrite (drop_S _ _ _ Hrep) in Hd; injection Hd. }
  simpl. case_bool_decide as Hf.
  { apply IH; [done|lia|done|]. apply chosen_skip; [|done].
    intros o' ((rep' & ? & ?) & _). congruence. }
  rewrite Ho. destruct (healthyReplica o) eqn:Hh; simpl.
  2:{ apply IH; [done|lia|done|]. apply chosen_skip; [|done].
      intros o' (_ & Eo & Hok). simplify_eq. apply healthyReplica_true in Hok. congruence. }
  apply healthyReplica_true in Hh. assert (He : eligible i o) by (split; [eauto|done]).
  destruct best as [b|].
  - assert (Hm : mostAdvanced = true) by (destruct mostAdvanced; [done|naive_solver]).
    destruct Hc as (ob & Heb & Hc). pose proof Heb as (_ & Hob & _).
    rewrite Hob. destruct (moreAdvanced o ob) eqn:Hmore.
    + apply IH; [done|lia|naive_solver|]. eapply winner_replace; eauto. by exists ob.
    + apply IH; [done|lia|naive_solver|]. eapply winner_keep; eauto. by exists ob.
  - destruct mostAdvanced eqn:Hm; simpl.
    + apply IH; [done|lia|done|]. eapply winner_first; eauto.
    + eexists. split; [done|]. eapply winner_final; eauto using winner_first.
Qed.
End choice.

(** ** When the selection panics *)

(** The loop over [reps] from index [i] reaches a replica that is not observed:
    there is one, and with the ordered policy no observed one ends the loop. *)
Definition reachesBeyond (ma : bool) (failed : string) (obs : list siteObservation)
    (reps : list ReplicaSite) (i : nat) : Prop :=
  (exists k rep, reps !! k = Some rep /\ rs_Name rep <> failed /\ (length obs <= i + k)%nat) /\
  (ma = true \/ forall k rep o, reps !! k = Some rep -> rs_Name rep <> failed ->
     obs !! (i + k)%nat = Some o -> healthyReplica o = false).

(** A replica that the loop walks over does not matter. *)
Lemma reachesBeyond_cons ma failed obs rep reps i :
  (rs_Name rep = failed \/ exists o, obs !! i = Some o /\ (ma = true \/ healthyReplica o = false)) ->
  reachesBeyond ma failed obs reps (S i) <-> reachesBeyond ma failed obs (rep :: reps) i.
Proof.
  intros Hhd. split; (intros [(k & rep0 & Hk & Hne & Hl) Hall]; split).
  - exists (S k), rep0. split_and!; [done|done|lia].
  - destruct Hall as [?|Hall]; [by left|]. destruct ma; [by left|right].
    intros [|k'] rep' o Hk' Hne' Ho'; simpl in Hk'.
    + rewrite Nat.add_0_r in Ho'. injection Hk' as ->.
      destruct Hhd as [?|(o' & Ho2 & [?|?])]; [done|done|congruence].
    + eapply Hall; [exact Hk'|done|]. by replace (S i + k')%nat with (i + S k')%nat by lia.
  - destruct k as [|k]; simpl in Hk.
    + injection Hk as ->. destruct Hhd as [?|(o & Ho & _)]; [done|].
      apply lookup_lt_Some in Ho. lia.
    + exists k, rep0. split_and!; [done|done|lia].
  - destruct Hall as [?|Hall]; [by left|right]. intros k' rep' o Hk' Hne' Ho'.
    eapply (Hall (S k')); [exact Hk'|done|]. by replace (i + S k')%nat with (S i + k')%nat by lia.
Qed.

Lemma chooseLoop_panics ma failed obs reps i best :
  (forall b, best = Some b -> is_Some (obs !! b)) -> (ma = false -> best = None) ->
  chooseLoop ma failed obs reps i best = Panicked <-> reachesBeyond ma failed obs reps i.
Proof.
  revert i best. induction reps as [|rep reps IH]; intros i best Hb Hma; simpl.
  { split; [done|]. by intros [(k & rep & Hk & _) _]. }
  case_bool_decide as Hn; [by rewrite <- reachesBeyond_cons by (by left); apply IH|].
  destruct (obs !! i) as [o|] eqn:Ho.
  2:{ apply lookup_ge_None in Ho. split; [intros _|done]. split.
      - exists 0%nat, rep. split_and!; [done|done|lia].
      - right. intros k rep0 o _ _ Hk. apply lookup_lt_Some in Hk. lia. }
  assert (Hi : forall b, Some i = Some b -> is_Some (obs !! b)) by (intros ? [= <-]; by rewrite Ho).
  destruct (healthyReplica o) eqn:Hh; simpl.
  2:{ rewrite <- reachesBeyond_cons by eauto. by apply IH. }
  destruct best as [b|].
  - assert (ma = true) as -> by (destruct ma; [done|]; by specialize (Hma eq_refl)).
    rewrite <- reachesBeyond_cons by eauto. destruct (Hb b eq_refl) as [ob Hob]. rewrite Hob.
    by destruct (moreAdvanced o ob); apply IH.
  - destruct ma; simpl; [rewrite <- reachesBeyond_cons by eauto; by apply IH|].
    split; [done|]. intros [_ [?|Hall]]; [done|].
    rewrite (Hall 0%nat rep o eq_refl Hn) in Hh; [done|]. by rewrite Nat.add_0_r.
Qed.

Lemma chooseLoop_range ma failed obs reps i best b :
  chooseLoop ma failed obs reps i best = Val (Some b) ->
  best = Some b \/ (i <= b < i + length reps)%nat.
Proof.
  revert i best. induction reps as [|rep reps IH]; intros i best; simpl; [intros [= ->]; by left|].
  intros E. repeat case_match; simplify_eq; try (apply IH in E); naive_solver lia.
Qed.

(** chooseTarget panics exactly when it reaches a replica it has no
    observation of. *)
Lemma chooseTarget_panics ha obs failed :
  chooseTarget ha obs failed = Panicked <->
  (exists k rep, spec_Replicas (ha_Spec ha) !! k = Some rep /\ rs_Name rep <> failed /\
     (length obs <= k)%nat) /\
  (fs_PromotionPolicy (spec_Failover (ha_Spec ha)) = PromotionPolicyMostAdvancedLSN \/
   forall k rep o, spec_Replicas (ha_Spec ha) !! k = Some rep -> rs_Name rep <> failed ->
     obs !! k = Some o -> healthyReplica o = false).
Proof.
  unfold chooseTarget. set (ma := bool_decide _).
  pose proof (chooseLoop_panics ma failed obs (spec_Replicas (ha_Spec ha)) 0 None
    ltac:(done) ltac:(done)) as Hl. unfold reachesBeyond in Hl.
  unfold ma in Hl at 2. rewrite bool_decide_eq_true in Hl.
  etransitivity; [|exact Hl].
  destruct (chooseLoop _ _ _ _ _ _) as [[b|]|] eqn:E; [|done..].
  apply chooseLoop_range in E as [?|Hb]; [done|].
  by destruct (lookup_lt_is_Some_2 (spec_Replicas (ha_Spec ha)) b ltac:(lia)) as [rep ->].
Qed.

(** Observations that cover the replicas rule out the index panic. *)
Lemma chooseTarget_returns ha obs failed :
  length obs = length (spec_Replicas (ha_Spec ha)) ->
  exists rep b ok, chooseTarget ha obs failed = Val (rep, b, ok).
Proof.
  intros Hlen. unfold chooseTarget.
  set (reps := spec_Replicas (ha_Spec ha)) in *. set (ma := bool_decide _).
  destruct (chooseLoop_chosen ma failed obs reps reps 0 None) as (best & -> & Hb);
    [lia|by rewrite drop_0|lia|done|intros ???; lia|].
  destruct best as [b|]; [|by eexists _, _, _].
  destruct Hb as (o & ((rep & -> & _) & _) & _). by eexists _, _, _.
Qed.

Lemma chooseTarget_outcome ha obs failed :
  let reps := spec_Replicas (ha_Spec ha) in
  let mostAdvanced := bool_decide
    (fs_PromotionPolicy (spec_Failover (ha_Spec ha)) = PromotionPolicyMostAdvancedLSN) in
  length obs = length reps ->
  match chooseTarget ha obs failed with
  | Panicked => False
  | Val (rep, b, true) =>
      reps !! b = Some rep /\ winner mostAdvanced failed obs reps (length reps) b
  | Val (_, _, false) => forall j o, ~ eligible failed obs reps j o
  end.
Proof.
  intros reps ma Hlen. unfold chooseTarget. fold reps ma.
  destruct (chooseLoop_chosen ma failed obs reps reps 0 None) as (best & -> & Hb);
    [lia|by rewrite drop_0|lia|done|intros ???; lia|].
  destruct best as [b|]; simpl in Hb.
  - destruct Hb as (o & He & Hb). pose proof He as ((rep & Hrep & _) & _). rewrite Hrep.
    split; [done|]. by exists o.
  - intros j o He. specialize (Hb j o He). destruct He as ((rep & Hrep & _) & _).
    apply lookup_lt_Some in Hrep. lia.
Qed.

(** The target was observed as a healthy replica. *)
Lemma chooseTarget_healthy ha obs failed rep i :
  length obs = length (spec_Replicas (ha_Spec ha)) ->
  chooseTarget ha obs failed = Val (rep, i, true) ->
  exists o, obs !! i = Some o /\ healthyReplica o = true.
Proof.
  intros Hlen E. pose proof (chooseTarget_outcome ha obs failed Hlen) as Ho. rewrite E in Ho.
  destruct Ho as (_ & o & (_ & Hi & Hok) & _). exists o. split; [done|].
  by apply healthyReplica_true.
Qed.

(** C20. The choice of the replica to promote is the documented one. When the
    observations cover the replicas of the spec, chooseTarget never indexes
    out of range; it finds a target exactly when some replica is reachable,
    ready, still a CNPG replica and not the failed primary; under
    MostAdvancedLSN the target is not behind any eligible replica (known LSNs
    before unknown ones, then by LSN, else by timeline) and strictly ahead of
    the eligible ones before it in spec order; under any other policy it is
    the first eligible one in spec order. *)
Theorem chooseTarget_correct ha obs failed :
  let reps := spec_Replicas (ha_Spec ha) in
  let mostAdvanced := bool_decide
    (fs_PromotionPolicy (spec_Failover (ha_Spec ha)) = PromotionPolicyMostAdvancedLSN) in
  length obs = length reps ->
  match chooseTarget ha obs failed with
  | Panicked => False
  | Val (rep, b, true) =>
      reps !! b = Some rep /\ winner mostAdvanced failed obs reps (length reps) b
  | Val (_, _, false) => forall j o, ~ eligible failed obs reps j o
  end.
Proof. apply chooseTarget_outcome. Qed.

Lemma findReplica_found ha target rep i :
  findReplica ha target = (rep, i, true) ->
  spec_Replicas (ha_Spec ha) !! i = Some rep /\ rs_Name rep = target.
Proof.
  unfold findReplica. destruct (list_find _ _) as [[j x]|] eqn:E; [|done].
  intros [= <- <-]. by apply list_find_Some in E as (? & ? & _).
Qed.

(** ** Facts about the thresholds *)

Lemma effectiveHealthInterval_value f :
  int32_range (fs_HealthCheckIntervalSeconds f) ->
  effectiveHealthInterval f
  = (if fs_HealthCheckIntervalSeconds f <? 1 then 10 else fs_HealthCheckIntervalSeconds f) * Second.
Proof.
  intros Hr. unfold effectiveHealthInterval, defaultHealthCheckInterval.
  destruct (fs_HealthCheckIntervalSeconds f <? 1) eqn:E; [done|].
  apply wrap_int64_id. unfold int32_range, int64_range, Second in *. bool_prop. lia.
Qed.

Lemma stabilizationCooldown_value f :
  int32_range (fs_HealthCheckIntervalSeconds f) ->
  stabilizationCooldown f = Z.max (30 * Second) (3 * effectiveHealthInterval f).
Proof.
  intros Hr. unfold stabilizationCooldown. rewrite (effectiveHealthInterval_value f Hr).
  rewrite wrap_int64_id.
  - unfold minStabilizationCooldown, Second.
    destruct (_ <? _) eqn:E; bool_prop; lia.
  - unfold int32_range, int64_range, Second in *.
    destruct (fs_HealthCheckIntervalSeconds f <? 1) eqn:E; bool_prop; lia.
Qed.

Lemma effectiveFailureThreshold_ge f : 2 <= effectiveFailureThreshold f.
Proof.
  unfold effectiveFailureThreshold, defaultFailureThreshold.
  destruct (fs_FailureThreshold f <? 2) eqn:E; bool_prop; lia.
Qed.

(** C38. For every int32 interval a spec can hold, the duration arithmetic does
    not overflow: the health interval is the configured number of seconds (10
    when it is below 1), and the stabilization window is the larger of 30 s
    and three intervals, a positive int64; the failure threshold in force is
    at least 2, so one failed observation never triggers a failover. *)
Theorem failover_timing f :
  int32_range (fs_HealthCheckIntervalSeconds f) ->
  effectiveHealthInterval f
  = (if fs_HealthCheckIntervalSeconds f <? 1 then 10 else fs_HealthCheckIntervalSeconds f) * Second /\
  stabilizationCooldown f = Z.max (30 * Second) (3 * effectiveHealthInterval f) /\
  0 < stabilizationCooldown f < 2^63 /\
  2 <= effectiveFailureThreshold f.
Proof.
  intros Hr. rewrite (stabilizationCooldown_value f Hr), (effectiveHealthInterval_value f Hr).
  split_and!; [done|done| | |apply effectiveFailureThreshold_ge];
    unfold int32_range, Second in *; destruct (_ <? 1) eqn:E; bool_prop; lia.
Qed.

Lemma failover_timing_witness :
  stabilizationCooldown (mkFailoverSpec "Automatic" (2^31 - 1) 0 "" "") = 6442450941 * Second /\
  0 < stabilizationCooldown (mkFailoverSpec "Automatic" (2^31 - 1) 0 "" "") < 2^63.
Proof.
  split; [reflexivity|].
  refine (proj1 (proj2 (proj2 (failover_timing (mkFailoverSpec "Automatic" (2^31 - 1) 0 "" "") _)))).
  unfold int32_range. simpl. lia.
Defined.

(** ** Facts about the effect on the observations *)

Definition roleUpdate (n : string) (b : bool) (o : siteObservation) : siteObservation :=
  if decide (o_name o = n) then setRole b o else o.

Lemma roleUpdate_name n b o : o_name (roleUpdate n b o) = o_name o.
Proof. unfold roleUpdate. by case_decide. Qed.

Lemma insert_roleUpdate (l : list siteObservation) n b i o :
  NoDup (o_name <$> l) -> l !! i = Some o -> o_name o = n ->
  <[i := setRole b o]> l = roleUpdate n b <$> l.
Proof.
  intros Hnd Hi Hn. apply list_eq. intros j. rewrite list_lookup_fmap.
  destruct (decide (j = i)) as [->|Hj].
  - rewrite list_lookup_insert_eq by (by eapply lookup_lt_Some).
    rewrite Hi. simpl. unfold roleUpdate. by rewrite decide_True.
  - rewrite list_lookup_insert_ne by done.
    destruct (l !! j) as [oj|] eqn:El; [|done]. simpl. unfold roleUpdate.
    case_decide as Hnj; [|done]. exfalso. apply Hj.
    eapply (NoDup_lookup _ _ _ (o_name o) Hnd); rewrite list_lookup_fmap; [rewrite El|by rewrite Hi].
    simpl. congruence.
Qed.

Lemma roleUpdate_absent (l : list siteObservation) n b :
  (forall i o, l !! i = Some o -> o_name o <> n) -> roleUpdate n b <$> l = l.
Proof.
  intros Hn. apply list_eq. intros j. rewrite list_lookup_fmap.
  destruct (l !! j) as [o|] eqn:E; [|done]. simpl. unfold roleUpdate.
  by rewrite decide_False by (by eapply Hn).
Qed.

Lemma setObservationRole_map n b p rs p' rs' :
  NoDup (o_name <$> p :: rs) -> setObservationRole n b (p, rs) = (p', rs') ->
  p' :: rs' = roleUpdate n b <$> (p :: rs).
Proof.
  intros Hnd E. simpl in E. case_bool_decide as Hp.
  - simplify_eq. change (setRole b p :: rs') with (<[0%nat := setRole b p]> (p :: rs')).
    by apply insert_roleUpdate.
  - destruct (list_find _ rs) as [[i o]|] eqn:Ef; simplify_eq.
    + apply list_find_Some in Ef as (Hi & Hn & _).
      change (p' :: <[i := setRole b o]> rs) with (<[S i := setRole b o]> (p' :: rs)).
      by apply insert_roleUpdate.
    + symmetry. apply roleUpdate_absent. intros [|i] o Ho; simplify_eq/=; [done|].
      apply list_find_None in Ef. by eapply Forall_lookup_1 in Ef.
Qed.

Lemma applyPromotionEffect_map e p rs p' rs' :
  NoDup (o_name <$> p :: rs) -> pe_promoted e <> "" ->
  applyPromotionEffect e (p, rs) = (p', rs') ->
  p' :: rs' = (fun o => roleUpdate (pe_promoted e) true (roleUpdate (pe_demoted e) false o))
              <$> (p :: rs).
Proof.
  intros Hnd He. unfold applyPromotionEffect, didPromote.
  rewrite bool_decide_eq_false_2 by done. simpl negb. cbn match.
  destruct (setObservationRole (pe_demoted e) false (p, rs)) as [p1 rs1] eqn:E1.
  intros E2. pose proof (setObservationRole_map _ _ _ _ _ _ Hnd E1) as M1.
  assert (Hnd1 : NoDup (o_name <$> p1 :: rs1)).
  { rewrite M1, <- list_fmap_compose. erewrite list_fmap_ext; [exact Hnd|].
    intros. apply roleUpdate_name. }
  rewrite (setObservationRole_map _ _ _ _ _ _ Hnd1 E2), M1. by rewrite <- list_fmap_compose.
Qed.

Lemma roleUpdate_serves e o :
  pe_demoted e <> pe_promoted e ->
  servesWrites (roleUpdate (pe_promoted e) true (roleUpdate (pe_demoted e) false o)) <->
  if decide (o_name o = pe_promoted e) then o_reachable o && o_ready o = true
  else o_name o <> pe_demoted e /\ servesWrites o.
Proof.
  intros Hne. unfold roleUpdate. destruct (decide (o_name o = pe_demoted e)) as [Hd|Hd].
  - simpl. rewrite decide_False by congruence. rewrite decide_False by congruence.
    unfold servesWrites, primaryReady. simpl. rewrite andb_false_r. naive_solver.
  - case_decide as Hp; [|naive_solver].
    unfold servesWrites, primaryReady. simpl. by rewrite andb_true_r.
Qed.

(** With no third site observed serving writes, the promoted site is decided
    to be the primary. *)
Lemma applyPromotionEffect_decides e p rs p' rs' i o :
  NoDup (o_name <$> p :: rs) -> pe_promoted e <> "" -> pe_demoted e <> pe_promoted e ->
  (p :: rs) !! i = Some o -> o_name o = pe_promoted e ->
  o_reachable o = true -> o_ready o = true ->
  applyPromotionEffect e (p, rs) = (p', rs') ->
  (forall j x, (p :: rs) !! j = Some x -> servesWrites x ->
     o_name x = pe_demoted e \/ o_name x = pe_promoted e) ->
  decideCurrentPrimary p' rs' = (pe_promoted e, true).
Proof.
  intros Hnd He Hne Hi Hn Hr Hy E Hall.
  pose proof (applyPromotionEffect_map _ _ _ _ _ Hnd He E) as M. rewrite decide_filter, M.
  exists (roleUpdate (pe_promoted e) true (roleUpdate (pe_demoted e) false o)).
  split; [|by rewrite !roleUpdate_name]. apply filter_one_position. exists i.
  split_and!; [by rewrite list_lookup_fmap, Hi| |].
  - apply roleUpdate_serves; [done|]. by rewrite decide_True, Hr, Hy.
  - intros j y. rewrite list_lookup_fmap. destruct ((p :: rs) !! j) as [x|] eqn:Hj; [|done].
    intros [= <-] Hs. apply roleUpdate_serves in Hs; [|done]. case_decide as Hp.
    + eapply (NoDup_lookup _ _ _ (o_name x) Hnd);
        rewrite list_lookup_fmap, ?Hj, ?Hi; simpl; congruence.
    + destruct Hs as [Hd Hs]. destruct (Hall _ _ Hj Hs); done.
Qed.

(** A third site that serves writes leaves no site to decide on. *)
Lemma promotion_third_writer e p rs p' rs' i o j x :
  NoDup (o_name <$> p :: rs) -> pe_promoted e <> "" -> pe_demoted e <> pe_promoted e ->
  (p :: rs) !! i = Some o -> o_name o = pe_promoted e -> o_reachable o = true -> o_ready o = true ->
  (p :: rs) !! j = Some x -> servesWrites x -> o_name x <> pe_demoted e -> o_name x <> pe_promoted e ->
  applyPromotionEffect e (p, rs) = (p', rs') -> decideCurrentPrimary p' rs' = ("", false).
Proof.
  intros Hnd He Hne Hi Hn Hr Hy Hj Hx Hd Hp E.
  pose proof (applyPromotionEffect_map _ _ _ _ _ Hnd He E) as M.
  destruct (decideCurrentPrimary p' rs') as [n [|]] eqn:Ed.
  2:{ revert Ed. unfold decideCurrentPrimary. by destruct (primaryReadyCandidates p' rs') as [|? []]; intros [= <-]. }
  exfalso. apply decide_filter in Ed as (w & (k & Hk & Hw & Hu)%filter_one_position & _).
  assert (j = i) as ->.
  { transitivity k; [eapply Hu|symmetry; eapply Hu].
    - by rewrite M, list_lookup_fmap, Hj.
    - apply roleUpdate_serves; [done|]. by rewrite decide_False.
    - by rewrite M, list_lookup_fmap, Hi.
    - apply roleUpdate_serves; [done|]. by rewrite decide_True, Hr, Hy. }
  congruence.
Qed.

(** The status published right after a promotion. With distinct site names,
    when the promoted site was observed reachable and ready, the adjusted
    observations name it as the one current primary exactly when no third site
    was observed serving writes: if a site other than the demoted and the
    promoted one is CNPG-primary and ready, the promotion leaves two writers
    and no current primary is reported. *)
Theorem applyPromotionEffect_primary e p rs p' rs' i o :
  NoDup (o_name <$> p :: rs) -> pe_promoted e <> "" -> pe_demoted e <> pe_promoted e ->
  (p :: rs) !! i = Some o -> o_name o = pe_promoted e ->
  o_reachable o = true -> o_ready o = true ->
  applyPromotionEffect e (p, rs) = (p', rs') ->
  (decideCurrentPrimary p' rs' = (pe_promoted e, true) <->
   forall j x, (p :: rs) !! j = Some x -> servesWrites x ->
     o_name x = pe_demoted e \/ o_name x = pe_promoted e).
Proof.
  intros Hnd He Hne Hi Hn Hr Hy E.
  pose proof (applyPromotionEffect_map _ _ _ _ _ Hnd He E) as M.
  split; [|by eapply applyPromotionEffect_decides].
  rewrite decide_filter, M. intros (w & (k & Hk & Hw & Hu)%filter_one_position & Hwn) j x Hj Hx.
  destruct (decide (o_name x = pe_demoted e)) as [|Hd]; [by left|right].
  destruct (decide (o_name x = pe_promoted e)) as [|Hp]; [done|].
  assert (j = k) as ->.
  { eapply Hu; [by rewrite list_lookup_fmap, Hj|]. apply roleUpdate_serves; [done|].
    by rewrite decide_False. }
  rewrite list_lookup_fmap, Hj in Hk. injection Hk as <-.
  by rewrite !roleUpdate_name in Hwn.
Qed.

(** An observation of a site in a given role. *)
Definition sampleObs (name : string) (reachable primary ready : bool) : siteObservation :=
  mkObs name reachable primary ready "" "" 1 false "" 0 None.

Lemma applyPromotionEffect_primary_witness :
  decideCurrentPrimary (setRole false (sampleObs "a" false true false))
    [setRole true (sampleObs "b" true false true)] = ("b", true).
Proof.
  apply (applyPromotionEffect_primary (mkEffect "a" "b") (sampleObs "a" false true false)
    [sampleObs "b" true false true] _ _ 1 (sampleObs "b" true false true));
    try reflexivity; try discriminate.
  - apply (bool_decide_unpack _). reflexivity.
  - intros [|[|j]] x Hx; simplify_eq/=; intros; by (left + right).
Defined.

Definition sampleReplicaSite (name : string) : ReplicaSite :=
  mkReplicaSite name (mkSelector name "value") (mkClusterRef "pg" "db") (name +:+ "-host") None.

Definition sampleHA (mode policy : string) : HACluster :=
  mkHACluster "ha" "ops" 1 "1" None
    (mkSpec (mkPrimarySite "a" (mkClusterRef "pg" "db") "a-host" None)
       [sampleReplicaSite "b"; sampleReplicaSite "c"]
       (mkFailoverSpec mode 10 3 policy ""))
    (mkStatus "a" None 0 [] []).

Definition obsAt (name lsn : string) (v : Z) : siteObservation :=
  mkObs name true false true "" "" 1 true lsn v None.

Lemma chooseTarget_correct_witness :
  chooseTarget (sampleHA "Automatic" "MostAdvancedLSN") [obsAt "b" "0/1" 1; obsAt "c" "0/2" 2] "a"
  = Val (sampleReplicaSite "c", 1%nat, true) /\
  winner true "a" [obsAt "b" "0/1" 1; obsAt "c" "0/2" 2]
    [sampleReplicaSite "b"; sampleReplicaSite "c"] 2 1.
Proof.
  split; [reflexivity|].
  exact (proj2 (chooseTarget_correct (sampleHA "Automatic" "MostAdvancedLSN")
    [obsAt "b" "0/1" 1; obsAt "c" "0/2" 2] "a" eq_refl)).
Defined.
