(* ===== verification/Observe.v ===== *)
(** * internal/controller: observing the sites

    The reconciler's fields, and the functions that turn the answers of the
    API servers and of the optional PostgreSQL probe into observations. *)

From S2P Require Import Prelude GoStd Api External FakeKube Operator Fixtures.
From S2P Require Import Postgres Health Promotion RemoteClient Decision.

(** HAClusterReconciler: the local client, whether a Recorder is set, and the
    injected prober (nil outside tests). The client cache, the failure counters
    and the recorded events are fields of [opstate]. *)
Record HAClusterReconciler `{Extern} : Type := mkReconciler {
  r_Client : client;
  r_hasRecorder : bool;
  r_PostgresProber : option Prober
}.
Arguments mkReconciler {_} _ _ _.

Definition appendReason (existing extra : string) : string :=
  if bool_decide (existing = "") then extra else Join [existing; extra] "; ".

Definition setReason (reason : string) (o : siteObservation) : siteObservation :=
  mkObs (o_name o) (o_reachable o) (o_primary o) (o_ready o) (o_phase o) reason
    (o_timelineID o) (o_lsnKnown o) (o_lsn o) (o_lsnValue o) (o_lagSeconds o).

Definition setWAL (res : Result) (o : siteObservation) : siteObservation :=
  mkObs (o_name o) (o_reachable o) (o_primary o) (o_ready o) (o_phase o) (o_reason o)
    (o_timelineID o) true (res_LSN res) (res_LSNValue res) (res_LagSeconds res).

(** [siteObservation{name: ..., reason: ...}] *)
Definition unreachableObs (name reason : string) : siteObservation :=
  mkObs name false false false "" reason 0 false "" 0 None.

(** What the reconciler relies on of an injected prober: it talks to the
    database, neither panics nor writes to an API server, and has no access to
    the reconciler's clients. *)
Class ProberLaws `{Extern} (p : Prober) : Prop := {
  prober_quiet cfg : isQuiet (p cfg) (fun _ => True);
  prober_clients cfg : keepsClients (p cfg)
}.

#[export] Instance SQLProber_laws `{Extern} : ProberLaws SQLProber_Probe.
Proof.
  split; intros cfg; unfold SQLProber_Probe.
  - quiet_step. destruct a as [conn|e]; [|by quiet_step]. do 2 quiet_step. by quiet_step.
  - keeps_clients.
Qed.

Definition reconcilerOk `{Extern} (r : HAClusterReconciler) : Prop :=
  match r_PostgresProber r with Some p => ProberLaws p | None => True end.

Section observe.
Context `{Extern}.

Definition secretValue (cli : client) (namespace : string) (sel : SecretKeySelector)
    : M (result string) :=
  if bool_decide (sel_Name sel = "") || bool_decide (sel_Key sel = "")
  then mret (Err (ErrorString "secret name and key are required"))
  else
    r ← getSecret cli (NN namespace (sel_Name sel));
    match r with
    | Err e => mret (Err (Wrap ("get secret " +:+ namespace +:+ "/" +:+ sel_Name sel) e))
    | Ok secret =>
        match sec_Data secret ≫= lookup (sel_Key sel) with
        | None => mret (Err (ErrorString ("secret " +:+ namespace +:+ "/" +:+ sel_Name sel
                    +:+ " has no key " +:+ Quote (sel_Key sel))))
        | Some value => mret (Ok value)
        end
    end.

Definition postgresProbeConfig (cli : client) (namespace replicationEndpoint : string)
    (spec : PostgresProbe) : M (result Config) :=
  let endpoint :=
    if bool_decide (pp_Endpoint spec = "") then replicationEndpoint else pp_Endpoint spec in
  if bool_decide (endpoint = "") then mret (Err (ErrorString "endpoint is empty"))
  else
    ru ← secretValue cli namespace (pp_UserSecretRef spec);
    match ru with
    | Err e => mret (Err (Wrap "read user secret" e))
    | Ok user =>
        rp ← secretValue cli namespace (pp_PasswordSecretRef spec);
        match rp with
        | Err e => mret (Err (Wrap "read password secret" e))
        | Ok password =>
            mret (Ok (mkConfig endpoint (pp_Port spec) (pp_Database spec) user password
                        (pp_SSLMode spec)))
        end
    end.

Definition probePostgres (r : HAClusterReconciler) (obs : siteObservation) (cli : client)
    (ref : ClusterRef) (replicationEndpoint : string) (spec : option PostgresProbe)
    : M siteObservation :=
  match spec with
  | None => mret obs
  | Some spec =>
      if negb (o_reachable obs) || negb (o_ready obs) then mret obs
      else
        rc ← postgresProbeConfig cli (cr_Namespace ref) replicationEndpoint spec;
        match rc with
        | Err e =>
            mret (setReason (appendReason (o_reason obs)
                               ("postgres probe skipped: " +:+ Error e)) obs)
        | Ok cfg =>
            got ← default SQLProber_Probe (r_PostgresProber r) cfg;
            match got with
            | Err e =>
                mret (setReason (appendReason (o_reason obs)
                                   ("postgres probe failed: " +:+ Error e)) obs)
            | Ok res => mret (setWAL res obs)
            end
        end
  end.

Definition observePrimary (r : HAClusterReconciler) (ha : HACluster) : M siteObservation :=
  let p := spec_Primary (ha_Spec ha) in
  let ref := NN (cr_Namespace (ps_ClusterRef p)) (cr_Name (ps_ClusterRef p)) in
  h ← Probe (r_Client r) ref;
  probePostgres r (siteObsFromHealth (ps_Name p) h) (r_Client r) (ps_ClusterRef p)
    (ps_ReplicationEndpoint p) (ps_PostgresProbe p).

Definition observeReplica (r : HAClusterReconciler) (ha : HACluster) (rep : ReplicaSite)
    : M siteObservation :=
  rc ← GetOrCreate (r_Client r) (ha_Namespace ha) (rs_KubeconfigSecretRef rep);
  match rc with
  | Err e => mret (unreachableObs (rs_Name rep) ("kubeconfig load failed: " +:+ Error e))
  | Ok cli =>
      let ref := NN (cr_Namespace (rs_ClusterRef rep)) (cr_Name (rs_ClusterRef rep)) in
      h ← Probe cli ref;
      probePostgres r (siteObsFromHealth (rs_Name rep) h) cli (rs_ClusterRef rep)
        (rs_ReplicationEndpoint rep) (rs_PostgresProbe rep)
  end.

(** The loop of Reconcile over ha.Spec.Replicas. *)
Fixpoint observeReplicas (r : HAClusterReconciler) (ha : HACluster) (reps : list ReplicaSite)
    : M (list siteObservation) :=
  match reps with
  | [] => mret []
  | rep :: rest =>
      o ← observeReplica r ha rep;
      os ← observeReplicas r ha rest;
      mret (o :: os)
  end.

(** ** Observation is read-only *)

(** The role of a site: what an observation says apart from its WAL position
    and its message. *)
Definition sameRole (o o' : siteObservation) : Prop :=
  o_name o' = o_name o /\ o_reachable o' = o_reachable o /\ o_primary o' = o_primary o /\
  o_ready o' = o_ready o /\ o_phase o' = o_phase o /\ o_timelineID o' = o_timelineID o.

Lemma secretValue_quiet cli ns sel : isQuiet (secretValue cli ns sel) (fun _ => True).
Proof.
  unfold secretValue. destruct (_ || _); [by apply isQuiet_ret|].
  quiet_step. destruct a as [sec|e]; [|by quiet_step].
  destruct (sec_Data sec ≫= lookup (sel_Key sel)); by apply isQuiet_ret.
Qed.

Lemma postgresProbeConfig_quiet cli ns ep spec :
  isQuiet (postgresProbeConfig cli ns ep spec) (fun _ => True).
Proof.
  unfold postgresProbeConfig. case_bool_decide; [by apply isQuiet_ret|].
  all: eapply isQuiet_bind; [apply secretValue_quiet|]; intros [u|e] _; [|by apply isQuiet_ret];
    eapply isQuiet_bind; [apply secretValue_quiet|]; intros [p|e] _; by apply isQuiet_ret.
Qed.

Lemma probePostgres_quiet r obs cli ref ep spec :
  reconcilerOk r -> isQuiet (probePostgres r obs cli ref ep spec) (sameRole obs).
Proof.
  intros Hr. unfold probePostgres. destruct spec as [spec|]; [|by apply isQuiet_ret].
  destruct (_ || _); [by apply isQuiet_ret|].
  eapply isQuiet_bind; [apply postgresProbeConfig_quiet|]. intros [cfg|e] _; [|by apply isQuiet_ret].
  eapply (isQuiet_bind _ _ (fun _ => True)).
  - unfold reconcilerOk in Hr. destruct (r_PostgresProber r); simpl; apply prober_quiet.
  - intros [res|e] _; by apply isQuiet_ret.
Qed.

Lemma Probe_quiet cli ref : isQuiet (Probe cli ref) (fun _ => True).
Proof.
  unfold Probe. quiet_step. destruct a; by quiet_step.
Qed.

Lemma GetOrCreate_quiet hub ns ref : isQuiet (GetOrCreate hub ns ref) (fun _ => True).
Proof.
  intros s. destruct (GetOrCreate_run hub ns ref s) as (t & r & upd & w & E & Hx & Hr).
  exists t. rewrite E. simpl. split_and!; [done|done|]. exists r. split_and!; [done|done|].
  split; [|done..]. inversion Hr; subst; repeat constructor.
  match goal with D : _ \/ _ |- _ => destruct D as [[-> _]|(? & ? & ->)] end; repeat constructor.
Qed.

Lemma observePrimary_quiet r ha :
  reconcilerOk r ->
  isQuiet (observePrimary r ha) (fun o => o_name o = ps_Name (spec_Primary (ha_Spec ha))).
Proof.
  intros Hr. unfold observePrimary. eapply isQuiet_bind; [apply Probe_quiet|]. intros h _.
  eapply isQuiet_mono; [by apply probePostgres_quiet|]. by intros o (-> & _).
Qed.

Lemma observeReplica_quiet r ha rep :
  reconcilerOk r -> isQuiet (observeReplica r ha rep) (fun o => o_name o = rs_Name rep).
Proof.
  intros Hr. unfold observeReplica. eapply isQuiet_bind; [apply GetOrCreate_quiet|].
  intros [cli|e] _; [|by apply isQuiet_ret].
  eapply isQuiet_bind; [apply Probe_quiet|]. intros h _.
  eapply isQuiet_mono; [by apply probePostgres_quiet|]. by intros o (-> & _).
Qed.

Lemma observeReplicas_quiet r ha reps :
  reconcilerOk r ->
  isQuiet (observeReplicas r ha reps) (fun os => o_name <$> os = rs_Name <$> reps).
Proof.
  intros Hr. induction reps as [|rep reps IH]; simpl; [by apply isQuiet_ret|].
  eapply isQuiet_bind; [by apply observeReplica_quiet|]. intros o Ho.
  eapply isQuiet_bind; [apply IH|]. intros os Hos. apply isQuiet_ret.
  rewrite !fmap_cons. by rewrite Ho, Hos.
Qed.

(** C33. Observing the sites is safe to do at any time: whatever the
    environment answers, observing the declared primary and then every replica
    never panics, makes no write to any API server, leaves the failure
    counters, the events and the metrics alone, and yields one observation per
    site of the spec, under its name and in spec order. *)
Theorem observe_sites_read_only r ha s :
  reconcilerOk r ->
  wpt (p ← observePrimary r ha; os ← observeReplicas r ha (spec_Replicas (ha_Spec ha));
       mret (p :: os)) (fun o s' t =>
    exists obs, o = Val obs /\ (o_name <$> obs) = siteNames ha /\ quiet s s' t) s.
Proof.
  intros Hr. apply (isQuiet_bind _ _ (fun o => o_name o = ps_Name (spec_Primary (ha_Spec ha))));
    [by apply observePrimary_quiet|]. intros p Hp.
  eapply isQuiet_bind; [by apply observeReplicas_quiet|]. intros os Hos. apply isQuiet_ret.
  unfold siteNames. by rewrite fmap_cons, Hp, Hos.
Qed.

(** An observation agrees with a Cluster object that was read. *)
Definition observedFrom (u : json) (o : siteObservation) : Prop :=
  o_primary o = sh_Primary (parseCluster u) /\ o_ready o = sh_Ready (parseCluster u) /\
  o_phase o = sh_Phase (parseCluster u) /\ o_timelineID o = sh_TimelineID (parseCluster u).

Definition siteKey (ref : ClusterRef) : NamespacedName := NN (cr_Namespace ref) (cr_Name ref).

Lemma Probe_trace cli ref s :
  wpt (Probe cli ref) (fun o _ t => exists h, o = Val h /\
    ((exists u, t = [CGetCluster cli ref (Ok u)] /\ h = setReachable (parseCluster u)) \/
     (exists e, t = [CGetCluster cli ref (Err e)] /\
        sh_Reachable h = false /\ sh_Primary h = false /\ sh_Ready h = false))) s.
Proof.
  eapply wpt_talks; [apply Probe_talks|]. intros t h w' (r & -> & Hr) _. exists h. split; [done|].
  destruct r as [u|e]; [left; by exists u|right; exists e]. by destruct Hr as (? & ? & ? & _).
Qed.

(** The tail shared by observePrimary and observeReplica. *)
Lemma probe_site_faithful r cli ref ep spec name s :
  reconcilerOk r ->
  wpt (h ← Probe cli (siteKey ref);
       probePostgres r (siteObsFromHealth name h) cli ref ep spec) (fun o s' t =>
    exists obs, o = Val obs /\ o_name obs = name /\
      if o_reachable obs
      then exists u, CGetCluster cli (siteKey ref) (Ok u) ∈ t /\ observedFrom u obs
      else o_primary obs = false /\ o_ready obs = false) s.
Proof.
  intros Hr. apply wpt_bind. eapply wpt_mono; [apply Probe_trace|].
  intros o s1 t1 (h & -> & Hh). eapply wpt_mono; [by apply probePostgres_quiet|].
  intros o s2 t2 (obs & -> & (Hn & Hre & Hp & Hy & Hph & Htl) & _).
  exists obs. split_and!; [done|done|]. rewrite Hre.
  destruct Hh as [(u & -> & ->)|(e & -> & Hs & Hsp & Hsr)].
  - simpl. exists u. split; [by constructor|]. by split_and!.
  - simpl in *. rewrite Hs. split; congruence.
Qed.

End observe.

Definition sampleReconciler : @HAClusterReconciler fakeExtern := mkReconciler (site "local") true None.

Lemma observe_sites_read_only_witness :
  wpt (p ← observePrimary sampleReconciler (sampleHA "Manual" "");
       os ← observeReplicas sampleReconciler (sampleHA "Manual" "")
              (spec_Replicas (ha_Spec (sampleHA "Manual" "")));
       mret (p :: os)) (fun o s' t =>
    exists obs, o = Val obs /\ (o_name <$> obs) = ["a"; "b"; "c"] /\
      quiet (fakeState twoSites) s' t) (fakeState twoSites).
Proof. exact (observe_sites_read_only sampleReconciler (sampleHA "Manual" "") (fakeState twoSites) I). Defined.

