(* ===== verification/Status.v ===== *)
(** * internal/controller: what a reconcile publishes

    Site statuses, conditions, events and metrics. *)

From S2P Require Import Prelude GoStd Api External FakeKube Operator Fixtures.
From S2P Require Import Metrics Decision Observe.

Definition conditionAvailable : string := "Available".
Definition conditionDegraded : string := "Degraded".
Definition conditionFailoverInProgress : string := "FailoverInProgress".
Definition conditionSplitBrain : string := "SplitBrain".

Definition EventTypeNormal : string := "Normal".
Definition EventTypeWarning : string := "Warning".

Section status.
Context `{Extern}.

(** ** Site statuses *)

Definition lagMilliseconds (seconds : option float64) : option Z :=
  match seconds with
  | None => None
  | Some s => Some (int64_of_float int64_oob (float_mul s (float_of_Z 1000)))
  end.

Definition toSiteStatus (obs : siteObservation) (now : Z) : SiteStatus :=
  let role :=
    if o_reachable obs then if o_primary obs then SiteRolePrimary else SiteRoleReplica
    else SiteRoleUnknown in
  mkSiteStatus (o_name obs) role (o_reachable obs) (o_ready obs) (o_phase obs) (o_reason obs)
    (Some now) (o_lsn obs) (lagMilliseconds (o_lagSeconds obs)).

Definition buildSiteStatuses (primary : siteObservation) (replicas : list siteObservation)
    (now : Z) : list SiteStatus :=
  toSiteStatus primary now :: ((fun r => toSiteStatus r now) <$> replicas).

(** ** Conditions *)

Definition setCondition (c : Condition) (ha : HACluster) : HACluster :=
  setConditionList (SetStatusCondition (st_Conditions (ha_Status ha)) c) ha.

Definition availableCondition (ha : HACluster) (available : bool) (now : Z) : Condition :=
  if available
  then mkCondition conditionAvailable ConditionTrue (ha_Generation ha) now "PrimaryReady"
         ("primary site " +:+ Quote (st_CurrentPrimarySite (ha_Status ha))
          +:+ " is CNPG-primary and ready")
  else mkCondition conditionAvailable ConditionFalse (ha_Generation ha) now "PrimaryNotReady"
         "no healthy CNPG-primary observed".

Definition splitBrainCondition (ha : HACluster) (splitBrain : list string) (now : Z) : Condition :=
  if bool_decide (1 < length splitBrain)%nat
  then mkCondition conditionSplitBrain ConditionTrue (ha_Generation ha) now
         "MultiplePrimariesObserved"
         ("multiple sites observed as CNPG-primary and ready: " +:+ fmtStrings splitBrain
          +:+ " — writes may diverge")
  else mkCondition conditionSplitBrain ConditionFalse (ha_Generation ha) now "NoConflict"
         "at most one site observed as CNPG-primary and ready".

(** The closure [collect]: the names of the unreachable sites, and of the
    reachable ones that are not ready. *)
Definition collect (acc : list string * list string) (s : siteObservation)
    : list string * list string :=
  let '(unreachable, unready) := acc in
  if negb (o_reachable s) then (unreachable ++ [o_name s], unready)
  else if negb (o_ready s) then (unreachable, unready ++ [o_name s])
  else (unreachable, unready).

Definition degradedCondition (ha : HACluster) (sites : list siteObservation) (now : Z)
    : Condition :=
  let '(unreachable, unready) := foldl collect ([], []) sites in
  if bool_decide (0 < length unreachable)%nat
  then mkCondition conditionDegraded ConditionTrue (ha_Generation ha) now "SitesUnreachable"
         ("unreachable sites: " +:+ fmtStrings unreachable
          +:+ " (unready: " +:+ fmtStrings unready +:+ ")")
  else if bool_decide (0 < length unready)%nat
  then mkCondition conditionDegraded ConditionTrue (ha_Generation ha) now "SitesNotReady"
         ("sites reachable but not ready: " +:+ fmtStrings unready)
  else mkCondition conditionDegraded ConditionFalse (ha_Generation ha) now "AllSitesHealthy"
         "all sites reachable and ready".

Definition setConditions (ha : HACluster) (available : bool) (splitBrain : list string)
    (primary : siteObservation) (replicas : list siteObservation) : M HACluster :=
  t ← now;
  let ha1 := setCondition (availableCondition ha available t) ha in
  let ha2 := setCondition (splitBrainCondition ha1 splitBrain t) ha1 in
  mret (setCondition (degradedCondition ha2 (primary :: replicas) t) ha2).

Definition setFailoverInProgress (ha : HACluster) (inProgress : bool) (target : string)
    : M HACluster :=
  t ← now;
  let cond :=
    if inProgress then
      if bool_decide (fs_Mode (spec_Failover (ha_Spec ha)) = FailoverModeAutomatic)
      then mkCondition conditionFailoverInProgress ConditionTrue (ha_Generation ha) t
             "AutomaticPromotion" ("promoting site " +:+ Quote target +:+ " (automatic)")
      else mkCondition conditionFailoverInProgress ConditionTrue (ha_Generation ha) t
             "ManualPromotion" ("promoting site " +:+ Quote target +:+ " (manual)")
    else mkCondition conditionFailoverInProgress ConditionFalse (ha_Generation ha) t
           "Idle" "no failover in progress" in
  mret (setCondition cond ha).

(** ** Events *)

Definition event (r : HAClusterReconciler) (ha : HACluster) (eventType reason message : string)
    : M unit :=
  if negb (r_hasRecorder r) then mret tt
  else recordEvent (mkEvent (haKey ha) eventType reason reason message).

(** ** Metrics *)

(** The LSN of the first observation of the current primary that knows one. *)
Definition primaryLSN (currentPrimary : string) (all : list siteObservation) : option Z :=
  (fun p => o_lsnValue p.2) <$>
  list_find (fun o => o_name o = currentPrimary /\ o_lsnKnown o = true) all.

Definition publishSite (ha : HACluster) (currentPrimary : string) (lsn : option Z)
    (obs : siteObservation) : M unit :=
  let ns := ha_Namespace ha in
  let name := ha_Name ha in
  let isPrimary := bool_decide (o_name obs = currentPrimary) in
  SetSite ns name (o_name obs) isPrimary (o_reachable obs) (o_ready obs);;
  match o_lagSeconds obs with
  | Some lag => SetReplicaLag ns name (o_name obs) lag
  | None => ClearReplicaLag ns name (o_name obs)
  end;;
  match lsn with
  | Some p =>
      if negb (o_lsnKnown obs) then ClearReplicaLagBytes ns name (o_name obs)
      else if isPrimary || (p <=? o_lsnValue obs)
      then SetReplicaLagBytes ns name (o_name obs) (float_of_Z 0)
      else SetReplicaLagBytes ns name (o_name obs) (float_of_Z (wrap_uint64 (p - o_lsnValue obs)))
  | None => ClearReplicaLagBytes ns name (o_name obs)
  end;;
  (if o_lsnKnown obs
   then SetSiteCurrentLSNBytes ns name (o_name obs) (float_of_Z (o_lsnValue obs))
   else ClearSiteCurrentLSNBytes ns name (o_name obs));;
  if o_lsnKnown obs && negb (bool_decide (o_lsn obs = ""))
  then SetSiteLSNInfo ns name (o_name obs) (o_lsn obs)
  else ClearSiteLSNInfo ns name (o_name obs).

Fixpoint publishSites (ha : HACluster) (currentPrimary : string) (lsn : option Z)
    (all : list siteObservation) : M unit :=
  match all with
  | [] => mret tt
  | obs :: rest => publishSite ha currentPrimary lsn obs;; publishSites ha currentPrimary lsn rest
  end.

Definition publishMetrics (ha : HACluster) (currentPrimary : string) (splitBrain : bool)
    (primaryObs : siteObservation) (replicaObs : list siteObservation) : M unit :=
  let all := primaryObs :: replicaObs in
  publishSites ha currentPrimary (primaryLSN currentPrimary all) all;;
  SetSplitBrain (ha_Namespace ha) (ha_Name ha) splitBrain.

(** ** Conditions: facts *)

Definition conditionIs (t status : string) (ha : HACluster) : Prop :=
  exists c, findCondition t (st_Conditions (ha_Status ha)) = Some c /\
    cond_Status c = status /\ cond_ObservedGeneration c = ha_Generation ha.

Definition isUnreachable (o : siteObservation) : Prop := o_reachable o = false.
Definition isUnready (o : siteObservation) : Prop := o_reachable o = true /\ o_ready o = false.

#[local] Instance isUnreachable_dec o : Decision (isUnreachable o).
Proof. unfold isUnreachable. apply _. Defined.

#[local] Instance isUnready_dec o : Decision (isUnready o).
Proof. unfold isUnready. apply _. Defined.

Lemma foldl_collect sites a b :
  foldl collect (a, b) sites =
  (a ++ (o_name <$> filter isUnreachable sites), b ++ (o_name <$> filter isUnready sites)).
Proof.
  revert a b. induction sites as [|o sites IH]; intros a b; simpl; [by rewrite !app_nil_r|].
  rewrite !filter_cons.
  destruct (decide (isUnreachable o)) as [Hu|Hu], (decide (isUnready o)) as [Hy|Hy];
    unfold isUnreachable, isUnready in Hu, Hy;
    destruct (o_reachable o), (o_ready o); try (exfalso; intuition congruence);
    simpl; rewrite IH, <- ?app_assoc; done.
Qed.

Lemma degradedCondition_status ha sites t :
  cond_Type (degradedCondition ha sites t) = conditionDegraded /\
  cond_ObservedGeneration (degradedCondition ha sites t) = ha_Generation ha /\
  cond_Status (degradedCondition ha sites t) =
    if decide (Forall (fun o => o_reachable o = true /\ o_ready o = true) sites)
    then ConditionFalse else ConditionTrue.
Proof.
  unfold degradedCondition. rewrite foldl_collect. simpl. rewrite !length_fmap.
  rewrite !(bool_decide_ext _ _ (filter_pos _ _)).
  case_bool_decide as Hu; [|case_bool_decide as Hy]; simpl; (split; [done|split; [done|]]);
    case_decide as Hall; try done; exfalso.
  1,2: rewrite Forall_forall in Hall;
    match goal with X : Exists _ _ |- _ => apply Exists_exists in X as (o & Ho & Hr) end;
    apply Hall in Ho; unfold isUnreachable, isUnready in Hr; intuition congruence.
  apply Hall, Forall_forall. intros o Ho. rewrite Exists_exists in *.
  unfold isUnreachable, isUnready in *.
  destruct (o_reachable o) eqn:Er, (o_ready o) eqn:Ey; naive_solver.
Qed.

Definition boolStatus (b : bool) : string := if b then ConditionTrue else ConditionFalse.

Section condition_laws.
Context `{!StatusLaws}.

Lemma setCondition_same c ha :
  cond_ObservedGeneration c = ha_Generation ha ->
  conditionIs (cond_Type c) (cond_Status c) (setCondition c ha).
Proof.
  intros Hg. destruct (SetStatusCondition_same (st_Conditions (ha_Status ha)) c)
    as (c' & Hf & Hs & _ & _ & Ho).
  exists c'. split_and!; [done|done|]. by rewrite Ho, Hg.
Qed.

Lemma setCondition_other c ha t st :
  t <> cond_Type c -> conditionIs t st (setCondition c ha) <-> conditionIs t st ha.
Proof.
  intros Hne. unfold conditionIs. simpl. by rewrite SetStatusCondition_other.
Qed.

(** The three conditions of setConditions, at any time stamp. *)
Lemma conditions_published ha available splitBrain sites t :
  let ha1 := setCondition (availableCondition ha available t) ha in
  let ha2 := setCondition (splitBrainCondition ha1 splitBrain t) ha1 in
  let ha3 := setCondition (degradedCondition ha2 sites t) ha2 in
  conditionIs conditionAvailable (boolStatus available) ha3 /\
  conditionIs conditionSplitBrain (boolStatus (bool_decide (1 < length splitBrain)%nat)) ha3 /\
  conditionIs conditionDegraded
    (boolStatus (negb (bool_decide
       (Forall (fun o => o_reachable o = true /\ o_ready o = true) sites)))) ha3 /\
  (forall st, conditionIs conditionFailoverInProgress st ha3 <->
              conditionIs conditionFailoverInProgress st ha).
Proof.
  intros ha1 ha2 ha3.
  destruct (degradedCondition_status ha2 sites t) as (Dt & Dg & Ds).
  assert (At : cond_Type (availableCondition ha available t) = conditionAvailable)
    by (by destruct available).
  assert (St : cond_Type (splitBrainCondition ha1 splitBrain t) = conditionSplitBrain)
    by (unfold splitBrainCondition; by case_bool_decide).
  split_and!.
  - unfold ha3. rewrite setCondition_other by (by rewrite Dt).
    unfold ha2. rewrite setCondition_other by (by rewrite St).
    pose proof (setCondition_same (availableCondition ha available t) ha) as Hs.
    rewrite At in Hs. destruct available; by apply Hs.
  - unfold ha3. rewrite setCondition_other by (by rewrite Dt).
    pose proof (setCondition_same (splitBrainCondition ha1 splitBrain t) ha1) as Hs.
    rewrite St in Hs. unfold ha2, splitBrainCondition in *. case_bool_decide; by apply Hs.
  - pose proof (setCondition_same (degradedCondition ha2 sites t) ha2 Dg) as Hs.
    rewrite Dt, Ds in Hs. by case_decide; case_bool_decide.
  - intros st. unfold ha3. rewrite setCondition_other by (by rewrite Dt).
    unfold ha2. rewrite setCondition_other by (by rewrite St).
    unfold ha1. by rewrite setCondition_other by (by rewrite At).
Qed.

(** C32. The published conditions mean what they say: Available is True exactly
    when a single primary was decided, SplitBrain exactly when more than one
    writer is listed, Degraded exactly when some site is unreachable or not
    ready; each carries the generation of the object, the failover condition
    is untouched, and nothing else of the object changes. *)
Theorem setConditions_meaning ha available splitBrain p rs s :
  wp (setConditions ha available splitBrain p rs) (fun o _ => exists ha', o = Val ha' /\
    conditionIs conditionAvailable (boolStatus available) ha' /\
    conditionIs conditionSplitBrain (boolStatus (bool_decide (1 < length splitBrain)%nat)) ha' /\
    conditionIs conditionDegraded
      (boolStatus (negb (bool_decide
         (Forall (fun o => o_reachable o = true /\ o_ready o = true) (p :: rs))))) ha' /\
    (forall st, conditionIs conditionFailoverInProgress st ha' <->
                conditionIs conditionFailoverInProgress st ha) /\
    setConditionList (st_Conditions (ha_Status ha)) ha' = ha) s.
Proof.
  apply wp_bind, wp_call. intros t w' _. apply wp_ret. eexists. split; [done|].
  destruct (conditions_published ha available splitBrain (p :: rs) t) as (? & ? & ? & ?).
  split_and!; try done. by destruct ha as [? ? ? ? ? ? []].
Qed.
End condition_laws.

(** ** Metrics: facts *)

Section metric_laws.
Context `{!PromModel} `{!PromLaws}.

(** The WAL distance to publish: how far the site is behind the primary. *)
Definition lagBytes (cur : string) (lsn : option Z) (obs : siteObservation) : option float64 :=
  match lsn with
  | Some p =>
      if o_lsnKnown obs
      then Some (float_of_Z (if bool_decide (o_name obs = cur) then 0
                             else Z.max 0 (p - o_lsnValue obs)))
      else None
  | None => None
  end.

(** The gauges of one site say what its observation says. *)
Record siteGauges (ha : HACluster) (cur : string) (lsn : option Z) (obs : siteObservation)
    (reg : registry) : Prop := {
  sg_primary : gaugeRead reg CurrentPrimarySite [ha_Name ha; ha_Namespace ha; o_name obs]
    = Some (boolGauge (bool_decide (o_name obs = cur)));
  sg_reachable : gaugeRead reg SiteReachable [ha_Name ha; ha_Namespace ha; o_name obs]
    = Some (boolGauge (o_reachable obs));
  sg_ready : gaugeRead reg SiteReady [ha_Name ha; ha_Namespace ha; o_name obs]
    = Some (boolGauge (o_ready obs));
  sg_lag : gaugeRead reg ReplicaLagSeconds [ha_Name ha; ha_Namespace ha; o_name obs]
    = o_lagSeconds obs;
  sg_lagBytes : gaugeRead reg ReplicaLagBytes [ha_Name ha; ha_Namespace ha; o_name obs]
    = lagBytes cur lsn obs;
  sg_lsnBytes : gaugeRead reg SiteCurrentLSNBytes [ha_Name ha; ha_Namespace ha; o_name obs]
    = if o_lsnKnown obs then Some (float_of_Z (o_lsnValue obs)) else None;
  sg_lsnInfo l : gaugeRead reg SiteLSNInfo [ha_Name ha; ha_Namespace ha; o_name obs; l]
    = if decide (o_lsnKnown obs = true /\ o_lsn obs <> "" /\ l = o_lsn obs)
      then Some (float_of_Z 1) else None
}.

(** The series of the other sites of this HACluster are as they were. *)
Definition otherSitesKept (ha : HACluster) (site : string) (reg reg' : registry) : Prop :=
  forall v site' l, site' <> site ->
    gaugeRead reg' v (ha_Name ha :: ha_Namespace ha :: site' :: l)
    = gaugeRead reg v (ha_Name ha :: ha_Namespace ha :: site' :: l).

Lemma siteGauges_kept ha cur lsn obs site reg reg' :
  otherSitesKept ha site reg reg' -> o_name obs <> site ->
  siteGauges ha cur lsn obs reg -> siteGauges ha cur lsn obs reg'.
Proof. intros Hk Hne []. split; intros; rewrite Hk; done. Qed.

(** Set a gauge, or delete its series. *)
Definition putGauge (v : metricVec) (ls : list string) (x : option float64) (reg : registry)
    : registry :=
  match x with Some y => gaugeSet reg v ls y | None => gaugeDelete reg v ls end.

Lemma gaugeRead_put_eq v ls x reg : gaugeRead (putGauge v ls x reg) v ls = x.
Proof. destruct x; [apply gaugeRead_set_eq|apply gaugeRead_delete_eq]. Qed.

Lemma gaugeRead_put_ne v ls x reg v' ls' :
  (v, ls) <> (v', ls') -> gaugeRead (putGauge v ls x reg) v' ls' = gaugeRead reg v' ls'.
Proof. intros Hne. destruct x; [by apply gaugeRead_set_ne|by apply gaugeRead_delete_ne]. Qed.

(** The updates of the registry publishSite makes, in its order. *)
Definition siteGaugeUpdates (ha : HACluster) (cur : string) (lsn : option Z)
    (obs : siteObservation) (reg : registry) : registry :=
  let ls := [ha_Name ha; ha_Namespace ha; o_name obs] in
  putGauge SiteCurrentLSNBytes ls
    (if o_lsnKnown obs then Some (float_of_Z (o_lsnValue obs)) else None)
  (putGauge ReplicaLagBytes ls (lagBytes cur lsn obs)
  (putGauge ReplicaLagSeconds ls (o_lagSeconds obs)
  (putGauge SiteReady ls (Some (boolGauge (o_ready obs)))
  (putGauge SiteReachable ls (Some (boolGauge (o_reachable obs)))
  (putGauge CurrentPrimarySite ls (Some (boolGauge (bool_decide (o_name obs = cur)))) reg))))).

Definition siteRegistry (ha : HACluster) (cur : string) (lsn : option Z) (obs : siteObservation)
    (reg : registry) : registry :=
  let reg1 := gaugeDeletePartial (siteGaugeUpdates ha cur lsn obs reg) SiteLSNInfo
    (siteMatch (ha_Namespace ha) (ha_Name ha) (o_name obs)) in
  if o_lsnKnown obs && negb (bool_decide (o_lsn obs = ""))
  then gaugeSet reg1 SiteLSNInfo [ha_Name ha; ha_Namespace ha; o_name obs; o_lsn obs]
         (float_of_Z 1)
  else reg1.

Lemma publishSite_run ha cur lsn obs s :
  (forall p, lsn = Some p -> uint64_range p) -> uint64_range (o_lsnValue obs) ->
  publishSite ha cur lsn obs s = modifyMetrics (siteRegistry ha cur lsn obs) s.
Proof.
  intros Hp Hv. unfold publishSite, siteRegistry, siteGaugeUpdates, lagBytes.
  unfold SetSite, SetReplicaLag, ClearReplicaLag, SetReplicaLagBytes, ClearReplicaLagBytes,
    SetSiteCurrentLSNBytes, ClearSiteCurrentLSNBytes, SetSiteLSNInfo, ClearSiteLSNInfo.
  unfold setGauge, WithLabelValues, mbind, M_bind. simpl.
  destruct lsn as [p|], (o_lagSeconds obs), (o_lsnKnown obs); simpl;
    try (destruct (bool_decide (o_lsn obs = "")); done).
  all: specialize (Hp p eq_refl); unfold uint64_range in *.
  all: case_bool_decide; simpl; [destruct (bool_decide (o_lsn obs = "")); done|].
  all: destruct (p <=? o_lsnValue obs) eqn:E; bool_prop;
    [rewrite Z.max_l by lia|rewrite Z.max_r by lia; rewrite wrap_uint64_id by (unfold uint64_range; lia)];
    destruct (bool_decide (o_lsn obs = "")); done.
Qed.

(** The registry after a site, read at a vector other than SiteLSNInfo. *)
Lemma siteRegistry_vec ha cur lsn obs reg v ls :
  v <> SiteLSNInfo ->
  gaugeRead (siteRegistry ha cur lsn obs reg) v ls
  = gaugeRead (siteGaugeUpdates ha cur lsn obs reg) v ls.
Proof.
  intros Hv. unfold siteRegistry. destruct (_ && _).
  - rewrite gaugeRead_set_ne by naive_solver. by rewrite gaugeRead_partial_vec.
  - by rewrite gaugeRead_partial_vec.
Qed.

Lemma siteRegistry_gauges ha cur lsn obs reg :
  siteGauges ha cur lsn obs (siteRegistry ha cur lsn obs reg).
Proof.
  split; [rewrite siteRegistry_vec by done; unfold siteGaugeUpdates;
          repeat (rewrite gaugeRead_put_ne by done); apply gaugeRead_put_eq..|].
  intros l. case_decide as Hc; unfold siteRegistry.
  - destruct Hc as (-> & He & ->). rewrite bool_decide_eq_false_2 by done. simpl.
    apply gaugeRead_set_eq.
  - destruct (o_lsnKnown obs && negb (bool_decide (o_lsn obs = ""))) eqn:Hb;
      [rewrite gaugeRead_set_ne|]; [by rewrite gaugeRead_partial_site, decide_True| |
      by rewrite gaugeRead_partial_site, decide_True].
    bool_prop. intros [=]. by apply Hc.
Qed.

Lemma siteRegistry_others ha cur lsn obs reg :
  otherSitesKept ha (o_name obs) reg (siteRegistry ha cur lsn obs reg).
Proof.
  intros v site' l Hne.
  assert (Hu : gaugeRead (siteGaugeUpdates ha cur lsn obs reg) v
                 (ha_Name ha :: ha_Namespace ha :: site' :: l)
               = gaugeRead reg v (ha_Name ha :: ha_Namespace ha :: site' :: l)).
  { unfold siteGaugeUpdates. repeat (rewrite gaugeRead_put_ne by (intros [=]; congruence)). done. }
  destruct (decide (v = SiteLSNInfo)) as [->|Hv]; [|by rewrite siteRegistry_vec].
  unfold siteRegistry. destruct (_ && _);
    [rewrite gaugeRead_set_ne by (intros [=]; congruence)|];
    by rewrite gaugeRead_partial_site, decide_False by (intros [=]; congruence).
Qed.

(** Publishing the sites one after the other is a fold of the registry. *)
Lemma publishSites_run ha cur lsn all s :
  (forall p, lsn = Some p -> uint64_range p) ->
  Forall (fun o => uint64_range (o_lsnValue o)) all ->
  publishSites ha cur lsn all s
  = modifyMetrics (fun reg => foldl (fun g o => siteRegistry ha cur lsn o g) reg all) s.
Proof.
  intros Hp Hv. revert s. induction Hv as [|o all Ho Hv IH]; intros s; [by destruct s|].
  simpl. unfold mbind, M_bind. rewrite publishSite_run by done. simpl. by rewrite IH.
Qed.

Lemma fold_gauges ha cur lsn all reg :
  NoDup (o_name <$> all) ->
  Forall (fun o => siteGauges ha cur lsn o (foldl (fun g o => siteRegistry ha cur lsn o g) reg all))
    all.
Proof.
  revert reg. induction all as [|o all IH]; intros reg; [constructor|].
  rewrite fmap_cons, NoDup_cons. intros [Hn Hnd]. simpl. constructor; [|by apply IH].
  clear IH Hnd. pose proof (siteRegistry_gauges ha cur lsn o reg) as Hg.
  revert Hg. generalize (siteRegistry ha cur lsn o reg). clear reg.
  induction all as [|x all IH]; intros reg Hg; [done|]. simpl.
  rewrite fmap_cons, not_elem_of_cons in Hn. destruct Hn as [Hx Hn].
  apply IH; [done|]. by eapply siteGauges_kept; [apply siteRegistry_others|..].
Qed.

Lemma primaryLSN_range cur all :
  Forall (fun o => uint64_range (o_lsnValue o)) all ->
  forall x, primaryLSN cur all = Some x -> uint64_range x.
Proof.
  intros Hv x. unfold primaryLSN. destruct (list_find _ _) as [[i o]|] eqn:E; simpl; [|done].
  intros [= <-]. apply list_find_Some in E as (Hi & _). by eapply Forall_lookup_1 in Hv.
Qed.

(** C31. The metrics show the reconcile's own view, whatever was published
    before: with distinct site names and uint64 WAL positions, after
    publishMetrics every site has exactly the gauges of its observation
    (current-primary, reachable and ready flags; lag in seconds, WAL position
    and text label present exactly when known), the byte lag is the number of
    WAL bytes behind the current primary, never wrapped around zero, and
    absent when either position is unknown; the split-brain gauge is the given
    flag; no label arity mistake can panic. *)
Theorem publishMetrics_spec ha cur sb p rs s :
  NoDup (o_name <$> p :: rs) -> Forall (fun o => uint64_range (o_lsnValue o)) (p :: rs) ->
  wp (publishMetrics ha cur sb p rs) (fun o s' => o = Val tt /\
    (forall obs, obs ∈ p :: rs ->
       siteGauges ha cur (primaryLSN cur (p :: rs)) obs (op_metrics s')) /\
    gaugeRead (op_metrics s') SplitBrain [ha_Name ha; ha_Namespace ha] = Some (boolGauge sb)) s.
Proof.
  intros Hnd Hv. unfold wp, publishMetrics, mbind, M_bind.
  rewrite publishSites_run by (done || by apply primaryLSN_range). cbn [modifyMetrics].
  pose proof (fold_gauges ha cur (primaryLSN cur (p :: rs)) (p :: rs) (op_metrics s) Hnd) as Hg.
  set (reg := foldl _ _ _) in *. split_and!; [done| |].
  - intros obs Hobs. rewrite Forall_forall in Hg. destruct (Hg obs Hobs).
    split; intros; simpl; rewrite gaugeRead_set_ne by done; done.
  - simpl. apply gaugeRead_set_eq.
Qed.
End metric_laws.
End status.

Lemma setConditions_meaning_witness :
  wp (setConditions (sampleHA "Manual" "") true [] (sampleObs "a" true true true) [])
    (fun o _ => exists ha', o = Val ha' /\ conditionIs conditionAvailable "True" ha' /\
       conditionIs conditionDegraded "False" ha') (fakeState emptyWorld).
Proof.
  eapply wp_mono; [apply (setConditions_meaning (sampleHA "Manual" "") true []
    (sampleObs "a" true true true) [] (fakeState emptyWorld))|].
  intros o s' (ha' & -> & Ha & _ & Hd & _). exists ha'. split_and!; [reflexivity|exact Ha|].
  exact Hd.
Defined.

Lemma publishMetrics_spec_witness :
  wp (publishMetrics (sampleHA "Manual" "") "b" false (sampleObs "a" true false true)
        [obsAt "b" "0/2" 2; obsAt "c" "0/1" 1]) (fun o s' => o = Val tt /\
    gaugeRead (op_metrics s') ReplicaLagBytes ["ha"; "ops"; "c"] = Some (float_of_Z 1))
    (fakeState emptyWorld).
Proof.
  eapply wp_mono; [apply (publishMetrics_spec (sampleHA "Manual" "") "b" false
    (sampleObs "a" true false true) [obsAt "b" "0/2" 2; obsAt "c" "0/1" 1] (fakeState emptyWorld))|].
  - apply (bool_decide_unpack _). reflexivity.
  - repeat constructor; simpl; lia.
  - intros o s' (Ho & Hg & _). split; [exact Ho|].
    refine (sg_lagBytes _ _ _ _ _ (Hg (obsAt "c" "0/1" 1) _)). repeat constructor.
Defined.
