(* ===== verification/Failover.v ===== *)
(** * internal/controller: promotion of a replica

    [runPromotion], the two handlers that decide to run it (the promote
    annotation and the automatic failover), the in-memory failure counter and
    the removal of the annotation. The handlers receive the HACluster by
    pointer: here they return the object as they leave it. *)

From S2P Require Import Prelude GoStd Api External FakeKube Operator Fixtures.
From S2P Require Import Metrics Health Promotion RemoteClient Decision Observe Status.

Definition annotationPromote : string := "ha.cnpg.io/promote".

Definition eventReasonFailoverStarted : string := "FailoverStarted".
Definition eventReasonFailoverCompleted : string := "FailoverCompleted".
Definition eventReasonFailoverFailed : string := "FailoverFailed".
Definition eventReasonPromoteRejected : string := "PromoteRejected".
Definition eventReasonAutoFailoverNoCandidate : string := "AutoFailoverNoCandidate".
Definition eventReasonPrimaryUnhealthy : string := "PrimaryUnhealthy".

(** The body of clearPromoteAnnotation's merge patch. *)
Definition promotePatch : string :=
  "{" +:+ dquote +:+ "metadata" +:+ dquote +:+ ":{" +:+ dquote +:+ "annotations" +:+ dquote
  +:+ ":{" +:+ dquote +:+ annotationPromote +:+ dquote +:+ ":null}}}".

Definition refOf (c : ClusterRef) : Ref := mkRef (cr_Namespace c) (cr_Name c).

Section failover.
Context `{Extern}.

(** ** The failure counter *)

Definition bumpFailCount (key : NamespacedName) : M Z :=
  modifyFailCount (fun m => <[key := wrap_int64 (default 0 (m !! key) + 1)]> m);;
  gets (fun s => default 0 (op_failCount s !! key)).

Definition resetFailCount (key : NamespacedName) : M unit := modifyFailCount (delete key).

(** ** Clients of the sites *)

Definition siteClientAndRef (r : HAClusterReconciler) (ha : HACluster) (siteName : string)
    : M (option (client * Ref)) :=
  let p := spec_Primary (ha_Spec ha) in
  if bool_decide (siteName = ps_Name p)
  then mret (Some (r_Client r, refOf (ps_ClusterRef p)))
  else
    match list_find (fun rep => rs_Name rep = siteName) (spec_Replicas (ha_Spec ha)) with
    | None => mret None
    | Some (_, rep) =>
        rc ← GetOrCreate (r_Client r) (ha_Namespace ha) (rs_KubeconfigSecretRef rep);
        match rc with
        | Err _ => mret None
        | Ok cli => mret (Some (cli, refOf (rs_ClusterRef rep)))
        end
    end.

(** ** runPromotion *)

(** [if err != nil && !apierrors.IsNotFound(err)]: the error that aborts. *)
Definition aborting (r : result unit) : option goerr :=
  match r with
  | Ok _ => None
  | Err e => if negb (IsNotFound e) then Some e else None
  end.

Definition promotionSteps (oldCli : client) (oldRef : Ref) (newCli : client) (newRef : Ref)
    : M (result unit) :=
  rf ← Fence oldCli oldRef;
  match aborting rf with
  | Some e => mret (Err (Wrap "fence old primary" e))
  | None =>
      rs ← FlipCiliumService oldCli oldRef RoleRemote;
      match aborting rs with
      | Some e => mret (Err (Wrap "flip old primary service to remote" e))
      | None =>
          rp ← Promote newCli newRef;
          match rp with
          | Err e => mret (Err (Wrap "promote target" e))
          | Ok _ =>
              rl ← FlipCiliumService newCli newRef RoleLocal;
              mret (wrapErr "flip target service to local" rl)
          end
      end
  end.

Definition runPromotion (r : HAClusterReconciler) (ha : HACluster) (oldPrimaryName : string)
    (target : ReplicaSite) : M (result unit) :=
  if bool_decide (oldPrimaryName = "")
  then mret (Err (ErrorString "old primary site is empty"))
  else if bool_decide (oldPrimaryName = rs_Name target)
  then mret (Err (ErrorString ("old primary site " +:+ Quote oldPrimaryName
                               +:+ " and target site are identical")))
  else
    old ← siteClientAndRef r ha oldPrimaryName;
    match old with
    | None => mret (Err (ErrorString ("resolve old primary site " +:+ Quote oldPrimaryName)))
    | Some (oldCli, oldRef) =>
        rc ← GetOrCreate (r_Client r) (ha_Namespace ha) (rs_KubeconfigSecretRef target);
        match rc with
        | Err e => mret (Err (Wrap ("load remote client for " +:+ Quote (rs_Name target)) e))
        | Ok newCli => promotionSteps oldCli oldRef newCli (refOf (rs_ClusterRef target))
        end
    end.

(** ** The promote annotation *)

Definition hasPromote (ha : HACluster) : option string :=
  ha_Annotations ha ≫= lookup annotationPromote.

Definition clearPromoteAnnotation (r : HAClusterReconciler) (ha : HACluster)
    : M (HACluster * result unit) :=
  match hasPromote ha with
  | None => mret (ha, Ok tt)
  | Some _ =>
      rp ← patchHA (r_Client r) ha promotePatch;
      match rp with
      | Err e => mret (ha, Err (Wrap ("patch HACluster " +:+ ha_Namespace ha +:+ "/"
                                      +:+ ha_Name ha) e))
      | Ok ha' => mret (setAnnotations (mapDelete (ha_Annotations ha') annotationPromote) ha', Ok tt)
      end
  end.

(** The rejections: an event, then the annotation is removed. *)
Definition rejectPromote (r : HAClusterReconciler) (ha : HACluster) (msg : string)
    : M (HACluster * result promotionEffect) :=
  event r ha EventTypeWarning eventReasonPromoteRejected msg;;
  res ← clearPromoteAnnotation r ha;
  mret (res.1, match res.2 with Ok _ => Ok noEffect | Err e => Err e end).

(** [ha.Status.CurrentPrimarySite = target; ha.Status.LastFailoverTime = &now] *)
Definition recordPromotion (target : string) (t : Z) (ha : HACluster) : HACluster :=
  setLastFailoverTime (Some t) (setCurrentPrimarySite target ha).

Definition rejectionPrefix (target : string) : string :=
  "annotation " +:+ annotationPromote +:+ "=" +:+ Quote target +:+ " rejected: ".

Definition handlePromoteAnnotation (r : HAClusterReconciler) (ha : HACluster)
    (primaryObs : siteObservation) (replicaObs : list siteObservation)
    : M (HACluster * result promotionEffect) :=
  match hasPromote ha with
  | None => mret (ha, Ok noEffect)
  | Some target =>
      if negb (bool_decide (fs_Mode (spec_Failover (ha_Spec ha)) = FailoverModeManual))
      then rejectPromote r ha ("annotation " +:+ annotationPromote
             +:+ " rejected: spec.failover.mode is "
             +:+ Quote (fs_Mode (spec_Failover (ha_Spec ha))) +:+ ", must be Manual")
      else
        let '(rep, replicaIdx, found) := findReplica ha target in
        if negb found
        then rejectPromote r ha (rejectionPrefix target +:+ "no replica with that name")
        else
          match replicaObs !! replicaIdx with
          | None => panic
          | Some targetObs =>
              if negb (healthyReplica targetObs)
              then rejectPromote r ha (rejectionPrefix target
                     +:+ "target not a healthy replica (reachable=" +:+ fmtBool (o_reachable targetObs)
                     +:+ " ready=" +:+ fmtBool (o_ready targetObs)
                     +:+ " primary=" +:+ fmtBool (o_primary targetObs)
                     +:+ " reason=" +:+ Quote (o_reason targetObs) +:+ ")")
              else
                match currentPrimaryForPromotion ha primaryObs replicaObs with
                | Err e => rejectPromote r ha (rejectionPrefix target +:+ Error e)
                | Ok oldPrimaryName =>
                    event r ha EventTypeNormal eventReasonFailoverStarted
                      ("promoting site " +:+ Quote target +:+ " to primary (manual)");;
                    ha1 ← setFailoverInProgress ha true target;
                    start ← now;
                    rp ← runPromotion r ha1 oldPrimaryName rep;
                    match rp with
                    | Err e =>
                        event r ha1 EventTypeWarning eventReasonFailoverFailed
                          ("promotion of " +:+ Quote target +:+ " failed: " +:+ Error e);;
                        ha2 ← setFailoverInProgress ha1 false "";
                        mret (ha2, Err (Wrap ("manual promotion to " +:+ Quote target) e))
                    | Ok _ =>
                        stop ← now;
                        ObserveFailoverDuration (ha_Namespace ha1) (ha_Name ha1) "manual"
                          (durationSeconds (timeSub stop start));;
                        cleared ← clearPromoteAnnotation r ha1;
                        match cleared with
                        | (ha2, Err e) => mret (ha2, Err (Wrap "clear promote annotation" e))
                        | (ha2, Ok _) =>
                            t ← now;
                            ha3 ← setFailoverInProgress (recordPromotion target t ha2) false "";
                            event r ha3 EventTypeNormal eventReasonFailoverCompleted
                              ("site " +:+ Quote target +:+ " is now primary");;
                            IncFailover (ha_Namespace ha3) (ha_Name ha3) "manual";;
                            mret (ha3, Ok (mkEffect oldPrimaryName (o_name targetObs)))
                        end
                    end
                end
          end
  end.

(** ** Automatic failover *)

Definition healthyPrimary (o : option siteObservation) : bool :=
  match o with Some cur => primaryReady cur | None => false end.

(** The site whose health drives the automatic failover. *)
Definition watchedPrimary (ha : HACluster) : string :=
  if bool_decide (st_CurrentPrimarySite (ha_Status ha) = "")
  then ps_Name (spec_Primary (ha_Spec ha)) else st_CurrentPrimarySite (ha_Status ha).

(** [lf != nil && metav1.Now().Sub(lf.Time) < cooldown]; the clock is read
    only when there was a failover. *)
Definition stabilizing (ha : HACluster) : M bool :=
  match st_LastFailoverTime (ha_Status ha) with
  | None => mret false
  | Some lf =>
      t ← now;
      mret (timeSub t lf <? stabilizationCooldown (spec_Failover (ha_Spec ha)))
  end.

(** The promotion itself, once the threshold is reached. *)
Definition autoPromote (r : HAClusterReconciler) (ha : HACluster) (replicaObs : list siteObservation)
    (curName : string) (n threshold : Z) : M (HACluster * result promotionEffect) :=
  match chooseTarget ha replicaObs curName with
  | Panicked => panic
  | Val (target, _, ok) =>
      if negb ok then
        event r ha EventTypeWarning eventReasonAutoFailoverNoCandidate
          ("primary " +:+ Quote curName
           +:+ " down but no healthy replica to promote — staying unavailable");;
        mret (ha, Ok noEffect)
      else
        event r ha EventTypeNormal eventReasonFailoverStarted
          ("promoting site " +:+ Quote (rs_Name target) +:+ " to primary (automatic, primary "
           +:+ Quote curName +:+ " unhealthy " +:+ Itoa n +:+ "/" +:+ Itoa threshold +:+ ")");;
        ha1 ← setFailoverInProgress ha true (rs_Name target);
        start ← now;
        rp ← runPromotion r ha1 curName target;
        match rp with
        | Err e =>
            event r ha1 EventTypeWarning eventReasonFailoverFailed
              ("automatic promotion of " +:+ Quote (rs_Name target) +:+ " failed: " +:+ Error e);;
            ha2 ← setFailoverInProgress ha1 false "";
            mret (ha2, Err (Wrap ("automatic failover to " +:+ Quote (rs_Name target)) e))
        | Ok _ =>
            stop ← now;
            ObserveFailoverDuration (ha_Namespace ha1) (ha_Name ha1) "automatic"
              (durationSeconds (timeSub stop start));;
            t ← now;
            ha2 ← setFailoverInProgress (recordPromotion (rs_Name target) t ha1) false "";
            event r ha2 EventTypeNormal eventReasonFailoverCompleted
              ("site " +:+ Quote (rs_Name target) +:+ " is now primary (automatic)");;
            IncFailover (ha_Namespace ha2) (ha_Name ha2) "automatic";;
            resetFailCount (haKey ha);;
            mret (ha2, Ok (mkEffect curName (rs_Name target)))
        end
  end.

Definition handleAutomaticFailover (r : HAClusterReconciler) (ha : HACluster)
    (primaryObs : siteObservation) (replicaObs : list siteObservation)
    : M (HACluster * result promotionEffect) :=
  let key := haKey ha in
  if negb (bool_decide (fs_Mode (spec_Failover (ha_Spec ha)) = FailoverModeAutomatic))
  then mret (ha, Ok noEffect)
  else if bool_decide (0 < length (detectSplitBrain primaryObs replicaObs))%nat
  then resetFailCount key;; mret (ha, Ok noEffect)
  else
    cooling ← stabilizing ha;
    if (cooling : bool) then resetFailCount key;; mret (ha, Ok noEffect)
    else
      let curName := watchedPrimary ha in
      if healthyPrimary (findObservation curName primaryObs replicaObs)
      then resetFailCount key;; mret (ha, Ok noEffect)
      else
        let threshold := effectiveFailureThreshold (spec_Failover (ha_Spec ha)) in
        n ← bumpFailCount key;
        if n <? threshold then
          event r ha EventTypeWarning eventReasonPrimaryUnhealthy
            ("primary " +:+ Quote curName +:+ " unhealthy (" +:+ Itoa n +:+ "/"
             +:+ Itoa threshold +:+ ") — automatic failover pending");;
          mret (ha, Ok noEffect)
        else autoPromote r ha replicaObs curName n threshold.

(** ** The promotion protocol

    The runs of [promotionSteps], as the concatenation of the runs of its
    steps: each constructor says how far the sequence went. *)
Inductive protocol_run (oc : client) (oref : Ref) (nc : client) (nref : Ref)
    : list apicall -> result unit -> Prop :=
  | proto_fence_aborts t rf e :
      fence_run oc oref t rf -> aborting rf = Some e ->
      protocol_run oc oref nc nref t (Err (Wrap "fence old primary" e))
  | proto_flip_aborts t rf t1 rs e :
      fence_run oc oref t rf -> aborting rf = None ->
      flip_run oc oref RoleRemote t1 rs -> aborting rs = Some e ->
      protocol_run oc oref nc nref (t ++ t1) (Err (Wrap "flip old primary service to remote" e))
  | proto_promote_fails t rf t1 rs t2 e :
      fence_run oc oref t rf -> aborting rf = None ->
      flip_run oc oref RoleRemote t1 rs -> aborting rs = None ->
      promote_run nc nref t2 (Err e) ->
      protocol_run oc oref nc nref (t ++ t1 ++ t2) (Err (Wrap "promote target" e))
  | proto_last t rf t1 rs t2 t3 rl :
      fence_run oc oref t rf -> aborting rf = None ->
      flip_run oc oref RoleRemote t1 rs -> aborting rs = None ->
      promote_run nc nref t2 (Ok tt) -> flip_run nc nref RoleLocal t3 rl ->
      protocol_run oc oref nc nref (t ++ t1 ++ t2 ++ t3)
        (wrapErr "flip target service to local" rl).

Lemma promotionSteps_talks oc oref nc nref :
  talks (promotionSteps oc oref nc nref) (protocol_run oc oref nc nref).
Proof.
  unfold promotionSteps. eapply talks_bind; [apply Fence_talks|]. intros t rf Hf.
  destruct (aborting rf) as [e|] eqn:Af.
  { apply talks_ret. rewrite app_nil_r. by eapply proto_fence_aborts. }
  eapply talks_bind; [apply FlipCiliumService_talks|]. intros t1 rs Hs. simpl.
  destruct (aborting rs) as [e|] eqn:As.
  { apply talks_ret. rewrite app_nil_r. by eapply proto_flip_aborts. }
  eapply talks_bind; [apply Promote_talks|]. intros t2 rp Hp. simpl.
  destruct rp as [[]|e].
  2:{ apply talks_ret. rewrite app_nil_r. by eapply proto_promote_fails. }
  eapply talks_bind; [apply FlipCiliumService_talks|]. intros t3 rl Hl. simpl.
  apply talks_ret. rewrite app_nil_r. by eapply proto_last.
Qed.

(** The answers that let the sequence pass the fence: the Cluster was read
    with the fencing annotation, or a write of it was acknowledged, or the API
    server said NotFound. *)
Inductive fence_evidence (oc : client) (oref : Ref) : list apicall -> Prop :=
  | evidence_read u : fenced u -> fence_evidence oc oref [CGetCluster oc (refKey oref) (Ok u)]
  | evidence_write u :
      fence_evidence oc oref
        [CGetCluster oc (refKey oref) (Ok u); CUpdateCluster oc (fenceObject u) (Ok tt)]
  | evidence_absent e :
      IsNotFound (Wrap (getPrefix oref) e) = true ->
      fence_evidence oc oref [CGetCluster oc (refKey oref) (Err e)]
  | evidence_gone u e :
      IsNotFound (Wrap ("fence cnpg cluster " +:+ refString oref) e) = true ->
      fence_evidence oc oref
        [CGetCluster oc (refKey oref) (Ok u); CUpdateCluster oc (fenceObject u) (Err e)].

Lemma fence_run_evidence oc oref t rf :
  fence_run oc oref t rf -> aborting rf = None -> fence_evidence oc oref t.
Proof.
  intros Hr Ha. inversion Hr as [e|u Hf|u r Hf]; subst; simpl in Ha.
  - destruct (IsNotFound _) eqn:E; [|done]. by apply evidence_absent.
  - by apply evidence_read.
  - destruct r as [[]|e]; [by apply evidence_write|]. simpl in Ha.
    destruct (IsNotFound _) eqn:E; [|done]. by apply evidence_gone.
Qed.

Lemma fence_run_writes oc oref t rf a :
  fence_run oc oref t rf -> a ∈ t -> isWrite a = true ->
  exists u r, t = [CGetCluster oc (refKey oref) (Ok u); a] /\ a = CUpdateCluster oc (fenceObject u) r.
Proof.
  intros Hr Hin Hw. inversion Hr as [e|u Hf|u r Hf]; subst;
    rewrite ?elem_of_cons, ?elem_of_nil in Hin; destruct_or? Hin; subst; try done.
  by exists u, r.
Qed.

(** C1. No write reaches the promoted site before the old primary is fenced.
    Whatever the API servers answer, the calls of a promotion split into the
    fence of the old primary and the rest; if the fence did not go through
    (the Cluster was neither seen fenced, nor its fencing acknowledged, nor
    reported NotFound) there is no rest and the promotion is an error. So an
    unreachable old primary stops the failover instead of being bypassed. *)
Theorem promotion_fences_first oc oref nc nref :
  talks (promotionSteps oc oref nc nref) (fun t r =>
    exists tf trest, t = tf ++ trest /\
      (forall a, a ∈ tf -> isWrite a = true -> exists u ra, a = CUpdateCluster oc (fenceObject u) ra) /\
      (fence_evidence oc oref tf \/ (trest = [] /\ exists e, r = Err e))).
Proof.
  eapply talks_mono; [apply promotionSteps_talks|]. intros t r Hr.
  assert (Hw : forall t rf, fence_run oc oref t rf -> forall a, a ∈ t -> isWrite a = true ->
     exists u ra, a = CUpdateCluster oc (fenceObject u) ra).
  { intros t' rf Hf a Ha Hw. destruct (fence_run_writes _ _ _ _ _ Hf Ha Hw) as (u & ra & _ & ->).
    by eexists _, _. }
  inversion Hr; subst.
  - exists t, []. rewrite app_nil_r. split_and!; [done|by eapply Hw|right; eauto].
  - eexists _, _. split_and!; [done|by eapply Hw|left; by eapply fence_run_evidence].
  - eexists _, _. split_and!; [done|by eapply Hw|left; by eapply fence_run_evidence].
  - eexists _, _. split_and!; [done|by eapply Hw|left; by eapply fence_run_evidence].
Qed.

(** ** Effect of the protocol on the stored objects *)

Section store.
Context `{!UnstructuredLaws} `{!ErrorLaws} `{!Store} `{!StoreLaws}.

(** The Cluster at [k] of [srv] accepts no writes: it is fenced or gone. *)
Definition writeDisabled (w : World) (srv : Server) (k : NamespacedName) : Prop :=
  match clusterAt w srv k with Some u => fenced u | None => True end.

(** The Service at [k] of [srv], if there is one, has the affinity of [role]. *)
Definition serviceRole (w : World) (srv : Server) (k : NamespacedName) (role : ServiceRole) : Prop :=
  match serviceAt w srv k with Some svc => flipped role svc | None => True end.

Lemma aborting_None r :
  aborting r = None -> r = Ok tt \/ exists e, r = Err e /\ statusReason e = Some "NotFound".
Proof.
  destruct r as [[]|e]; simpl; [by left|]. destruct (IsNotFound e) eqn:E; simpl; [|done].
  intros _. right. exists e. split; [done|]. by apply IsNotFound_law.
Qed.

Lemma fence_passed oc oref t rf w w' :
  exec w t w' -> fence_run oc oref t rf -> aborting rf = None ->
  writeDisabled w' (serverOf oc) (refKey oref).
Proof.
  intros Hx Hr [->|(e & -> & Hs)]%aborting_None; unfold writeDisabled.
  - eapply fence_run_effect in Hx; [|done]. destruct Hx as ((u & u' & _ & -> & Hc) & _). apply Hc.
  - inversion Hr as [e' E1 E2|u Hf|u r Hf E1 E2]; subst.
    + apply exec_one in Hx. simpl in Hs. destruct (getCluster_law _ _ _ _ _ Hx) as [Hst Hn].
      by rewrite (same_cluster _ _ Hst), Hn.
    + destruct r as [|e']; simplify_eq/=.
      apply exec_two in Hx as (w1 & Hg & Hu).
      apply getCluster_law in Hg as [_ (_ & Hk & _)]. apply updateCluster_law in Hu as [[_ Hn] _].
      rewrite fenceObject_key, Hk in Hn. by rewrite Hn.
Qed.

Lemma flip_passed c ref role t rs w w' :
  exec w t w' -> flip_run c ref role t rs -> aborting rs = None ->
  serviceRole w' (serverOf c) (svcKeyOf ref) role.
Proof.
  intros Hx Hr [->|(e & -> & Hs)]%aborting_None; unfold serviceRole.
  - eapply flip_run_effect in Hx; [|done]. destruct Hx as ((u & u' & _ & -> & Hc) & _). apply Hc.
  - inversion Hr as [e' E1 E2|u Hf|u r Hf E1 E2]; subst.
    + apply exec_one in Hx. simpl in Hs. destruct (getService_law _ _ _ _ _ Hx) as [Hst Hn].
      by rewrite (same_service _ _ Hst), Hn.
    + destruct r as [|e']; simplify_eq/=.
      apply exec_two in Hx as (w1 & Hg & Hu).
      apply getService_law in Hg as [_ [_ Hk]]. apply updateService_law in Hu as [[_ Hn] _].
      change (svcKey (flipObject role u)) with (svcKey u) in Hn. rewrite Hk in Hn. by rewrite Hn.
Qed.

(** What the steps leave alone, whether they succeed or not. *)
Lemma promote_run_frame c ref t r w w' :
  exec w t w' -> promote_run c ref t r ->
  (forall s j, (s, j) <> (serverOf c, refKey ref) -> clusterAt w' s j = clusterAt w s j) /\
  (forall s j, serviceAt w' s j = serviceAt w s j).
Proof.
  intros Hx Hr. pose proof (promote_run_effect _ _ _ _ _ _ Hx Hr) as He.
  destruct r; [|destruct He as [[]|He]; [auto|]]; by destruct He as (_ & ? & ? & _).
Qed.

Lemma fence_run_frame c ref t r w w' :
  exec w t w' -> fence_run c ref t r ->
  (forall s j, (s, j) <> (serverOf c, refKey ref) -> clusterAt w' s j = clusterAt w s j) /\
  (forall s j, serviceAt w' s j = serviceAt w s j).
Proof.
  intros Hx Hr. pose proof (fence_run_effect _ _ _ _ _ _ Hx Hr) as He.
  destruct r; [|destruct He as [[]|He]; [auto|]]; by destruct He as (_ & ? & ? & _).
Qed.

Lemma flip_run_frame c ref role t r w w' :
  exec w t w' -> flip_run c ref role t r ->
  (forall s j, clusterAt w' s j = clusterAt w s j) /\
  (forall s j, (s, j) <> (serverOf c, svcKeyOf ref) -> serviceAt w' s j = serviceAt w s j).
Proof.
  intros Hx Hr. pose proof (flip_run_effect _ _ _ _ _ _ _ Hx Hr) as He.
  destruct r; [|destruct He as [[]|He]; [auto|]]; by destruct He as (_ & ? & ? & _).
Qed.

(** C2. A promotion never makes a second writer. In every run, successful,
    aborted or with lost answers, if the Cluster of the promoted site is no
    longer what it was, then the Cluster of the old primary is fenced or does
    not exist; provided the two references designate different Clusters. *)
Theorem promotion_single_writer oc oref nc nref s :
  (serverOf oc, refKey oref) <> (serverOf nc, refKey nref) ->
  wp (promotionSteps oc oref nc nref) (fun _ s' =>
    clusterAt (op_world s') (serverOf nc) (refKey nref)
    = clusterAt (op_world s) (serverOf nc) (refKey nref) \/
    writeDisabled (op_world s') (serverOf oc) (refKey oref)) s.
Proof.
  intros Hne. eapply talks_wp; [apply promotionSteps_talks|]. intros t r w' Hr Hx. simpl.
  inversion Hr as [t0 rf e Hf Ha|t0 rf t1 rs e Hf Ha Hs As|t0 rf t1 rs t2 e Hf Ha Hs As Hp|
    t0 rf t1 rs t2 t3 rl Hf Ha Hs As Hp Hl]; subst.
  - left. apply (fence_run_frame _ _ _ _ _ _ Hx Hf). congruence.
  - right. apply exec_app_inv in Hx as (w1 & X1 & X2).
    pose proof (fence_passed _ _ _ _ _ _ X1 Hf Ha) as Hd.
    unfold writeDisabled in *. by rewrite (proj1 (flip_run_frame _ _ _ _ _ _ _ X2 Hs)).
  - right. apply exec_app_inv in Hx as (w1 & X1 & (w2 & X2 & X3)%exec_app_inv).
    pose proof (fence_passed _ _ _ _ _ _ X1 Hf Ha) as Hd. unfold writeDisabled in *.
    rewrite (proj1 (promote_run_frame _ _ _ _ _ _ X3 Hp)) by done.
    by rewrite (proj1 (flip_run_frame _ _ _ _ _ _ _ X2 Hs)).
  - right. apply exec_app_inv in Hx as
      (w1 & X1 & (w2 & X2 & (w3 & X3 & X4)%exec_app_inv)%exec_app_inv).
    pose proof (fence_passed _ _ _ _ _ _ X1 Hf Ha) as Hd. unfold writeDisabled in *.
    rewrite (proj1 (flip_run_frame _ _ _ _ _ _ _ X4 Hl)).
    rewrite (proj1 (promote_run_frame _ _ _ _ _ _ X3 Hp)) by done.
    by rewrite (proj1 (flip_run_frame _ _ _ _ _ _ _ X2 Hs)).
Qed.

(** C3. A promotion that reports success has moved the writes: the old
    primary's Cluster is fenced (or gone) and its Service prefers remote
    endpoints (or is gone), the target's Cluster exists and is no longer a
    replica, and its Service is global and prefers its own endpoints. *)
Theorem promotion_moves_writes oc oref nc nref s :
  (serverOf oc, refKey oref) <> (serverOf nc, refKey nref) ->
  (serverOf oc, svcKeyOf oref) <> (serverOf nc, svcKeyOf nref) ->
  wp (promotionSteps oc oref nc nref) (fun o s' => o = Val (Ok tt) ->
    writeDisabled (op_world s') (serverOf oc) (refKey oref) /\
    serviceRole (op_world s') (serverOf oc) (svcKeyOf oref) RoleRemote /\
    (exists u, clusterAt (op_world s') (serverOf nc) (refKey nref) = Some u /\
       ~ clusterIsReplica u) /\
    (exists svc, serviceAt (op_world s') (serverOf nc) (svcKeyOf nref) = Some svc /\
       flipped RoleLocal svc)) s.
Proof.
  intros Hne Hnes. eapply talks_wp; [apply promotionSteps_talks|].
  intros t r w' Hr Hx [= ->]. simpl.
  inversion Hr as [| | |t0 rf t1 rs t2 t3 rl Hf Ha Hs As Hp Hl Et El]; subst.
  apply wrapErr_Ok in El as ->.
  apply exec_app_inv in Hx as (w1 & X1 & (w2 & X2 & (w3 & X3 & X4)%exec_app_inv)%exec_app_inv).
  pose proof (fence_passed _ _ _ _ _ _ X1 Hf Ha) as Hd.
  pose proof (flip_passed _ _ _ _ _ _ _ X2 Hs As) as Hsv.
  destruct (flip_run_frame _ _ _ _ _ _ _ X2 Hs) as [C2 _].
  destruct (promote_run_frame _ _ _ _ _ _ X3 Hp) as [C3 S3].
  destruct (flip_run_frame _ _ _ _ _ _ _ X4 Hl) as [C4 S4].
  destruct (promote_run_effect _ _ _ _ _ _ X3 Hp) as ((u & u' & _ & Hu' & Hc & _) & _).
  destruct (flip_run_effect _ _ _ _ _ _ _ X4 Hl) as ((v & v' & _ & Hv' & Hfl & _) & _).
  unfold writeDisabled, serviceRole in *. split_and!.
  - by rewrite C4, C3, C2.
  - by rewrite S4, S3.
  - exists u'. by rewrite C4.
  - by exists v'.
Qed.
End store.
End failover.

Lemma promotion_single_writer_witness :
  let s' := (promotionSteps (site "local") pgRef (site "remote") pgRef (fakeState twoSites)).2 in
  clusterAt (op_world s') "remote" (NN "db" "pg") = clusterAt twoSites "remote" (NN "db" "pg") \/
  writeDisabled (op_world s') "local" (NN "db" "pg").
Proof.
  refine (promotion_single_writer (site "local") pgRef (site "remote") pgRef
    (fakeState twoSites) _). intros [=].
Defined.

Lemma promotion_moves_writes_witness :
  let run := promotionSteps (site "local") pgRef (site "remote") pgRef (fakeState twoSites) in
  run.1 = Val (Ok tt) /\ writeDisabled (op_world run.2) "local" (NN "db" "pg").
Proof.
  assert (E : (promotionSteps (site "local") pgRef (site "remote") pgRef
                 (fakeState twoSites)).1 = Val (Ok tt)) by reflexivity.
  split; [exact E|].
  refine (proj1 (promotion_moves_writes (site "local") pgRef (site "remote") pgRef
    (fakeState twoSites) _ _ E)); intros [=].
Defined.
