(* ===== verification/Automatic.v ===== *)
(** * When the automatic failover acts

    The verdict of [handleAutomaticFailover] in one pass: the in-memory counter
    never exceeds the number of consecutive unhealthy observations, so no write
    is made before the threshold is reached. *)

From S2P Require Import Prelude GoStd Api External FakeKube Operator Fixtures.
From S2P Require Import Metrics Health Promotion RemoteClient Decision Observe Status Failover.

Section automatic.
Context `{Extern}.

(** ** What leaves the counters alone *)

Lemma event_keeps r ha ty reason msg : keepsCount (event r ha ty reason msg).
Proof. apply keepsCount_local. intros s. unfold event. by destruct (r_hasRecorder r). Qed.

Lemma setFailoverInProgress_keeps ha b t : keepsCount (setFailoverInProgress ha b t).
Proof.
  apply keepsCount_bind; [by apply keepsCount_call|]. intros. apply keepsCount_ret.
Qed.

Lemma WithLabelValues_keeps v ls f : keepsCount (WithLabelValues v ls f).
Proof. apply keepsCount_local. intros s. unfold WithLabelValues. by case_bool_decide. Qed.

Lemma siteClientAndRef_quiet r ha n : isQuiet (siteClientAndRef r ha n) (fun _ => True).
Proof.
  unfold siteClientAndRef. case_bool_decide; [by apply isQuiet_ret|].
  destruct (list_find _ _) as [[i rep]|]; [|by apply isQuiet_ret].
  eapply isQuiet_bind; [apply GetOrCreate_quiet|]. intros [cli|e] _; by apply isQuiet_ret.
Qed.

Lemma runPromotion_keeps r ha old target : keepsCount (runPromotion r ha old target).
Proof.
  unfold runPromotion. repeat (case_bool_decide; [apply keepsCount_ret|]).
  apply keepsCount_bind; [eapply keepsCount_quiet, siteClientAndRef_quiet|].
  intros [[oc oref]|]; [|apply keepsCount_ret].
  apply keepsCount_bind; [eapply keepsCount_quiet, GetOrCreate_quiet|].
  intros [nc|e]; [eapply keepsCount_talks, promotionSteps_talks|apply keepsCount_ret].
Qed.

(** ** The verdict of one reconcile *)

Definition isAutomatic (ha : HACluster) : Prop :=
  fs_Mode (spec_Failover (ha_Spec ha)) = FailoverModeAutomatic.

(** The observations show no usable primary and no conflict. *)
Definition unhealthyPass (ha : HACluster) (p : siteObservation) (rs : list siteObservation) : Prop :=
  detectSplitBrain p rs = [] /\
  healthyPrimary (findObservation (watchedPrimary ha) p rs) = false.

#[export] Instance isAutomatic_dec ha : Decision (isAutomatic ha).
Proof. unfold isAutomatic. apply _. Defined.

#[export] Instance unhealthyPass_dec ha p rs : Decision (unhealthyPass ha p rs).
Proof. unfold unhealthyPass. apply _. Defined.

(** The counter after one more failure. *)
Definition bumped (ha : HACluster) (s : opstate) : Z :=
  wrap_int64 (default 0 (op_failCount s !! haKey ha) + 1).

(** Running a program that keeps the counters before another. *)
Lemma wpt_bind_keep {A B} (m : M A) (k : A -> M B) (P : gmap NamespacedName Z -> Prop) s :
  keepsCount m -> P (op_failCount s) ->
  (forall a s1, op_failCount s1 = op_failCount s ->
     wpt (k a) (fun _ s' _ => P (op_failCount s')) s1) ->
  wpt (m ≫= k) (fun _ s' _ => P (op_failCount s')) s.
Proof.
  intros Hm HP Hk. apply wpt_bind. eapply wpt_mono; [apply Hm|].
  intros [a|] s1 t1 E; simpl in *; [by apply Hk|by rewrite E].
Qed.

(** Step over the operations that keep the counters. *)
Ltac keep_step :=
  apply wpt_bind_keep;
    [first [apply event_keeps | apply setFailoverInProgress_keeps | apply WithLabelValues_keeps
           | apply runPromotion_keeps | by apply keepsCount_call]
    |by first [done | left; congruence] |intros].

Lemma autoPromote_counter r ha rs cur n th s :
  wpt (autoPromote r ha rs cur n th) (fun _ s' _ =>
    op_failCount s' = op_failCount s \/ op_failCount s' = delete (haKey ha) (op_failCount s)) s.
Proof.
  pose (P := fun fc => fc = op_failCount s \/ fc = delete (haKey ha) (op_failCount s)).
  change (wpt (autoPromote r ha rs cur n th) (fun _ s' _ => P (op_failCount s')) s).
  unfold autoPromote. destruct (chooseTarget ha rs cur) as [[[target i] ok]|];
    [|apply wpt_panic; by left].
  destruct ok; simpl; [|keep_step; apply wpt_ret; left; congruence].
  do 4 keep_step. destruct a2 as [[]|e].
  - do 6 keep_step. apply wpt_bind, wpt_local; [done|done|]. apply wpt_ret.
    right. simpl. congruence.
  - do 2 keep_step. apply wpt_ret. left. congruence.
Qed.

Lemma stabilizing_quiet ha : isQuiet (stabilizing ha) (fun _ => True).
Proof.
  unfold stabilizing. destruct (st_LastFailoverTime _); [|by apply isQuiet_ret].
  quiet_step. by quiet_step.
Qed.

(** The clock was read first, and the last failover is far enough back. *)
Definition settled (ha : HACluster) (t : list apicall) : Prop :=
  match st_LastFailoverTime (ha_Status ha) with
  | None => True
  | Some lf => exists tm t', t = CNow tm :: t' /\
      stabilizationCooldown (spec_Failover (ha_Spec ha)) <= timeSub tm lf
  end.

Lemma settled_app ha t t' : settled ha t -> settled ha (t ++ t').
Proof.
  unfold settled. destruct (st_LastFailoverTime _); [|done].
  intros (tm & t1 & -> & ?). by exists tm, (t1 ++ t').
Qed.

Lemma stabilizing_settled ha s :
  wpt (stabilizing ha) (fun o s' t => exists b, o = Val b /\ quiet s s' t /\
    (b = false -> settled ha t)) s.
Proof.
  unfold stabilizing, settled. destruct (st_LastFailoverTime _) as [lf|].
  - apply wpt_bind, wpt_call; [done|]. intros tm w' _. apply wpt_ret. eexists. split_and!; [done| |].
    + apply quiet_advance. by repeat constructor.
    + intros Hb. bool_prop. by exists tm, [].
  - apply wpt_ret. exists false. split_and!; [done|apply quiet_refl|done].
Qed.

Lemma event_local r ha ty reason msg s Q :
  (forall s', op_failCount s' = op_failCount s -> Q (Val tt) s' []) ->
  wpt (event r ha ty reason msg) Q s.
Proof.
  intros HQ. apply wpt_local; unfold event; destruct (r_hasRecorder r); try done; by apply HQ.
Qed.

(** One run of the handler, on the counter and the calls: outside Automatic
    mode nothing happens; otherwise either the counter is cleared and nothing
    is written, or the pass was unhealthy, the counter was bumped (and perhaps
    cleared by a promotion), and a write was made only from the threshold on. *)
Definition verdict (ha : HACluster) (p : siteObservation) (rs : list siteObservation)
    (s s' : opstate) (t : list apicall) : Prop :=
  (~ isAutomatic ha /\ op_failCount s' = op_failCount s /\ readOnly t) \/
  (isAutomatic ha /\ op_failCount s' = delete (haKey ha) (op_failCount s) /\ readOnly t) \/
  (isAutomatic ha /\ unhealthyPass ha p rs /\
   (op_failCount s' = <[haKey ha := bumped ha s]> (op_failCount s) \/
    op_failCount s' = delete (haKey ha) (op_failCount s)) /\
   (readOnly t \/
    (effectiveFailureThreshold (spec_Failover (ha_Spec ha)) <= bumped ha s /\ settled ha t))).

Lemma handleAutomaticFailover_verdict r ha p rs s :
  wpt (handleAutomaticFailover r ha p rs) (fun _ s' t => verdict ha p rs s s' t) s.
Proof.
  unfold handleAutomaticFailover. case_bool_decide as Hm; simpl.
  2:{ apply wpt_ret. left. split_and!; [done|done|constructor]. }
  case_bool_decide as Hsb.
  { apply wpt_bind, wpt_local; [done..|]. apply wpt_ret. right; left. split_and!; [done|done|constructor]. }
  apply wpt_bind. eapply wpt_mono; [apply stabilizing_settled|].
  intros o s1 t1 (cooling & -> & [Hrd Hfc _ _] & Hset). destruct cooling.
  { apply wpt_bind, wpt_local; [done..|]. apply wpt_ret. right; left.
    rewrite !app_nil_r. split_and!; [done| |done]. simpl. congruence. }
  destruct (healthyPrimary _) eqn:Hh.
  { apply wpt_bind, wpt_local; [done..|]. apply wpt_ret. right; left.
    rewrite !app_nil_r. split_and!; [done| |done]. simpl. congruence. }
  assert (Hu : unhealthyPass ha p rs).
  { split; [|done]. destruct (detectSplitBrain p rs); [done|]. simpl in Hsb. lia. }
  assert (Eb : bumped ha s1 = bumped ha s) by (unfold bumped; by rewrite Hfc).
  apply wpt_bind, wpt_local; [done..|]. simpl. rewrite lookup_insert_eq. simpl.
  fold (bumped ha s1). rewrite Eb.
  set (s2 := mkOp _ _ _ _ _ _).
  assert (E2 : op_failCount s2 = <[haKey ha := bumped ha s]> (op_failCount s)).
  { unfold s2. simpl. by rewrite Hfc. }
  destruct (bumped ha s <? _) eqn:Hn; bool_prop.
  - apply wpt_bind, event_local. intros s3 E3. apply wpt_ret. right; right.
    rewrite !app_nil_r. split_and!; [done|done|left; congruence|by left].
  - eapply wpt_mono; [apply autoPromote_counter|]. intros o s' t E. right; right.
    split_and!; [done|done| |right; split; [done|by apply settled_app, Hset]].
    destruct E as [E|E]; [left; congruence|right].
    rewrite E, E2. apply delete_insert_eq.
Qed.

(** ** The counter over the passes *)

(** What the automatic handler of a reconcile works on. *)
Record pass : Type := mkPass {
  pass_world : World;
  pass_ha : HACluster;
  pass_primary : siteObservation;
  pass_replicas : list siteObservation
}.

(** The number of unhealthy passes of [k] since the last other one, among the
    passes in Automatic mode. *)
Fixpoint streak (k : NamespacedName) (h : list pass) : Z :=
  match h with
  | [] => 0
  | i :: h' =>
      if decide (haKey (pass_ha i) = k /\ isAutomatic (pass_ha i)) then
        if decide (unhealthyPass (pass_ha i) (pass_primary i) (pass_replicas i))
        then streak k h' + 1 else 0
      else streak k h'
  end.

Lemma streak_nonneg k h : 0 <= streak k h.
Proof. induction h as [|i h IH]; simpl; repeat case_decide; lia. Qed.

Lemma wrap_int64_le z : -2^63 <= z -> wrap_int64 z <= z.
Proof.
  intros Hz. unfold wrap_int64.
  pose proof (Z.mod_le (z + 2^63) (2^64) ltac:(lia) ltac:(lia)). lia.
Qed.

Definition countOf (k : NamespacedName) (s : opstate) : Z := default 0 (op_failCount s !! k).

(** The counter is an int and at most the streak. *)
Definition counterOk (h : list pass) (s : opstate) : Prop :=
  forall k, -2^63 <= countOf k s <= streak k h.

Lemma verdict_counter i h s s' t :
  counterOk h s -> verdict (pass_ha i) (pass_primary i) (pass_replicas i) s s' t ->
  counterOk (i :: h) s'.
Proof.
  intros Hok Hv k. unfold countOf.
  pose proof (Hok k) as Hk. unfold countOf in Hk. pose proof (streak_nonneg k h) as Hsn.
  simpl streak. destruct (decide (haKey (pass_ha i) = k)) as [<-|Hne].
  - destruct Hv as [(Hm & -> & _)|[(Hm & -> & _)|(Hm & Hu & Hc & _)]].
    + rewrite decide_False by naive_solver. done.
    + rewrite decide_True, lookup_delete_eq by done. simpl. case_decide; lia.
    + rewrite !decide_True by done. destruct Hc as [E|E]; rewrite E;
        [rewrite lookup_insert_eq|rewrite lookup_delete_eq]; simpl; [|lia].
      unfold bumped. pose proof (wrap_int64_range
        (default 0 (op_failCount s !! haKey (pass_ha i)) + 1)) as Hr. unfold int64_range in Hr.
      pose proof (wrap_int64_le (default 0 (op_failCount s !! haKey (pass_ha i)) + 1)). lia.
  - rewrite decide_False by naive_solver.
    destruct Hv as [(_ & E & _)|[(_ & E & _)|(_ & _ & [E|E] & _)]];
      rewrite E, ?lookup_delete_ne, ?lookup_insert_ne by done; done.
Qed.

Lemma counterOk_start s : op_failCount s = ∅ -> counterOk [] s.
Proof. intros E k. unfold countOf. rewrite E, lookup_empty. simpl. lia. Qed.

(** The handler has a reason to write: the pass [i] is in Automatic mode and
    unhealthy, and it ends a streak of at least the threshold. *)
Definition sustained (i : pass) (h : list pass) : Prop :=
  isAutomatic (pass_ha i) /\ unhealthyPass (pass_ha i) (pass_primary i) (pass_replicas i) /\
  effectiveFailureThreshold (spec_Failover (ha_Spec (pass_ha i)))
    <= streak (haKey (pass_ha i)) (i :: h).

Lemma verdict_sustained i h s s' t :
  counterOk h s -> verdict (pass_ha i) (pass_primary i) (pass_replicas i) s s' t ->
  readOnly t \/ (sustained i h /\ settled (pass_ha i) t).
Proof.
  intros Hok [(_ & _ & ?)|[(_ & _ & ?)|(Hm & Hu & _ & [?|[Hth Hs]])]]; try by left.
  right. split; [|done]. split_and!; [done|done|]. simpl streak. rewrite !decide_True by done.
  pose proof (Hok (haKey (pass_ha i))) as Hk. unfold countOf in Hk. unfold bumped in Hth.
  pose proof (wrap_int64_le (default 0 (op_failCount s !! haKey (pass_ha i)) + 1)). lia.
Qed.


(** ** What a reported failover did *)

(** The trace contains a run of the whole promotion protocol onto [target]. *)
Definition protocolRan (target : ReplicaSite) (t : list apicall) : Prop :=
  exists t1 oc oref nc t2 t3, t = t1 ++ t2 ++ t3 /\
    protocol_run oc oref nc (refOf (rs_ClusterRef target)) t2 (Ok tt).

Lemma protocolRan_extend target t1 t t3 : protocolRan target t -> protocolRan target (t1 ++ t ++ t3).
Proof.
  intros (ta & oc & oref & nc & tb & tc & -> & Hr).
  exists (t1 ++ ta), oc, oref, nc, tb, (tc ++ t3). split; [|done]. by rewrite <- !app_assoc.
Qed.

Lemma runPromotion_protocol r ha old target s :
  wpt (runPromotion r ha old target) (fun o _ t => o = Val (Ok tt) -> protocolRan target t) s.
Proof.
  unfold runPromotion. repeat (case_bool_decide; [by apply wpt_ret|]).
  apply wpt_bind. eapply wpt_mono; [apply siteClientAndRef_quiet|].
  intros o s1 t1 ([[oc oref]|] & -> & _ & _); [|by apply wpt_ret].
  apply wpt_bind. eapply wpt_mono; [apply GetOrCreate_quiet|].
  intros o s2 t2 ([nc|e] & -> & _ & _); [|by apply wpt_ret].
  eapply wpt_talks; [apply promotionSteps_talks|]. intros t a w' Hr _ [= ->].
  exists (t1 ++ t2), oc, oref, nc, t, []. rewrite app_nil_r, <- app_assoc. by split.
Qed.

Lemma setFailoverInProgress_value ha b n s :
  wpt (setFailoverInProgress ha b n) (fun o _ _ => exists ha', o = Val ha' /\
    st_CurrentPrimarySite (ha_Status ha') = st_CurrentPrimarySite (ha_Status ha) /\
    st_LastFailoverTime (ha_Status ha') = st_LastFailoverTime (ha_Status ha) /\
    hasPromote ha' = hasPromote ha) s.
Proof.
  apply wpt_bind, wpt_call; [done|]. intros t w' _. apply wpt_ret. by eexists.
Qed.

(** A reported promotion: the status names the target, the time is one the
    clock gave, the counter is cleared, and the protocol ran to its end. *)
Definition promotionReported (ha : HACluster) (rs : list siteObservation) (cur : string)
    (o : outcome (HACluster * result promotionEffect)) (s' : opstate) (t : list apicall) : Prop :=
  forall ha' eff, o = Val (ha', Ok eff) -> didPromote eff = true ->
    exists target i tm, chooseTarget ha rs cur = Val (target, i, true) /\
      eff = mkEffect cur (rs_Name target) /\
      st_CurrentPrimarySite (ha_Status ha') = rs_Name target /\
      st_LastFailoverTime (ha_Status ha') = Some tm /\ CNow tm ∈ t /\
      op_failCount s' !! haKey ha = None /\ protocolRan target t.

Lemma autoPromote_reported r ha rs cur n th s :
  wpt (autoPromote r ha rs cur n th) (promotionReported ha rs cur) s.
Proof.
  unfold autoPromote. destruct (chooseTarget ha rs cur) as [[[target i] ok]|] eqn:Ec;
    [|by apply wpt_panic; intros ? ?].
  destruct ok; simpl.
  2:{ apply wpt_bind, event_local. intros. apply wpt_ret. by intros ? ? [= <- <-]. }
  apply wpt_bind, event_local. intros s1 _.
  apply wpt_bind. eapply wpt_mono; [apply setFailoverInProgress_value|].
  intros o s2 t2 (ha1 & -> & _). apply wpt_bind, wpt_call; [done|]. intros start w3 _.
  apply wpt_bind. eapply wpt_mono; [apply runPromotion_protocol|].
  intros [rp|] s4 t4 Hp; [|by intros ? ?]. destruct rp as [[]|e].
  2:{ apply wpt_bind, event_local. intros. apply wpt_bind.
      eapply wpt_mono; [apply setFailoverInProgress_value|]. intros ? ? ? (? & -> & _).
      apply wpt_ret. by intros ? ?. }
  apply wpt_bind, wpt_call; [done|]. intros stop w5 _.
  apply wpt_bind, wpt_local; [done..|]. simpl. apply wpt_bind, wpt_call; [done|]. intros tm w6 _.
  apply wpt_bind. eapply wpt_mono; [apply setFailoverInProgress_value|].
  intros o s7 t7 (ha2 & -> & Hcp & Hlf & _). apply wpt_bind, event_local. intros s8 _.
  apply wpt_bind, wpt_local; [done..|]. simpl. apply wpt_bind, wpt_local; [done..|].
  apply wpt_ret. intros ha' eff [= <- <-] _. exists target, i, tm. split_and!; try done.
  - apply elem_of_app. right. apply elem_of_cons. right. apply elem_of_app. right.
    apply elem_of_cons. right. apply elem_of_cons. by left.
  - simpl. apply lookup_delete_eq.
  - simpl. rewrite cons_middle, (app_assoc t2). apply protocolRan_extend. auto.
Qed.

(** C18. A failover that is reported did happen: when the automatic handler
    returns an effect, the returned object names the chosen target as current
    primary with a last-failover time the clock gave in this pass, the failure
    counter is cleared, the effect demotes the watched primary, and the trace
    contains a complete, successful run of the promotion protocol onto the
    target's Cluster. *)
Theorem automatic_failover_reported r ha p rs s :
  wpt (handleAutomaticFailover r ha p rs) (promotionReported ha rs (watchedPrimary ha)) s.
Proof.
  assert (Hno : forall s' t, promotionReported ha rs (watchedPrimary ha)
      (Val (ha, Ok noEffect)) s' t) by (by intros ? ? ? ? [= <- <-]).
  unfold handleAutomaticFailover. case_bool_decide as Hm; simpl; [|by apply wpt_ret].
  case_bool_decide; [by apply wpt_bind, wpt_local; [..|apply wpt_ret]|].
  apply wpt_bind. eapply wpt_mono; [apply stabilizing_quiet|]. intros o s1 t1 (b & -> & _ & _).
  destruct b; [by apply wpt_bind, wpt_local; [..|apply wpt_ret]|].
  destruct (healthyPrimary _); [by apply wpt_bind, wpt_local; [..|apply wpt_ret]|].
  apply wpt_bind, wpt_local; [done..|]. simpl.
  destruct (_ <? _); [by apply wpt_bind, event_local; intros; apply wpt_ret|].
  eapply wpt_mono; [apply autoPromote_reported|]. intros o s' t Hr ha' eff Ho He.
  destruct (Hr ha' eff Ho He) as (target & i & tm & ? & ? & ? & ? & Hin & ? & Hp).
  exists target, i, tm. split_and!; try done.
  - apply elem_of_app. by right.
  - rewrite <- (app_nil_r t). by apply protocolRan_extend.
Qed.
End automatic.

(** Site "a" is down 31 seconds after a failover. *)
Definition recentHA : HACluster :=
  setLastFailoverTime (Some (1000 - 31 * Second)) (sampleHA "Automatic" "Ordered").

