(* ===== verification/Reconcile.v ===== *)
(** * internal/controller: topology and the Reconcile loop *)

From S2P Require Import Prelude GoStd Api External FakeKube Operator Fixtures.
From S2P Require Import Metrics Health Promotion RemoteClient Decision Observe Status Failover.

Definition eventReasonRejoinFenced : string := "RejoinFenced".
Definition eventReasonRejoinReconfigured : string := "RejoinReconfigured".

(** ctrl.Result *)
Record CtrlResult : Type := mkCtrl { RequeueAfter : Z }.

Section reconcile.
Context `{Extern}.

(** ** Topology *)

Definition effectiveRejoin (ha : HACluster) : string :=
  if bool_decide (fs_RejoinPolicy (spec_Failover (ha_Spec ha)) = "")
  then RejoinPolicyManual else fs_RejoinPolicy (spec_Failover (ha_Spec ha)).

(** The body of the loop for a site other than the effective primary, once its
    client is known. *)
Definition convergeSite (r : HAClusterReconciler) (ha : HACluster)
    (effectivePrimary endpoint name : string) (cli : client) (ref : Ref) : M (result unit) :=
  h ← Probe cli (refKey ref);
  let fresh := siteObsFromHealth name h in
  if negb (o_reachable fresh) then mret (Ok tt)
  else if o_primary fresh then
    if bool_decide (effectiveRejoin ha = RejoinPolicyAutoReplica) then
      rr ← Reconfigure cli ref endpoint;
      match rr with
      | Err e => mret (Err (Wrap ("auto-rejoin " +:+ Quote name +:+ " as replica") e))
      | Ok _ =>
          event r ha EventTypeWarning eventReasonRejoinReconfigured
            ("returning primary " +:+ Quote name +:+ " rebuilt as replica of "
             +:+ Quote effectivePrimary +:+ " (data discarded)");;
          mret (Ok tt)
      end
    else
      rf ← Fence cli ref;
      match rf with
      | Err e => mret (Err (Wrap ("fence returning primary " +:+ Quote name) e))
      | Ok _ =>
          event r ha EventTypeWarning eventReasonRejoinFenced
            ("returning primary " +:+ Quote name
             +:+ " fenced (rejoinPolicy=Manual); resolve split-brain manually");;
          mret (Ok tt)
      end
  else
    rr ← Reconfigure cli ref endpoint;
    mret (wrapErr ("repoint replica " +:+ Quote name +:+ " to " +:+ Quote effectivePrimary) rr).

Fixpoint topologyLoop (r : HAClusterReconciler) (ha : HACluster) (effectivePrimary endpoint : string)
    (all : list siteObservation) : M (result unit) :=
  match all with
  | [] => mret (Ok tt)
  | obs :: rest =>
      if bool_decide (o_name obs = effectivePrimary)
      then topologyLoop r ha effectivePrimary endpoint rest
      else
        resolved ← siteClientAndRef r ha (o_name obs);
        match resolved with
        | None => topologyLoop r ha effectivePrimary endpoint rest
        | Some (cli, ref) =>
            res ← convergeSite r ha effectivePrimary endpoint (o_name obs) cli ref;
            match res with
            | Err e => mret (Err e)
            | Ok _ => topologyLoop r ha effectivePrimary endpoint rest
            end
        end
  end.

Definition reconcileReplicaTopology (r : HAClusterReconciler) (ha : HACluster)
    (effectivePrimary : string) (primaryObs : siteObservation)
    (replicaObs : list siteObservation) : M (result unit) :=
  if bool_decide (effectivePrimary = "") then mret (Ok tt)
  else
    let endpoint := replicationEndpointFor ha effectivePrimary in
    if bool_decide (endpoint = "") then mret (Ok tt)
    else topologyLoop r ha effectivePrimary endpoint (primaryObs :: replicaObs).

(** ** Reconcile *)

(** Steps 3 and 3bis: the manual request, then the automatic failover unless
    the request failed. *)
Definition handlePromotions (r : HAClusterReconciler) (ha : HACluster)
    (primaryObs : siteObservation) (replicaObs : list siteObservation)
    : M (HACluster * promotionEffect * option goerr) :=
  manual ← handlePromoteAnnotation r ha primaryObs replicaObs;
  match manual with
  | (ha1, Err e) => mret (ha1, noEffect, Some e)
  | (ha1, Ok promoEffect) =>
      auto ← handleAutomaticFailover r ha1 primaryObs replicaObs;
      match auto with
      | (ha2, Err e) => mret (ha2, promoEffect, Some e)
      | (ha2, Ok autoEffect) =>
          mret (ha2, if didPromote autoEffect then autoEffect else promoEffect, None)
      end
  end.

(** Step 5: the status of this pass, on the object. *)
Definition writeStatus (ha : HACluster) (priorPrimary currentPrimary : string) (available : bool)
    (splitBrain : list string) (primaryObs : siteObservation) (replicaObs : list siteObservation)
    : M HACluster :=
  let ha1 := setObservedGeneration (ha_Generation ha) ha in
  let ha2 := setCurrentPrimarySite
    (if negb (bool_decide (currentPrimary = "")) then currentPrimary else priorPrimary) ha1 in
  t ← now;
  setConditions (setSites (buildSiteStatuses primaryObs replicaObs t) ha2) available splitBrain
    primaryObs replicaObs.

Definition requeueAfter (ha : HACluster) : Z :=
  if bool_decide (fs_Mode (spec_Failover (ha_Spec ha)) = FailoverModeAutomatic)
  then effectiveHealthInterval (spec_Failover (ha_Spec ha)) else requeuePeriod.

(** Steps 4 to 6, on the observations adjusted for the promotion: the decision,
    the status and the metrics, then the topology unless the promotion failed. *)
Definition publishAndConverge (r : HAClusterReconciler) (ha1 : HACluster) (priorPrimary : string)
    (promoteErr : option goerr) (primaryObs : siteObservation) (replicaObs : list siteObservation)
    : M (CtrlResult * option goerr) :=
  let '(currentPrimary, available) := decideCurrentPrimary primaryObs replicaObs in
  let splitBrain := detectSplitBrain primaryObs replicaObs in
  ha2 ← writeStatus ha1 priorPrimary currentPrimary available splitBrain primaryObs replicaObs;
  publishMetrics ha2 currentPrimary (bool_decide (0 < length splitBrain)%nat)
    primaryObs replicaObs;;
  ru ← statusUpdate (r_Client r) ha2;
  match ru with
  | Err e => mret (mkCtrl 0, Some (Wrap "update status" e))
  | Ok ha3 =>
      match promoteErr with
      | Some e => mret (mkCtrl 0, Some e)
      | None =>
          let effectivePrimary :=
            if bool_decide (currentPrimary = "") then priorPrimary else currentPrimary in
          rt ← reconcileReplicaTopology r ha3 effectivePrimary primaryObs replicaObs;
          match rt with
          | Err e => mret (mkCtrl 0, Some e)
          | Ok _ => mret (mkCtrl (requeueAfter ha3), None)
          end
      end
  end.

Definition Reconcile (r : HAClusterReconciler) (req : NamespacedName)
    : M (CtrlResult * option goerr) :=
  rg ← getHA (r_Client r) req;
  match rg with
  | Err e => mret (mkCtrl 0, IgnoreNotFound e)
  | Ok ha =>
      let priorPrimary := st_CurrentPrimarySite (ha_Status ha) in
      primaryObs ← observePrimary r ha;
      replicaObs ← observeReplicas r ha (spec_Replicas (ha_Spec ha));
      promo ← handlePromotions r ha primaryObs replicaObs;
      let '(ha1, promoEffect, promoteErr) := promo in
      let '(primaryObs', replicaObs') :=
        applyPromotionEffect promoEffect (primaryObs, replicaObs) in
      publishAndConverge r ha1 priorPrimary promoteErr primaryObs' replicaObs'
  end.
End reconcile.
