(* ===== verification/Topology.v ===== *)
(** * What the topology reconciliation does to the stored Clusters

    Under the store laws: with rejoinPolicy Manual no Cluster that is a
    primary is ever turned into a replica, so no data is discarded without the
    AutoReplica opt-in; a surviving replica ends up streaming from the
    endpoint of the current primary. *)

From S2P Require Import Prelude GoStd Api External FakeKube Operator Fixtures.
From S2P Require Import Health Promotion RemoteClient Decision Observe Status Failover Reconcile.

Section topology.
Context `{Extern} `{!UnstructuredLaws} `{!Store} `{!StoreLaws}.

(** ** Calls that leave the stores alone *)

Definition storeNeutral (a : apicall) : Prop :=
  match a with
  | CNow _ | CGetCluster _ _ _ | CGetService _ _ _ | CGetSecret _ _ _ | CNewClient _ _ => True
  | _ => False
  end.

Lemma answers_neutral a w w' : storeNeutral a -> answers a w w' -> sameStore w w'.
Proof.
  destruct a; simpl; try done; intros _ E.
  - pose proof (timeNow_store w) as L. by rewrite E in L.
  - by apply getCluster_law in E as [? _].
  - by apply getService_law in E as [? _].
  - by apply getSecret_law in E as [? _].
  - pose proof (clientNew_store cfg w) as L. by rewrite E in L.
Qed.

Lemma exec_neutral w t w' : Forall storeNeutral t -> exec w t w' -> sameStore w w'.
Proof.
  intros Hn Hx. revert Hn. induction Hx as [|w a w1 t w2 Ha Hx IH]; [done|].
  rewrite Forall_cons. intros [Hna Hn]. etrans; [by eapply answers_neutral|auto].
Qed.

Lemma GetOrCreate_store hub ns ref s :
  wpt (GetOrCreate hub ns ref) (fun o s' _ => (exists r, o = Val r) /\
    sameStore (op_world s) (op_world s')) s.
Proof.
  destruct (GetOrCreate_run hub ns ref s) as (t & r & upd & w & E & Hx & Hr).
  exists t. rewrite E. simpl. split_and!; [done|done|by eexists|].
  eapply exec_neutral; [|done]. inversion Hr; subst; repeat constructor.
  match goal with D : _ \/ _ |- _ => destruct D as [[-> _]|(? & ? & ->)] end; repeat constructor.
Qed.

Lemma siteClientAndRef_store r ha n s :
  wpt (siteClientAndRef r ha n) (fun o s' _ => (exists x, o = Val x) /\
    sameStore (op_world s) (op_world s')) s.
Proof.
  unfold siteClientAndRef. case_bool_decide; [apply wpt_ret; split; [by eexists|reflexivity]|].
  destruct (list_find _ _) as [[i rep]|]; [|apply wpt_ret; split; [by eexists|reflexivity]].
  apply wpt_bind. eapply wpt_mono; [apply GetOrCreate_store|].
  intros o s1 t1 [[[cli|e] ->] Hs]; apply wpt_ret; (split; [by eexists|done]).
Qed.

(** ** Primaries keep their spec *)

Definition keepsPrimaries (w w' : World) : Prop :=
  forall srv k u, clusterAt w srv k = Some u -> ~ clusterIsReplica u ->
    exists u', clusterAt w' srv k = Some u' /\
      forall p, field_at u' ("spec" :: p) = field_at u ("spec" :: p).

#[local] Instance keepsPrimaries_preorder : PreOrder keepsPrimaries.
Proof.
  split.
  - intros w srv k u Hu _. by exists u.
  - intros w1 w2 w3 H12 H23 srv k u Hu Hn.
    destruct (H12 srv k u Hu Hn) as (u2 & Hu2 & E2).
    destruct (H23 srv k u2 Hu2) as (u3 & Hu3 & E3).
    + unfold clusterIsReplica, replicaEnabledPath in *. by rewrite E2.
    + exists u3. split; [done|]. intros p. by rewrite E3, E2.
Qed.

Lemma sameStore_keeps w w' : sameStore w w' -> keepsPrimaries w w'.
Proof. intros Hs srv k u Hu _. exists u. by rewrite (same_cluster _ _ Hs). Qed.

Lemma cluster_change_keeps c k R w w' :
  cluster_change c k R w w' ->
  (forall u u', R u u' -> ~ clusterIsReplica u ->
     forall p, field_at u' ("spec" :: p) = field_at u ("spec" :: p)) ->
  keepsPrimaries w w'.
Proof.
  intros ((u0 & u1 & Hu0 & Hu1 & HR) & Hf & _) Hsp srv k' u Hu Hn.
  destruct (decide ((srv, k') = (serverOf c, k))) as [[= -> ->]|Hne].
  - exists u1. split; [done|]. simplify_eq. by eapply Hsp.
  - exists u. by rewrite Hf.
Qed.

Lemma Fence_keeps c ref s :
  wpt (Fence c ref) (fun o s' _ => (exists r, o = Val r) /\
    keepsPrimaries (op_world s) (op_world s')) s.
Proof.
  eapply wpt_talks; [apply Fence_talks|]. intros t r w' Hr Hx. split; [by eexists|].
  pose proof (fence_run_effect _ _ _ _ _ _ Hx Hr) as He. simpl.
  destruct r; [|destruct He as [He|He]; [by apply sameStore_keeps|]];
    (eapply cluster_change_keeps; [done|]); by intros u u' (_ & _ & ?).
Qed.

(** Reconfigure on a Cluster that is a replica touches no primary. *)
Lemma Reconfigure_keeps c ref host u s :
  clusterAt (op_world s) (serverOf c) (refKey ref) = Some u -> clusterIsReplica u ->
  wpt (Reconfigure c ref host) (fun o s' _ => (exists r, o = Val r) /\
    keepsPrimaries (op_world s) (op_world s')) s.
Proof.
  intros Hu Hrep. eapply wpt_talks; [apply Reconfigure_talks|].
  intros t r w' Hr Hx. split; [by eexists|].
  pose proof (reconfigure_run_effect _ _ _ _ _ _ _ Hx Hr) as He. simpl.
  assert (Hch : cluster_change c (refKey ref) (reconfigure_change host) (op_world s) w' ->
                keepsPrimaries (op_world s) w').
  { intros (_ & Hf & _) srv k u0 Hu0 Hn.
    destruct (decide ((srv, k) = (serverOf c, refKey ref))) as [[= -> ->]|]; [congruence|].
    exists u0. by rewrite Hf. }
  destruct r; [auto|]. destruct He as [He|He]; [by apply sameStore_keeps|auto].
Qed.

(** A probe of a site, and what the store then says of its Cluster. *)
Lemma Probe_store c ref s :
  wpt (Probe c (refKey ref)) (fun o s' _ => exists h, o = Val h /\
    sameStore (op_world s) (op_world s') /\
    (sh_Reachable h = true -> exists u,
       clusterAt (op_world s') (serverOf c) (refKey ref) = Some u /\
       (sh_Primary h = false <-> clusterIsReplica u))) s.
Proof.
  eapply wpt_talks; [apply Probe_talks|]. intros t h w' (r & -> & Hh) Hx. exists h.
  apply exec_one in Hx. destruct (getCluster_law _ _ _ _ _ Hx) as [Hs Hr]. simpl.
  split_and!; [done|done|]. destruct r as [u|e]; [|by destruct Hh as (-> & _)].
  intros _. exists u. subst h. rewrite (same_cluster _ _ Hs). split; [apply Hr|].
  destruct (parseCluster_fields u) as (Hp & _ & _). simpl. rewrite Hp.
  rewrite negb_false_iff. apply bool_decide_eq_true.
Qed.

Lemma event_store r ha ty reason msg s :
  wpt (event r ha ty reason msg) (fun o s' t =>
    o = Val tt /\ op_world s' = op_world s /\ t = []) s.
Proof. apply wpt_local; unfold event; by destruct (r_hasRecorder r). Qed.

Lemma convergeSite_keeps r ha ep host name c ref s :
  effectiveRejoin ha <> RejoinPolicyAutoReplica ->
  wpt (convergeSite r ha ep host name c ref) (fun o s' _ => (exists r, o = Val r) /\
    keepsPrimaries (op_world s) (op_world s')) s.
Proof.
  intros Hrj. unfold convergeSite. apply wpt_bind. eapply wpt_mono; [apply Probe_store|].
  intros o s1 t1 (h & -> & Hs & Hh). apply sameStore_keeps in Hs. cbv zeta.
  destruct (o_reachable _) eqn:Er; simpl in Er |- *; [|apply wpt_ret; split; [by eexists|done]].
  destruct (Hh Er) as (u & Hu & Hp).
  destruct (sh_Primary h) eqn:Ep.
  - rewrite bool_decide_eq_false_2 by done. apply wpt_bind.
    eapply wpt_mono; [apply Fence_keeps|]. intros o s2 t2 [[[[]|e] ->] Hk].
    + apply wpt_bind. eapply wpt_mono; [apply event_store|]. intros o s3 t3 (-> & Ew & _).
      apply wpt_ret. rewrite Ew. split; [by eexists|by etrans].
    + apply wpt_ret. split; [by eexists|by etrans].
  - apply wpt_bind. eapply wpt_mono; [eapply Reconfigure_keeps; [done|by apply Hp]|].
    intros o s2 t2 [[rr ->] Hk]. apply wpt_ret. split; [by eexists|by etrans].
Qed.

Lemma topologyLoop_keeps r ha ep host all s :
  effectiveRejoin ha <> RejoinPolicyAutoReplica ->
  wpt (topologyLoop r ha ep host all) (fun _ s' _ =>
    keepsPrimaries (op_world s) (op_world s')) s.
Proof.
  intros Hrj. revert s. induction all as [|o all IH]; intros s; simpl; [by apply wpt_ret|].
  case_bool_decide; [done|]. apply wpt_bind. eapply wpt_mono; [apply siteClientAndRef_store|].
  intros o1 s1 t1 [[x ->] Hs]. apply sameStore_keeps in Hs. destruct x as [[cli ref]|].
  - apply wpt_bind. eapply wpt_mono; [by apply convergeSite_keeps|].
    intros o2 s2 t2 [[[[]|e] ->] Hk]; [|apply wpt_ret; by etrans].
    eapply wpt_mono; [apply IH|]. intros o3 s3 t3 Hk3. by do 2 (etrans; [done|]).
  - eapply wpt_mono; [apply IH|]. intros o3 s3 t3 Hk3. by etrans.
Qed.

(** C16. Without the AutoReplica opt-in no data is discarded: whatever the
    observations, the endpoint and the outcome, reconcileReplicaTopology under
    any other rejoin policy leaves the spec of every Cluster that was not a
    replica exactly as it was, on every site; at most it fences it. In
    particular a just demoted primary is not rebuilt from its rewritten
    observation. *)
Theorem topology_manual_keeps_data r ha ep p rs s :
  effectiveRejoin ha <> RejoinPolicyAutoReplica ->
  wpt (reconcileReplicaTopology r ha ep p rs) (fun _ s' _ =>
    keepsPrimaries (op_world s) (op_world s')) s.
Proof.
  intros Hrj. unfold reconcileReplicaTopology.
  repeat (case_bool_decide; [by apply wpt_ret|]). by apply topologyLoop_keeps.
Qed.

(** ** Convergence *)

(** The Cluster follows the current primary, or is a stray primary that can no
    longer accept writes. *)
Definition converged (host : string) (w : World) (srv : Server) (k : NamespacedName) : Prop :=
  exists u, clusterAt w srv k = Some u /\
    (streamsFrom host u \/ (~ clusterIsReplica u /\ fenced u)).

Definition keepsConverged (host : string) (w w' : World) : Prop :=
  forall srv k, converged host w srv k -> converged host w' srv k.

Lemma streamsFrom_spec host u u' :
  (forall p, field_at u' ("spec" :: p) = field_at u ("spec" :: p)) ->
  streamsFrom host u -> streamsFrom host u'.
Proof.
  unfold streamsFrom, clusterIsReplica, selectedExternal, replicaEnabledPath,
    externalClustersPath, replicaSourcePath. intros E. by rewrite !E.
Qed.

Lemma sameStore_converged host w w' : sameStore w w' -> keepsConverged host w w'.
Proof. intros Hs srv k (u & Hu & Hc). exists u. by rewrite (same_cluster _ _ Hs). Qed.

(** A change of one Cluster that turns a converged one into a converged one. *)
Lemma cluster_change_converged host c k R w w' :
  cluster_change c k R w w' ->
  (forall u u', R u u' -> streamsFrom host u \/ (~ clusterIsReplica u /\ fenced u) ->
     streamsFrom host u' \/ (~ clusterIsReplica u' /\ fenced u')) ->
  keepsConverged host w w'.
Proof.
  intros ((u0 & u1 & Hu0 & Hu1 & HR) & Hf & _) Hc srv k' (u & Hu & Hcu).
  destruct (decide ((srv, k') = (serverOf c, k))) as [[= -> ->]|Hne].
  - exists u1. split; [done|]. simplify_eq. by eapply Hc.
  - exists u. by rewrite Hf.
Qed.

Lemma fence_change_converged host u u' :
  fence_change u u' -> streamsFrom host u \/ (~ clusterIsReplica u /\ fenced u) ->
  streamsFrom host u' \/ (~ clusterIsReplica u' /\ fenced u').
Proof.
  intros (Hf & _ & Hs) [Hst|[Hn _]]; [left; by eapply streamsFrom_spec|right]. split; [|done].
  unfold clusterIsReplica, replicaEnabledPath in *. by rewrite Hs.
Qed.

(** The reads of a run are reads of the one Cluster [k] of [c]. *)
Definition readsOnly (c : client) (k : NamespacedName) (a : apicall) : Prop :=
  match a with CGetCluster c' k' _ => c' = c /\ k' = k | _ => True end.

Definition isClusterRead (a : apicall) : bool :=
  match a with CGetCluster _ _ _ => true | _ => false end.

Lemma Fence_converges host c ref s :
  wpt (Fence c ref) (fun o s' t => exists r, o = Val r /\
    keepsConverged host (op_world s) (op_world s') /\ Forall (readsOnly c (refKey ref)) t /\
    (r = Ok tt -> forall u, clusterAt (op_world s) (serverOf c) (refKey ref) = Some u ->
       ~ clusterIsReplica u -> converged host (op_world s') (serverOf c) (refKey ref))) s.
Proof.
  eapply wpt_talks; [apply Fence_talks|]. intros t r w' Hr Hx. exists r. split; [done|].
  pose proof (fence_run_effect _ _ _ _ _ _ Hx Hr) as He. simpl. split_and!.
  - destruct r; [|destruct He as [He|He]; [by apply sameStore_converged|]];
      (eapply cluster_change_converged; [done|apply fence_change_converged]).
  - inversion Hr; by repeat constructor.
  - intros -> u Hu Hn. destruct He as ((u0 & u1 & Hu0 & Hu1 & Hf & _ & Hs) & _). simplify_eq.
    exists u1. split; [done|]. right. split; [|done].
    unfold clusterIsReplica, replicaEnabledPath in *. by rewrite Hs.
Qed.

Lemma Reconfigure_converges host c ref s :
  wpt (Reconfigure c ref host) (fun o s' t => exists r, o = Val r /\
    keepsConverged host (op_world s) (op_world s') /\ Forall (readsOnly c (refKey ref)) t /\
    (r = Ok tt -> converged host (op_world s') (serverOf c) (refKey ref))) s.
Proof.
  eapply wpt_talks; [apply Reconfigure_talks|]. intros t r w' Hr Hx. exists r. split; [done|].
  pose proof (reconfigure_run_effect _ _ _ _ _ _ _ Hx Hr) as He. simpl. split_and!.
  - destruct r; [|destruct He as [He|He]; [by apply sameStore_converged|]];
      (eapply cluster_change_converged; [done|]); intros u u' [Hs _] _; by left.
  - inversion Hr; by repeat constructor.
  - intros ->. destruct He as ((u0 & u1 & _ & Hu1 & Hs & _) & _). exists u1. by split; [|left].
Qed.

(** Whatever was read in a run that succeeded has converged. *)
Definition readsConverged (host : string) (w : World) (t : list apicall) : Prop :=
  forall c k u, CGetCluster c k (Ok u) ∈ t -> converged host w (serverOf c) k.

Lemma readsConverged_one host w c k t :
  Forall (readsOnly c k) t -> converged host w (serverOf c) k -> readsConverged host w t.
Proof.
  intros Ht Hc c' k' u Hin. rewrite Forall_forall in Ht. apply Ht in Hin as [-> ->]. done.
Qed.

Lemma readsConverged_app host w t t' :
  readsConverged host w t -> readsConverged host w t' -> readsConverged host w (t ++ t').
Proof. intros Ht Ht' c k u [?|?]%elem_of_app; eauto. Qed.

Lemma readsConverged_mono host w w' t :
  keepsConverged host w w' -> readsConverged host w t -> readsConverged host w' t.
Proof. intros Hk Ht c k u Hin. by eapply Hk, Ht. Qed.

Lemma Probe_reads c ref s :
  wpt (Probe c (refKey ref)) (fun o s' t => exists h r, o = Val h /\
    t = [CGetCluster c (refKey ref) r] /\ sameStore (op_world s) (op_world s') /\
    match r with
    | Ok u => sh_Reachable h = true /\
        clusterAt (op_world s') (serverOf c) (refKey ref) = Some u /\
        (sh_Primary h = false <-> clusterIsReplica u)
    | Err _ => sh_Reachable h = false
    end) s.
Proof.
  eapply wpt_talks; [apply Probe_talks|]. intros t h w' (r & -> & Hh) Hx. exists h, r.
  apply exec_one in Hx. destruct (getCluster_law _ _ _ _ _ Hx) as [Hs Hr]. simpl.
  split_and!; [done|done|done|]. destruct r as [u|e]; [|apply Hh]. subst h.
  rewrite (same_cluster _ _ Hs). split_and!; [done|apply Hr|].
  destruct (parseCluster_fields u) as (Hp & _ & _). simpl. rewrite Hp.
  rewrite negb_false_iff. apply bool_decide_eq_true.
Qed.

(** One site: nothing that had converged is lost, and a success means that the
    site was not reached or has converged. *)
Lemma convergeSite_converges r ha ep host name c ref s :
  wpt (convergeSite r ha ep host name c ref) (fun o s' t => exists x, o = Val x /\
    keepsConverged host (op_world s) (op_world s') /\
    (x = Ok tt -> readsConverged host (op_world s') t)) s.
Proof.
  unfold convergeSite. apply wpt_bind. eapply wpt_mono; [apply Probe_reads|].
  intros o s1 t1 (h & rd & -> & -> & Hs & Hh). apply (sameStore_converged host) in Hs. cbv zeta.
  assert (Htail : forall (x : result unit) s2 t2,
    keepsConverged host (op_world s1) (op_world s2) -> Forall (readsOnly c (refKey ref)) t2 ->
    (x = Ok tt -> converged host (op_world s2) (serverOf c) (refKey ref)) ->
    keepsConverged host (op_world s) (op_world s2) /\
    (x = Ok tt -> readsConverged host (op_world s2) ([CGetCluster c (refKey ref) rd] ++ t2))).
  { intros x s2 t2 Hk Ht Hc. split; [by intros srv k Hc0; apply Hk, Hs|]. intros Hx.
    eapply readsConverged_one; [|by apply Hc]. apply Forall_app. by repeat constructor. }
  destruct rd as [u|e].
  2:{ simpl. rewrite Hh. apply wpt_ret. exists (Ok tt). split_and!; [done|done|].
      intros _ c' k' u. simpl. rewrite list_elem_of_singleton. by intros [=]. }
  destruct Hh as (Er & Hu & Hp). simpl. rewrite Er. simpl.
  destruct (sh_Primary h); [destruct (bool_decide _)|]; apply wpt_bind.
  - eapply wpt_mono; [apply Reconfigure_converges|]. intros o s2 t2 (x & -> & Hk & Ht & Hc).
    destruct x as [[]|e]; [|apply wpt_ret; eexists; split; [done|rewrite app_nil_r; by apply Htail]].
    apply wpt_bind. eapply wpt_mono; [apply event_store|]. intros o s3 t3 (-> & Ew & ->).
    apply wpt_ret. eexists. split; [done|]. rewrite !app_nil_r, Ew. apply Htail; auto.
  - eapply wpt_mono; [apply (Fence_converges host)|]. intros o s2 t2 (x & -> & Hk & Ht & Hc).
    destruct x as [[]|e]; [|apply wpt_ret; eexists; split; [done|rewrite app_nil_r; by apply Htail]].
    apply wpt_bind. eapply wpt_mono; [apply event_store|]. intros o s3 t3 (-> & Ew & ->).
    apply wpt_ret. eexists. split; [done|]. rewrite !app_nil_r, Ew. apply Htail; [done|done|].
    intros _. eapply Hc; [done|done|]. intros Hr. by apply Hp in Hr.
  - eapply wpt_mono; [apply Reconfigure_converges|]. intros o s2 t2 (x & -> & Hk & Ht & Hc).
    apply wpt_ret. eexists. split; [done|]. rewrite app_nil_r.
    apply Htail; [done|done|]. intros Hx. apply wrapErr_Ok in Hx. auto.
Qed.

(** Resolving a client reads no Cluster. *)
Lemma siteClientAndRef_reads r ha n :
  emits (fun a => isClusterRead a = false) (siteClientAndRef r ha n).
Proof.
  unfold siteClientAndRef. case_bool_decide; [apply emits_ret|].
  destruct (list_find _ _) as [[i rep]|]; [|apply emits_ret].
  apply emits_bind; [|intros []; apply emits_ret]. intros s.
  destruct (GetOrCreate_run (r_Client r) (ha_Namespace ha) (rs_KubeconfigSecretRef rep) s)
    as (t & x & upd & w & E & Hx & Hr).
  exists t. rewrite E. simpl. split_and!; [done|done|]. inversion Hr; subst; repeat constructor.
  match goal with D : _ \/ _ |- _ => destruct D as [[-> _]|(? & ? & ->)] end; repeat constructor.
Qed.

Lemma topologyLoop_converges r ha ep host all s :
  wpt (topologyLoop r ha ep host all) (fun o s' t =>
    keepsConverged host (op_world s) (op_world s') /\
    (o = Val (Ok tt) -> readsConverged host (op_world s') t)) s.
Proof.
  revert s. induction all as [|ob all IH]; intros s; simpl.
  { apply wpt_ret. split; [by intros ? ?|]. intros _ c k u Hin. by apply elem_of_nil in Hin. }
  case_bool_decide; [done|]. apply wpt_bind.
  pose proof (siteClientAndRef_store r ha (o_name ob) s) as (t1 & Et & Ex & [x Eo] & Hs).
  destruct (siteClientAndRef_reads r ha (o_name ob) s) as (t1' & Et' & _ & Hn).
  rewrite Et in Et'. apply app_inv_head in Et' as <-.
  exists t1. split_and!; [done|done|]. rewrite Eo.
  apply (sameStore_converged host) in Hs. set (s1 := (siteClientAndRef _ _ _ _).2) in *.
  assert (Hr1 : forall w, readsConverged host w t1).
  { intros w c k u Hin. rewrite Forall_forall in Hn. by apply Hn in Hin. }
  destruct x as [[cli ref]|].
  - apply wpt_bind. eapply wpt_mono; [apply convergeSite_converges|].
    intros o s2 t2 (x & -> & Hk & Hc). destruct x as [[]|e].
    + eapply wpt_mono; [apply IH|]. intros o s3 t3 [Hk3 Hc3]. split.
      * intros srv k Hcv. by apply Hk3, Hk, Hs.
      * intros Ho. apply readsConverged_app; [done|].
        apply readsConverged_app; [|by apply Hc3]. eapply readsConverged_mono; [done|auto].
    + apply wpt_ret. split; [|done]. intros srv k Hcv. by apply Hk, Hs.
  - eapply wpt_mono; [apply IH|]. intros o s3 t3 [Hk3 Hc3]. split.
    + intros srv k Hcv. by apply Hk3, Hs.
    + intros Ho. apply readsConverged_app; [done|by apply Hc3].
Qed.

(** C17. The topology converges in one successful pass: if
    reconcileReplicaTopology returns without an error, then every Cluster it
    read is either a replica that streams from the current primary's
    replication endpoint or a stray primary that is fenced, also when several
    site names lead to the same Cluster, and in any pass, successful or not, a
    Cluster that had converged stays so. *)
Theorem topology_converges r ha ep p rs s :
  let host := replicationEndpointFor ha ep in
  wpt (reconcileReplicaTopology r ha ep p rs) (fun o s' t =>
    keepsConverged host (op_world s) (op_world s') /\
    (o = Val (Ok tt) -> readsConverged host (op_world s') t)) s.
Proof.
  intros host. unfold reconcileReplicaTopology. fold host.
  assert (Hnil : keepsConverged host (op_world s) (op_world s) /\
    (Val (Ok tt) = Val (Ok tt) -> readsConverged host (op_world s) [])).
  { split; [by intros ? ?|]. intros _ c k u Hin. by apply elem_of_nil in Hin. }
  repeat (case_bool_decide; [by apply wpt_ret|]). apply topologyLoop_converges.
Qed.
End topology.

Lemma topology_manual_keeps_data_witness :
  wpt (reconcileReplicaTopology sampleReconciler (sampleHA "Manual" "") "b"
         (sampleObs "a" true false false) [sampleObs "b" true true true]) (fun _ s' _ =>
    keepsPrimaries twoSitesKc (op_world s')) (fakeState twoSitesKc).
Proof.
  exact (topology_manual_keeps_data sampleReconciler (sampleHA "Manual" "") "b"
    (sampleObs "a" true false false) [sampleObs "b" true true true] (fakeState twoSitesKc)
    ltac:(discriminate)).
Defined.

Lemma topology_converges_witness :
  let run := reconcileReplicaTopology sampleReconciler (sampleHA "Manual" "") "b"
    (sampleObs "a" true false false) [sampleObs "b" true true true] (fakeState twoSitesKc) in
  run.1 = Val (Ok tt) /\ converged "b-host" (op_world run.2) "local" (NN "db" "pg").
Proof.
  assert (E : (reconcileReplicaTopology sampleReconciler (sampleHA "Manual" "") "b"
    (sampleObs "a" true false false) [sampleObs "b" true true true] (fakeState twoSitesKc)).1
    = Val (Ok tt)) by reflexivity.
  split; [exact E|].
  destruct (topology_converges sampleReconciler (sampleHA "Manual" "") "b"
    (sampleObs "a" true false false) [sampleObs "b" true true true] (fakeState twoSitesKc))
    as (t & Et & _ & _ & Hc).
  refine (Hc E (site "local") (NN "db" "pg") (sampleFormer "db" "pg" "peer" "remote-host") _).
  change (op_calls (fakeState twoSitesKc) ++ t) with t in Et. rewrite <- Et.
  apply list_elem_of_here.
Defined.
