(* ===== verification/Publish.v ===== *)
(** * Which calls a reconcile makes, and what status it sends

    The promote annotation leads to writes on the sites only for a healthy
    replica of the spec and without a conflict; a reconcile sends one status,
    for the sites it read, and never forgets the current primary. *)

From S2P Require Import Prelude GoStd Api External FakeKube Operator Fixtures.
From S2P Require Import Metrics Health Promotion RemoteClient Decision Observe Status Failover.
From S2P Require Import Automatic Reconcile.

Section publish.
Context `{Extern}.

(** A change to a site: to its Cluster or to its Service. *)
Definition siteWrite (a : apicall) : bool :=
  match a with CUpdateCluster _ _ _ | CUpdateService _ _ _ => true | _ => false end.

Definition notSiteWrite (a : apicall) : Prop := siteWrite a = false.

Definition notStatus (a : apicall) : Prop :=
  match a with CStatusUpdate _ _ _ => False | _ => True end.

Lemma event_emits P r ha ty reason msg : emits P (event r ha ty reason msg).
Proof. apply emits_local. intros s. unfold event. by destruct (r_hasRecorder r). Qed.

Lemma WithLabelValues_emits P v ls f : emits P (WithLabelValues v ls f).
Proof. apply emits_local. intros s. unfold WithLabelValues. by case_bool_decide. Qed.

Lemma setFailoverInProgress_emits P ha b t :
  (forall x, P (CNow x)) -> emits P (setFailoverInProgress ha b t).
Proof.
  intros HP. apply emits_bind; [by apply emits_call|]. intros. apply emits_ret.
Qed.

Lemma clearPromoteAnnotation_emits P r ha :
  (forall c h b x, P (CPatchHA c h b x)) -> emits P (clearPromoteAnnotation r ha).
Proof.
  intros HP. unfold clearPromoteAnnotation. destruct (hasPromote ha); [|apply emits_ret].
  apply emits_bind; [by apply emits_call|]. intros []; apply emits_ret.
Qed.

Lemma rejectPromote_emits P r ha msg :
  (forall c h b x, P (CPatchHA c h b x)) -> emits P (rejectPromote r ha msg).
Proof.
  intros HP. apply emits_bind; [apply event_emits|]. intros _.
  apply emits_bind; [by apply clearPromoteAnnotation_emits|]. intros. apply emits_ret.
Qed.

(** ** Manual promotion *)

(** [target] names the replica [i] of the spec, observed as a healthy replica,
    and no conflict is observed. *)
Definition promotable (ha : HACluster) (p : siteObservation) (rs : list siteObservation)
    (target : string) (i : nat) : Prop :=
  (exists rep, spec_Replicas (ha_Spec ha) !! i = Some rep /\ rs_Name rep = target) /\
  (exists o, rs !! i = Some o /\ o_reachable o = true /\ o_ready o = true /\ o_primary o = false) /\
  detectSplitBrain p rs = [].

Lemma currentPrimaryForPromotion_Ok ha p rs old :
  currentPrimaryForPromotion ha p rs = Ok old -> detectSplitBrain p rs = [].
Proof.
  unfold currentPrimaryForPromotion. case_bool_decide as Hl; [done|]. intros _.
  destruct (detectSplitBrain p rs); [done|]. simpl in Hl. lia.
Qed.

Lemma reads_notStatus a : isWrite a = false -> notStatus a.
Proof. by destruct a. Qed.

Lemma protocol_run_notStatus oc oref nc nref t r :
  protocol_run oc oref nc nref t r -> Forall notStatus t.
Proof.
  assert (Hf : forall c ref t rf, fence_run c ref t rf -> Forall notStatus t)
    by (intros ???? []; by repeat constructor).
  assert (Hs : forall c ref role t rs, flip_run c ref role t rs -> Forall notStatus t)
    by (intros ????? []; by repeat constructor).
  assert (Hp : forall c ref t rp, promote_run c ref t rp -> Forall notStatus t)
    by (intros ???? []; by repeat constructor).
  destruct 1; rewrite ?Forall_app; split_and?; eauto.
Qed.

Lemma runPromotion_notStatus r ha old target : emits notStatus (runPromotion r ha old target).
Proof.
  unfold runPromotion. repeat (case_bool_decide; [apply emits_ret|]).
  apply emits_bind; [eapply emits_quiet; [apply siteClientAndRef_quiet|apply reads_notStatus]|].
  intros [[oc oref]|]; [|apply emits_ret].
  apply emits_bind; [eapply emits_quiet; [apply GetOrCreate_quiet|apply reads_notStatus]|].
  intros [nc|e]; [|apply emits_ret].
  eapply emits_talks; [apply promotionSteps_talks|apply protocol_run_notStatus].
Qed.

(** Step over the operations that send no status. *)
Ltac emits_step :=
  lazymatch goal with
  | |- emits _ (mret _) => apply emits_ret
  | |- emits _ (mbind _ _) =>
      apply emits_bind;
        [first [apply event_emits | by apply setFailoverInProgress_emits
               | apply WithLabelValues_emits | apply runPromotion_notStatus
               | by apply clearPromoteAnnotation_emits | by apply emits_call]
        |intros]
  end.

(** What the handler of the annotation does on the trace: no status is sent,
    and a site is written to only for a promotable target. *)
Lemma handlePromoteAnnotation_trace r ha p rs s :
  wpt (handlePromoteAnnotation r ha p rs) (fun _ _ t => Forall notStatus t /\
    (Forall notSiteWrite t \/
     exists target i, hasPromote ha = Some target /\
       fs_Mode (spec_Failover (ha_Spec ha)) = FailoverModeManual /\
       promotable ha p rs target i)) s.
Proof.
  assert (Hrej : forall msg, wpt (rejectPromote r ha msg) (fun _ _ t => Forall notStatus t /\
    (Forall notSiteWrite t \/ exists target i, hasPromote ha = Some target /\
       fs_Mode (spec_Failover (ha_Spec ha)) = FailoverModeManual /\
       promotable ha p rs target i)) s).
  { intros msg. eapply wpt_mono;
      [apply (rejectPromote_emits (fun a => notStatus a /\ notSiteWrite a)); done|].
    intros o s' t Ht. split; [|left]; (eapply Forall_impl; [exact Ht|]); by intros ? []. }
  unfold handlePromoteAnnotation.
  destruct (hasPromote ha) as [target|] eqn:Eh; [|apply wpt_ret; split; [|left]; constructor].
  case_bool_decide as Hm; simpl; [|apply Hrej].
  destruct (findReplica ha target) as [[rep i] found] eqn:Ef.
  destruct found; simpl; [|apply Hrej].
  destruct (rs !! i) as [o|] eqn:Eo; [|apply wpt_panic; split; [|left]; constructor].
  destruct (healthyReplica o) eqn:Eh2; simpl; [|apply Hrej].
  destruct (currentPrimaryForPromotion ha p rs) as [old|e] eqn:Ec; [|apply Hrej].
  assert (Hok : promotable ha p rs target i).
  { split_and!; [exists rep; by apply findReplica_found|
      exists o; by rewrite <- healthyReplica_true|by eapply currentPrimaryForPromotion_Ok]. }
  eapply (wpt_mono _ (fun _ _ t => Forall notStatus t)); [|intros; split; [done|right; eauto]].
  clear Hrej. revert s. match goal with |- forall s, wpt ?m _ s => change (emits notStatus m) end.
  do 4 emits_step. destruct a2 as [[]|e]; [|by repeat emits_step].
  do 3 emits_step. destruct a4 as [ha2 [[]|e]]; by repeat emits_step.
Qed.

(** C12. The promote annotation moves writes only where it may: if handling it
    changes the Cluster or the Service of any site, then the mode is Manual,
    the annotation names a replica of the spec, that replica was observed
    reachable, ready and not a primary, and no split-brain was observed; in
    every other case no site is touched. *)
Theorem manual_promotion_gate r ha p rs s :
  wpt (handlePromoteAnnotation r ha p rs) (fun _ _ t =>
    Exists (fun a => siteWrite a = true) t ->
    exists target i, hasPromote ha = Some target /\
      fs_Mode (spec_Failover (ha_Spec ha)) = FailoverModeManual /\
      promotable ha p rs target i) s.
Proof.
  eapply wpt_mono; [apply handlePromoteAnnotation_trace|]. intros o s' t [_ [Hn|Hok]] Hx; [|done].
  apply Exists_exists in Hx as (a & Ha & Hw). rewrite Forall_forall in Hn.
  apply Hn in Ha. unfold notSiteWrite in Ha. congruence.
Qed.

(** A promotion the handler of the annotation reports: which one, and what was
    done for it. *)
Definition manualReported (r : HAClusterReconciler) (ha : HACluster) (p : siteObservation)
    (rs : list siteObservation) (o : outcome (HACluster * result promotionEffect))
    (t : list apicall) : Prop :=
  forall ha' eff, o = Val (ha', Ok eff) -> didPromote eff = true ->
    exists target rep i obs old tm ha1 ha2, hasPromote ha = Some target /\
      findReplica ha target = (rep, i, true) /\ rs !! i = Some obs /\
      currentPrimaryForPromotion ha p rs = Ok old /\ eff = mkEffect old (o_name obs) /\
      st_CurrentPrimarySite (ha_Status ha') = target /\
      st_LastFailoverTime (ha_Status ha') = Some tm /\ CNow tm ∈ t /\
      CPatchHA (r_Client r) ha1 promotePatch (Ok ha2) ∈ t /\ protocolRan rep t.

Lemma rejectPromote_noEffect r ha msg s :
  wpt (rejectPromote r ha msg) (fun o _ _ => forall ha' eff, o = Val (ha', Ok eff) ->
    didPromote eff = false) s.
Proof.
  apply wpt_bind, event_local. intros s1 _. apply wpt_bind.
  unfold clearPromoteAnnotation. destruct (hasPromote ha).
  - apply wpt_bind, wpt_call; [done|]. intros [ha1|e] w _; apply wpt_ret, wpt_ret; by intros ? ? [= <- <-].
  - apply wpt_ret, wpt_ret. by intros ? ? [= <- <-].
Qed.

(** C19. A manual promotion that is reported did happen: when the handler of the
    annotation returns an effect, the annotation names a replica of the spec,
    the returned object records that replica as current primary with a
    failover time the clock gave in this pass, the effect demotes the site
    taken for the primary, the annotation was removed by an acknowledged
    patch, and the trace contains a complete, successful run of the promotion
    protocol onto the replica's Cluster. *)
Theorem manual_promotion_reported r ha p rs s :
  wpt (handlePromoteAnnotation r ha p rs) (fun o _ t => manualReported r ha p rs o t) s.
Proof.
  assert (Hrej : forall msg, wpt (rejectPromote r ha msg) (fun o _ t => manualReported r ha p rs o t) s).
  { intros msg. eapply wpt_mono; [apply rejectPromote_noEffect|].
    intros o s' t Hn ha' eff Ho He. rewrite (Hn _ _ Ho) in He. done. }
  unfold handlePromoteAnnotation.
  destruct (hasPromote ha) as [target|] eqn:Eh; [|by apply wpt_ret; intros ? ? [= <- <-]].
  destruct (negb _); [apply Hrej|].
  destruct (findReplica ha target) as [[rep i] []] eqn:Ef; simpl; [|apply Hrej].
  destruct (rs !! i) as [obs|] eqn:Eo; [|by apply wpt_panic; intros ? ?].
  destruct (negb _); [apply Hrej|].
  destruct (currentPrimaryForPromotion ha p rs) as [old|e] eqn:Ec; [|apply Hrej]. clear Hrej.
  apply wpt_bind, event_local. intros s1 _.
  apply wpt_bind. eapply wpt_mono; [apply setFailoverInProgress_value|].
  intros o s2 t2 (ha1 & -> & _ & _ & Hh). apply wpt_bind, wpt_call; [done|]. intros start w3 _.
  apply wpt_bind. eapply wpt_mono; [apply runPromotion_protocol|].
  intros [[[]|e]|] s4 t4 Hp; [| |by intros ? ?].
  2:{ apply wpt_bind, event_local. intros. apply wpt_bind.
      eapply wpt_mono; [apply setFailoverInProgress_value|]. intros ? ? ? (? & -> & _).
      apply wpt_ret. by intros ? ?. }
  apply wpt_bind, wpt_call; [done|]. intros stop w5 _. apply wpt_bind, wpt_local; [done..|].
  apply wpt_bind. unfold clearPromoteAnnotation. rewrite Hh, Eh.
  apply wpt_bind, wpt_call; [done|]. intros [hp|e] w6 _; apply wpt_ret; [|by apply wpt_ret; intros ? ?].
  apply wpt_bind, wpt_call; [done|]. intros tm w7 _.
  apply wpt_bind. eapply wpt_mono; [apply setFailoverInProgress_value|].
  intros o s8 t8 (ha3 & -> & Hcp & Hlf & _). apply wpt_bind, event_local. intros s9 _.
  apply wpt_bind, wpt_local; [done..|]. apply wpt_ret. intros ha' eff [= <- <-] _.
  exists target, rep, i, obs, old, tm, ha1, hp. split_and!; try done.
  - set_solver.
  - set_solver.
  - simpl. rewrite cons_middle, (app_assoc t2). apply protocolRan_extend. auto.
Qed.

(** ** The status of a reconcile *)

Lemma resetFailCount_emits P k : emits P (resetFailCount k).
Proof. by apply emits_local. Qed.

Lemma bumpFailCount_emits P k : emits P (bumpFailCount k).
Proof. by apply emits_local. Qed.

Lemma handleAutomaticFailover_notStatus r ha p rs :
  emits notStatus (handleAutomaticFailover r ha p rs).
Proof.
  assert (Hreset : emits notStatus (resetFailCount (haKey ha);; mret (ha, Ok noEffect))).
  { apply emits_bind; [apply resetFailCount_emits|]. intros. apply emits_ret. }
  unfold handleAutomaticFailover. destruct (negb _); [apply emits_ret|].
  destruct (bool_decide _); [done|].
  apply emits_bind; [eapply emits_quiet; [apply stabilizing_quiet|apply reads_notStatus]|].
  intros []; [done|]. destruct (healthyPrimary _); [done|].
  apply emits_bind; [apply bumpFailCount_emits|]. intros n.
  destruct (n <? _); [by repeat emits_step|]. unfold autoPromote.
  destruct (chooseTarget _ _ _) as [[[target i] []]|]; simpl; [|by repeat emits_step|apply emits_panic].
  do 4 emits_step. destruct a2 as [[]|e]; [|by repeat emits_step].
  do 6 emits_step. apply emits_bind; [apply resetFailCount_emits|]. intros. apply emits_ret.
Qed.

Lemma handlePromotions_notStatus r ha p rs : emits notStatus (handlePromotions r ha p rs).
Proof.
  apply emits_bind.
  - intros s. eapply wpt_mono; [apply handlePromoteAnnotation_trace|]. by intros ? ? ? [? _].
  - intros [ha1 [pe|e]]; [|apply emits_ret].
    apply emits_bind; [apply handleAutomaticFailover_notStatus|]. intros [ha2 []]; apply emits_ret.
Qed.

Lemma reconfigure_run_notStatus c ref host t r :
  reconfigure_run c ref host t r -> Forall notStatus t.
Proof. destruct 1; by repeat constructor. Qed.

Lemma fence_run_notStatus c ref t r : fence_run c ref t r -> Forall notStatus t.
Proof. destruct 1; by repeat constructor. Qed.

(** What the steps of the topology emit, the topology emits. *)
Section topology_emits.
Context (P : apicall -> Prop).
Hypothesis P_reads : forall a, isWrite a = false -> P a.
Hypothesis P_fence : forall c ref t r, fence_run c ref t r -> Forall P t.
Hypothesis P_reconfigure : forall c ref host t r, reconfigure_run c ref host t r -> Forall P t.

Lemma convergeSite_emits r ha ep host name c ref : emits P (convergeSite r ha ep host name c ref).
Proof.
  assert (Hre : emits P (Reconfigure c ref host))
    by (eapply emits_talks; [apply Reconfigure_talks|apply P_reconfigure]).
  apply emits_bind; [eapply emits_quiet; [apply Probe_quiet|done]|]. intros h.
  cbv zeta. destruct (negb _); [apply emits_ret|].
  destruct (o_primary _); [destruct (bool_decide _)|].
  - apply emits_bind; [done|]. intros []; by repeat emits_step.
  - apply emits_bind; [eapply emits_talks; [apply Fence_talks|apply P_fence]|].
    intros []; by repeat emits_step.
  - apply emits_bind; [done|]. intros. apply emits_ret.
Qed.

Lemma topology_emits r ha ep p rs : emits P (reconcileReplicaTopology r ha ep p rs).
Proof.
  unfold reconcileReplicaTopology. repeat (case_bool_decide; [apply emits_ret|]).
  generalize (p :: rs). intros all. induction all as [|o all IH]; simpl; [apply emits_ret|].
  destruct (bool_decide _); [done|].
  apply emits_bind; [eapply emits_quiet; [apply siteClientAndRef_quiet|done]|].
  intros [[cli ref]|]; [|done]. apply emits_bind; [apply convergeSite_emits|].
  intros []; [done|apply emits_ret].
Qed.
End topology_emits.

Lemma topology_notStatus r ha ep p rs :
  emits notStatus (reconcileReplicaTopology r ha ep p rs).
Proof.
  apply topology_emits;
    [apply reads_notStatus|apply fence_run_notStatus|apply reconfigure_run_notStatus].
Qed.

(** Adjusting roles keeps the sites. *)
Lemma setObservationRole_names n b p rs p' rs' :
  setObservationRole n b (p, rs) = (p', rs') -> o_name <$> p' :: rs' = o_name <$> p :: rs.
Proof.
  simpl. case_bool_decide; [by intros [= <- <-]|].
  destruct (list_find _ rs) as [[i o]|] eqn:E; [|by intros [= <- <-]].
  intros [= <- <-]. apply list_find_Some in E as (Hi & _).
  rewrite ?fmap_cons, list_fmap_insert. f_equal. apply list_insert_id.
  by rewrite list_lookup_fmap, Hi.
Qed.

Lemma applyPromotionEffect_names e p rs p' rs' :
  applyPromotionEffect e (p, rs) = (p', rs') -> o_name <$> p' :: rs' = o_name <$> p :: rs.
Proof.
  unfold applyPromotionEffect. destruct (negb _); [by intros [= <- <-]|].
  destruct (setObservationRole (pe_demoted e) false (p, rs)) as [p1 rs1] eqn:E1. intros E2.
  by rewrite (setObservationRole_names _ _ _ _ _ _ E2), (setObservationRole_names _ _ _ _ _ _ E1).
Qed.

(** The status that belongs to a pass over [ha]. *)
Definition passStatus (ha hs : HACluster) : Prop :=
  st_ObservedGeneration (ha_Status hs) = ha_Generation hs /\
  ss_Name <$> st_Sites (ha_Status hs) = siteNames ha /\
  (st_CurrentPrimarySite (ha_Status hs) = st_CurrentPrimarySite (ha_Status ha) \/
   st_CurrentPrimarySite (ha_Status hs) <> "").

Lemma toSiteStatus_names p rs t : ss_Name <$> buildSiteStatuses p rs t = o_name <$> p :: rs.
Proof.
  unfold buildSiteStatuses. rewrite !fmap_cons. f_equal. by rewrite <- list_fmap_compose.
Qed.

Lemma writeStatus_pass ha ha1 cur av sb p rs s :
  o_name <$> p :: rs = siteNames ha ->
  wpt (writeStatus ha1 (st_CurrentPrimarySite (ha_Status ha)) cur av sb p rs) (fun o _ t =>
    exists hs, o = Val hs /\ passStatus ha hs /\ Forall notStatus t) s.
Proof.
  intros Hn. unfold writeStatus. apply wpt_bind, wpt_call; [done|]. intros t w1 _.
  apply wpt_bind, wpt_call; [done|]. intros t' w2 _. apply wpt_ret. eexists. split; [done|].
  split; [|by repeat constructor]. split_and!; simpl.
  - done.
  - by rewrite <- Hn, <- (toSiteStatus_names _ _ t).
  - case_bool_decide; [by left|by right].
Qed.

Lemma publishMetrics_emits P ha cur sb p rs : emits P (publishMetrics ha cur sb p rs).
Proof.
  assert (Hmod : forall f, emits P (modifyMetrics f)) by (intros; by apply emits_local).
  assert (Hset : forall v ls x, emits P (setGauge v ls x)) by (intros; apply WithLabelValues_emits).
  apply emits_bind; [|intros; apply Hset].
  generalize (primaryLSN cur (p :: rs)). intros lsn.
  induction (p :: rs) as [|o all IH]; simpl; [apply emits_ret|].
  apply emits_bind; [|done]. unfold publishSite, SetSite, SetReplicaLag, ClearReplicaLag,
    SetReplicaLagBytes, ClearReplicaLagBytes, SetSiteCurrentLSNBytes, ClearSiteCurrentLSNBytes,
    SetSiteLSNInfo, ClearSiteLSNInfo.
  repeat first [apply Hset | apply Hmod | apply emits_bind; [|intros] | case_match].
Qed.

(** At most one status is sent, and each satisfies [P]. *)
Definition oneStatus (P : HACluster -> Prop) (t : list apicall) : Prop :=
  Forall notStatus t \/
  exists t1 c hs res t2, t = t1 ++ CStatusUpdate c hs res :: t2 /\ P hs /\
    Forall notStatus t1 /\ Forall notStatus t2.

Lemma oneStatus_app_l P t t' : Forall notStatus t -> oneStatus P t' -> oneStatus P (t ++ t').
Proof.
  intros Ht [Hn|(t1 & c & hs & res & t2 & -> & HP & H1 & H2)].
  - left. by apply Forall_app.
  - right. exists (t ++ t1), c, hs, res, t2. rewrite <- app_assoc. split_and!; try done.
    by apply Forall_app.
Qed.

Lemma wpt_bind_emits {A B} P (m : M A) (k : A -> M B) s :
  emits notStatus m ->
  (forall a s1, wpt (k a) (fun _ _ t => oneStatus P t) s1) ->
  wpt (m ≫= k) (fun _ _ t => oneStatus P t) s.
Proof.
  intros Hm Hk. apply wpt_bind. eapply wpt_mono; [apply Hm|].
  intros [a|] s1 t1 Ht; [|by left]. eapply wpt_mono; [apply Hk|].
  intros o s2 t2 H2. by apply oneStatus_app_l.
Qed.

Lemma wpt_emits_one {A} P (m : M A) s :
  emits notStatus m -> wpt m (fun _ _ t => oneStatus P t) s.
Proof. intros Hm. eapply wpt_mono; [apply Hm|]. intros. by left. Qed.

(** The part of Reconcile after the observations. *)
Lemma reconcile_tail r ha ha1 err p rs s :
  o_name <$> p :: rs = siteNames ha ->
  wpt (publishAndConverge r ha1 (st_CurrentPrimarySite (ha_Status ha)) err p rs)
    (fun _ _ t => oneStatus (passStatus ha) t) s.
Proof.
  intros Hn. unfold publishAndConverge. destruct (decideCurrentPrimary p rs) as [cur av]. cbv zeta.
  apply wpt_bind. eapply wpt_mono; [by apply writeStatus_pass|].
  intros o s1 t1 (ha2 & -> & Hps & Ht1). eapply wpt_mono;
    [|intros o s' t; apply oneStatus_app_l, Ht1].
  apply wpt_bind_emits; [apply publishMetrics_emits|]. intros _ s2.
  apply wpt_bind, wpt_call; [done|]. intros ru w _.
  assert (Hend : forall A (m : M A) s', emits notStatus m -> wpt m (fun _ _ t' =>
      oneStatus (passStatus ha) ([CStatusUpdate (r_Client r) ha2 ru] ++ t')) s').
  { intros A m s' Hm. eapply wpt_mono; [apply Hm|]. intros o s'' t' Ht. right.
    exists [], (r_Client r), ha2, ru, t'. split_and!; [done|done|constructor|done]. }
  apply Hend. destruct ru as [ha3|e]; [|apply emits_ret]. destruct err; [apply emits_ret|].
  apply emits_bind; [apply topology_notStatus|]. intros []; apply emits_ret.
Qed.

(** C21. A reconcile sends at most one status update, and what it sends belongs
    to the pass: it is marked with the object's generation, has one entry per
    site of the spec that was read, in spec order, and its current primary is
    either the one recorded before or a site name that is not empty: a known
    primary is never forgotten because no healthy one was observed. *)
Theorem Reconcile_status r req s :
  reconcilerOk r ->
  wpt (Reconcile r req) (fun _ _ t =>
    (exists e, t = [CGetHA (r_Client r) req (Err e)]) \/
    (exists ha t', t = CGetHA (r_Client r) req (Ok ha) :: t' /\ oneStatus (passStatus ha) t')) s.
Proof.
  intros Hr. unfold Reconcile. apply wpt_bind, wpt_call; [done|]. intros [ha|e] w _.
  2:{ apply wpt_ret. left. by exists e. }
  eapply (wpt_mono _ (fun _ _ t => oneStatus (passStatus ha) t));
    [|intros o s' t Ht; right; by exists ha, t].
  apply wpt_bind. eapply wpt_mono; [by apply observePrimary_quiet|].
  intros o s1 t1 (p & -> & Hp & [Q1 _ _ _]).
  eapply wpt_mono; [|intros o s' t; apply oneStatus_app_l;
    eapply Forall_impl; [exact Q1|apply reads_notStatus]].
  apply wpt_bind. eapply wpt_mono; [by apply observeReplicas_quiet|].
  intros o s2 t2 (rs & -> & Hrs & [Q2 _ _ _]).
  eapply wpt_mono; [|intros o s' t; apply oneStatus_app_l;
    eapply Forall_impl; [exact Q2|apply reads_notStatus]].
  assert (Hn : o_name <$> p :: rs = siteNames ha)
    by (unfold siteNames; by rewrite fmap_cons, Hp, Hrs).
  apply wpt_bind_emits; [apply handlePromotions_notStatus|].
  intros [[ha1 pe] err] s3. destruct (applyPromotionEffect pe (p, rs)) as [p' rs'] eqn:Ea.
  apply reconcile_tail. by rewrite (applyPromotionEffect_names _ _ _ _ _ Ea).
Qed.
End publish.

(** The sample HACluster is stored on the hub. *)
Definition twoSitesHA : fakeWorld :=
  setHA {[("local", NN "ops" "ha") := sampleHA "Manual" ""]} None twoSitesKc.

Lemma Reconcile_status_witness :
  existsb (fun a => match a with CStatusUpdate _ _ (Ok _) => true | _ => false end)
    (op_calls (Reconcile sampleReconciler (NN "ops" "ha") (fakeState twoSitesHA)).2) = true /\
  wpt (Reconcile sampleReconciler (NN "ops" "ha")) (fun _ _ t =>
    (exists e, t = [CGetHA (site "local") (NN "ops" "ha") (Err e)]) \/
    (exists ha t', t = CGetHA (site "local") (NN "ops" "ha") (Ok ha) :: t' /\
       oneStatus (passStatus ha) t')) (fakeState twoSitesHA).
Proof.
  split; [reflexivity|].
  exact (Reconcile_status sampleReconciler (NN "ops" "ha") (fakeState twoSitesHA) I).
Defined.
