(* ===== verification/Total.v ===== *)
(** * Reconcile does not panic

    Every operation returns, except for the two indexings of the observations
    by a position in the spec, which are in range as long as the object the
    API server returns to the annotation's patch has the replicas the
    observations were taken for. *)

From S2P Require Import Prelude GoStd Api External FakeKube Operator Fixtures.
From S2P Require Import Metrics Health Promotion RemoteClient Decision Observe Status Failover.
From S2P Require Import Automatic Reconcile.

Section total.
Context `{Extern}.

Definition anything {A} (_ : A) : Prop := True.

Lemma talks_returns {A} (m : M A) R : talks m R -> returns m anything.
Proof. intros Hm. by eapply returns_talks. Qed.

(** Patching an HACluster returns it with the same replicas: nobody edited the
    list between the read and the patch. *)
Definition patchKeepsReplicas : Prop := forall c ha body w ha',
  (clientPatchHA c ha body w).1 = Ok ha' ->
  spec_Replicas (ha_Spec ha') = spec_Replicas (ha_Spec ha).

Lemma event_returns r ha ty reason msg : returns (event r ha ty reason msg) anything.
Proof. intros s. exists tt. unfold event. by destruct (r_hasRecorder r). Qed.

Lemma now_returns : returns now anything.
Proof. by apply returns_call. Qed.

(** The object keeps its key and its replicas. *)
Definition sameSites (ha ha' : HACluster) : Prop :=
  spec_Replicas (ha_Spec ha') = spec_Replicas (ha_Spec ha).

Lemma setFailoverInProgress_returns ha b t :
  returns (setFailoverInProgress ha b t) (sameSites ha).
Proof. eapply returns_bind; [apply now_returns|]. intros. by apply returns_ret. Qed.

Lemma runPromotion_returns r ha old target : returns (runPromotion r ha old target) anything.
Proof.
  unfold runPromotion. repeat (case_bool_decide; [by apply returns_ret|]).
  eapply returns_bind; [apply returns_quiet, siteClientAndRef_quiet|].
  intros [[oc oref]|] _; [|by apply returns_ret].
  eapply returns_bind; [apply returns_quiet, GetOrCreate_quiet|].
  intros [nc|e] _; [|by apply returns_ret].
  eapply talks_returns, promotionSteps_talks.
Qed.

(** Step over an operation that is known to return. *)
Ltac returns_step :=
  eapply returns_bind;
    [first [apply event_returns | apply now_returns | apply setFailoverInProgress_returns
           | apply runPromotion_returns]|].

(** What the handler of the annotation keeps of the object: any relation that a
    change of the status respects, and a patch. *)
Section kept.
Context (K : HACluster -> HACluster -> Prop).
Context (Hsame : forall ha ha', sameSites ha ha' -> K ha ha').
Context (Htrans : forall a b c, K a b -> K b c -> K a c).
Context (Hkept : forall c ha body w ha', (clientPatchHA c ha body w).1 = Ok ha' -> K ha ha').

Lemma clearPromoteAnnotation_returns r ha :
  returns (clearPromoteAnnotation r ha) (fun res => K ha res.1).
Proof.
  unfold clearPromoteAnnotation. destruct (hasPromote ha); [|by apply returns_ret, Hsame].
  eapply (returns_bind _ _ (fun rp => forall ha', rp = Ok ha' -> K ha ha')).
  - apply returns_call. intros w ha' E. exact (Hkept _ _ _ _ _ E).
  - intros [ha'|e] Hs; apply returns_ret; [|by apply Hsame].
    eapply Htrans; [exact (Hs ha' eq_refl)|by apply Hsame].
Qed.

Lemma rejectPromote_returns r ha msg :
  returns (rejectPromote r ha msg) (fun res => K ha res.1).
Proof.
  returns_step. intros _ _.
  eapply returns_bind; [apply clearPromoteAnnotation_returns|]. intros res Hs. by apply returns_ret.
Qed.

Lemma handlePromoteAnnotation_returns r ha p rs :
  length rs = length (spec_Replicas (ha_Spec ha)) ->
  returns (handlePromoteAnnotation r ha p rs) (fun res => K ha res.1).
Proof.
  intros Hlen. unfold handlePromoteAnnotation.
  destruct (hasPromote ha) as [target|]; [|by apply returns_ret, Hsame].
  destruct (negb _); [apply rejectPromote_returns|].
  destruct (findReplica ha target) as [[rep i] found] eqn:Ef.
  destruct found; simpl; [|apply rejectPromote_returns].
  apply findReplica_found in Ef as [Hi _].
  destruct (lookup_lt_is_Some_2 rs i) as [o ->];
    [rewrite Hlen; by eapply lookup_lt_Some|].
  destruct (negb _); [apply rejectPromote_returns|].
  destruct (currentPrimaryForPromotion ha p rs) as [old|e]; [|apply rejectPromote_returns].
  returns_step. intros _ _.
  returns_step. intros ha1 E1.
  returns_step. intros start _.
  returns_step. intros [[]|e] _.
  - returns_step. intros stop _.
    eapply (returns_bind _ _ anything); [intros s; by exists tt|]. intros _ _.
    eapply returns_bind; [apply clearPromoteAnnotation_returns|]. intros [ha2 [[]|e]] E2; simpl in E2.
    + returns_step. intros t _.
      returns_step. intros ha3 E3.
      returns_step. intros _ _.
      eapply (returns_bind _ _ anything); [intros s; by exists tt|]. intros _ _.
      apply returns_ret. eapply Htrans; [by apply Hsame|]. eapply Htrans; [exact E2|]. by apply Hsame.
    + apply returns_ret. eapply Htrans; [by apply Hsame|done].
  - returns_step. intros _ _.
    returns_step. intros ha2 E2.
    apply returns_ret. apply Hsame. unfold sameSites in *. simpl. congruence.
Qed.
End kept.

Lemma bumpFailCount_returns k : returns (bumpFailCount k) anything.
Proof. intros s. by eexists. Qed.

Lemma resetFailCount_returns k : returns (resetFailCount k) anything.
Proof. intros s. by eexists. Qed.

Lemma autoPromote_returns r ha rs cur n th :
  chooseTarget ha rs cur <> Panicked -> returns (autoPromote r ha rs cur n th) anything.
Proof.
  intros Hc. unfold autoPromote. destruct (chooseTarget ha rs cur) as [[[rep b] ok]|]; [|done].
  destruct ok; simpl.
  2:{ returns_step. intros _ _. by apply returns_ret. }
  returns_step. intros _ _.
  returns_step. intros ha1 _.
  returns_step. intros start _.
  returns_step. intros [[]|e] _.
  - returns_step. intros stop _.
    eapply (returns_bind _ _ anything); [intros s; by exists tt|]. intros _ _.
    returns_step. intros t _.
    returns_step. intros ha2 _.
    returns_step. intros _ _.
    eapply (returns_bind _ _ anything); [intros s; by exists tt|]. intros _ _.
    eapply returns_bind; [apply resetFailCount_returns|]. intros _ _. by apply returns_ret.
  - returns_step. intros _ _.
    returns_step. intros ha2 _. by apply returns_ret.
Qed.

Lemma handleAutomaticFailover_returns r ha p rs :
  length rs = length (spec_Replicas (ha_Spec ha)) ->
  returns (handleAutomaticFailover r ha p rs) anything.
Proof.
  intros Hlen. unfold handleAutomaticFailover. destruct (negb _); [by apply returns_ret|].
  assert (Hreset : returns (resetFailCount (haKey ha);; mret (ha, Ok noEffect)) anything).
  { eapply returns_bind; [apply resetFailCount_returns|]. intros _ _. by apply returns_ret. }
  destruct (bool_decide _); [done|].
  eapply returns_bind; [apply returns_quiet, stabilizing_quiet|]. intros [] _; [done|].
  destruct (healthyPrimary _); [done|].
  eapply returns_bind; [apply bumpFailCount_returns|]. intros n _.
  destruct (n <? _).
  2:{ apply autoPromote_returns. by destruct (chooseTarget_returns ha rs (watchedPrimary ha) Hlen) as (? & ? & ? & ->). }
  returns_step. intros _ _. by apply returns_ret.
Qed.

Lemma convergeSite_returns r ha ep end_ name cli ref :
  returns (convergeSite r ha ep end_ name cli ref) anything.
Proof.
  eapply returns_bind; [apply returns_quiet, Probe_quiet|]. intros h _.
  cbv zeta. destruct (negb _); [by apply returns_ret|].
  destruct (o_primary _); [destruct (bool_decide _)|].
  - eapply returns_bind; [eapply talks_returns, Reconfigure_talks|].
    intros [[]|e] _; [|by apply returns_ret].
    returns_step. intros _ _. by apply returns_ret.
  - eapply returns_bind; [eapply talks_returns, Fence_talks|].
    intros [[]|e] _; [|by apply returns_ret].
    returns_step. intros _ _. by apply returns_ret.
  - eapply returns_bind; [eapply talks_returns, Reconfigure_talks|].
    intros rr _. by apply returns_ret.
Qed.

Lemma topologyLoop_returns r ha ep end_ all : returns (topologyLoop r ha ep end_ all) anything.
Proof.
  induction all as [|o all IH]; simpl; [by apply returns_ret|].
  destruct (bool_decide _); [done|].
  eapply returns_bind; [apply returns_quiet, siteClientAndRef_quiet|].
  intros [[cli ref]|] _; [|done].
  eapply returns_bind; [apply convergeSite_returns|]. intros [[]|e] _; [done|by apply returns_ret].
Qed.

Lemma reconcileReplicaTopology_returns r ha ep p rs :
  returns (reconcileReplicaTopology r ha ep p rs) anything.
Proof.
  unfold reconcileReplicaTopology. repeat (case_bool_decide; [by apply returns_ret|]).
  apply topologyLoop_returns.
Qed.

Lemma publishMetrics_returns ha cur sb p rs : returns (publishMetrics ha cur sb p rs) anything.
Proof.
  assert (Hall : forall lsn all, returns (publishSites ha cur lsn all) anything).
  { intros lsn all. induction all as [|o all IH]; simpl; [by apply returns_ret|].
    eapply (returns_bind _ _ anything); [|done]. unfold publishSite.
    intros s. exists tt. split; [|done].
    destruct (o_lagSeconds o), lsn, (o_lsnKnown o), (bool_decide (o_name o = cur)); simpl;
      try destruct (_ <=? _); try destruct (bool_decide (o_lsn o = "")); done. }
  eapply returns_bind; [apply Hall|]. intros _ _ s. by exists tt.
Qed.

Lemma publishAndConverge_returns r ha1 prior err p rs :
  returns (publishAndConverge r ha1 prior err p rs) anything.
Proof.
  unfold publishAndConverge. destruct (decideCurrentPrimary p rs) as [cur av].
  eapply (returns_bind _ _ anything).
  { returns_step. intros t _.
    returns_step. intros t' _. by apply returns_ret. }
  intros ha2 _. eapply returns_bind; [apply publishMetrics_returns|]. intros _ _.
  eapply (returns_bind _ _ anything); [by apply returns_call|].
  intros [ha3|e] _; [|by apply returns_ret]. destruct err; [by apply returns_ret|].
  eapply returns_bind; [apply reconcileReplicaTopology_returns|].
  intros [[]|e] _; by apply returns_ret.
Qed.

Section patch.
Hypothesis Hpatch : patchKeepsReplicas.

(** C13. Reconcile always returns. As long as the answer to the annotation's
    merge patch carries the replicas the reconcile started with, no request
    and no behaviour of the API servers, of the database or of the kubeconfigs
    makes Reconcile panic: every loop ends, and every index into the
    observations is in range. *)
Theorem Reconcile_total r req s :
  reconcilerOk r -> exists res, (Reconcile r req s).1 = Val res.
Proof.
  intros Hr. enough (He : returns (Reconcile r req) anything).
  { destruct (He s) as (res & E & _). by exists res. }
  unfold Reconcile. eapply (returns_bind _ _ anything); [by apply returns_call|].
  intros [ha|e] _; [|by apply returns_ret].
  eapply returns_bind; [by apply returns_quiet, observePrimary_quiet|]. intros p _.
  eapply returns_bind; [by apply returns_quiet, observeReplicas_quiet|]. intros rs Hrs.
  assert (Hlen : length rs = length (spec_Replicas (ha_Spec ha))).
  { by rewrite <- (length_fmap o_name), Hrs, length_fmap. }
  eapply (returns_bind _ _ anything).
  { eapply returns_bind; [apply (handlePromoteAnnotation_returns sameSites); try done|].
    { unfold sameSites. congruence. }
    intros [ha1 [pe|e]] E1; [|by apply returns_ret].
    eapply returns_bind; [apply handleAutomaticFailover_returns|].
    - unfold sameSites in E1. simpl in E1. by rewrite E1.
    - intros [ha2 [ae|e]] _; by apply returns_ret. }
  intros [[ha1 pe] err] _. destruct (applyPromotionEffect pe (p, rs)) as [p' rs'].
  apply publishAndConverge_returns.
Qed.
End patch.
End total.

(** ** The patch can bring a longer list *)

(** An HACluster in Automatic mode with a left-over promote annotation and one
    replica that cannot be reached; a second replica is being added. *)
Definition editedSpec : HAClusterSpec :=
  ha_Spec (sampleHA "Automatic" "Ordered").

Definition annotatedHA : HACluster :=
  mkHACluster "ha" "ops" 1 "1" (Some {["ha.cnpg.io/promote" := "b"]})
    (mkSpec (spec_Primary editedSpec) [sampleReplicaSite "b"] (spec_Failover editedSpec))
    (mkStatus "a" None 0 [] []).

Definition racingWorld : fakeWorld :=
  mkFake ∅ ∅ ∅ {[("local", NN "ops" "ha") := annotatedHA]} 1000 [] (Some editedSpec) ∅.

Definition racingState : opstate :=
  mkOp (H := fakeExtern) racingWorld {[NN "ops" "ha" := 2]} ∅ [] emptyRegistry [].

(** The reconcile can index out of range: when a replica is added to the
    spec between the read and the removal of a rejected promote annotation,
    the patch's answer replaces the spec in memory, and the automatic failover
    then walks the longer list of replicas over the shorter list of
    observations and panics. *)
Theorem Reconcile_index_panic :
  (Reconcile sampleReconciler (NN "ops" "ha") racingState).1 = Panicked.
Proof. reflexivity. Qed.

Lemma Reconcile_total_witness :
  exists res, (@Reconcile (fakeExternOf false)
    (@mkReconciler (fakeExternOf false) "local" true None) (NN "ops" "ha")
    (@mkOp (fakeExternOf false) racingWorld {[NN "ops" "ha" := 2]} ∅ [] emptyRegistry [])).1 = Val res.
Proof.
  apply (@Reconcile_total (fakeExternOf false)); [|exact I].
  intros c ha body w ha' E. by rewrite (fakePatchHA_calm c ha body w ha' E).
Defined.

(** ** A live primary the status does not know yet

    The status still names "a", which is gone; "b" was promoted by hand since
    the last reconcile and serves writes; "c" is a replica. Two failed passes
    were counted. *)
Definition handPromoted : fakeWorld :=
  mkFake
    (list_to_map
       [(("siteb", NN "db" "pg"), samplePrimary "db" "pg");
        (("sitec", NN "db" "pg"), sampleReplica "db" "pg" "peer" "a-host")])
    (list_to_map
       [(("siteb", NN "db" "pg-rw"), sampleService "db" "pg-rw");
        (("sitec", NN "db" "pg-rw"), sampleService "db" "pg-rw")])
    (list_to_map
       [(("local", NN "ops" "b"), mkSecret "1" (Some {["value" := "siteb"]}));
        (("local", NN "ops" "c"), mkSecret "1" (Some {["value" := "sitec"]}))])
    {[("local", NN "ops" "ha") := sampleHA "Automatic" "Ordered"]} 1000 [] None ∅.

Definition handPromotedState : opstate :=
  mkOp (H := fakeExtern) handPromoted {[NN "ops" "ha" := 2]} ∅ [] emptyRegistry [].

Definition writerAt (w : fakeWorld) (srv : string) : bool :=
  match clusterAt w srv (NN "db" "pg") with
  | Some u => bool_decide (~ clusterIsReplica u) && bool_decide (~ fenced u)
  | None => false
  end.

(** The automatic failover does not look for another live primary: in this
    state one Reconcile promotes "c" because the recorded primary "a" is gone,
    then sees two writers, falls back to the recorded name and fences both of
    them. Before the pass "b" accepts writes; after it no site does. *)
Theorem Reconcile_fences_live_primary :
  let w' := op_world (Reconcile sampleReconciler (NN "ops" "ha") handPromotedState).2 in
  (writerAt handPromoted "local", writerAt handPromoted "siteb", writerAt handPromoted "sitec")
  = (false, true, false) /\
  (writerAt w' "local", writerAt w' "siteb", writerAt w' "sitec") = (false, false, false).
Proof. split; reflexivity. Qed.
