(* ===== verification/Progress.v ===== *)
(** * What keeps happening

    The counterpart of the safety theorems: the promotion an automatic failover
    attempts completes when the API servers answer, and no reconcile of an
    existing HACluster is the last one. *)

From S2P Require Import Prelude GoStd Api External FakeKube Operator Fixtures.
From S2P Require Import Metrics Health Promotion RemoteClient Decision Observe Status Failover.
From S2P Require Import Automatic Reconcile Publish Total.

Section progress.
Context `{Extern}.

(** ** The failover happens *)

(** The stabilization window after the last failover is over. *)
Definition windowOver (ha : HACluster) (w : World) : Prop :=
  match st_LastFailoverTime (ha_Status ha) with
  | None => True
  | Some lf => stabilizationCooldown (spec_Failover (ha_Spec ha)) <= timeSub (timeNow w).1 lf
  end.

#[export] Instance windowOver_dec ha w : Decision (windowOver ha w).
Proof. unfold windowOver. destruct (st_LastFailoverTime _); apply _. Defined.

(** A pass over the HACluster [k] that counts toward a failover, with [th] as
    the threshold in force. *)
Record failingPass (k : NamespacedName) (th : Z) (i : pass) : Prop := {
  fp_key : haKey (pass_ha i) = k;
  fp_mode : isAutomatic (pass_ha i);
  fp_threshold : effectiveFailureThreshold (spec_Failover (ha_Spec (pass_ha i))) = th;
  fp_unhealthy : unhealthyPass (pass_ha i) (pass_primary i) (pass_replicas i);
  fp_window : windowOver (pass_ha i) (pass_world i)
}.

#[export] Instance failingPass_dec k th i : Decision (failingPass k th i).
Proof.
  refine (cast_if (decide (haKey (pass_ha i) = k /\ isAutomatic (pass_ha i) /\
    effectiveFailureThreshold (spec_Failover (ha_Spec (pass_ha i))) = th /\
    unhealthyPass (pass_ha i) (pass_primary i) (pass_replicas i) /\
    windowOver (pass_ha i) (pass_world i)))); [by destruct_and?; split|intros []; tauto].
Defined.

Lemma stabilizing_over ha s :
  windowOver ha (op_world s) ->
  wpt (stabilizing ha) (fun o s' _ => o = Val false /\ op_failCount s' = op_failCount s) s.
Proof.
  unfold windowOver, stabilizing. destruct (st_LastFailoverTime _) as [lf|]; [|by intros; apply wpt_ret].
  intros Hw. apply wpt_bind, wpt_call; [done|]. intros t w' E. simpl in E. rewrite E in Hw.
  apply wpt_ret. split; [|done]. f_equal. by apply Z.ltb_ge.
Qed.

(** The handler in a failing pass: below the threshold it counts, from the
    threshold on it tries to promote. *)
Lemma failing_handler r i k th s (Q : outcome (HACluster * result promotionEffect) ->
    opstate -> list apicall -> Prop) :
  failingPass k th i -> op_world s = pass_world i ->
  (bumped (pass_ha i) s < th -> forall s' t,
     op_failCount s' = <[k := bumped (pass_ha i) s]> (op_failCount s) ->
     Q (Val (pass_ha i, Ok noEffect)) s' t) ->
  (th <= bumped (pass_ha i) s -> forall s1 t1, exec (op_world s) t1 (op_world s1) ->
     wpt (autoPromote r (pass_ha i) (pass_replicas i) (watchedPrimary (pass_ha i))
            (bumped (pass_ha i) s) th) (fun o s' t => Q o s' (t1 ++ t)) s1) ->
  wpt (handleAutomaticFailover r (pass_ha i) (pass_primary i) (pass_replicas i)) Q s.
Proof.
  intros [Hk Hm Hth [Hsb Hh] Hw] Ew Hlow Hhigh. unfold handleAutomaticFailover.
  rewrite bool_decide_eq_true_2 by done. rewrite Hsb, Hh, Hth. cbn [negb length].
  rewrite bool_decide_eq_false_2 by lia. rewrite <- Ew in Hw.
  destruct (stabilizing_over (pass_ha i) s Hw) as (t1 & Ht1 & Hx1 & Es & Hfc).
  apply wpt_bind. exists t1. split_and!; [done|done|]. rewrite Es.
  set (s1 := (stabilizing (pass_ha i) s).2) in *. clearbody s1.
  assert (Eb : bumped (pass_ha i) s1 = bumped (pass_ha i) s) by (unfold bumped; by rewrite Hfc).
  apply wpt_bind, wpt_local; [done..|]. simpl. rewrite lookup_insert_eq. simpl.
  fold (bumped (pass_ha i) s1). rewrite Eb.
  destruct (bumped (pass_ha i) s <? th) eqn:En; bool_prop.
  - apply wpt_bind, event_local. intros s3 E3. apply wpt_ret. apply Hlow; [done|].
    rewrite E3. simpl. by rewrite Hfc, Hk.
  - by apply Hhigh.
Qed.

Lemma bumped_count i s c :
  countOf (haKey (pass_ha i)) s = c -> 0 <= c < 2^62 -> bumped (pass_ha i) s = c + 1.
Proof.
  intros Ec Hc. unfold bumped, countOf in *. rewrite Ec. apply wrap_int64_id. unfold int64_range. lia.
Qed.

(** After the calls [t1] from the world [w], the promotion of [target] in place
    of [old] was run; it made the calls [t2] and returned [res]. *)
Definition attempted (r : HAClusterReconciler) (ha : HACluster) (old : string) (target : ReplicaSite)
    (w : World) (t1 t2 : list apicall) (res : result unit) : Prop :=
  exists ha1 s1, exec w t1 (op_world s1) /\ ha_Spec ha1 = ha_Spec ha /\
    (runPromotion r ha1 old target s1).1 = Val res /\
    op_calls (runPromotion r ha1 old target s1).2 = op_calls s1 ++ t2.

(** What the handler answers then. *)
Definition reportsAttempt (old : string) (target : ReplicaSite) (res : result unit)
    (o : outcome (HACluster * result promotionEffect)) : Prop :=
  exists ha', match res with
    | Ok _ => o = Val (ha', Ok (mkEffect old (rs_Name target))) /\
              st_CurrentPrimarySite (ha_Status ha') = rs_Name target
    | Err e => o = Val (ha', Err (Wrap ("automatic failover to " +:+ Quote (rs_Name target)) e))
    end.

(** A run, as it is. *)
Lemma wpt_run {A} (m : M A) s :
  emits (fun _ => True) m ->
  wpt m (fun o s' t => o = (m s).1 /\ s' = (m s).2 /\ op_calls (m s).2 = op_calls s ++ t /\
    exec (op_world s) t (op_world s')) s.
Proof. intros Hm. destruct (Hm s) as (t & Ht & Hx & _). exists t. by split_and!. Qed.

Lemma runPromotion_emits r ha old target : emits (fun _ => True) (runPromotion r ha old target).
Proof.
  intros s. eapply wpt_mono; [apply runPromotion_keeps|]. intros. by apply Forall_true.
Qed.

(** *** When it completes *)

(** spec.replica.enabled can be read and set. *)
Definition replicaFlagOk (u : json) : Prop :=
  match field_at u replicaEnabledPath with
  | NFound (JBool _) | NMissing => True
  | _ => False
  end.

#[export] Instance replicaFlagOk_dec u : Decision (replicaFlagOk u).
Proof. unfold replicaFlagOk. destruct (field_at _ _) as [[]| | |]; apply _. Defined.

(** The Secret holds a kubeconfig under the key. *)
Definition kubeconfigUsable (sec : Secret) (key : string) : Prop :=
  match RESTConfigFromKubeConfig <$> secretBytes sec key with
  | Some (Ok _) => True
  | _ => False
  end.

#[export] Instance kubeconfigUsable_dec sec key : Decision (kubeconfigUsable sec key).
Proof. unfold kubeconfigUsable. destruct (_ <$> _) as [[]|]; apply _. Defined.

(** The API servers do their part: they answer the reads and the writes, the
    kubeconfig Secrets of the replicas hold kubeconfigs, and clients can be
    built from them. *)
Definition answered (ha : HACluster) (a : apicall) : Prop :=
  match a with
  | CGetCluster _ _ (Ok u) => replicaFlagOk u
  | CGetSecret _ k (Ok sec) =>
      Forall (fun rep => k = NN (ha_Namespace ha) (sel_Name (rs_KubeconfigSecretRef rep)) ->
                kubeconfigUsable sec (sel_Key (rs_KubeconfigSecretRef rep)))
        (spec_Replicas (ha_Spec ha))
  | CGetCluster _ _ (Err _) | CGetService _ _ (Err _) | CUpdateCluster _ _ (Err _)
  | CUpdateService _ _ (Err _) | CGetSecret _ _ (Err _) | CNewClient _ (Err _) => False
  | _ => True
  end.

#[export] Instance answered_dec ha a : Decision (answered ha a).
Proof. unfold answered. repeat case_match; apply _. Defined.

(** With such answers, [m] returns a value that satisfies [P]. *)
Definition completes {A} (ha : HACluster) (m : M A) (P : A -> Prop) : Prop :=
  forall s, wpt m (fun o _ t => Forall (answered ha) t -> exists a, o = Val a /\ P a) s.

Lemma completes_ret {A} ha (a : A) (P : A -> Prop) : P a -> completes ha (mret a) P.
Proof. intros HP s. apply wpt_ret. by exists a. Qed.

Lemma completes_bind {A B} ha (m : M A) (k : A -> M B) P Q :
  completes ha m P -> (forall a, emits (fun _ => True) (k a)) ->
  (forall a, P a -> completes ha (k a) Q) -> completes ha (m ≫= k) Q.
Proof.
  intros Hm Hk HQ s. apply wpt_bind. eapply wpt_mono; [apply Hm|]. intros [a|] s1 t1 Ho.
  2:{ intros Ha. by destruct (Ho Ha) as (? & ? & _). }
  destruct (Hk a s1) as (t & Ht & Hx & _). exists t. split_and!; [done|done|].
  intros [Ha1 Ha]%Forall_app. destruct (Ho Ha1) as (? & [= <-] & HP).
  destruct (HQ a HP s1) as (t' & Ht' & _ & Hv). rewrite Ht in Ht'.
  apply app_inv_head in Ht' as <-. by apply Hv.
Qed.

Lemma completes_talks {A} ha (m : M A) R (P : A -> Prop) :
  talks m R -> (forall t a, R t a -> Forall (answered ha) t -> P a) -> completes ha m P.
Proof.
  intros Hm HP s. eapply wpt_talks; [exact Hm|]. intros t a w' Hr _ Ha. exists a. eauto.
Qed.

Lemma quiet_emits {A} (m : M A) P : isQuiet m P -> emits (fun _ => True) m.
Proof. intros Hm. by eapply emits_quiet. Qed.

Lemma talks_emits {A} (m : M A) R : talks m R -> emits (fun _ => True) m.
Proof. intros Hm. eapply emits_talks; [exact Hm|]. intros. by apply Forall_true. Qed.

Lemma answered_kubeconfig ha rep hub rs :
  rep ∈ spec_Replicas (ha_Spec ha) ->
  answered ha (CGetSecret hub (NN (ha_Namespace ha) (sel_Name (rs_KubeconfigSecretRef rep))) rs) ->
  exists kc rv cfg, kubeconfigOf (ha_Namespace ha) (rs_KubeconfigSecretRef rep) rs = Ok (kc, rv) /\
    RESTConfigFromKubeConfig kc = Ok cfg.
Proof.
  intros Hrep. destruct rs as [sec|]; [|done]. cbn [answered]. rewrite Forall_forall. intros Ha.
  specialize (Ha rep Hrep eq_refl). unfold kubeconfigUsable in Ha. simpl.
  destruct (secretBytes _ _) as [kc|]; simpl in Ha; [|done].
  destruct (RESTConfigFromKubeConfig kc) as [cfg|] eqn:E; [|done]. by eexists _, _, _.
Qed.

Lemma GetOrCreate_completes ha rep hub :
  rep ∈ spec_Replicas (ha_Spec ha) ->
  completes ha (GetOrCreate hub (ha_Namespace ha) (rs_KubeconfigSecretRef rep))
    (fun r => exists cli, r = Ok cli).
Proof.
  intros Hrep s. destruct (GetOrCreate_run hub (ha_Namespace ha) (rs_KubeconfigSecretRef rep) s)
    as (t & r & upd & w & E & Hx & Hr).
  exists t. rewrite E. split_and!; [done|done|]. intros Ha. exists r. split; [done|].
  inversion Hr as [|rs e Hk|? ? ? cli|rs kc rv t' e Hk _ Ht|? ? ? ? cli]; subst; try by eexists.
  - apply Forall_cons in Ha as [Ha _]. by destruct (answered_kubeconfig _ _ _ _ Hrep Ha) as (? & ? & ? & E' & _);
      rewrite E' in Hk.
  - apply Forall_cons in Ha as [Hs Ha].
    destruct (answered_kubeconfig _ _ _ _ Hrep Hs) as (kc' & rv' & cfg & E' & Hc).
    rewrite E' in Hk. injection Hk as -> _.
    destruct Ht as [[_ Hn]|(cfg' & e' & ->)]; [by destruct (Hn cfg)|].
    by apply Forall_cons in Ha as [? _].
Qed.

Lemma siteClientAndRef_completes r ha name :
  name ∈ siteNames ha ->
  completes ha (siteClientAndRef r ha name) (fun o => exists c, o = Some c).
Proof.
  intros Hn. unfold siteClientAndRef.
  case_bool_decide as Hp; [apply completes_ret; by eexists|].
  apply elem_of_cons in Hn as [Hn|(rep & -> & Hin)%list_elem_of_fmap]; [done|].
  destruct (list_find _ _) as [[i rep']|] eqn:Ef.
  2:{ apply list_find_None in Ef. rewrite Forall_forall in Ef. by destruct (Ef rep Hin). }
  apply list_find_Some in Ef as (Hi & _). eapply completes_bind.
  - eapply GetOrCreate_completes. by eapply list_elem_of_lookup_2.
  - intros [cli|e]; apply emits_ret.
  - intros ? [cli ->]. apply completes_ret. by eexists.
Qed.

Lemma fence_completes ha c ref t rf : fence_run c ref t rf -> Forall (answered ha) t -> rf = Ok tt.
Proof.
  intros [e|u Hf|u [[]|] Hf]; try done; rewrite !Forall_cons; simpl; tauto.
Qed.

Lemma flip_completes ha c ref role t rs :
  flip_run c ref role t rs -> Forall (answered ha) t -> rs = Ok tt.
Proof.
  intros [e|svc Hf|svc [[]|] Hf]; try done; rewrite !Forall_cons; simpl; tauto.
Qed.

Lemma promote_completes `{!UnstructuredLaws} ha c ref t rp :
  promote_run c ref t rp -> Forall (answered ha) t -> rp = Ok tt.
Proof.
  intros [e|u e Hbad|u Hf|u u' [[]|] Hf Hs]; try done; rewrite !Forall_cons.
  - simpl; tauto.
  - intros [Hu _]. simpl in Hu. unfold replicaFlagOk in Hu.
    pose proof (NestedBool_law u replicaEnabledPath) as Hl.
    pose proof (SetNestedField_law u (JBool false) replicaEnabledPath ltac:(done)) as Hs.
    unfold set_accessor in Hs. destruct (field_at u replicaEnabledPath) as [[]| | |]; try done;
      simpl in Hl; rewrite Hl in Hbad; destruct Hbad as [?|[? Hn]]; try done;
      destruct Hs as (u' & Hs & _); by destruct (Hn u').
  - simpl; tauto.
Qed.

Lemma promotionSteps_completes `{!UnstructuredLaws} ha oc oref nc nref :
  completes ha (promotionSteps oc oref nc nref) (fun r => r = Ok tt).
Proof.
  eapply completes_talks; [apply promotionSteps_talks|].
  intros t r Hr Ha. inversion Hr; subst; rewrite ?Forall_app in Ha; destruct_and? Ha;
    repeat match goal with
      | Hf : fence_run _ _ _ _ |- _ => apply (fence_completes ha) in Hf; [|done]
      | Hf : flip_run _ _ _ _ _ |- _ => apply (flip_completes ha) in Hf; [|done]
      | Hf : promote_run _ _ _ _ |- _ => apply (promote_completes ha) in Hf; [|done]
      end; by subst.
Qed.

Lemma runPromotion_completes `{!UnstructuredLaws} r ha old target :
  target ∈ spec_Replicas (ha_Spec ha) -> old ∈ siteNames ha -> old <> "" -> old <> rs_Name target ->
  completes ha (runPromotion r ha old target) (fun res => res = Ok tt).
Proof.
  intros Ht Ho Hne Hnt. unfold runPromotion. rewrite !bool_decide_eq_false_2 by done.
  assert (Hrest : forall oc oref, emits (fun _ => True)
    (rc ← GetOrCreate (r_Client r) (ha_Namespace ha) (rs_KubeconfigSecretRef target);
     match rc with
     | Err e => mret (Err (Wrap ("load remote client for " +:+ Quote (rs_Name target)) e))
     | Ok newCli => promotionSteps oc oref newCli (refOf (rs_ClusterRef target))
     end)).
  { intros oc oref. apply emits_bind; [eapply quiet_emits, GetOrCreate_quiet|].
    intros [nc|e]; [eapply talks_emits, promotionSteps_talks|apply emits_ret]. }
  eapply completes_bind; [by apply siteClientAndRef_completes| |].
  { intros [[oc oref]|]; [apply Hrest|apply emits_ret]. }
  intros ? [[oc oref] ->]. eapply completes_bind; [by apply GetOrCreate_completes| |].
  { intros [nc|e]; [eapply talks_emits, promotionSteps_talks|apply emits_ret]. }
  intros ? [nc ->]. apply promotionSteps_completes.
Qed.

(** The target is a replica, and not the site that failed. *)
Lemma chosen_target ha rs failed target i :
  chooseTarget ha rs failed = Val (target, i, true) -> length rs = length (spec_Replicas (ha_Spec ha)) ->
  target ∈ spec_Replicas (ha_Spec ha) /\ rs_Name target <> failed.
Proof.
  intros Ec Hlen. pose proof (chooseTarget_outcome ha rs failed Hlen) as Ho. rewrite Ec in Ho.
  destruct Ho as [Hi (o & ((rep & Hrep & Hn) & _) & _)]. simplify_eq.
  split; [by eapply list_elem_of_lookup_2|done].
Qed.

(** The promotion that was run completes, as far as the operator and the
    configuration go: the observations cover the replicas and the old primary
    is a site. *)
Definition completable (ha : HACluster) (rs : list siteObservation) (old : string) : Prop :=
  length rs = length (spec_Replicas (ha_Spec ha)) /\ old ∈ siteNames ha /\ old <> "".

Lemma autoPromote_attempts `{!UnstructuredLaws} r ha rs cur n th target i w t0 s :
  chooseTarget ha rs cur = Val (target, i, true) -> exec w t0 (op_world s) ->
  wpt (autoPromote r ha rs cur n th) (fun o _ t => exists res,
    exists t1 t2 t3, t0 ++ t = t1 ++ t2 ++ t3 /\ attempted r ha cur target w t1 t2 res /\
    reportsAttempt cur target res o /\
    (completable ha rs cur -> Forall (answered ha) t2 -> res = Ok tt)) s.
Proof.
  intros Ec Hx0. assert (Hct := chosen_target ha rs cur target i Ec). unfold autoPromote. rewrite Ec. simpl.
  apply wpt_bind. eapply wpt_mono; [apply wpt_run, event_emits|].
  intros o s1 t1 (-> & -> & _ & Hx1).
  match goal with |- context [(event r ha ?ty ?reason ?msg s).1] =>
    destruct (event_returns r ha ty reason msg s) as ([] & -> & _) end.
  set (s1 := (event _ _ _ _ _ s).2) in *. clearbody s1.
  apply wpt_bind, wpt_bind, wpt_call; [done|]. intros tm w2 Hx2. apply wpt_ret.
  apply wpt_bind, wpt_call; [done|]. intros start w3 Hx3. simpl in Hx3.
  set (ha1 := setCondition _ ha). set (s3 := advance w3 [CNow start] _).
  assert (Hx : exec w (t0 ++ t1 ++ [CNow tm] ++ [CNow start]) (op_world s3)).
  { do 2 (eapply exec_app; [eassumption|]). econstructor; [exact Hx2|]. econstructor; [exact Hx3|constructor]. }
  apply wpt_bind. eapply wpt_mono; [apply wpt_run, runPromotion_emits|].
  intros o s4 t4 (-> & -> & Hc4 & _).
  destruct (runPromotion_returns r ha1 cur target s3) as (res & Er & _).
  assert (Hok : completable ha rs cur -> Forall (answered ha) t4 -> res = Ok tt).
  { intros (Hlen & Hin & Hne) Ha4. destruct (Hct Hlen) as [Ht Hnt].
    destruct (runPromotion_completes r ha1 cur target Ht Hin Hne (not_eq_sym Hnt) s3)
      as (t' & Ht' & _ & Hv).
    rewrite Hc4 in Ht'. apply app_inv_head in Ht' as <-.
    destruct (Hv Ha4) as (res' & E & ->). rewrite Er in E. by injection E. }
  assert (Hatt : attempted r ha cur target w (t0 ++ t1 ++ [CNow tm] ++ [CNow start]) t4 res)
    by by exists ha1, s3.
  rewrite Er. set (s4 := (runPromotion r ha1 cur target s3).2) in *. clearbody s4.
  match goal with |- wpt ?m _ _ => enough (Hm : wpt m (fun o _ _ => reportsAttempt cur target res o) s4) end.
  { eapply wpt_mono; [exact Hm|]. intros o s' t5 Ho.
    exists res, (t0 ++ t1 ++ [CNow tm] ++ [CNow start]), t4, t5.
    split_and!; [|done..]. by rewrite <- !app_assoc. }
  clear. destruct res as [[]|e].
  - apply wpt_bind, wpt_call; [done|]. intros stop w5 _.
    apply wpt_bind, wpt_local; [done..|]. simpl. apply wpt_bind, wpt_call; [done|]. intros t w6 _.
    apply wpt_bind. eapply wpt_mono; [apply setFailoverInProgress_value|].
    intros o s7 t7 (ha2 & -> & Hcp & _). apply wpt_bind, event_local. intros s8 _.
    apply wpt_bind, wpt_local; [done..|]. simpl. apply wpt_bind, wpt_local; [done..|].
    apply wpt_ret. by exists ha2.
  - apply wpt_bind, event_local. intros s5 _.
    apply wpt_bind. eapply wpt_mono; [apply setFailoverInProgress_value|].
    intros o s6 t6 (ha2 & -> & _). apply wpt_ret. by exists ha2.
Qed.

(** ** The next pass *)

(** What a reconcile that saw the HACluster returns: an error, or the delay of
    the object the API server returned to the status update. *)
Definition requeues (r : HAClusterReconciler) (t : list apicall) (res : CtrlResult * option goerr) : Prop :=
  (exists e, res = (mkCtrl 0, Some e)) \/
  exists hs ha', CStatusUpdate (r_Client r) hs (Ok ha') ∈ t /\ res = (mkCtrl (requeueAfter ha'), None).

Lemma requeues_app r t t' res : requeues r t' res -> requeues r (t ++ t') res.
Proof. intros [?|(hs & ha' & ? & ?)]; [by left|right]. exists hs, ha'. set_solver. Qed.

(** Any program before the one that returns. *)
Lemma requeues_bind {A} r (m : M A) k s :
  emits notStatus m ->
  (forall a s1, wpt (k a) (fun o _ t => forall res, o = Val res -> requeues r t res) s1) ->
  wpt (m ≫= k) (fun o _ t => forall res, o = Val res -> requeues r t res) s.
Proof.
  intros Hm Hk. apply wpt_bind. eapply wpt_mono; [apply Hm|]. intros [a|] s1 t1 _; [|done].
  eapply wpt_mono; [apply Hk|]. intros o s2 t2 Ho res E. by apply requeues_app, Ho.
Qed.

Lemma publishAndConverge_requeues r ha1 prior err p rs s :
  wpt (publishAndConverge r ha1 prior err p rs)
    (fun o _ t => forall res, o = Val res -> requeues r t res) s.
Proof.
  unfold publishAndConverge. destruct (decideCurrentPrimary p rs) as [cur av]. cbv zeta.
  apply requeues_bind.
  { do 2 (apply emits_bind; [by apply emits_call|intros]). apply emits_ret. }
  intros ha2 s1. apply requeues_bind; [apply publishMetrics_emits|]. intros _ s2.
  apply wpt_bind, wpt_call; [done|]. intros [ha3|e] w _.
  2:{ apply wpt_ret. intros res [= <-]. left. eauto. }
  destruct err as [e|]; [apply wpt_ret; intros res [= <-]; left; eauto|].
  apply wpt_bind. eapply wpt_mono; [apply topology_notStatus|].
  intros [[[]|e]|] s3 t3 _; [| |done]; apply wpt_ret; intros res [= <-]; [right|left; eauto].
  exists ha2, ha3. set_solver.
Qed.

(** The interval of an object is an int32. *)
Definition int32Answer (a : apicall) : Prop :=
  match a with
  | CStatusUpdate _ _ (Ok ha) => int32_range (fs_HealthCheckIntervalSeconds (spec_Failover (ha_Spec ha)))
  | _ => True
  end.

Lemma requeueAfter_positive ha :
  int32_range (fs_HealthCheckIntervalSeconds (spec_Failover (ha_Spec ha))) -> Second <= requeueAfter ha.
Proof.
  intros Hr. unfold requeueAfter, requeuePeriod. case_bool_decide; [|unfold Second; lia].
  rewrite effectiveHealthInterval_value by done. unfold Second.
  destruct (_ <? 1) eqn:E; bool_prop; lia.
Qed.

(** C15. An HACluster is never left alone. A reconcile that returns no error
    asks to be run again after a positive delay, at least a second: the
    configured interval in Automatic mode and 30 seconds otherwise, read from
    the object the API server returned to the status update. The only
    reconcile that neither reports an error nor asks for another one is the
    one whose HACluster does not exist any more; it made no other call. *)
Theorem Reconcile_comes_back `{!ErrorLaws} r req s :
  reconcilerOk r ->
  wpt (Reconcile r req) (fun o _ t => Forall int32Answer t ->
    forall ctrl, o = Val (ctrl, None) ->
    (RequeueAfter ctrl = 0 /\ exists e, t = [CGetHA (r_Client r) req (Err e)] /\ IsNotFound e = true) \/
    exists hs ha', CStatusUpdate (r_Client r) hs (Ok ha') ∈ t /\
      Second <= RequeueAfter ctrl /\
      RequeueAfter ctrl =
        if bool_decide (fs_Mode (spec_Failover (ha_Spec ha')) = FailoverModeAutomatic)
        then (if fs_HealthCheckIntervalSeconds (spec_Failover (ha_Spec ha')) <? 1 then 10
              else fs_HealthCheckIntervalSeconds (spec_Failover (ha_Spec ha'))) * Second
        else 30 * Second) s.
Proof.
  intros Hr. apply wpt_bind, wpt_call; [done|]. intros [ha|e] w _.
  2:{ apply wpt_ret. intros _ ctrl [= <- He]. left. split; [done|]. exists e. split; [done|].
      rewrite IgnoreNotFound_law in He. by destruct (IsNotFound e). }
  eapply (wpt_mono _ (fun o _ t => forall res, o = Val res -> requeues r t res)).
  - apply requeues_bind; [eapply emits_quiet; [by apply observePrimary_quiet|apply reads_notStatus]|].
    intros p s1. apply requeues_bind;
      [eapply emits_quiet; [by apply observeReplicas_quiet|apply reads_notStatus]|].
    intros rs s2. apply requeues_bind; [apply handlePromotions_notStatus|].
    intros [[ha1 pe] err] s3. destruct (applyPromotionEffect pe (p, rs)).
    apply publishAndConverge_requeues.
  - intros o s' t Ho Hi ctrl E. right. destruct (Ho _ E) as [(e & ?)|(hs & ha' & Hin & [= ->])]; [done|].
    exists hs, ha'. split; [set_solver|]. apply Forall_cons in Hi as [_ Hi].
    rewrite Forall_forall in Hi. specialize (Hi _ Hin). simpl in Hi.
    split; [by apply requeueAfter_positive|]. unfold requeueAfter. simpl.
    destruct (bool_decide _); [by apply effectiveHealthInterval_value|done].
Qed.
End progress.

Lemma Reconcile_comes_back_witness :
  (Reconcile sampleReconciler (NN "ops" "ha") (fakeState twoSitesHA)).1
  = Val (mkCtrl (30 * Second), None) /\
  wpt (Reconcile sampleReconciler (NN "ops" "ha")) (fun o _ t => Forall int32Answer t ->
    forall ctrl, o = Val (ctrl, None) ->
    (RequeueAfter ctrl = 0 /\ exists e, t = [CGetHA (r_Client sampleReconciler) (NN "ops" "ha") (Err e)] /\
       IsNotFound e = true) \/
    exists hs ha', CStatusUpdate (r_Client sampleReconciler) hs (Ok ha') ∈ t /\
      Second <= RequeueAfter ctrl /\
      RequeueAfter ctrl =
        if bool_decide (fs_Mode (spec_Failover (ha_Spec ha')) = FailoverModeAutomatic)
        then (if fs_HealthCheckIntervalSeconds (spec_Failover (ha_Spec ha')) <? 1 then 10
              else fs_HealthCheckIntervalSeconds (spec_Failover (ha_Spec ha'))) * Second
        else 30 * Second) (fakeState twoSitesHA).
Proof.
  split; [reflexivity|].
  exact (Reconcile_comes_back sampleReconciler (NN "ops" "ha") (fakeState twoSitesHA) I).
Defined.
