(* ===== verification/Detector.v ===== *)
(** * The failure detector over whole reconciles

    A reconcile in two stages, split where the automatic failover starts, and
    the histories of reconciles since the operator started: a site is promoted
    only on request or at the end of a long enough streak of failures, and a
    streak that is long enough is answered with a promotion. *)

From S2P Require Import Prelude GoStd Api External FakeKube Operator Fixtures.
From S2P Require Import Metrics Health Promotion RemoteClient Decision Observe Status Failover.
From S2P Require Import Automatic Reconcile Publish Total Progress.

Section detector.
Context `{Extern}.

(** ** The stages of a reconcile *)

(** Steps 1 and 2: the object and the observation of its sites. *)
Definition observe (r : HAClusterReconciler) (req : NamespacedName)
    : M (result (HACluster * siteObservation * list siteObservation)) :=
  rg ← getHA (r_Client r) req;
  match rg with
  | Err e => mret (Err e)
  | Ok ha =>
      p ← observePrimary r ha;
      rs ← observeReplicas r ha (spec_Replicas (ha_Spec ha));
      mret (Ok (ha, p, rs))
  end.

(** Where a reconcile is when the manual request has been handled: there was no
    object, the request failed, or the automatic failover is next. [prior] is
    the primary recorded when the object was read. *)
Inductive stage : Type :=
  | Gone (err : goerr)
  | Refused (prior : string) (ha : HACluster) (p : siteObservation) (rs : list siteObservation)
      (err : goerr)
  | Next (prior : string) (ha : HACluster) (p : siteObservation) (rs : list siteObservation)
      (manual : promotionEffect).

Definition firstStage (r : HAClusterReconciler) (req : NamespacedName) : M stage :=
  ro ← observe r req;
  match ro with
  | Err e => mret (Gone e)
  | Ok (ha, p, rs) =>
      let prior := st_CurrentPrimarySite (ha_Status ha) in
      manual ← handlePromoteAnnotation r ha p rs;
      mret (match manual with
            | (ha1, Err e) => Refused prior ha1 p rs e
            | (ha1, Ok pe) => Next prior ha1 p rs pe
            end)
  end.

Definition secondStage (r : HAClusterReconciler) (x : stage) : M (CtrlResult * option goerr) :=
  match x with
  | Gone e => mret (mkCtrl 0, IgnoreNotFound e)
  | Refused prior ha1 p rs e => publishAndConverge r ha1 prior (Some e) p rs
  | Next prior ha1 p rs pe =>
      auto ← handleAutomaticFailover r ha1 p rs;
      let '(ha2, effect, err) :=
        match auto with
        | (ha2, Err e) => (ha2, pe, Some e)
        | (ha2, Ok ae) => (ha2, if didPromote ae then ae else pe, None)
        end in
      let '(p', rs') := applyPromotionEffect effect (p, rs) in
      publishAndConverge r ha2 prior err p' rs'
  end.

(** The stages are the reconcile. *)
Lemma Reconcile_stages r req s : Reconcile r req s = (firstStage r req ≫= secondStage r) s.
Proof.
  unfold Reconcile, firstStage, observe, handlePromotions, mbind, M_bind.
  destruct (getHA (r_Client r) req s) as [[[ha|e]|] s0]; try done.
  destruct (observePrimary r ha s0) as [[p|] s1]; [|done].
  destruct (observeReplicas r ha _ s1) as [[rs|] s2]; [|done]. cbn.
  destruct (handlePromoteAnnotation r ha p rs s2) as [[[ha1 [pe|e]]|] s3]; cbn; try done.
  unfold mbind, M_bind.
  by destruct (handleAutomaticFailover r ha1 p rs s3) as [[[ha2 [ae|e]]|] s4].
Qed.

Lemma wpt_ext {A} (m m' : M A) Q s : m s = m' s -> wpt m' Q s -> wpt m Q s.
Proof. unfold wpt. by intros ->. Qed.

(** What the automatic failover of a reconcile from [s] works on, if the
    reconcile gets that far. *)
Definition passOf (r : HAClusterReconciler) (req : NamespacedName) (s : opstate) : option pass :=
  match firstStage r req s with
  | (Val (Next _ ha p rs _), s1) => Some (mkPass (op_world s1) ha p rs)
  | _ => None
  end.

(** ** Histories *)

(** A request for a reconcile, and the world it finds. *)
Record request : Type := mkRequest { rq_world : World; rq_key : NamespacedName }.

(** The state after the reconciles of [h], most recent request first. *)
Fixpoint afterAll (r : HAClusterReconciler) (h : list request) (s : opstate) : opstate :=
  match h with
  | [] => s
  | i :: h' => (Reconcile r (rq_key i) (setWorld (rq_world i) (afterAll r h' s))).2
  end.

(** The state in which the reconcile of [i] starts, after the ones of [h]. *)
Definition startOf (r : HAClusterReconciler) (h : list request) (i : request) (s : opstate) : opstate :=
  setWorld (rq_world i) (afterAll r h s).

(** The passes of a history, for the requests that got to the automatic
    failover. *)
Fixpoint passes (r : HAClusterReconciler) (h : list request) (s : opstate) : list pass :=
  match h with
  | [] => []
  | i :: h' =>
      match passOf r (rq_key i) (startOf r h' i s) with
      | Some v => v :: passes r h' s
      | None => passes r h' s
      end
  end.
(** ** The rest of a reconcile leaves the counters alone *)

Lemma clearPromoteAnnotation_counts r ha : keepsCount (clearPromoteAnnotation r ha).
Proof.
  unfold clearPromoteAnnotation. destruct (hasPromote ha); [|apply keepsCount_ret].
  apply keepsCount_bind; [by apply keepsCount_call|]. intros []; apply keepsCount_ret.
Qed.

Lemma rejectPromote_counts r ha msg : keepsCount (rejectPromote r ha msg).
Proof.
  apply keepsCount_bind; [apply event_keeps|]. intros _.
  apply keepsCount_bind; [apply clearPromoteAnnotation_counts|]. intros. apply keepsCount_ret.
Qed.

(** Step over the operations that keep the counters. *)
Ltac counts_step :=
  lazymatch goal with
  | |- keepsCount (mret _) => apply keepsCount_ret
  | |- keepsCount (mbind _ _) =>
      apply keepsCount_bind;
        [first [apply event_keeps | apply setFailoverInProgress_keeps | apply WithLabelValues_keeps
               | apply runPromotion_keeps | apply clearPromoteAnnotation_counts
               | by apply keepsCount_call]
        |intros]
  end.

Lemma handlePromoteAnnotation_counts r ha p rs : keepsCount (handlePromoteAnnotation r ha p rs).
Proof.
  pose proof (rejectPromote_counts r ha) as Hrej. unfold handlePromoteAnnotation.
  destruct (hasPromote ha) as [target|]; [|apply keepsCount_ret].
  destruct (negb _); [apply Hrej|]. destruct (findReplica ha target) as [[rep i] found].
  destruct (negb _); [apply Hrej|].
  destruct (rs !! i) as [o|]; [|by apply keepsCount_local].
  destruct (negb _); [apply Hrej|].
  destruct (currentPrimaryForPromotion ha p rs) as [old|e]; [|apply Hrej].
  do 4 counts_step. destruct a2 as [[]|e]; [|by repeat counts_step].
  do 3 counts_step. destruct a4 as [ha2 [[]|e]]; by repeat counts_step.
Qed.

Lemma publishMetrics_counts ha cur sb p rs : keepsCount (publishMetrics ha cur sb p rs).
Proof.
  assert (Hmod : forall f, keepsCount (modifyMetrics f)) by (intros; by apply keepsCount_local).
  assert (Hset : forall v ls x, keepsCount (setGauge v ls x)) by (intros; apply WithLabelValues_keeps).
  apply keepsCount_bind; [|intros; apply Hset].
  generalize (primaryLSN cur (p :: rs)). intros lsn.
  induction (p :: rs) as [|o all IH]; simpl; [apply keepsCount_ret|].
  apply keepsCount_bind; [|done]. unfold publishSite, SetSite, SetReplicaLag, ClearReplicaLag,
    SetReplicaLagBytes, ClearReplicaLagBytes, SetSiteCurrentLSNBytes, ClearSiteCurrentLSNBytes,
    SetSiteLSNInfo, ClearSiteLSNInfo.
  repeat first [apply Hset | apply Hmod | apply keepsCount_bind; [|intros] | case_match].
Qed.

Lemma convergeSite_counts r ha ep host name c ref :
  keepsCount (convergeSite r ha ep host name c ref).
Proof.
  apply keepsCount_bind; [eapply keepsCount_quiet, Probe_quiet|]. intros h.
  cbv zeta. destruct (negb _); [apply keepsCount_ret|].
  destruct (o_primary _); [destruct (bool_decide _)|].
  - apply keepsCount_bind; [eapply keepsCount_talks, Reconfigure_talks|]. intros []; by repeat counts_step.
  - apply keepsCount_bind; [eapply keepsCount_talks, Fence_talks|]. intros []; by repeat counts_step.
  - apply keepsCount_bind; [eapply keepsCount_talks, Reconfigure_talks|]. intros. apply keepsCount_ret.
Qed.

Lemma topology_counts r ha ep p rs : keepsCount (reconcileReplicaTopology r ha ep p rs).
Proof.
  unfold reconcileReplicaTopology. repeat (case_bool_decide; [apply keepsCount_ret|]).
  generalize (p :: rs). intros all. induction all as [|o all IH]; simpl; [apply keepsCount_ret|].
  destruct (bool_decide _); [done|].
  apply keepsCount_bind; [eapply keepsCount_quiet, siteClientAndRef_quiet|].
  intros [[cli ref]|]; [|done]. apply keepsCount_bind; [apply convergeSite_counts|].
  intros []; [done|apply keepsCount_ret].
Qed.

Lemma publishAndConverge_counts r ha1 prior err p rs :
  keepsCount (publishAndConverge r ha1 prior err p rs).
Proof.
  unfold publishAndConverge. destruct (decideCurrentPrimary p rs) as [cur av]. cbv zeta.
  apply keepsCount_bind.
  { do 2 (apply keepsCount_bind; [by apply keepsCount_call|intros]). apply keepsCount_ret. }
  intros ha2. apply keepsCount_bind; [apply publishMetrics_counts|]. intros _.
  counts_step. destruct a as [ha3|e]; [|apply keepsCount_ret]. destruct err; [apply keepsCount_ret|].
  apply keepsCount_bind; [apply topology_counts|]. intros []; apply keepsCount_ret.
Qed.

(** ** What the rest writes *)

(** A write that promotes no site and moves no traffic: a fence, or the
    repointing of a replica. *)
Definition keepsRoles (a : apicall) : Prop :=
  match a with
  | CUpdateService _ _ _ => False
  | CUpdateCluster _ u _ =>
      (exists u0, u = fenceObject u0) \/
      (exists ref u0 host, reconfigureObject ref u0 host = PlanWrite u)
  | _ => True
  end.

Lemma notSiteWrite_keepsRoles a : notSiteWrite a -> keepsRoles a.
Proof. by destruct a. Qed.

Lemma topology_keepsRoles r ha ep p rs : emits keepsRoles (reconcileReplicaTopology r ha ep p rs).
Proof.
  apply topology_emits.
  - by intros [].
  - intros c ref t res []; rewrite ?Forall_cons, ?Forall_nil; simpl; eauto 6.
  - intros c ref host t res []; rewrite ?Forall_cons, ?Forall_nil; simpl; eauto 8.
Qed.

Lemma publishAndConverge_keepsRoles r ha1 prior err p rs :
  emits keepsRoles (publishAndConverge r ha1 prior err p rs).
Proof.
  unfold publishAndConverge. destruct (decideCurrentPrimary p rs) as [cur av]. cbv zeta.
  apply emits_bind.
  { do 2 (apply emits_bind; [by apply emits_call|intros]). apply emits_ret. }
  intros ha2. apply emits_bind; [apply publishMetrics_emits|]. intros _.
  apply emits_bind; [by apply emits_call|]. intros [ha3|e]; [|apply emits_ret].
  destruct err; [apply emits_ret|].
  apply emits_bind; [apply topology_keepsRoles|]. intros []; apply emits_ret.
Qed.

(** ** One reconcile *)

(** A postcondition may speak of the run itself. *)
Lemma wpt_self {A} (m : M A) Q s :
  wpt m Q s -> wpt m (fun o s' t => Q o s' t /\ o = (m s).1 /\ s' = (m s).2) s.
Proof. intros (t & ? & ? & ?). by exists t. Qed.

Lemma observe_quiet r req : reconcilerOk r -> isQuiet (observe r req) (fun _ => True).
Proof.
  intros Hr. eapply isQuiet_bind; [by apply (isQuiet_call _ _ (fun _ => True))|].
  intros [ha|e] _; [|by apply isQuiet_ret].
  eapply isQuiet_bind; [by apply observePrimary_quiet|]. intros p _.
  eapply isQuiet_bind; [by apply observeReplicas_quiet|]. intros rs _. by apply isQuiet_ret.
Qed.

(** A manual promotion was asked for, and may be done. *)
Definition requested (r : HAClusterReconciler) (req : NamespacedName) (s : opstate) : Prop :=
  exists ha p rs target i, (observe r req s).1 = Val (Ok (ha, p, rs)) /\
    hasPromote ha = Some target /\ fs_Mode (spec_Failover (ha_Spec ha)) = FailoverModeManual /\
    promotable ha p rs target i.

Lemma firstStage_run r req s :
  reconcilerOk r ->
  wpt (firstStage r req) (fun o s1 t => (op_failCount s1 = op_failCount s /\
    (Forall notSiteWrite t \/ requested r req s)) /\
    o = (firstStage r req s).1 /\ s1 = (firstStage r req s).2) s.
Proof.
  intros Hr. apply wpt_self, wpt_bind.
  eapply wpt_mono; [apply wpt_self, observe_quiet, Hr|].
  intros o s1 t1 [(ro & -> & _ & [Hrd Hfc _ _]) [Eo _]].
  assert (Ht1 : Forall notSiteWrite t1) by (eapply Forall_impl; [exact Hrd|by intros []]).
  destruct ro as [[[ha p] rs]|e]; [|apply wpt_ret; rewrite app_nil_r; by split; [|left]].
  apply wpt_bind. eapply wpt_mono;
    [apply wpt_and; [apply handlePromoteAnnotation_trace|apply handlePromoteAnnotation_counts]|].
  intros o s2 t2 [[_ Hw] Hc].
  assert (Hend : op_failCount s2 = op_failCount s /\ (Forall notSiteWrite (t1 ++ t2) \/ requested r req s)).
  { split; [congruence|]. destruct Hw as [Hw|(target & i & Hw)]; [left; by apply Forall_app|right].
    by exists ha, p, rs, target, i. }
  destruct o as [[ha1 res]|]; [|done]. apply wpt_ret. by rewrite app_nil_r.
Qed.

(** The state the handler of a pass leaves. *)
Definition runHandler (r : HAClusterReconciler) (v : pass) (s : opstate) : opstate :=
  (handleAutomaticFailover r (pass_ha v) (pass_primary v) (pass_replicas v) s).2.

(** A reconcile is the manual request, the automatic failover and the rest:
    the counters are those the failover leaves, the manual part touches a site
    only when [requested], and the rest promotes no site. *)
Definition account (r : HAClusterReconciler) (req : NamespacedName) (s s' : opstate)
    (t1 t2 t3 : list apicall) : Prop :=
  (Forall notSiteWrite t1 \/ requested r req s) /\ Forall keepsRoles t3 /\
  match passOf r req s with
  | None => t2 = [] /\ op_failCount s' = op_failCount s
  | Some v => exists sa, op_failCount sa = op_failCount s /\ op_world sa = pass_world v /\
      op_failCount s' = op_failCount (runHandler r v sa) /\
      verdict (pass_ha v) (pass_primary v) (pass_replicas v) sa (runHandler r v sa) t2
  end.

Lemma tail_run r ha prior err p rs s :
  wpt (publishAndConverge r ha prior err p rs) (fun _ s' t =>
    Forall keepsRoles t /\ op_failCount s' = op_failCount s) s.
Proof. apply wpt_and; [apply publishAndConverge_keepsRoles|apply publishAndConverge_counts]. Qed.

Lemma Reconcile_account r req s :
  reconcilerOk r ->
  wpt (Reconcile r req) (fun _ s' t => exists t1 t2 t3, t = t1 ++ t2 ++ t3 /\
    account r req s s' t1 t2 t3) s.
Proof.
  intros Hr. eapply wpt_ext; [apply Reconcile_stages|]. apply wpt_bind.
  eapply wpt_mono; [by apply firstStage_run|].
  intros o s1 t1 [[Hfc Hw] [Eo Es]]. unfold account, passOf.
  destruct (firstStage r req s) as [o' s1']. simpl in Eo, Es. subst o' s1'.
  destruct o as [[e|prior ha p rs e|prior ha p rs pe]|].
  - apply wpt_ret. exists t1, [], []. by split_and!.
  - eapply wpt_mono; [apply tail_run|]. intros o s2 t2 [Hk Hc]. exists t1, [], t2.
    split_and!; try done. congruence.
  - apply wpt_bind. eapply wpt_mono; [apply wpt_self, handleAutomaticFailover_verdict|].
    intros o s2 t2 [Hv [_ E2]]. simpl.
    change (s2 = runHandler r (mkPass (op_world s1) ha p rs) s1) in E2. subst s2.
    destruct o as [[ha2 ae]|].
    2:{ exists t1, t2, []. rewrite app_nil_r. split_and!; try done. by exists s1. }
    destruct (match ae with Ok ae => _ | Err e => _ end) as [[ha3 eff] err].
    destruct (applyPromotionEffect eff (p, rs)) as [p' rs'].
    eapply wpt_mono; [apply tail_run|]. intros o s3 t3 [Hk Hc]. exists t1, t2, t3.
    split_and!; try done. by exists s1.
  - exists t1, [], []. rewrite !app_nil_r. by split_and!.
Qed.

Lemma account_counter r req h s s' t1 t2 t3 :
  counterOk h s -> account r req s s' t1 t2 t3 ->
  counterOk (match passOf r req s with Some v => v :: h | None => h end) s'.
Proof.
  intros Hok (_ & _ & Hv). unfold counterOk, countOf in *. destruct (passOf r req s) as [v|].
  - destruct Hv as (sa & Ea & _ & -> & Hv). eapply verdict_counter; [|exact Hv].
    intros k. unfold countOf. by rewrite Ea.
  - destruct Hv as [_ ->]. done.
Qed.

Lemma afterAll_counter r h s :
  reconcilerOk r -> op_failCount s = ∅ -> counterOk (passes r h s) (afterAll r h s).
Proof.
  intros Hr Hs. induction h as [|i h IH]; [by apply counterOk_start|]. simpl.
  destruct (Reconcile_account r (rq_key i) (startOf r h i s) Hr)
    as (t & _ & _ & t1 & t2 & t3 & _ & Ha).
  eapply account_counter; [|exact Ha]. exact IH.
Qed.

(** The calls of the reconcile of [i] after those of [h]. *)
Definition lastCalls (r : HAClusterReconciler) (h : list request) (i : request) (s : opstate)
    : list apicall :=
  drop (length (op_calls (afterAll r h s))) (op_calls (afterAll r (i :: h) s)).

Lemma lastCalls_app r h i s :
  reconcilerOk r ->
  op_calls (afterAll r (i :: h) s) = op_calls (afterAll r h s) ++ lastCalls r h i s.
Proof.
  intros Hr. unfold lastCalls.
  destruct (Reconcile_account r (rq_key i) (startOf r h i s) Hr) as (t & Et & _).
  change (op_calls (afterAll r (i :: h) s) = op_calls (afterAll r h s) ++ t) in Et.
  by rewrite Et, drop_app_length.
Qed.

(** The passes of [k] that the detector counts: those in Automatic mode. *)
Definition automaticPasses (k : NamespacedName) (h : list pass) : list pass :=
  filter (fun v => haKey (pass_ha v) = k /\ isAutomatic (pass_ha v)) h.

(** A streak is the front of these passes. *)
Lemma streak_front k h n :
  Z.of_nat n <= streak k h ->
  (n <= length (automaticPasses k h))%nat /\
  Forall (fun v => unhealthyPass (pass_ha v) (pass_primary v) (pass_replicas v))
    (take n (automaticPasses k h)).
Proof.
  unfold automaticPasses. revert n. induction h as [|v h IH]; intros n Hn; simpl in *.
  { assert (n = 0%nat) as -> by lia. by split; [simpl; lia|constructor]. }
  rewrite filter_cons. case_decide as Hk; [|by apply IH]. destruct n as [|n]; [by split; [lia|constructor]|].
  case_decide as Hu; [|lia]. destruct (IH n) as [? ?]; [lia|].
  split; [simpl; lia|]. by constructor.
Qed.


(** ** The failover happens *)

(** Failing passes below the threshold are counted one by one. *)
Lemma failing_counted r h k th s :
  reconcilerOk r -> countOf k s = 0 -> Forall (failingPass k th) (passes r h s) ->
  Z.of_nat (length (passes r h s)) < th < 2^62 ->
  countOf k (afterAll r h s) = Z.of_nat (length (passes r h s)).
Proof.
  intros Hr Hs. induction h as [|i h IH]; [done|]. simpl passes. intros Hf Hth.
  destruct (Reconcile_account r (rq_key i) (startOf r h i s) Hr)
    as (t & _ & _ & t1 & t2 & t3 & _ & _ & _ & Ha).
  change (countOf k (Reconcile r (rq_key i) (startOf r h i s)).2
    = Z.of_nat (length (match passOf r (rq_key i) (startOf r h i s) with
        | Some v => v :: passes r h s | None => passes r h s end))).
  unfold countOf. destruct (passOf r (rq_key i) (startOf r h i s)) as [v|].
  2:{ destruct Ha as [_ ->]. by apply IH. }
  destruct Ha as (sa & Ea & Ew & -> & _). apply Forall_cons in Hf as [Hi Hf]. simpl in Hth.
  specialize (IH Hf ltac:(lia)). pose proof (fp_key _ _ _ Hi) as Ek.
  pose proof (bumped_count v sa (Z.of_nat (length (passes r h s)))) as Eb.
  rewrite Ek in Eb. unfold countOf in Eb, IH. rewrite Ea in Eb. specialize (Eb IH ltac:(lia)).
  destruct (failing_handler r v k th sa (fun _ s' _ =>
    default 0 (op_failCount s' !! k) = Z.of_nat (S (length (passes r h s)))) Hi Ew)
    as (t' & _ & _ & Hc); [| |done].
  - intros _ s' _ E. rewrite E, lookup_insert_eq. simpl. rewrite Eb. lia.
  - rewrite Eb. lia.
Qed.

(** The sites of the pass are the sites of the object, with distinct names, and
    the watched primary is one of them. *)
Definition inOrder (v : pass) : Prop :=
  o_name <$> pass_primary v :: pass_replicas v = siteNames (pass_ha v) /\
  NoDup (siteNames (pass_ha v)) /\ "" ∉ siteNames (pass_ha v) /\
  watchedPrimary (pass_ha v) ∈ siteNames (pass_ha v).

#[export] Instance inOrder_dec v : Decision (inOrder v).
Proof. unfold inOrder. apply _. Defined.

(** A site other than the watched primary was observed serving writes. *)
Definition thirdWriter (v : pass) : Prop :=
  Exists (fun x => servesWrites x /\ o_name x <> watchedPrimary (pass_ha v))
    (pass_primary v :: pass_replicas v).

#[export] Instance thirdWriter_dec v : Decision (thirdWriter v).
Proof. unfold thirdWriter. apply _. Defined.

Lemma inOrder_length v : inOrder v -> length (pass_replicas v) = length (spec_Replicas (ha_Spec (pass_ha v))).
Proof.
  intros [Hn _]. apply (f_equal length) in Hn. unfold siteNames in Hn. simpl in Hn.
  rewrite !length_fmap in Hn. lia.
Qed.

Lemma inOrder_completable v :
  inOrder v -> completable (pass_ha v) (pass_replicas v) (watchedPrimary (pass_ha v)).
Proof.
  intros Ho. pose proof (inOrder_length v Ho). destruct Ho as (_ & _ & He & Hw).
  split_and!; [done|done|]. by intros E; rewrite E in Hw.
Qed.

(** The target of the promotion is the decided primary if no third site
    serves writes, and none is decided otherwise. *)
Lemma inOrder_decides v target j p' rs' :
  inOrder v ->
  chooseTarget (pass_ha v) (pass_replicas v) (watchedPrimary (pass_ha v)) = Val (target, j, true) ->
  applyPromotionEffect (mkEffect (watchedPrimary (pass_ha v)) (rs_Name target))
    (pass_primary v, pass_replicas v) = (p', rs') ->
  rs_Name target <> "" /\
  decideCurrentPrimary p' rs' =
    if decide (thirdWriter v) then ("", false) else (rs_Name target, true).
Proof.
  intros Ho Ec Ea. pose proof (chooseTarget_outcome (pass_ha v) (pass_replicas v)
    (watchedPrimary (pass_ha v)) (inOrder_length v Ho)) as Hc.
  rewrite Ec in Hc. destruct Hc as [Hj (o & ((rep & Hrep & Hne) & Hoj & Hre & Hrd & Hnp) & _)].
  simplify_eq. destruct Ho as (Hn & Hnd & He & _).
  assert (Hon : (o_name <$> pass_primary v :: pass_replicas v) !! S j = Some (rs_Name target)).
  { rewrite Hn. unfold siteNames. simpl. by rewrite list_lookup_fmap, Hj. }
  assert (Htn : rs_Name target <> "").
  { intros E. apply He. rewrite <- E, <- Hn. by eapply list_elem_of_lookup_2. }
  rewrite list_lookup_fmap in Hon. simpl in Hon. rewrite Hoj in Hon. injection Hon as Hon.
  split; [done|]. rewrite <- Hn in Hnd.
  set (e := mkEffect (watchedPrimary (pass_ha v)) (rs_Name target)) in *.
  case_decide as Hw.
  - apply Exists_exists in Hw as (x & (k & Hk)%list_elem_of_lookup & Hx & Hxn).
    eapply (promotion_third_writer e _ _ _ _ (S j) o k x); try done.
    intros E. assert (k = S j) as ->.
    { eapply (NoDup_lookup _ _ _ (rs_Name target) Hnd); rewrite list_lookup_fmap, ?Hk;
        simpl; rewrite ?Hoj; simpl; by f_equal. }
    simpl in Hk. rewrite Hoj in Hk. injection Hk as <-.
    unfold servesWrites, primaryReady in Hx. by rewrite Hnp, andb_false_r in Hx.
  - eapply (applyPromotionEffect_decides e _ _ _ _ (S j) o); try done; simpl.
    intros j' x Hx Hs. left. apply dec_stable. intros Hx'. apply Hw, Exists_exists.
    exists x. split; [by eapply list_elem_of_lookup_2|done].
Qed.

(** The status that is sent names the decided primary, or the one that was
    recorded if none is decided, and a failed promotion is returned as an
    error. *)
Lemma tail_records r ha prior err p rs s :
  wpt (publishAndConverge r ha prior err p rs) (fun o _ t =>
    (forall e, err = Some e -> exists e', o = Val (mkCtrl 0, Some e')) /\
    exists hs ans, CStatusUpdate (r_Client r) hs ans ∈ t /\
      st_CurrentPrimarySite (ha_Status hs) =
        if bool_decide ((decideCurrentPrimary p rs).1 = "") then prior else (decideCurrentPrimary p rs).1) s.
Proof.
  unfold publishAndConverge. destruct (decideCurrentPrimary p rs) as [cur av]. cbv zeta.
  apply wpt_bind, wpt_bind, wpt_call; [done|]. intros tm w1 _.
  apply wpt_bind, wpt_call; [done|]. intros tm' w2 _. apply wpt_ret.
  set (ha2 := setCondition _ _).
  assert (Hcur : st_CurrentPrimarySite (ha_Status ha2) = if bool_decide (cur = "") then prior else cur).
  { unfold ha2. simpl. by case_bool_decide. }
  clearbody ha2. apply wpt_bind. eapply wpt_mono;
    [apply wpt_self, (publishMetrics_emits (fun _ => True))|]. intros o s1 t1 [_ [Eo _]].
  destruct (publishMetrics_returns ha2 cur (bool_decide (0 < length (detectSplitBrain p rs))%nat) p rs
    (advance w2 [CNow tm'] (advance w1 [CNow tm] s))) as (u & Eu & _).
  rewrite Eu in Eo. subst o. apply wpt_bind, wpt_call; [done|]. intros ru w _.
  eapply (wpt_mono _ (fun o _ _ => forall e, err = Some e -> exists e', o = Val (mkCtrl 0, Some e'))).
  - destruct ru as [ha3|e]; [|apply wpt_ret; eauto]. destruct err as [e|]; [apply wpt_ret; eauto|].
    apply wpt_bind. eapply wpt_mono; [apply topology_notStatus|].
    intros [[[]|e]|] s3 t3 _; [apply wpt_ret..|]; done.
  - intros o s3 t3 He. split; [done|]. exists ha2, ru. split; [set_solver|done].
Qed.

(** The primary recorded by the object a reconcile reads. *)
Definition readPrimary (r : HAClusterReconciler) (req : NamespacedName) (s : opstate) : string :=
  match (observe r req s).1 with
  | Val (Ok (ha, _, _)) => st_CurrentPrimarySite (ha_Status ha)
  | _ => ""
  end.

Lemma firstStage_prior r req s prior ha p rs pe s1 :
  firstStage r req s = (Val (Next prior ha p rs pe), s1) -> readPrimary r req s = prior.
Proof.
  unfold firstStage, readPrimary, mbind, M_bind.
  destruct (observe r req s) as [[[[[ha0 p0] rs0]|e]|] s0]; try done. cbn. unfold mbind, M_bind.
  destruct (handlePromoteAnnotation r ha0 p0 rs0 s0) as [[[ha1 [pe'|e]]|] s2]; cbn; try done.
  by intros [= -> _ _ _ _].
Qed.

(** C11. A sustained failure is answered. Take an operator that has counted no
    failure of an HACluster yet, and a history of reconciles, the world changing
    arbitrarily in between, in which as many as the threshold says get to the
    automatic failover, all of that HACluster and in Automatic mode, with no
    usable current primary, no split-brain and the stabilization window over. If some replica is
    eligible in the last of them, that reconcile runs the promotion of the
    chosen one in place of the watched primary. If the promotion fails, the
    reconcile returns an error, so it is run again. If it succeeds, and the
    observed sites are those of the object, with distinct names and the watched
    primary among them, the status that is sent names the target as the current
    primary, unless a site other than the watched primary was observed serving
    writes: the status then still names the primary that the object recorded
    when it was read. And for sites in such order the promotion does not fail
    when the API servers answer its calls and the kubeconfigs are usable. *)
Theorem sustained_failure_answered `{!UnstructuredLaws} r h i v k th target j s :
  reconcilerOk r -> countOf k s = 0 -> th < 2^62 ->
  passOf r (rq_key i) (startOf r h i s) = Some v ->
  Forall (failingPass k th) (v :: passes r h s) -> Z.of_nat (length (v :: passes r h s)) = th ->
  chooseTarget (pass_ha v) (pass_replicas v) (watchedPrimary (pass_ha v)) = Val (target, j, true) ->
  wpt (Reconcile r (rq_key i)) (fun o _ t => exists res t1 t2 t3, t = t1 ++ t2 ++ t3 /\
    attempted r (pass_ha v) (watchedPrimary (pass_ha v)) target (rq_world i) t1 t2 res /\
    (forall e, res = Err e -> exists e', o = Val (mkCtrl 0, Some e')) /\
    (inOrder v -> res = Ok tt -> exists hs ans, CStatusUpdate (r_Client r) hs ans ∈ t3 /\
       st_CurrentPrimarySite (ha_Status hs) =
         if decide (thirdWriter v) then readPrimary r (rq_key i) (startOf r h i s)
         else rs_Name target) /\
    (inOrder v -> Forall (answered (pass_ha v)) t2 -> res = Ok tt)) (startOf r h i s).
Proof.
  intros Hr Hzero Hth Hv [Hi Hh]%Forall_cons Hlen Ec. simpl in Hlen.
  pose proof (failing_counted r h k th s Hr Hzero Hh ltac:(lia)) as Hc.
  eapply wpt_ext; [apply Reconcile_stages|]. apply wpt_bind.
  destruct (firstStage_run r (rq_key i) (startOf r h i s) Hr) as (ta & Hta & Hxa & [Hfc _] & _).
  pose proof (firstStage_prior r (rq_key i) (startOf r h i s)) as Hprior.
  unfold passOf in Hv. destruct (firstStage r (rq_key i) (startOf r h i s)) as [o1 s1] eqn:E.
  destruct o1 as [[|? ? ? ? ?|prior ha p rs pe]|]; try done. injection Hv as <-.
  rewrite (Hprior _ _ _ _ _ _ eq_refl). clear Hprior.
  exists ta. rewrite E. split_and!; [done|done|]. simpl in Hta, Hxa, Hfc, Hi, Ec |- *.
  pose proof (fp_key _ _ _ Hi) as Ek. simpl in Ek.
  assert (Eb : bumped ha s1 = Z.of_nat (length (passes r h s)) + 1).
  { apply (bumped_count (mkPass (op_world s1) ha p rs)); [|lia]. simpl. rewrite Ek.
    unfold countOf. by rewrite Hfc. }
  apply wpt_bind. eapply (failing_handler r (mkPass (op_world s1) ha p rs)); [exact Hi|done| |];
    simpl; rewrite Eb; [lia|].
  intros _ s2 tb Hxb. eapply wpt_mono;
    [eapply (autoPromote_attempts _ _ _ _ _ _ _ _ (rq_world i) (ta ++ tb)); [exact Ec|];
     by eapply exec_app|].
  intros o s3 tc (res & t1 & t2 & t3 & Et & Hatt & Hrep & Hok).
  assert (Hsplit : forall td, ta ++ (tb ++ tc) ++ td = t1 ++ t2 ++ t3 ++ td).
  { intros td. rewrite <- (app_assoc tb), (app_assoc ta), (app_assoc (ta ++ tb)), Et.
    by rewrite <- !app_assoc. }
  destruct Hrep as (ha' & Hrep). destruct res as [[]|e].
  - destruct Hrep as [-> _]. set (eff := if didPromote _ then _ else _).
    destruct (applyPromotionEffect eff (p, rs)) as [p' rs'] eqn:Ea.
    eapply wpt_mono; [apply tail_records|]. intros o' s4 td [_ (hs & ans & Hin & Hcp)].
    exists (Ok tt), t1, t2, (t3 ++ td). split_and!; [apply Hsplit|done|done| |done].
    intros Ho _. destruct (applyPromotionEffect (mkEffect (watchedPrimary ha) (rs_Name target)) (p, rs))
      as [p1 rs1] eqn:Ea1.
    destruct (inOrder_decides (mkPass (op_world s1) ha p rs) target j p1 rs1 Ho Ec Ea1) as [Hne Hd].
    unfold eff, didPromote in Ea. simpl in Ea. rewrite bool_decide_eq_false_2 in Ea by done.
    simpl in Ea. rewrite Ea1 in Ea. injection Ea as -> ->.
    exists hs, ans. split; [set_solver|]. rewrite Hcp, Hd.
    case_decide; simpl; [done|by rewrite bool_decide_eq_false_2].
  - rewrite Hrep. destruct (applyPromotionEffect pe (p, rs)) as [p' rs'].
    eapply wpt_mono; [apply tail_records|]. intros o' s4 td [He _].
    exists (Err e), t1, t2, (t3 ++ td). split_and!; [apply Hsplit|done|by intros; eapply He|done|].
    intros Ho Ha. apply Hok; [|done]. by apply (inOrder_completable (mkPass (op_world s1) ha p rs)).
Qed.
(** ** When a reconcile panics *)

(** The handler reaches a replica of the object for which there is no
    observation. *)
Definition reachesUnobserved (v : pass) : Prop :=
  let reps := spec_Replicas (ha_Spec (pass_ha v)) in
  (exists k rep, reps !! k = Some rep /\ rs_Name rep <> watchedPrimary (pass_ha v) /\
     (length (pass_replicas v) <= k)%nat) /\
  (fs_PromotionPolicy (spec_Failover (ha_Spec (pass_ha v))) = PromotionPolicyMostAdvancedLSN \/
   forall k rep o, reps !! k = Some rep -> rs_Name rep <> watchedPrimary (pass_ha v) ->
     pass_replicas v !! k = Some o -> healthyReplica o = false).

(** A failing pass that is at its threshold. *)
Definition reachesThreshold (v : pass) (s : opstate) : Prop :=
  let th := effectiveFailureThreshold (spec_Failover (ha_Spec (pass_ha v))) in
  failingPass (haKey (pass_ha v)) th v /\ th <= bumped (pass_ha v) s.

Lemma handler_panics r v s :
  op_world s = pass_world v ->
  (handleAutomaticFailover r (pass_ha v) (pass_primary v) (pass_replicas v) s).1 = Panicked ->
  reachesThreshold v s /\
  chooseTarget (pass_ha v) (pass_replicas v) (watchedPrimary (pass_ha v)) = Panicked.
Proof.
  destruct v as [w ha p rs]; simpl; intros <-. unfold handleAutomaticFailover.
  destruct (bool_decide (fs_Mode _ = _)) eqn:Em; [|done]. simpl. apply bool_decide_eq_true_1 in Em.
  case_bool_decide as Hsb; [done|].
  assert (Esb : detectSplitBrain p rs = []) by (destruct (detectSplitBrain p rs); [done|simpl in Hsb; lia]).
  assert (Hst : exists b s1, stabilizing ha s = (Val b, s1) /\ op_failCount s1 = op_failCount s /\
    (b = false -> windowOver ha (op_world s))).
  { unfold stabilizing, windowOver. destruct (st_LastFailoverTime _) as [lf|]; [|by exists false, s].
    unfold mbind, M_bind, now, call. destruct (timeNow (op_world s)) as [t w']. simpl.
    eexists _, _. split_and!; [done..|]. by intros ?%Z.ltb_ge. }
  destruct Hst as (b & s1 & Es & Hfc & Hw). unfold mbind, M_bind. rewrite Es. destruct b; [done|].
  specialize (Hw eq_refl).
  destruct (healthyPrimary _) eqn:Hh; [done|].
  assert (Hbump : exists s2, bumpFailCount (haKey ha) s1 = (Val (bumped ha s), s2)).
  { eexists. unfold bumpFailCount, mbind, M_bind, modifyFailCount, gets. cbn -[insert lookup].
    rewrite lookup_insert_eq. unfold bumped. by rewrite Hfc. }
  destruct Hbump as (s2 & ->). destruct (bumped ha s <? _) eqn:Elt; simpl.
  { unfold event. by destruct (r_hasRecorder r). }
  intros Hp. bool_prop.
  assert (Ec : chooseTarget ha rs (watchedPrimary ha) = Panicked).
  { destruct (chooseTarget ha rs (watchedPrimary ha)) eqn:Ec; [|done]. exfalso.
    destruct (autoPromote_returns r ha rs (watchedPrimary ha) (bumped ha s)
      (effectiveFailureThreshold (spec_Failover (ha_Spec ha))) ltac:(by rewrite Ec) s2) as (? & Ea & _).
    by rewrite Ea in Hp. }
  split; [|done]. split; [|done]. by split.
Qed.

(** The reconcile up to the automatic failover returns. *)
Lemma firstStage_returns r req : reconcilerOk r -> returns (firstStage r req) anything.
Proof.
  intros Hr. unfold firstStage.
  eapply (returns_bind _ _ (fun ro => forall ha p rs, ro = Ok (ha, p, rs) ->
    length rs = length (spec_Replicas (ha_Spec ha)))).
  { eapply (returns_bind _ _ anything); [by apply returns_call|].
    intros [ha|e] _; [|by apply returns_ret].
    eapply returns_bind; [by apply returns_quiet, observePrimary_quiet|]. intros p _.
    eapply returns_bind; [by apply returns_quiet, observeReplicas_quiet|]. intros rs Hrs.
    apply returns_ret. intros ha' p' rs' [= <- <- <-].
    by rewrite <- (length_fmap o_name), Hrs, length_fmap. }
  intros [[[ha p] rs]|e] Hlen; [|by apply returns_ret].
  eapply returns_bind; [|intros; by apply returns_ret].
  apply (handlePromoteAnnotation_returns (fun _ _ => True)); try done. by eapply Hlen.
Qed.

Lemma secondStage_panics r x s :
  (secondStage r x s).1 = Panicked ->
  exists prior ha p rs pe, x = Next prior ha p rs pe /\
    (handleAutomaticFailover r ha p rs s).1 = Panicked.
Proof.
  assert (Htail : forall ha1 prior err p rs s1, (publishAndConverge r ha1 prior err p rs s1).1 <> Panicked).
  { intros. destruct (publishAndConverge_returns r ha1 prior err p rs s1) as (? & -> & _). done. }
  destruct x as [e|prior ha p rs e|prior ha p rs pe]; simpl; [done|by intros ?%Htail|].
  unfold mbind, M_bind. intros Hp. exists prior, ha, p, rs, pe. split; [done|].
  destruct (handleAutomaticFailover r ha p rs s) as [[auto|] s1]; [|done]. exfalso. revert Hp.
  destruct auto as [ha2 [ae|e]]; destruct (applyPromotionEffect _ _); apply Htail.
Qed.

(** C14. Exactly when a reconcile panics. Whatever the world and the memory of
    the process: a reconcile panics if and only if it gets to the automatic
    failover, in Automatic mode, with no usable primary, no split-brain, the
    stabilization window over and the failure counter at its threshold, while
    the object in memory lists a replica, other than the watched primary, at a
    position that was not observed; and, unless the policy is the most
    advanced replica, only if none of the observed replicas may be promoted.
    Since the observations cover the object that was read, this takes an edit
    of the replicas between the read and the patch of a rejected annotation. *)
Theorem Reconcile_panics r req s :
  reconcilerOk r ->
  (Reconcile r req s).1 = Panicked <->
  exists v, passOf r req s = Some v /\ reachesThreshold v s /\ reachesUnobserved v.
Proof.
  intros Hr. rewrite Reconcile_stages. unfold mbind, M_bind, passOf.
  destruct (firstStage_run r req s Hr) as (_ & _ & _ & [Hfc _] & _).
  destruct (firstStage_returns r req Hr s) as (x & Ex & _).
  destruct (firstStage r req s) as [o s1]. simpl in Ex, Hfc. subst o.
  assert (Hb : forall v, reachesThreshold v s1 <-> reachesThreshold v s)
    by (intros v; unfold reachesThreshold, bumped; by rewrite Hfc).
  split.
  - intros (prior & ha & p & rs & pe & -> & Hp)%secondStage_panics.
    exists (mkPass (op_world s1) ha p rs). split; [done|].
    apply (handler_panics r (mkPass (op_world s1) ha p rs)) in Hp as [Ht Hc]; [|done].
    apply Hb in Ht. split; [done|]. by apply chooseTarget_panics in Hc.
  - intros (v & Hv & Ht%Hb & Hu). destruct x as [| |prior ha p rs pe]; try done. injection Hv as <-.
    destruct Ht as [Hf Hle]. apply (proj2 (chooseTarget_panics ha rs (watchedPrimary ha))) in Hu.
    destruct (failing_handler r _ _ _ s1 (fun o _ _ => o = Panicked) Hf eq_refl)
      as (t & _ & _ & Ep).
    { intros Hlt. simpl in *. lia. }
    { intros _ s2 t1 _. unfold autoPromote. simpl. rewrite Hu. by apply wpt_panic. }
    simpl in Ep |- *. unfold mbind, M_bind. destruct (handleAutomaticFailover r ha p rs s1) as [o s2].
    simpl in Ep. by subst o.
Qed.
End detector.

(** The primary's Cluster has no ready instance; "b" is a healthy replica. *)
Definition downWorld (mode : string) (ready : Z) : fakeWorld :=
  mkFake
    (list_to_map
       [(("local", NN "db" "pg"), obj [("metadata", sampleMeta "db" "pg"); ("status", sampleStatus ready)]);
        (("remote", NN "db" "pg"), sampleReplica "db" "pg" "peer" "local-host")])
    (fw_services twoSites)
    {[("local", NN "ops" "b") := mkSecret "1" (Some {["value" := "remote"]})]}
    {[("local", NN "ops" "ha") := sampleHA mode "Ordered"]} 1000 [] None ∅.

Definition downRequest : @request fakeExtern :=
  mkRequest (H := fakeExtern) (downWorld "Automatic" 0) (NN "ops" "ha").

(** The primary is back, and the mode is Manual for a while. *)
Definition manualRequest : @request fakeExtern :=
  mkRequest (H := fakeExtern) (downWorld "Manual" 1) (NN "ops" "ha").

Definition isTraffic (a : @apicall fakeExtern) : bool :=
  match a with CUpdateService _ _ _ => true | _ => false end.


Lemma default_found {A} (d : A) (o : option A) : bool_decide (is_Some o) = true -> o = Some (default d o).
Proof. by destruct o. Qed.

(** The pass of the third reconcile. *)
Definition thirdPass : @pass fakeExtern :=
  default (mkPass (H := fakeExtern) emptyWorld (sampleHA "" "") (sampleObs "" false false false) [])
    (passOf sampleReconciler (NN "ops" "ha")
       (startOf sampleReconciler [downRequest; downRequest] downRequest (fakeState emptyWorld))).

Lemma sustained_failure_answered_witness :
  let r := sampleReconciler in let s := fakeState emptyWorld in let h := [downRequest; downRequest] in
  inOrder thirdPass /\ ~ thirdWriter thirdPass /\
  wpt (Reconcile r (NN "ops" "ha")) (fun o _ t => exists res t1 t2 t3, t = t1 ++ t2 ++ t3 /\
    attempted r (pass_ha thirdPass) "a" (sampleReplicaSite "b") (downWorld "Automatic" 0) t1 t2 res /\
    (forall e, res = Err e -> exists e', o = Val (mkCtrl 0, Some e')) /\
    (inOrder thirdPass -> res = Ok tt -> exists hs ans, CStatusUpdate (r_Client r) hs ans ∈ t3 /\
       st_CurrentPrimarySite (ha_Status hs) =
         if decide (thirdWriter thirdPass) then readPrimary r (NN "ops" "ha") (startOf r h downRequest s)
         else "b") /\
    (inOrder thirdPass -> Forall (answered (pass_ha thirdPass)) t2 -> res = Ok tt))
    (startOf r h downRequest s).
Proof.
  intros r s h. split; [apply (bool_decide_eq_true_1 (inOrder thirdPass)); reflexivity|].
  split; [apply (bool_decide_eq_true_1 (~ thirdWriter thirdPass)); reflexivity|].
  refine (sustained_failure_answered r h downRequest thirdPass (NN "ops" "ha") 3
    (sampleReplicaSite "b") 0 s I eq_refl eq_refl _ _ eq_refl eq_refl).
  { apply default_found. reflexivity. }
  apply (bool_decide_eq_true_1 (Forall (failingPass (NN "ops" "ha") 3) (thirdPass :: passes r h s))).
  reflexivity.
Defined.

(** The failure counter survives a change of mode: two unhealthy passes in
    Automatic mode, then passes in Manual mode in which the primary is healthy,
    then one unhealthy pass back in Automatic mode, and the reconcile promotes
    at once, although the threshold is three and the three unhealthy
    observations were not consecutive. *)
Theorem failure_counter_survives_manual_mode :
  let s := fakeState emptyWorld in
  existsb isTraffic (lastCalls sampleReconciler [downRequest; downRequest] manualRequest s) = false /\
  existsb isTraffic (lastCalls sampleReconciler
    [manualRequest; manualRequest; downRequest; downRequest] downRequest s) = true.
Proof. split; reflexivity. Qed.

(** A replica is added to the spec between the read and the removal of a
    rejected annotation. *)
Definition racingPass : @pass fakeExtern :=
  default (mkPass (H := fakeExtern) emptyWorld (sampleHA "" "") (sampleObs "" false false false) [])
    (passOf sampleReconciler (NN "ops" "ha") racingState).

Lemma Reconcile_panics_witness :
  (Reconcile sampleReconciler (NN "ops" "ha") racingState).1 = Panicked /\
  length (pass_replicas racingPass) = 1%nat /\
  length (spec_Replicas (ha_Spec (pass_ha racingPass))) = 2%nat.
Proof.
  split; [|split; reflexivity].
  apply (proj2 (Reconcile_panics sampleReconciler (NN "ops" "ha") racingState I)).
  exists racingPass. split; [apply default_found; reflexivity|]. split.
  - split; [|reflexivity]. apply (bool_decide_eq_true_1 (failingPass (NN "ops" "ha") 3 racingPass)).
    reflexivity.
  - split.
    + exists 1%nat, (sampleReplicaSite "c"). split; [reflexivity|]. split; [discriminate|].
      apply (bool_decide_eq_true_1 (length (pass_replicas racingPass) <= 1)%nat). reflexivity.
    + right. intros [|k] rep o _ _ Ho; [|discriminate Ho]. injection Ho as <-. reflexivity.
Defined.
