(* ===== verification/Isolation.v ===== *)
(** * HAClusters do not interfere

    One process reconciles all HAClusters and shares its failure counters, its
    events and its metrics between them. A reconcile of one of them leaves
    what belongs to the others alone. The second part is about series that
    belong to nobody any more: those of a site that left the spec. *)

From S2P Require Import Prelude GoStd Api External FakeKube Operator Fixtures.
From S2P Require Import Metrics Health Promotion RemoteClient Decision Observe Status Failover.
From S2P Require Import Automatic Reconcile Publish Detector.

Section isolation.
Context `{Extern} `{!PromModel} `{!PromLaws}.

(** The label values of a series start with the HACluster's name and namespace. *)
Definition seriesOf (k : NamespacedName) (ls : list string) : Prop :=
  ls !! 0%nat = Some (nn_name k) /\ ls !! 1%nat = Some (nn_namespace k).

#[export] Instance seriesOf_dec k ls : Decision (seriesOf k ls).
Proof. unfold seriesOf. apply _. Defined.

(** The API server answers about the HACluster it was asked about. *)
Definition onTopic (a : apicall) : Prop :=
  match a with
  | CGetHA _ k (Ok ha) => haKey ha = k
  | CPatchHA _ ha0 _ (Ok ha) | CStatusUpdate _ ha0 (Ok ha) => haKey ha = haKey ha0
  | _ => True
  end.

#[export] Instance onTopic_dec a : Decision (onTopic a).
Proof. unfold onTopic. repeat case_match; apply _. Defined.

(** Of the HAClusters only [k] is written. *)
Definition haWriteOf (k : NamespacedName) (a : apicall) : Prop :=
  match a with
  | CPatchHA _ ha _ _ | CStatusUpdate _ ha _ => haKey ha = k
  | _ => True
  end.

(** Between [s] and [s'] nothing happened to other HAClusters than [k]: their
    failure counters and their gauge, counter and histogram series are the same,
    the new events are about [k], and so are the writes to HAClusters. *)
Record isolated (k : NamespacedName) (s s' : opstate) (t : list apicall) : Prop := {
  iso_count k' : k' <> k -> op_failCount s' !! k' = op_failCount s !! k';
  iso_gauges v ls : ~ seriesOf k ls ->
    gaugeRead (op_metrics s') v ls = gaugeRead (op_metrics s) v ls;
  iso_counters v ls : ~ seriesOf k ls ->
    counterRead (op_metrics s') v ls = counterRead (op_metrics s) v ls;
  iso_histograms v ls : ~ seriesOf k ls ->
    histogramRead (op_metrics s') v ls = histogramRead (op_metrics s) v ls;
  iso_events : exists es, op_events s' = op_events s ++ es /\ Forall (fun e => ev_object e = k) es;
  iso_writes : Forall (haWriteOf k) t
}.

Lemma isolated_trans k s s1 s2 t1 t2 :
  isolated k s s1 t1 -> isolated k s1 s2 t2 -> isolated k s s2 (t1 ++ t2).
Proof.
  intros [C1 G1 K1 O1 (es1 & E1 & F1) W1] [C2 G2 K2 O2 (es2 & E2 & F2) W2]. split.
  - intros. by rewrite C2, C1.
  - intros. by rewrite G2, G1.
  - intros. by rewrite K2, K1.
  - intros. by rewrite O2, O1.
  - exists (es1 ++ es2). rewrite E2, E1, app_assoc. split; [done|by apply Forall_app].
  - by apply Forall_app.
Qed.

(** Nothing of the process that is not about clients has changed. *)
Lemma isolated_plain k s s' t :
  op_failCount s' = op_failCount s -> op_metrics s' = op_metrics s -> op_events s' = op_events s ->
  Forall (haWriteOf k) t -> isolated k s s' t.
Proof.
  intros Ec Em Ee Hw. split; intros; rewrite ?Ec, ?Em, ?Ee; [done..| |done].
  exists []. by rewrite app_nil_r.
Qed.

(** Under [C], if the API server stays on topic, [m] is isolated and its value
    satisfies [P]. *)
Definition isolates {A} (k : NamespacedName) (C : Prop) (m : M A) (P : A -> Prop) : Prop :=
  forall s, wpt m (fun o s' t => C -> Forall onTopic t ->
    isolated k s s' t /\ forall a, o = Val a -> P a) s.

Lemma isolates_ret {A} k (C : Prop) (a : A) (P : A -> Prop) : (C -> P a) -> isolates k C (mret a) P.
Proof.
  intros HP s. apply wpt_ret. intros HC _. split; [by apply isolated_plain|].
  intros ? [= <-]. auto.
Qed.

Lemma isolates_panic {A} k C (P : A -> Prop) : isolates k C panic P.
Proof. intros s. apply wpt_panic. intros _ _. split; [by apply isolated_plain|done]. Qed.

Lemma isolates_bind {A B} k C (m : M A) (f : A -> M B) (P : A -> Prop) (Q : B -> Prop) :
  isolates k C m P -> (forall a, isolates k (C /\ P a) (f a) Q) -> isolates k C (m ≫= f) Q.
Proof.
  intros Hm Hf s. apply wpt_bind. eapply wpt_mono; [apply Hm|].
  intros [a|] s1 t1 Hi1; [|intros HC Ht; split; [by apply Hi1|done]].
  eapply wpt_mono; [apply (Hf a)|]. intros o s2 t2 Hi2 HC [T1 T2]%Forall_app.
  destruct (Hi1 HC T1) as [I1 Pa]. destruct Hi2 as [I2 Qb]; [auto|done|].
  split; [by eapply isolated_trans|done].
Qed.

Lemma isolates_mono {A} k (C C' : Prop) (m : M A) (P Q : A -> Prop) :
  isolates k C' m P -> (C -> C') -> (forall a, C -> P a -> Q a) -> isolates k C m Q.
Proof.
  intros Hm HC HPQ s. eapply wpt_mono; [apply Hm|]. intros o s' t Ht Hc HT.
  destruct (Ht (HC Hc) HT). split; [done|]. eauto.
Qed.

Lemma reads_haWriteOf k a : isWrite a = false -> haWriteOf k a.
Proof. by destruct a. Qed.

Lemma isolates_quiet {A} k C (m : M A) (P : A -> Prop) : isQuiet m P -> isolates k C m P.
Proof.
  intros Hm s. eapply wpt_mono; [apply Hm|]. intros o s' t (a & -> & Ha & [Hr E1 E2 E3]) _ _.
  split; [|by intros ? [= <-]]. apply isolated_plain; try done.
  eapply Forall_impl; [exact Hr|apply reads_haWriteOf].
Qed.

Lemma isolates_talks {A} k C (m : M A) R (P : A -> Prop) :
  talks m R -> (forall t a, R t a -> Forall (haWriteOf k) t /\ P a) -> isolates k C m P.
Proof.
  intros Hm HR s. eapply wpt_talks; [exact Hm|]. intros t a w' Hr _ _ _.
  destruct (HR t a Hr). split; [by apply isolated_plain|]. by intros ? [= <-].
Qed.

Lemma isolates_call {A} k (C : Prop) (f : World -> A * World) log (P : A -> Prop) :
  (forall a w w', f w = (a, w') -> answers (log a) w w') ->
  (forall a, C -> haWriteOf k (log a)) -> (forall a, C -> onTopic (log a) -> P a) ->
  isolates k C (call f log) P.
Proof.
  intros Ha Hc HP s. apply wpt_call; [done|]. intros a w' _ HC [Ht _]%Forall_cons.
  split; [apply isolated_plain; try done; repeat constructor; auto|]. intros ? [= <-]. auto.
Qed.

(** ** The operations *)

(** Changing what belongs to [k], without a call. *)
Lemma isolates_local k (C : Prop) (m : M unit) :
  (forall s, (m s).1 = Val tt /\ op_calls (m s).2 = op_calls s /\ op_world (m s).2 = op_world s) ->
  (forall s, C -> isolated k s (m s).2 []) -> isolates k C m (fun _ => True).
Proof.
  intros Hm Hi s. destruct (Hm s) as (Eo & ? & ?). apply wpt_local; [done|done|].
  rewrite Eo. intros HC _. auto.
Qed.

Lemma event_isolates k (C : Prop) r ha ty reason msg :
  (C -> haKey ha = k) -> isolates k C (event r ha ty reason msg) (fun _ => True).
Proof.
  intros Hk. apply isolates_local; intros s; unfold event; destruct (r_hasRecorder r); try done.
  - intros HC. split; try done. simpl. eexists. split; [done|]. repeat constructor. auto.
  - intros _. by apply isolated_plain.
Qed.

(** An update of the registry that touches the series of [k] only. *)
Definition updates (k : NamespacedName) (f : registry -> registry) : Prop :=
  forall reg v ls, ~ seriesOf k ls ->
    gaugeRead (f reg) v ls = gaugeRead reg v ls /\ counterRead (f reg) v ls = counterRead reg v ls /\
    histogramRead (f reg) v ls = histogramRead reg v ls.

Lemma modifyMetrics_isolates k C f :
  (C -> updates k f) -> isolates k C (modifyMetrics f) (fun _ => True).
Proof.
  intros Hf. apply isolates_local; [done|]. intros s HC.
  split; try done; simpl; [..|exists []; by rewrite app_nil_r]; intros; by apply Hf.
Qed.

Lemma WithLabelValues_isolates k C v ls f :
  (C -> updates k (fun reg => f reg v ls)) -> isolates k C (WithLabelValues v ls f) (fun _ => True).
Proof.
  intros Hf. unfold WithLabelValues. case_bool_decide; [by apply modifyMetrics_isolates|].
  apply isolates_panic.
Qed.

Lemma updates_set k v ls x : seriesOf k ls -> updates k (fun reg => gaugeSet reg v ls x).
Proof.
  intros Hk reg v' ls' Hn. rewrite histogramRead_set, counterRead_set, gaugeRead_set, decide_False; [done|].
  by intros [= _ <-].
Qed.

Lemma updates_delete k v ls : seriesOf k ls -> updates k (fun reg => gaugeDelete reg v ls).
Proof.
  intros Hk reg v' ls' Hn. rewrite histogramRead_delete, counterRead_delete, gaugeRead_delete, decide_False; [done|].
  by intros [= _ <-].
Qed.

Lemma updates_inc k v ls : seriesOf k ls -> updates k (fun reg => counterInc reg v ls).
Proof.
  intros Hk reg v' ls' Hn. rewrite histogramRead_inc, gaugeRead_inc, counterRead_inc, decide_False; [done|].
  by intros [= _ <-].
Qed.

Lemma updates_observe k v ls x : seriesOf k ls -> updates k (fun reg => histogramObserve reg v ls x).
Proof.
  intros Hk reg v' ls' Hn. rewrite gaugeRead_observe, counterRead_observe, histogramRead_observe,
    decide_False; [done|]. by intros [= _ <-].
Qed.

(** The series a partial match with a site of [k] deletes. *)
Lemma updates_partial k site :
  updates k (fun reg => gaugeDeletePartial reg SiteLSNInfo (siteMatch (nn_namespace k) (nn_name k) site)).
Proof.
  intros reg v ls Hn. split; [|by rewrite counterRead_deletePartial, histogramRead_deletePartial].
  rewrite gaugeRead_deletePartial. case_decide as Hv; [|done]. subst v.
  destruct (labelsMatch _ _ _) eqn:Hm; [|done]. exfalso. apply Hn.
  unfold labelsMatch in Hm. simpl in Hm. rewrite !andb_true_iff, !bool_decide_eq_true in Hm.
  destruct Hm as (Hh & Hs & _).
  destruct ls as [|a [|b [|c [|d ls]]]]; simpl in *;
    rewrite ?elem_of_cons, ?elem_of_nil in Hh, Hs; split; simpl; naive_solver.
Qed.

Lemma seriesOf_key ha l : seriesOf (haKey ha) (ha_Name ha :: ha_Namespace ha :: l).
Proof. by split. Qed.

Lemma setFailoverInProgress_isolates k (C : Prop) ha b target :
  (C -> haKey ha = k) -> isolates k C (setFailoverInProgress ha b target) (fun ha' => haKey ha' = k).
Proof.
  intros Hk. eapply (isolates_bind _ _ _ _ (fun _ => True)); [by apply isolates_call|].
  intros t. apply isolates_ret. intros [HC _]. by apply Hk.
Qed.

Lemma clearPromoteAnnotation_isolates k (C : Prop) r ha :
  (C -> haKey ha = k) -> isolates k C (clearPromoteAnnotation r ha) (fun res => haKey res.1 = k).
Proof.
  intros Hk. unfold clearPromoteAnnotation. destruct (hasPromote ha); [|by apply isolates_ret].
  eapply (isolates_bind _ _ _ _ (fun rp => forall ha', rp = Ok ha' -> haKey ha' = k)).
  - apply isolates_call; [done|done|]. intros [ha'|e] HC Ht ? [= <-]. simpl in Ht.
    rewrite Ht. by apply Hk.
  - intros [ha'|e]; apply isolates_ret; intros [HC Hp]; simpl; [|by apply Hk]. by apply (Hp ha').
Qed.

Lemma runPromotion_isolates k C r ha old target :
  isolates k C (runPromotion r ha old target) (fun _ => True).
Proof.
  unfold runPromotion. repeat (case_bool_decide; [by apply isolates_ret|]).
  eapply isolates_bind; [apply isolates_quiet, siteClientAndRef_quiet|].
  intros [[oc oref]|]; [|by apply isolates_ret].
  eapply isolates_bind; [apply isolates_quiet, GetOrCreate_quiet|].
  intros [nc|e]; [|by apply isolates_ret].
  eapply isolates_talks; [apply promotionSteps_talks|]. intros t res Hr. split; [|done].
  clear - Hr. assert (Hf : forall c ref t rf, fence_run c ref t rf -> Forall (haWriteOf k) t)
    by (intros ???? []; by repeat constructor).
  assert (Hs : forall c ref role t rs, flip_run c ref role t rs -> Forall (haWriteOf k) t)
    by (intros ????? []; by repeat constructor).
  assert (Hp : forall c ref t rp, promote_run c ref t rp -> Forall (haWriteOf k) t)
    by (intros ???? []; by repeat constructor).
  destruct Hr; rewrite ?Forall_app; split_and?; eauto.
Qed.

Lemma rejectPromote_isolates k (C : Prop) r ha msg :
  (C -> haKey ha = k) -> isolates k C (rejectPromote r ha msg) (fun res => haKey res.1 = k).
Proof.
  intros Hk. eapply isolates_bind; [by apply event_isolates|]. intros ?.
  eapply isolates_bind; [apply clearPromoteAnnotation_isolates; naive_solver|].
  intros res. apply isolates_ret. by intros [_ ?].
Qed.

Lemma failoverMetric_isolates k (C : Prop) ha mode f v :
  (C -> haKey ha = k) ->
  (forall ls, seriesOf k ls -> updates k (fun reg => f reg v ls)) ->
  isolates k C (WithLabelValues v [ha_Name ha; ha_Namespace ha; mode] f) (fun _ => True).
Proof.
  intros Hk Hf. apply WithLabelValues_isolates. intros HC. apply Hf. rewrite <- (Hk HC).
  apply seriesOf_key.
Qed.

(** Step over an operation on the object. *)
Ltac iso_step :=
  lazymatch goal with
  | |- isolates _ _ (mret _) _ => apply isolates_ret; simpl; naive_solver
  | |- isolates _ _ (mbind _ _) _ =>
      eapply isolates_bind;
        [first [apply event_isolates; naive_solver
               | apply setFailoverInProgress_isolates; naive_solver
               | apply clearPromoteAnnotation_isolates; naive_solver
               | apply runPromotion_isolates
               | apply failoverMetric_isolates;
                   [naive_solver|intros; first [by apply updates_inc|by apply updates_observe]]
               | by apply (isolates_call _ _ _ _ (fun _ => True))]
        |intros]
  end.

Lemma handlePromoteAnnotation_isolates k (C : Prop) r ha p rs :
  (C -> haKey ha = k) -> isolates k C (handlePromoteAnnotation r ha p rs) (fun res => haKey res.1 = k).
Proof.
  intros Hk. pose proof (fun msg => rejectPromote_isolates k C r ha msg Hk) as Hrej.
  unfold handlePromoteAnnotation. destruct (hasPromote ha) as [target|]; [|by apply isolates_ret].
  destruct (negb _); [apply Hrej|]. destruct (findReplica ha target) as [[rep i] found].
  destruct (negb _); [apply Hrej|]. destruct (rs !! i) as [o|]; [|apply isolates_panic].
  destruct (negb _); [apply Hrej|].
  destruct (currentPrimaryForPromotion ha p rs) as [old|e]; [|apply Hrej].
  do 4 iso_step. destruct a2 as [[]|e]; [|by repeat iso_step].
  do 3 iso_step. destruct a4 as [ha2 [[]|e]]; [|by repeat iso_step].
  by repeat iso_step.
Qed.

Lemma modifyFailCount_isolates k C f :
  (forall m k', C -> k' <> k -> f m !! k' = m !! k') -> isolates k C (modifyFailCount f) (fun _ => True).
Proof.
  intros Hf. apply isolates_local; [done|]. intros s HC. split; try done; simpl; [auto|].
  exists []. by rewrite app_nil_r.
Qed.

Lemma resetFailCount_isolates k (C : Prop) key :
  (C -> key = k) -> isolates k C (resetFailCount key) (fun _ => True).
Proof.
  intros Hk. apply modifyFailCount_isolates. intros m k' HC Hne. rewrite (Hk HC).
  by rewrite lookup_delete_ne.
Qed.

Lemma bumpFailCount_isolates k (C : Prop) key :
  (C -> key = k) -> isolates k C (bumpFailCount key) (fun _ => True).
Proof.
  intros Hk. eapply isolates_bind.
  - apply modifyFailCount_isolates. intros m k' HC Hne. rewrite (Hk HC). by rewrite lookup_insert_ne.
  - intros u s. apply wpt_local; [done..|]. intros _ _. split; [by apply isolated_plain|done].
Qed.

Lemma handleAutomaticFailover_isolates k (C : Prop) r ha p rs :
  (C -> haKey ha = k) -> isolates k C (handleAutomaticFailover r ha p rs) (fun res => haKey res.1 = k).
Proof.
  intros Hk.
  assert (Hreset : forall C' : Prop, (C' -> C) ->
    isolates k C' (resetFailCount (haKey ha);; mret (ha, Ok noEffect)) (fun res => haKey res.1 = k)).
  { intros C' HC. eapply isolates_bind; [apply resetFailCount_isolates; auto|]. intros ?. iso_step. }
  unfold handleAutomaticFailover. destruct (negb _); [by apply isolates_ret|].
  destruct (bool_decide _); [by apply Hreset|].
  eapply isolates_bind; [apply isolates_quiet, stabilizing_quiet|].
  intros []; [apply Hreset; naive_solver|].
  destruct (healthyPrimary _); [apply Hreset; naive_solver|].
  eapply isolates_bind; [apply bumpFailCount_isolates; naive_solver|]. intros n.
  destruct (n <? _); [by repeat iso_step|]. unfold autoPromote.
  destruct (chooseTarget _ _ _) as [[[target i] []]|]; simpl;
    [|by repeat iso_step|apply isolates_panic].
  do 4 iso_step. destruct a2 as [[]|e]; [|by repeat iso_step].
  do 6 iso_step. eapply isolates_bind; [apply resetFailCount_isolates; naive_solver|].
  intros ?. iso_step.
Qed.

(** *** Publishing *)

Lemma setGauge_isolates k (C : Prop) v ls x :
  (C -> seriesOf k ls) -> isolates k C (setGauge v ls x) (fun _ => True).
Proof. intros Hk. apply WithLabelValues_isolates. intros HC. apply updates_set. auto. Qed.

Lemma publishMetrics_isolates k (C : Prop) ha cur sb p rs :
  (C -> haKey ha = k) -> isolates k C (publishMetrics ha cur sb p rs) (fun _ => True).
Proof.
  intros Hk.
  assert (Hser : forall (C' : Prop) l, (C' -> C) -> C' -> seriesOf k (ha_Name ha :: ha_Namespace ha :: l)).
  { intros C' l HC HC'. rewrite <- (Hk (HC HC')). apply seriesOf_key. }
  assert (Hset : forall (C' : Prop) v l x, (C' -> C) ->
    isolates k C' (setGauge v (ha_Name ha :: ha_Namespace ha :: l) x) (fun _ => True)).
  { intros C' v l x HC. apply setGauge_isolates. eauto. }
  assert (Hdel : forall (C' : Prop) v l, (C' -> C) -> isolates k C'
    (modifyMetrics (fun reg => gaugeDelete reg v (ha_Name ha :: ha_Namespace ha :: l))) (fun _ => True)).
  { intros C' v l HC. apply modifyMetrics_isolates. intros HC'. apply updates_delete. eauto. }
  assert (Hpart : forall (C' : Prop) site, (C' -> C) -> isolates k C'
    (modifyMetrics (fun reg => gaugeDeletePartial reg SiteLSNInfo
       (siteMatch (ha_Namespace ha) (ha_Name ha) site))) (fun _ => True)).
  { intros C' site HC. apply modifyMetrics_isolates. intros HC'. rewrite <- (Hk (HC HC')).
    apply (updates_partial (haKey ha)). }
  eapply isolates_bind; [|intros ?; apply Hset; naive_solver].
  generalize (primaryLSN cur (p :: rs)). intros lsn. clear Hk.
  assert (Hall : forall all (C' : Prop), (C' -> C) ->
    isolates k C' (publishSites ha cur lsn all) (fun _ => True)); [|by apply Hall].
  induction all as [|o all IH]; intros C' HC; simpl; [by apply isolates_ret|].
  eapply (isolates_bind _ _ _ _ (fun _ => True)); [|intros ?; apply IH; naive_solver].
  unfold publishSite, SetSite, SetReplicaLag, ClearReplicaLag,
    SetReplicaLagBytes, ClearReplicaLagBytes, SetSiteCurrentLSNBytes, ClearSiteCurrentLSNBytes,
    SetSiteLSNInfo, ClearSiteLSNInfo.
  repeat first [apply Hset; naive_solver | apply Hdel; naive_solver | apply Hpart; naive_solver
    | eapply (isolates_bind _ _ _ _ (fun _ => True)); [|intros ?] | case_match].
Qed.

Lemma writeStatus_isolates k (C : Prop) ha prior cur av sb p rs :
  (C -> haKey ha = k) -> isolates k C (writeStatus ha prior cur av sb p rs) (fun ha' => haKey ha' = k).
Proof.
  intros Hk. unfold writeStatus, setConditions. do 2 iso_step.
  apply isolates_ret. intros [[HC _] _]. by apply Hk.
Qed.

Lemma step_haWriteOf k c ref host t r :
  fence_run c ref t r \/ reconfigure_run c ref host t r -> Forall (haWriteOf k) t.
Proof. intros [[]|[]]; by repeat constructor. Qed.

Lemma convergeSite_isolates k (C : Prop) r ha ep host name c ref :
  (C -> haKey ha = k) -> isolates k C (convergeSite r ha ep host name c ref) (fun _ => True).
Proof.
  intros Hk.
  assert (Hre : forall C', isolates k C' (Reconfigure c ref host) (fun _ => True)).
  { intros C'. eapply isolates_talks; [apply Reconfigure_talks|]. intros t res Hr. split; [|done].
    eapply step_haWriteOf. by right. }
  assert (Hfe : forall C', isolates k C' (Fence c ref) (fun _ => True)).
  { intros C'. eapply isolates_talks; [apply Fence_talks|]. intros t res Hr. split; [|done].
    eapply (step_haWriteOf k c ref ""). by left. }
  eapply isolates_bind; [apply isolates_quiet, Probe_quiet|]. intros h. cbv zeta.
  destruct (negb _); [by apply isolates_ret|]. destruct (o_primary _); [destruct (bool_decide _)|].
  - eapply isolates_bind; [apply Hre|]. intros []; by repeat iso_step.
  - eapply isolates_bind; [apply Hfe|]. intros []; by repeat iso_step.
  - eapply isolates_bind; [apply Hre|]. intros ?. by apply isolates_ret.
Qed.

Lemma topology_isolates k (C : Prop) r ha ep p rs :
  (C -> haKey ha = k) -> isolates k C (reconcileReplicaTopology r ha ep p rs) (fun _ => True).
Proof.
  intros Hk. unfold reconcileReplicaTopology. repeat (case_bool_decide; [by apply isolates_ret|]).
  generalize (p :: rs). intros all. revert C Hk.
  induction all as [|o all IH]; intros C Hk; simpl; [by apply isolates_ret|].
  destruct (bool_decide _); [by apply IH|].
  eapply isolates_bind; [apply isolates_quiet, siteClientAndRef_quiet|].
  intros [[cli ref]|]; [|apply IH; naive_solver].
  eapply isolates_bind; [apply convergeSite_isolates; naive_solver|].
  intros []; [apply IH; naive_solver|by apply isolates_ret].
Qed.

Lemma publishAndConverge_isolates k (C : Prop) r ha1 prior err p rs :
  (C -> haKey ha1 = k) -> isolates k C (publishAndConverge r ha1 prior err p rs) (fun _ => True).
Proof.
  intros Hk. unfold publishAndConverge. destruct (decideCurrentPrimary p rs) as [cur av]. cbv zeta.
  eapply isolates_bind; [by apply writeStatus_isolates|]. intros ha2.
  eapply isolates_bind; [apply publishMetrics_isolates; naive_solver|]. intros ?.
  eapply (isolates_bind _ _ _ _ (fun ru => forall ha3, ru = Ok ha3 -> haKey ha3 = k)).
  { apply isolates_call; [done|naive_solver|]. intros ru ((_ & Hk2) & _) Ht ha3 ->. simpl in Ht.
    congruence. }
  intros [ha3|e]; [|by apply isolates_ret]. destruct err; [by apply isolates_ret|].
  eapply isolates_bind; [apply topology_isolates; naive_solver|].
  intros []; by apply isolates_ret.
Qed.

(** C22. HAClusters do not interfere. Whatever a reconcile of one HACluster
    does, with any outcome and any answers in which the API server returns the
    object it was asked about: the failure counters of the other HAClusters,
    and all gauges, counters and histograms labelled with another HACluster,
    are as they were; every event it emits is about its HACluster, and so is every patch
    and every status update it sends. *)
Theorem Reconcile_isolated r req s :
  reconcilerOk r ->
  wpt (Reconcile r req) (fun _ s' t => Forall onTopic t -> isolated req s s' t) s.
Proof.
  intros Hr. enough (Hi : isolates req True (Reconcile r req) (fun _ => True)).
  { eapply wpt_mono; [apply Hi|]. intros o s' t Ht Hon. by apply Ht. }
  eapply (isolates_bind _ _ _ _ (fun rg => forall ha, rg = Ok ha -> haKey ha = req)).
  { apply isolates_call; [done|done|]. by intros rg _ Ht ha ->. }
  intros [ha|e]; [|by apply isolates_ret].
  eapply isolates_bind; [by apply isolates_quiet, observePrimary_quiet|]. intros p.
  eapply isolates_bind; [by apply isolates_quiet, observeReplicas_quiet|]. intros rs.
  eapply (isolates_bind _ _ _ _ (fun res => haKey res.1.1 = req)).
  { eapply isolates_bind; [apply handlePromoteAnnotation_isolates; naive_solver|].
    intros [ha1 [pe|e]]; [|iso_step].
    eapply isolates_bind; [apply handleAutomaticFailover_isolates; naive_solver|].
    intros [ha2 []]; iso_step. }
  intros [[ha1 pe] err]. destruct (applyPromotionEffect pe (p, rs)).
  apply publishAndConverge_isolates. naive_solver.
Qed.

(** ** Series of a site that left the spec *)

(** Nothing removes them: publishing the metrics leaves every series of a site
    that is not observed any more as it was, and a deleted HACluster is not
    published at all. So a primary that was taken out of the spec keeps its
    current-primary gauge at 1. *)
Theorem removed_site_keeps_series ha cur sb p rs site v l s :
  Forall (fun o => uint64_range (o_lsnValue o)) (p :: rs) -> site ∉ o_name <$> p :: rs ->
  wp (publishMetrics ha cur sb p rs) (fun _ s' =>
    gaugeRead (op_metrics s') v (ha_Name ha :: ha_Namespace ha :: site :: l)
    = gaugeRead (op_metrics s) v (ha_Name ha :: ha_Namespace ha :: site :: l)) s.
Proof.
  intros Hv Hn. unfold wp, publishMetrics, mbind, M_bind.
  rewrite publishSites_run by (done || by apply primaryLSN_range). cbn [modifyMetrics].
  set (reg := foldl _ _ _).
  change (gaugeRead (gaugeSet reg SplitBrain [ha_Name ha; ha_Namespace ha] (boolGauge sb)) v
            (ha_Name ha :: ha_Namespace ha :: site :: l)
    = gaugeRead (op_metrics s) v (ha_Name ha :: ha_Namespace ha :: site :: l)).
  rewrite gaugeRead_set_ne by done. unfold reg. clear reg.
  generalize (primaryLSN cur (p :: rs)). intros lsn. clear Hv.
  generalize (op_metrics s). intros reg. revert reg Hn.
  induction (p :: rs) as [|o all IH]; intros reg Hn; [done|]. simpl.
  rewrite fmap_cons, not_elem_of_cons in Hn. destruct Hn as [Ho Hn].
  rewrite IH by done. by apply siteRegistry_others.
Qed.
End isolation.

(** Two failures of another HACluster are on the books. *)
Definition busyState : opstate :=
  mkOp (H := fakeExtern) twoSitesHA {[NN "ops" "other" := 2]} ∅ [] emptyRegistry [].

Lemma Reconcile_isolated_witness :
  let s' := (Reconcile sampleReconciler (NN "ops" "ha") busyState).2 in
  op_failCount s' !! NN "ops" "other" = Some 2 /\
  Nat.eqb (length (op_calls s')) 0 = false.
Proof.
  intros s'. split; [|reflexivity].
  destruct (Reconcile_isolated sampleReconciler (NN "ops" "ha") busyState I) as (t & Ht & _ & Hi).
  change (op_calls s' = t) in Ht. subst t.
  assert (Ho : Forall onTopic (op_calls s')).
  { apply (bool_decide_eq_true_1 (Forall onTopic (op_calls s'))). reflexivity. }
  refine (eq_trans (iso_count _ _ _ _ (Hi Ho) (NN "ops" "other") _) eq_refl). discriminate.
Defined.
