(* ===== verification/Lag.v ===== *)
(** * The replication lag in milliseconds

    [lagMilliseconds] multiplies a float64 by 1000 and converts the product to
    an int64. The multiplication rounds to nearest even; here its effect on the
    truncated result is bounded, from the definition of binary64 arithmetic. *)

From S2P Require Import Prelude GoStd Api External FakeKube Operator Fixtures.
From S2P Require Import Metrics Health Promotion RemoteClient Decision Observe Status.

(** ** Shifting a mantissa to the right *)

Lemma shr_1_shiftr mrs : 0 <= shr_m mrs -> shr_m (shr_1 mrs) = Z.shiftr (shr_m mrs) 1.
Proof. destruct mrs as [m r s]. simpl. by destruct m as [|[]|]. Qed.

Lemma iter_shr_1 p mrs :
  0 <= shr_m mrs -> shr_m (iter_pos shr_1 p mrs) = Z.shiftr (shr_m mrs) (Z.pos p).
Proof.
  revert mrs. induction p as [p IH|p IH|]; intros mrs Hm; simpl iter_pos.
  - pose proof (shr_1_shiftr mrs Hm) as E1.
    assert (0 <= shr_m (shr_1 mrs)) by (rewrite E1; by apply Z.shiftr_nonneg).
    rewrite IH, IH, E1, !Z.shiftr_shiftr by (rewrite ?IH by done; try apply Z.shiftr_nonneg; lia).
    f_equal. lia.
  - rewrite IH, IH, Z.shiftr_shiftr by (rewrite ?IH by done; try apply Z.shiftr_nonneg; lia).
    f_equal. lia.
  - by apply shr_1_shiftr.
Qed.

(** The last digit shifted out. *)
Lemma iter_shr_1_digit p mrs :
  0 <= shr_m mrs -> shr_r (iter_pos shr_1 p mrs) = Z.testbit (shr_m mrs) (Z.pos p - 1).
Proof.
  revert mrs. induction p as [p IH|p IH|]; intros mrs Hm; simpl iter_pos.
  - pose proof (shr_1_shiftr mrs Hm) as E1.
    assert (0 <= shr_m (shr_1 mrs)) by (rewrite E1; by apply Z.shiftr_nonneg).
    rewrite IH, iter_shr_1, E1, !Z.shiftr_spec
      by (rewrite ?iter_shr_1 by done; try apply Z.shiftr_nonneg; lia).
    f_equal. lia.
  - rewrite IH, iter_shr_1, Z.shiftr_spec
      by (rewrite ?iter_shr_1 by done; try apply Z.shiftr_nonneg; lia).
    f_equal. lia.
  - destruct mrs as [m r s]. simpl in *. by destruct m as [|[]|].
Qed.

Lemma digits2_log2 p : Z.pos (digits2_pos p) = Z.log2 (Z.pos p) + 1.
Proof.
  induction p as [p IH|p IH|]; simpl digits2_pos; [| |done]; rewrite Pos2Z.inj_succ, IH.
  - rewrite (Pos2Z.inj_xI p), Z.log2_succ_double by lia. lia.
  - rewrite (Pos2Z.inj_xO p), Z.log2_double by lia. lia.
Qed.

(** The smallest exponent of a float64 with a mantissa of [d] digits. *)
Definition exponentFor (x : Z) : Z := Z.max (x - 53) (-1074).

Lemma fexp_value x : fexp 53 1024 x = exponentFor x.
Proof. done. Qed.

(** Shifting by the amount that makes the mantissa fit. *)
Lemma shr_fexp_mantissa m e :
  0 <= m ->
  let n := exponentFor (Zdigits2 m + e) - e in
  let '(mrs, e') := shr_fexp 53 1024 m e loc_Exact in
  shr_m mrs = Z.shiftr m (Z.max n 0) /\ e' = e + Z.max n 0 /\
  (n <= 0 -> loc_of_shr_record mrs = loc_Exact) /\
  (0 < n -> shr_r mrs = Z.testbit m (n - 1)).
Proof.
  intros Hm n. unfold shr_fexp. rewrite fexp_value. fold n. unfold shr.
  destruct n as [|p|p] eqn:En.
  - by rewrite Z.shiftr_0_r, Z.add_0_r.
  - rewrite iter_shr_1 by done. split_and!; [done..|]. intros _. by apply iter_shr_1_digit.
  - rewrite Z.max_r by lia. by rewrite Z.shiftr_0_r, Z.add_0_r.
Qed.

(** ** Truncating a rounded product *)

Definition signed (neg : bool) (x : Z) : Z := (if neg then -1 else 1) * x.

(** The end of the rounding: the mantissa may have grown to 2^53. *)
Definition normalizeLast (neg : bool) (m e : Z) : float64 :=
  let '(mrs, e') := shr_fexp 53 1024 m e loc_Exact in
  match shr_m mrs with
  | Z0 => S754_zero neg
  | Z.pos p => if e' <=? 1024 - 53 then S754_finite neg p e' else S754_infinity neg
  | _ => S754_nan
  end.

Lemma normalizeLast_trunc neg m e :
  0 <= m <= 2^53 -> -1074 <= e <= 64 ->
  float_trunc (normalizeLast neg m e) = Some (signed neg (Z.shiftl m e)).
Proof.
  intros Hm He. unfold normalizeLast.
  pose proof (shr_fexp_mantissa m e ltac:(lia)) as Hs. cbv zeta in Hs.
  destruct (shr_fexp 53 1024 m e loc_Exact) as [mrs e']. destruct Hs as (Em & -> & _ & _). rewrite Em.
  unfold exponentFor. destruct m as [|p|]; [|simpl Zdigits2; rewrite digits2_log2|lia].
  { rewrite Z.shiftr_0_l, Z.shiftl_0_l. unfold signed. simpl. by destruct neg. }
  destruct (decide (Z.pos p = 2^53)) as [E53|Hlt].
  - rewrite E53. change (Z.log2 (2^53)) with 53. rewrite (Z.max_l (53 + 1 + e - 53)) by lia.
    replace (Z.max (53 + 1 + e - 53 - e) 0) with 1 by lia.
    change (Z.shiftr (2^53) 1) with (Z.pos 4503599627370496). cbv beta iota.
    rewrite (proj2 (Z.leb_le _ _)) by lia. unfold float_trunc, signed. do 2 f_equal.
    rewrite Z.add_comm, <- Z.shiftl_shiftl by lia. done.
  - assert (Hl : Z.log2 (Z.pos p) < 53) by (apply Z.log2_lt_pow2; lia).
    rewrite (Z.max_r _ 0) by lia. rewrite Z.shiftr_0_r, Z.add_0_r.
    rewrite (proj2 (Z.leb_le _ _)) by lia. done.
Qed.

(** Rounding a mantissa adds at most one. *)
Lemma round_nearest_even_bounds m l :
  m <= round_nearest_even m l <= m + 1 /\ (l = loc_Exact -> round_nearest_even m l = m).
Proof. destruct l as [|[]]; simpl; try destruct (Z.even m); split; (lia || done). Qed.

(** and does so only if the last digit shifted out is set, *)
Lemma round_nearest_even_up mrs :
  shr_r mrs = false -> round_nearest_even (shr_m mrs) (loc_of_shr_record mrs) = shr_m mrs.
Proof. destruct mrs as [m [] []]; done. Qed.

(** so that it adds at most half of what the last place is worth. *)
Lemma half_place M n x :
  0 < n -> Z.shiftr M n <= x <= Z.shiftr M n + 1 ->
  (Z.testbit M (n - 1) = false -> x = Z.shiftr M n) -> x * 2^n <= M + 2^(n - 1).
Proof.
  intros Hn Hx Hr. rewrite Z.shiftr_div_pow2 in * by lia.
  assert (E : 2^n = 2 * 2^(n - 1)) by (rewrite <- Z.pow_succ_r by lia; f_equal; lia).
  pose proof (Z.pow_pos_nonneg 2 (n - 1) ltac:(lia) ltac:(lia)) as Hp.
  pose proof (Z.div_mod M (2^n) ltac:(lia)). pose proof (Z.mod_pos_bound M (2^n) ltac:(lia)).
  destruct (Z.testbit M (n - 1)) eqn:Et; [|rewrite Hr by done; nia].
  apply Z.testbit_true in Et; [|lia].
  assert (Hq : M / 2^n = M / 2^(n - 1) / 2) by (rewrite Z.div_div by lia; f_equal; lia).
  pose proof (Z.div_mod (M / 2^(n - 1)) 2 ltac:(lia)).
  pose proof (Z.mul_div_le M (2^(n - 1)) ltac:(lia)). nia.
Qed.

(** [x] is at most [m * 2^e], enlarged by the relative error of one rounding. *)
Definition withinRounding (x m e : Z) : Prop :=
  x * 2^53 * 2^(Z.max (- e) 0) <= m * 2^(Z.max e 0) * (2^53 + 1).

Lemma withinRounding_shiftl m e : 0 <= m -> withinRounding (Z.shiftl m e) m e.
Proof.
  intros Hm. unfold withinRounding. destruct (Z.le_gt_cases 0 e).
  - rewrite Z.shiftl_mul_pow2, Z.max_r, Z.max_l, Z.pow_0_r by lia.
    pose proof (Z.pow_pos_nonneg 2 e). nia.
  - rewrite Z.shiftl_div_pow2, Z.max_l, Z.max_r, Z.pow_0_r by lia.
    pose proof (Z.pow_pos_nonneg 2 (- e)). pose proof (Z.mul_div_le m (2^(- e))). nia.
Qed.

(** The bound does not depend on how the number is written. *)
Lemma withinRounding_scale x m e k :
  0 <= k -> withinRounding x (m * 2^k) (e - k) -> withinRounding x m e.
Proof.
  unfold withinRounding. intros Hk Hx. pose proof (Z.pow_pos_nonneg 2 k ltac:(lia) Hk) as Hp.
  set (c := 2^53) in *. destruct (Z.le_gt_cases e 0).
  - rewrite (Z.max_l (- (e - k))), (Z.max_r (e - k)), Z.pow_0_r in Hx by lia.
    rewrite Z.max_l, Z.max_r, Z.pow_0_r by lia.
    replace (- (e - k)) with (- e + k) in Hx by lia. rewrite Z.pow_add_r in Hx by lia. nia.
  - rewrite (Z.max_r (- e)), (Z.max_l e), Z.pow_0_r by lia.
    assert (Hs : 2^k * 2^(Z.max (e - k) 0) = 2^e * 2^(Z.max (- (e - k)) 0)).
    { rewrite <- !Z.pow_add_r by lia. f_equal. lia. }
    pose proof (Z.pow_pos_nonneg 2 (Z.max (- (e - k)) 0) ltac:(lia) ltac:(lia)) as Hq.
    rewrite <- (Z.mul_assoc m), Hs in Hx. clear Hs. nia.
Qed.

(** Rounding to 53 digits, then truncating. *)
Lemma withinRounding_round M E n x :
  0 < M -> n = exponentFor (Z.log2 M + 1 + E) - E -> 0 < n -> E + n <= 0 -> 0 <= x <= 2^53 ->
  x * 2^n <= M + 2^(n - 1) -> withinRounding (Z.shiftl x (E + n)) M E.
Proof.
  intros HM En Hn HE Hx Hh. unfold withinRounding.
  rewrite Z.max_l, Z.max_r, Z.pow_0_r, Z.shiftl_div_pow2 by lia.
  pose proof (Z.pow_pos_nonneg 2 (- (E + n)) ltac:(lia) ltac:(lia)) as Hp.
  pose proof (Z.mul_div_le x (2^(- (E + n))) ltac:(lia)) as Hd.
  destruct (Z.le_gt_cases (Z.log2 M + 1 + E - 53) (-1074)) as [Hsub|Hnorm].
  - rewrite Z.div_small; [nia|]. split; [lia|]. unfold exponentFor in En.
    replace (- (E + n)) with 1074 by lia. eapply Z.le_lt_trans; [apply Hx|reflexivity].
  - assert (Hl : 2^(n - 1) * 2^53 <= M).
    { rewrite <- Z.pow_add_r by lia. unfold exponentFor in En.
      replace (n - 1 + 53) with (Z.log2 M) by lia. by apply Z.log2_spec. }
    replace (- E) with (- (E + n) + n) by lia. rewrite Z.pow_add_r by lia.
    pose proof (Z.pow_pos_nonneg 2 n ltac:(lia) ltac:(lia)) as Hpn.
    set (y := x / _) in *. set (c := 2^53) in *. set (a := 2^(- (E + n))) in *.
    set (b := 2^n) in *. set (h := 2^(n - 1)) in *.
    transitivity (c * (x * b)); [|assert (0 < c) by (unfold c; lia); nia].
    replace (y * c * (a * b)) with (c * b * (a * y)) by ring.
    replace (c * (x * b)) with (c * b * x) by ring. apply Z.mul_le_mono_nonneg_l; [unfold c; lia|done].
Qed.

Lemma shiftl_fits M E : 0 < M -> Z.shiftl M E < 2^53 -> Z.log2 M + 1 + E <= 53.
Proof.
  intros HM Hs. enough (Z.log2 M < 53 - E) by lia.
  assert (HE : E <= 53).
  { destruct (Z.le_gt_cases E 53); [done|]. rewrite Z.shiftl_mul_pow2 in Hs by lia.
    pose proof (Z.pow_lt_mono_r 2 53 E ltac:(lia) ltac:(lia) ltac:(lia)). nia. }
  apply Z.log2_lt_pow2; [done|]. destruct (Z.le_gt_cases 0 E).
  - rewrite Z.shiftl_mul_pow2 in Hs by done.
    replace 53 with ((53 - E) + E) in Hs at 1 by lia. rewrite Z.pow_add_r in Hs by lia.
    pose proof (Z.pow_pos_nonneg 2 E). nia.
  - rewrite Z.shiftl_div_pow2 in Hs by lia.
    replace (53 - E) with (53 + - E) by lia. rewrite Z.pow_add_r by lia.
    pose proof (Z.pow_pos_nonneg 2 (- E)). pose proof (Z.div_mod M (2 ^ - E)).
    pose proof (Z.mod_pos_bound M (2 ^ - E)). nia.
Qed.

(** Shifting in two steps, the second one after adding at most one. *)
Lemma shiftl_two_steps M E n x :
  0 <= n -> E + n <= 0 -> Z.shiftr M n <= x <= Z.shiftr M n + 1 ->
  Z.shiftl M E <= Z.shiftl x (E + n) <= Z.shiftl M E + 1.
Proof.
  intros Hn He Hx.
  assert (Hs : Z.shiftl M E = Z.shiftl (Z.shiftr M n) (E + n)).
  { replace E with (- (n + - (E + n))) at 1 by lia.
    rewrite <- (Z.opp_involutive (E + n)), !Z.shiftl_opp_r, Z.shiftr_shiftr by lia.
    f_equal. lia. }
  rewrite Hs, !Z.shiftl_div_pow2 by lia.
  pose proof (Z.pow_pos_nonneg 2 (- (E + n)) ltac:(lia) ltac:(lia)) as Hp. split.
  - apply Z.div_le_mono; lia.
  - transitivity ((Z.shiftr M n + 1 * 2 ^ - (E + n)) / 2 ^ - (E + n)).
    + apply Z.div_le_mono; lia.
    + rewrite Z.div_add; lia.
Qed.

Lemma binary_round_trunc neg M E :
  0 < M -> Z.shiftl M E < 2^53 ->
  exists x, float_trunc (binary_round_aux 53 1024 neg M E loc_Exact) = Some (signed neg x) /\
    Z.shiftl M E <= x <= Z.shiftl M E + 1 /\ withinRounding x M E.
Proof.
  intros HM Hs. pose proof (shiftl_fits M E HM Hs) as Hd. pose proof (Z.log2_nonneg M) as Hl.
  pose proof (shr_fexp_mantissa M E ltac:(lia)) as Hf. cbv zeta in Hf.
  unfold binary_round_aux. destruct (shr_fexp 53 1024 M E loc_Exact) as [mrs e1].
  destruct Hf as (Em & -> & Hex & Hdig).
  pose proof (round_nearest_even_up mrs) as Hup. rewrite Em in *.
  assert (Ed : Zdigits2 M = Z.log2 M + 1) by (destruct M; [lia|apply digits2_log2|lia]).
  rewrite Ed in *. set (n := exponentFor (Z.log2 M + 1 + E) - E) in *.
  set (x := round_nearest_even _ _).
  change (exists y, float_trunc (normalizeLast neg x (E + Z.max n 0)) = Some (signed neg y) /\
    Z.shiftl M E <= y <= Z.shiftl M E + 1 /\ withinRounding y M E).
  destruct (round_nearest_even_bounds (Z.shiftr M (Z.max n 0)) (loc_of_shr_record mrs)) as [Hx Hxe].
  fold x in Hx, Hxe.
  assert (Hm : 0 <= Z.shiftr M (Z.max n 0) < 2^53).
  { split; [by apply Z.shiftr_nonneg; lia|]. rewrite Z.shiftr_div_pow2 by lia.
    apply Z.div_lt_upper_bound; [apply Z.pow_pos_nonneg; lia|]. rewrite <- Z.pow_add_r by lia.
    pose proof (Z.log2_spec M HM) as [_ Hu]. eapply Z.lt_le_trans; [exact Hu|].
    apply Z.pow_le_mono_r; unfold n, exponentFor; lia. }
  rewrite normalizeLast_trunc by (unfold n, exponentFor; lia).
  eexists. split; [done|]. destruct (Z.le_gt_cases n 0) as [Hn|Hn].
  - rewrite Z.max_r, Z.shiftr_0_r in Hxe by done. rewrite (Hxe (Hex Hn)), Z.max_r, Z.add_0_r by done.
    split; [lia|apply withinRounding_shiftl; lia].
  - fold x in Hup. rewrite Z.max_l in Em, Hup, Hx, Hxe, Hm |- * by lia.
    assert (E + n <= 0) by (unfold n, exponentFor in *; lia).
    split; [apply shiftl_two_steps; lia|]. apply withinRounding_round; [done..|lia|].
    apply half_place; [done..|]. rewrite <- Hdig by done. exact Hup.
Qed.

Section lag.
Context `{Extern}.

(** C39. The lag in the status is the observed one, in truncated milliseconds.
    No lag gives none and zero seconds give zero. For every other finite
    float64 number of seconds, positive or negative, whose magnitude is below
    2^53 milliseconds, the reported milliseconds have the same sign, and a
    magnitude that is the exact product with 1000 truncated to an integer,
    unless the product is within one rounding of a float64 (a relative error
    of 2^-53) of the next integer, which may then be reported instead. *)
Theorem lagMilliseconds_bounds :
  lagMilliseconds None = None /\
  (forall neg, lagMilliseconds (Some (S754_zero neg)) = Some 0) /\
  forall neg m e, Z.shiftl (1000 * Z.pos m) e < 2^53 ->
    exists x, lagMilliseconds (Some (S754_finite neg m e)) = Some (signed neg x) /\
      Z.shiftl (1000 * Z.pos m) e <= x <= Z.shiftl (1000 * Z.pos m) e + 1 /\
      x * 2^53 * 2^(Z.max (- e) 0) <= 1000 * Z.pos m * 2^(Z.max e 0) * (2^53 + 1).
Proof.
  split; [done|]. split; [by intros []|]. intros neg m e Hs. set (k := 8796093022208000%positive).
  assert (Ek : Z.pos (m * k) = 1000 * Z.pos m * 2^43) by (unfold k; lia).
  assert (E : Z.shiftl (Z.pos (m * k)) (e - 43) = Z.shiftl (1000 * Z.pos m) e).
  { rewrite Ek, <- Z.shiftl_mul_pow2, Z.shiftl_shiftl by lia. f_equal. lia. }
  destruct (binary_round_trunc neg (Z.pos (m * k)) (e - 43)) as (x & Hx & Hb & Hw); [lia|by rewrite E|].
  rewrite E in Hb. rewrite Ek in Hw. exists x. split; [|split; [done|]].
  2:{ by apply (withinRounding_scale x _ e 43). }
  unfold lagMilliseconds. f_equal.
  change (float_of_Z 1000) with (S754_finite false k (-43)). unfold float_mul, SFmul, int64_of_float.
  change (e + -43) with (e - 43). rewrite xorb_false_r, Hx.
  assert (0 <= Z.shiftl (1000 * Z.pos m) e) by (apply Z.shiftl_nonneg; lia).
  assert (Hr : (-2^63 <=? signed neg x) && (signed neg x <? 2^63) = true).
  { apply andb_true_iff. rewrite Z.leb_le, Z.ltb_lt. unfold signed. destruct neg; lia. }
  by rewrite Hr.
Qed.
End lag.

(** 1.5 seconds give 1500, and 1999.5 milliseconds, about, give 1999 and not
    2000. *)
Lemma lagMilliseconds_bounds_witness :
  lagMilliseconds (Some (S754_finite false 6755399441055744 (-52))) = Some 1500 /\
  lagMilliseconds (Some (S754_finite true 9004947454927307 (-52))) = Some (-1999).
Proof.
  split; [reflexivity|]. destruct lagMilliseconds_bounds as (_ & _ & Hb).
  destruct (Hb true 9004947454927307%positive (-52) eq_refl) as (x & -> & Hx & Hw).
  change (Z.shiftl _ _) with 1999 in Hx. assert (x <> 2000) by (intros ->; by apply Hw).
  f_equal. unfold signed. lia.
Defined.
