(* ===== verification/GoFlag.v ===== *)
(** * The Go package flag, as the manager's main uses it

    A flag set maps names to values; [Parse] is the loop over parseOne, with
    its rules for one or two minus signs, [=], boolean flags, the terminator
    and the first non-flag argument. *)

From S2P Require Import Prelude GoStd.

(** A flag registered by another package through flag.Var: whether it may
    stand alone, and its Set function. *)
Record extFlag : Type := mkExtFlag { ext_isBool : bool; ext_set : string -> result unit }.

Inductive flagValue : Type :=
  | FString (s : string)
  | FBool (b : bool)
  | FExt (e : extFlag) (sets : list string).

Notation FlagSet := (gmap string flagValue).

(** strconv.ParseBool *)
Definition ParseBool (s : string) : option bool :=
  if bool_decide (s ∈ ["1"; "t"; "T"; "TRUE"; "true"; "True"]) then Some true
  else if bool_decide (s ∈ ["0"; "f"; "F"; "FALSE"; "false"; "False"]) then Some false
  else None.

(** [flag.Value.Set] *)
Definition setValue (v : flagValue) (s : string) : result flagValue :=
  match v with
  | FString _ => Ok (FString s)
  | FBool _ =>
      match ParseBool s with
      | Some b => Ok (FBool b)
      | None => Err (ErrorString "parse error")
      end
  | FExt e sets => let? _ := ext_set e s in Ok (FExt e (sets ++ [s]))
  end.

Definition isBoolFlag (v : flagValue) : bool :=
  match v with FString _ => false | FBool _ => true | FExt e _ => ext_isBool e end.

(** How parsing ends: at the first non-flag argument, at a request for help,
    or at an error. *)
Inductive parsed : Type :=
  | Parsed (fs : FlagSet) (args : list string)
  | HelpRequested
  | ParseError (e : goerr).

(** The first character is not looked at: an equals sign cannot be first. *)
Definition cutName (name : string) : string * option string :=
  match name with
  | EmptyString => (name, None)
  | String c rest =>
      match Cut "=" rest with
      | Some (n, v) => (String c n, Some v)
      | None => (name, None)
      end
  end.

(** An argument: not a flag, the terminator, malformed, or a flag with its
    name and the value after the equals sign. *)
Inductive argument : Type :=
  | NonFlag
  | Terminator
  | BadSyntax
  | Flag (name : string) (value : option string).

Definition flagBody (name : string) : argument :=
  match name with
  | EmptyString => BadSyntax
  | String c _ =>
      if bool_decide (c = "-"%char \/ c = "="%char) then BadSyntax
      else let '(n, v) := cutName name in Flag n v
  end.

Definition classify (s : string) : argument :=
  match s with
  | String "-" (String "-" EmptyString) => Terminator
  | String "-" (String "-" name) => flagBody name
  | String "-" EmptyString => NonFlag
  | String "-" name => flagBody name
  | _ => NonFlag
  end.

Fixpoint Parse (fs : FlagSet) (args : list string) : parsed :=
  match args with
  | [] => Parsed fs []
  | s :: rest =>
      match classify s with
      | NonFlag => Parsed fs args
      | Terminator => Parsed fs rest
      | BadSyntax => ParseError (ErrorString ("bad flag syntax: " +:+ s))
      | Flag name value =>
          match fs !! name with
          | None =>
              if bool_decide (name = "help" \/ name = "h") then HelpRequested
              else ParseError (ErrorString ("flag provided but not defined: -" +:+ name))
          | Some v =>
              if isBoolFlag v then
                match setValue v (default "true" value) with
                | Ok v' => Parse (<[name := v']> fs) rest
                | Err e =>
                    ParseError (ErrorString
                      (match value with
                       | Some x => "invalid boolean value " +:+ Quote x +:+ " for -" +:+ name
                       | None => "invalid boolean flag " +:+ name
                       end +:+ ": " +:+ Error e))
                end
              else
                match value, rest with
                | Some x, _ =>
                    match setValue v x with
                    | Ok v' => Parse (<[name := v']> fs) rest
                    | Err e => ParseError (ErrorString ("invalid value " +:+ Quote x
                                 +:+ " for flag -" +:+ name +:+ ": " +:+ Error e))
                    end
                | None, x :: rest' =>
                    match setValue v x with
                    | Ok v' => Parse (<[name := v']> fs) rest'
                    | Err e => ParseError (ErrorString ("invalid value " +:+ Quote x
                                 +:+ " for flag -" +:+ name +:+ ": " +:+ Error e))
                    end
                | None, [] => ParseError (ErrorString ("flag needs an argument: -" +:+ name))
                end
          end
      end
  end.

(** ** Properties *)

(** A name that can be written after a minus sign and before an equals sign. *)
Definition plainName (name : string) : Prop :=
  match name with
  | EmptyString => False
  | String c rest => c <> "-"%char /\ c <> "="%char /\ ContainsByte "=" rest = false
  end.

#[export] Instance plainName_dec name : Decision (plainName name).
Proof. destruct name; simpl; apply _. Defined.

Definition assignment (name value : string) : string := "--" +:+ name +:+ "=" +:+ value.

Lemma classify_assignment name value :
  plainName name -> classify (assignment name value) = Flag name (Some value).
Proof.
  destruct name as [|c rest]; [done|]. intros (Hm & He & Hc).
  unfold assignment. simpl.
  rewrite bool_decide_eq_false_2 by tauto. by rewrite Cut_app.
Qed.

(** An assignment sets its flag, whatever the kind of the flag. *)
Lemma Parse_assignment fs name value v v' rest :
  plainName name -> fs !! name = Some v -> setValue v value = Ok v' ->
  Parse fs (assignment name value :: rest) = Parse (<[name := v']> fs) rest.
Proof.
  intros Hn Hv Hs. cbn [Parse]. rewrite classify_assignment by done. rewrite Hv. simpl. rewrite Hs.
  by destruct (isBoolFlag v).
Qed.

(** Parsing never loses or adds a flag, and keeps its kind. *)
Definition sameKind (v w : flagValue) : Prop :=
  match v, w with
  | FString _, FString _ | FBool _, FBool _ => True
  | FExt e _, FExt e' _ => e = e'
  | _, _ => False
  end.

Lemma setValue_kind v s v' : setValue v s = Ok v' -> sameKind v v'.
Proof. destruct v; simpl; intros; case_go; done. Qed.

Definition sameFlags (fs fs' : FlagSet) : Prop :=
  forall n, match fs !! n, fs' !! n with
            | Some v, Some w => sameKind v w
            | None, None => True
            | _, _ => False
            end.

Lemma sameKind_trans u v w : sameKind u v -> sameKind v w -> sameKind u w.
Proof. destruct u, v, w; simpl; naive_solver. Qed.

Lemma sameFlags_refl fs : sameFlags fs fs.
Proof. intros n. destruct (fs !! n) as [[]|]; done. Qed.

Lemma sameFlags_set fs n v v' fs' :
  fs !! n = Some v -> sameKind v v' -> sameFlags (<[n := v']> fs) fs' -> sameFlags fs fs'.
Proof.
  intros Hn Hk Hs m. specialize (Hs m). destruct (decide (n = m)) as [<-|Hne].
  - rewrite lookup_insert_eq in Hs. rewrite Hn. destruct (fs' !! n); [|done].
    by eapply sameKind_trans.
  - by rewrite lookup_insert_ne in Hs.
Qed.

Lemma Parse_sameFlags fs args fs' rest : Parse fs args = Parsed fs' rest -> sameFlags fs fs'.
Proof.
  revert fs. induction args as [args IH] using (induction_ltof1 _ (@length string)).
  unfold ltof in IH. intros fs. destruct args as [|s args]; simpl.
  { intros [= <- <-]. apply sameFlags_refl. }
  destruct (classify s) as [| | |name value]; [intros; simplify_eq; apply sameFlags_refl..|done|].
  destruct (fs !! name) as [v|] eqn:Hn; [|by case_bool_decide].
  destruct (isBoolFlag v).
  - destruct (setValue v _) as [v'|] eqn:Hs; [|done]. intros Hp.
    eapply sameFlags_set; [done|by eapply setValue_kind|]. apply (IH args); [simpl; lia|done].
  - destruct value as [x|]; [|destruct args as [|x args']; [done|]];
      (destruct (setValue v _) as [v'|] eqn:Hs; [|done]); intros Hp;
      (eapply sameFlags_set; [done|by eapply setValue_kind|]).
    + apply (IH args); [simpl; lia|done].
    + apply (IH args'); [simpl; lia|done].
Qed.

(** ** What a command line sets

    The settings of a command line, in order, given which flags may stand
    alone: it is read up to the terminator or the first non-flag argument. *)
Fixpoint settings (alone : string -> bool) (args : list string) : list (string * string) :=
  match args with
  | [] => []
  | s :: rest =>
      match classify s, rest with
      | Flag name (Some x), _ => (name, x) :: settings alone rest
      | Flag name None, x :: rest' =>
          if alone name then (name, "true") :: settings alone rest
          else (name, x) :: settings alone rest'
      | Flag name None, [] => if alone name then [(name, "true")] else []
      | _, _ => []
      end
  end.

(** The value given last to a flag. *)
Fixpoint lastSetting (name : string) (l : list (string * string)) : option string :=
  match l with
  | [] => None
  | (n, x) :: l' =>
      match lastSetting name l' with
      | Some y => Some y
      | None => if bool_decide (n = name) then Some x else None
      end
  end.

(** [v'] is what the flag [v] is after it was set to [x], if it was. *)
Definition setTo (v : flagValue) (x : option string) (v' : flagValue) : Prop :=
  match v, x with
  | FString _, Some x => v' = FString x
  | FBool _, Some x => exists b, ParseBool x = Some b /\ v' = FBool b
  | _, None => v' = v
  | FExt e _, Some _ => exists sets, v' = FExt e sets
  end.

Lemma setValue_setTo v x v' : setValue v x = Ok v' -> setTo v (Some x) v'.
Proof. destruct v; simpl; intros; case_go; naive_solver. Qed.

(** The last of two settings counts. *)
Lemma setTo_again v x v1 y v2 :
  setTo v (Some x) v1 -> setTo v1 y v2 ->
  setTo v (Some (default x y)) v2.
Proof. destruct v, y; simpl; naive_solver. Qed.

Section parsing.
Context (alone : string -> bool).

(** The flags that may stand alone are the boolean ones. *)
Definition knows (fs : FlagSet) : Prop := forall n v, fs !! n = Some v -> alone n = isBoolFlag v.

Lemma setValue_isBool v x v' : setValue v x = Ok v' -> isBoolFlag v' = isBoolFlag v.
Proof. intros Hk%setValue_kind. destruct v, v'; naive_solver. Qed.

Lemma knows_set fs n v v' x :
  knows fs -> fs !! n = Some v -> setValue v x = Ok v' -> knows (<[n := v']> fs).
Proof.
  intros Hk Hn Hs m w. destruct (decide (m = n)) as [->|].
  - rewrite lookup_insert_eq. intros [= <-]. erewrite setValue_isBool by done. auto.
  - rewrite lookup_insert_ne by done. apply Hk.
Qed.

(** One setting, followed by others. *)
Lemma setting_first (fs : FlagSet) n u u' x l name v v' :
  fs !! n = Some u -> setValue u x = Ok u' -> fs !! name = Some v ->
  (forall w, <[n := u']> fs !! name = Some w -> setTo w (lastSetting name l) v') ->
  setTo v (lastSetting name ((n, x) :: l)) v'.
Proof.
  intros Hn Hs Hv Hl. simpl. case_bool_decide as E.
  - subst n. simplify_eq. specialize (Hl u' (lookup_insert_eq _ _ _)).
    pose proof (setTo_again _ _ _ _ _ (setValue_setTo _ _ _ Hs) Hl).
    by destruct (lastSetting name l).
  - rewrite lookup_insert_ne in Hl by done. specialize (Hl v Hv). by destruct (lastSetting name l).
Qed.

(** Parsing leaves every flag as the command line set it. *)
Lemma Parse_settings fs args fs' rest name v v' :
  Parse fs args = Parsed fs' rest -> knows fs -> fs !! name = Some v -> fs' !! name = Some v' ->
  setTo v (lastSetting name (settings alone args)) v'.
Proof.
  revert fs v. induction args as [args IH] using (induction_ltof1 _ (@length string)).
  unfold ltof in IH. intros fs v. assert (Hsame : v = v' -> setTo v None v') by by destruct v.
  destruct args as [|s args]; simpl.
  { intros [= <- <-] _ Hv Hv'. rewrite Hv in Hv'. simplify_eq. auto. }
  destruct (classify s) as [| | |n value]; [intros Hp _ Hv Hv'; simplify_eq; auto..|done|].
  destruct (fs !! n) as [u|] eqn:Hn; [|by case_bool_decide]. intros Hp Hk Hv Hv'.
  assert (Hal : alone n = isBoolFlag u) by by apply Hk. rewrite Hal.
  assert (Hrec : forall x u' l', setValue u x = Ok u' -> Parse (<[n := u']> fs) l' = Parsed fs' rest ->
    (length l' < S (length args))%nat ->
    setTo v (lastSetting name ((n, x) :: settings alone l')) v').
  { intros x u' l' Hs Hp' Hl. eapply setting_first; [done..|]. intros w Hw.
    eapply (IH l'); [done|done|by eapply knows_set|done|done]. }
  destruct (isBoolFlag u); destruct value as [x|]; simpl in Hp.
  - destruct (setValue u x) eqn:Hs; [|done]. eapply Hrec; [done..|simpl; lia].
  - destruct (setValue u "true") eqn:Hs; [|done].
    assert (setTo v (lastSetting name ((n, "true") :: settings alone args)) v')
      by (eapply Hrec; [done..|simpl; lia]). by destruct args.
  - destruct (setValue u x) eqn:Hs; [|done]. eapply Hrec; [done..|simpl; lia].
  - destruct args as [|x args]; [done|]. destruct (setValue u x) eqn:Hs; [|done].
    eapply Hrec; [done..|simpl; lia].
Qed.
End parsing.
