(* ===== verification/Manager.v ===== *)
(** * cmd/main.go: the manager process

    The flags, the options of the two servers, and the start sequence with its
    exits. controller-runtime, client-go and zap are parameters: the class
    [Runtime] has their answers, and the process is the list of the calls that
    matter with the exit status. *)

From S2P Require Import Prelude GoStd Api External FakeKube Operator Fixtures.
From S2P Require Import GoFlag Metrics RemoteClient Observe.

(** ** Flags *)

(** The variables of main that flags are bound to. *)
Record MainConfig : Type := mkMainConfig {
  metricsAddr : string;
  metricsCertPath : string;
  metricsCertName : string;
  metricsCertKey : string;
  webhookCertPath : string;
  webhookCertName : string;
  webhookCertKey : string;
  enableLeaderElection : bool;
  probeAddr : string;
  secureMetrics : bool;
  enableHTTP2 : bool
}.

(** The flags main defines, with their defaults. *)
Definition mainFlags : list (string * flagValue) :=
  [("metrics-bind-address", FString "0");
   ("health-probe-bind-address", FString ":8081");
   ("leader-elect", FBool false);
   ("metrics-secure", FBool true);
   ("webhook-cert-path", FString "");
   ("webhook-cert-name", FString "tls.crt");
   ("webhook-cert-key", FString "tls.key");
   ("metrics-cert-path", FString "");
   ("metrics-cert-name", FString "tls.crt");
   ("metrics-cert-key", FString "tls.key");
   ("enable-http2", FBool false)].

Definition flagString (fs : FlagSet) (name : string) : string :=
  match fs !! name with Some (FString s) => s | _ => "" end.
Definition flagBool (fs : FlagSet) (name : string) : bool :=
  match fs !! name with Some (FBool b) => b | _ => false end.

(** The variables after flag.Parse. *)
Definition readConfig (fs : FlagSet) : MainConfig :=
  mkMainConfig (flagString fs "metrics-bind-address") (flagString fs "metrics-cert-path")
    (flagString fs "metrics-cert-name") (flagString fs "metrics-cert-key")
    (flagString fs "webhook-cert-path") (flagString fs "webhook-cert-name")
    (flagString fs "webhook-cert-key") (flagBool fs "leader-elect")
    (flagString fs "health-probe-bind-address") (flagBool fs "metrics-secure")
    (flagBool fs "enable-http2").

(** ** Server options *)

(** tls.Config: the protocols the operator sets, and the rest. *)
Record tlsConfig : Type := mkTLS { NextProtos : list string; tls_rest : json }.

Definition disableHTTP2 (c : tlsConfig) : tlsConfig := mkTLS ["http/1.1"] (tls_rest c).

Definition tlsOptions (cfg : MainConfig) : list (tlsConfig -> tlsConfig) :=
  [] ++ (if negb (enableHTTP2 cfg) then [disableHTTP2] else []).

(** The servers apply the options in order. *)
Definition applyTLS (opts : list (tlsConfig -> tlsConfig)) (c : tlsConfig) : tlsConfig :=
  fold_left (fun c f => f c) opts c.

(** webhook.Options *)
Record WebhookOptions : Type := mkWebhook {
  wh_TLSOpts : list (tlsConfig -> tlsConfig);
  wh_CertDir : string;
  wh_CertName : string;
  wh_KeyName : string
}.

Definition webhookServerOptions (cfg : MainConfig) : WebhookOptions :=
  if bool_decide (webhookCertPath cfg <> "")
  then mkWebhook (tlsOptions cfg) (webhookCertPath cfg) (webhookCertName cfg) (webhookCertKey cfg)
  else mkWebhook (tlsOptions cfg) "" "" "".

(** metricsserver.Options; [ms_FilterProvider] says whether requests are
    authenticated and authorized. *)
Record MetricsOptions : Type := mkMetricsOptions {
  ms_BindAddress : string;
  ms_SecureServing : bool;
  ms_TLSOpts : list (tlsConfig -> tlsConfig);
  ms_FilterProvider : bool;
  ms_CertDir : string;
  ms_CertName : string;
  ms_KeyName : string
}.

Definition metricsServerOptions (cfg : MainConfig) : MetricsOptions :=
  let filter := secureMetrics cfg in
  if bool_decide (metricsCertPath cfg <> "")
  then mkMetricsOptions (metricsAddr cfg) (secureMetrics cfg) (tlsOptions cfg) filter
         (metricsCertPath cfg) (metricsCertName cfg) (metricsCertKey cfg)
  else mkMetricsOptions (metricsAddr cfg) (secureMetrics cfg) (tlsOptions cfg) filter "" "" "".

(** ctrl.Options *)
Record ManagerOptions {Scheme : Type} : Type := mkManagerOptions {
  mo_Scheme : Scheme;
  mo_Metrics : MetricsOptions;
  mo_WebhookServer : WebhookOptions;
  mo_HealthProbeBindAddress : string;
  mo_LeaderElection : bool;
  mo_LeaderElectionID : string
}.

Arguments ManagerOptions : clear implicits.
Arguments mkManagerOptions {_}.

Definition managerOptions {Scheme} (scheme : Scheme) (cfg : MainConfig) : ManagerOptions Scheme :=
  mkManagerOptions scheme (metricsServerOptions cfg) (webhookServerOptions cfg) (probeAddr cfg)
    (enableLeaderElection cfg) "245db9a3.ha.cnpg.io".

(** ** Scheme *)

(** schema.GroupVersion and SchemeGroupVersion *)
Record GroupVersion : Type := mkGV { gv_Group : string; gv_Version : string }.
Definition SchemeGroupVersion : GroupVersion := mkGV "ha.cnpg.io" "v1alpha1".

(** What init of hacluster_types.go registers with the builder. *)
Definition registeredKinds : list (GroupVersion * string) :=
  [(SchemeGroupVersion, "HACluster"); (SchemeGroupVersion, "HAClusterList")].

Section manager.
Context `{Extern}.

(** The reconciler main builds: the fields of [HAClusterReconciler], and the
    client cache, nil until SetupWithManager. *)
Record Setup : Type := mkSetup {
  su_reconciler : HAClusterReconciler;
  su_RemoteClients : option (gmap string cachedClient)
}.

(** The answers of the libraries main calls. *)
Class Runtime : Type := {
  restCfg : Type;
  Manager : Type;
  Scheme : Type;               (* runtime.Scheme *)
  NewScheme : Scheme;
  clientgoAddToScheme : Scheme -> result Scheme;
  AddToScheme : list (GroupVersion * string) -> Scheme -> result Scheme;
  libraryFlags : FlagSet;      (* zap's BindFlags and package init functions *)
  GetConfig : result restCfg;
  NewManager : restCfg -> ManagerOptions Scheme -> result Manager;
  mgrGetClient : Manager -> client;
  registryMustRegister : list metricVec -> bool;    (* false: it panics *)
  builderComplete : Manager -> GroupVersion * string -> string -> Setup -> result unit;
  AddHealthzCheck : Manager -> string -> result unit;
  AddReadyzCheck : Manager -> string -> result unit;
  mgrStart : Manager -> result unit
}.

Context `{!Runtime}.

Inductive setupCall : Type :=
  | ENewManager (opts : ManagerOptions Scheme)
  | ERegister (collectors : list metricVec)
  | EController (kind : GroupVersion * string) (name : string) (su : Setup)
  | EHealthz (name : string)
  | EReadyz (name : string)
  | EStart.

(** The end of the process: an exit status, or a panic. *)
Inductive exit : Type := Exit (status : Z) | PanicExit.

(** A process: the calls made, then an exit or a value to go on with. *)
Definition Proc (A : Type) : Type := (list setupCall * (exit + A))%type.
#[local] Instance P_ret : MRet Proc := fun _ a => ([], inr a).
#[local] Instance P_bind : MBind Proc := fun _ _ k m =>
  match m with
  | (t, inl e) => (t, inl e)
  | (t, inr a) => (t ++ (k a).1, (k a).2)
  end.

Definition emit (e : setupCall) : Proc unit := ([e], inr tt).
Definition leave {A} (e : exit) : Proc A := ([], inl e).

(** [if err != nil { setupLog.Error(...); os.Exit(1) }] *)
Definition orExit {A} (r : result A) : Proc A :=
  match r with Ok a => mret a | Err _ => leave (Exit 1) end.
(** utilruntime.Must *)
Definition Must {A} (r : result A) : Proc A :=
  match r with Ok a => mret a | Err _ => leave PanicExit end.

(** The init functions: the scheme of the process. *)
Definition initScheme : Proc Scheme :=
  scheme ← Must (clientgoAddToScheme NewScheme);
  Must (AddToScheme registeredKinds scheme).

(** No library defines a flag of main. *)
Definition flagsDistinct : bool :=
  forallb (fun f => match libraryFlags !! f.1 with None => true | Some _ => false end) mainFlags.

(** The flag definitions; defining a flag twice panics. *)
Definition commandLine : Proc FlagSet :=
  if flagsDistinct
  then mret (list_to_map mainFlags ∪ libraryFlags) else leave PanicExit.

(** flag.Parse on the command line, which exits on an error. *)
Definition parseFlags (args : list string) : Proc MainConfig :=
  fs ← commandLine;
  match Parse fs args with
  | Parsed fs' _ => mret (readConfig fs')
  | HelpRequested => leave (Exit 0)
  | ParseError _ => leave (Exit 2)
  end.

Definition SetupWithManager (mgr : Manager) (su : Setup) : Proc (result unit) :=
  let clients := match su_RemoteClients su with Some c => c | None => NewCache end in
  let su' := mkSetup (su_reconciler su) (Some clients) in
  emit (EController (SchemeGroupVersion, "HACluster") "hacluster" su');;
  mret (builderComplete mgr (SchemeGroupVersion, "HACluster") "hacluster" su').

(** From the parsed flags to the end of main. *)
Definition run (scheme : Scheme) (cfg : MainConfig) : Proc unit :=
  config ← orExit GetConfig;
  emit (ENewManager (managerOptions scheme cfg));;
  mgr ← orExit (NewManager config (managerOptions scheme cfg));
  emit (ERegister MustRegister);;
  (if registryMustRegister MustRegister then mret tt else leave PanicExit);;
  setup ← SetupWithManager mgr (mkSetup (mkReconciler (mgrGetClient mgr) true None) None);
  orExit setup;;
  emit (EHealthz "healthz");;
  orExit (AddHealthzCheck mgr "healthz");;
  emit (EReadyz "readyz");;
  orExit (AddReadyzCheck mgr "readyz");;
  emit EStart;;
  orExit (mgrStart mgr).

Definition main (args : list string) : list setupCall * exit :=
  let p := scheme ← initScheme; cfg ← parseFlags args; run scheme cfg in
  (p.1, match p.2 with inl e => e | inr _ => Exit 0 end).

(** ** Properties *)

(** The command line that states every variable. *)
Definition renderConfig (cfg : MainConfig) : list string :=
  [assignment "metrics-bind-address" (metricsAddr cfg);
   assignment "health-probe-bind-address" (probeAddr cfg);
   assignment "leader-elect" (fmtBool (enableLeaderElection cfg));
   assignment "metrics-secure" (fmtBool (secureMetrics cfg));
   assignment "webhook-cert-path" (webhookCertPath cfg);
   assignment "webhook-cert-name" (webhookCertName cfg);
   assignment "webhook-cert-key" (webhookCertKey cfg);
   assignment "metrics-cert-path" (metricsCertPath cfg);
   assignment "metrics-cert-name" (metricsCertName cfg);
   assignment "metrics-cert-key" (metricsCertKey cfg);
   assignment "enable-http2" (fmtBool (enableHTTP2 cfg))].

Lemma ParseBool_fmtBool b : ParseBool (fmtBool b) = Some b.
Proof. by destruct b. Qed.

(** The calls of a run that meets no error, in their order. *)
Definition startSequence (scheme : Scheme) (cfg : MainConfig) (mgr : Manager) : list setupCall :=
  [ENewManager (managerOptions scheme cfg); ERegister MustRegister;
   EController (SchemeGroupVersion, "HACluster") "hacluster"
     (mkSetup (mkReconciler (mgrGetClient mgr) true None) (Some NewCache));
   EHealthz "healthz"; EReadyz "readyz"; EStart].

(** Whether [run] goes past each of those calls. *)
Definition startConditions (mgr : Manager) : list bool :=
  [true; registryMustRegister MustRegister;
   isOk (builderComplete mgr (SchemeGroupVersion, "HACluster") "hacluster"
     (mkSetup (mkReconciler (mgrGetClient mgr) true None) (Some NewCache)));
   isOk (AddHealthzCheck mgr "healthz"); isOk (AddReadyzCheck mgr "readyz"); isOk (mgrStart mgr)].

Fixpoint leading (l : list bool) : nat :=
  match l with true :: l' => S (leading l') | _ => O end.

(** How [run] goes, by the first answer that stops it. *)
Lemma run_cases sc cfg :
  (exists e, GetConfig = Err e /\ run sc cfg = ([], inl (Exit 1))) \/
  (exists config e, GetConfig = Ok config /\ NewManager config (managerOptions sc cfg) = Err e /\
     run sc cfg = ([ENewManager (managerOptions sc cfg)], inl (Exit 1))) \/
  (exists config mgr, GetConfig = Ok config /\ NewManager config (managerOptions sc cfg) = Ok mgr /\
     let k := leading (startConditions mgr) in
     run sc cfg = (take (S k) (startSequence sc cfg mgr),
       if bool_decide (k = 6%nat) then inr tt
       else inl (if bool_decide (k = 1%nat) then PanicExit else Exit 1))).
Proof.
  unfold run. destruct GetConfig as [config|e]; [right|left; by exists e].
  destruct (NewManager config (managerOptions sc cfg)) as [mgr|e] eqn:Em; [right|left].
  2:{ exists config, e. split_and!; [done..|]. simpl. by rewrite Em. }
  exists config, mgr. split_and!; [done..|]. simpl. rewrite Em. simpl.
  destruct (registryMustRegister MustRegister); simpl; [|done].
  destruct (builderComplete _ _ _ _); simpl; [|done].
  destruct (AddHealthzCheck _ _); simpl; [|done].
  destruct (AddReadyzCheck _ _); simpl; [|done].
  by destruct (mgrStart mgr) as [[]|].
Qed.

(** The scheme has client-go's kinds, then those of this API. *)
Definition schemeReady (scheme : Scheme) : Prop :=
  exists base, clientgoAddToScheme NewScheme = Ok base /\ AddToScheme registeredKinds base = Ok scheme.

Lemma initScheme_cases :
  initScheme = ([], inl PanicExit) \/ exists sc, initScheme = ([], inr sc) /\ schemeReady sc.
Proof.
  unfold initScheme, schemeReady. destruct (clientgoAddToScheme NewScheme) as [base|]; [|by left].
  unfold Must. simpl. destruct (AddToScheme registeredKinds base) as [sc|] eqn:E; [right|by left]. eauto.
Qed.

Lemma parseFlags_quiet args : (parseFlags args).1 = [].
Proof.
  unfold parseFlags, commandLine. destruct flagsDistinct; [|done]. simpl. by destruct (Parse _ _).
Qed.

(** A process that gets as far as a call has set up its scheme and parsed its
    flags, and goes on as [run]. *)
Lemma main_run args :
  (exists sc cfg, schemeReady sc /\ parseFlags args = ([], inr cfg) /\
     main args = ((run sc cfg).1, match (run sc cfg).2 with inl e => e | inr _ => Exit 0 end)) \/
  ((main args).1 = [] /\
   ((main args).2 = Exit 0 ->
    exists fs, commandLine = ([], inr fs) /\ Parse fs args = HelpRequested)).
Proof.
  pose proof (parseFlags_quiet args) as Qp.
  unfold main. destruct initScheme_cases as [->|(sc & -> & Hsc)]; [by right|]. simpl.
  destruct (parseFlags args) as [tp [ep|cfg]] eqn:Ep; simpl in *; subst tp.
  2:{ left. exists sc, cfg. split_and!; [done..|]. by destruct (run sc cfg). }
  right. split; [done|]. simpl. intros ->. revert Ep. unfold parseFlags.
  destruct commandLine as [tc [ec|fs]] eqn:Ec; simpl; intros Ep; revert Ec; unfold commandLine;
    destruct flagsDistinct; intros [= <- <-]; simplify_eq/=.
  eexists. split; [done|]. by destruct (Parse _ args); simplify_eq/=.
Qed.

(** C29. The manager is started at most at the end of the whole sequence: the
    scheme has the kinds of client-go and of this API, the manager was created
    with it and with the options of the parsed flags, the collectors
    were registered, the controller for HAClusters was set up with a client cache
    and a recorder, and both probes were added, in this order and without an error.
    The process then ends with status 0 exactly when the manager stops without
    an error. A process that never starts the manager ends with another
    status, unless the command line asked for help. *)
Theorem main_start_order args :
  let (t, x) := main args in
  (EStart ∈ t ->
     exists sc cfg config mgr, schemeReady sc /\ parseFlags args = ([], inr cfg) /\
       GetConfig = Ok config /\ NewManager config (managerOptions sc cfg) = Ok mgr /\
       t = startSequence sc cfg mgr /\
       Forall (fun b => b = true) (take 5 (startConditions mgr)) /\
       (x = Exit 0 <-> mgrStart mgr = Ok tt)) /\
  (EStart ∉ t -> x = Exit 0 ->
     t = [] /\ exists fs, commandLine = ([], inr fs) /\ Parse fs args = HelpRequested).
Proof.
  destruct (main args) as [t x] eqn:Em.
  destruct (main_run args) as [(sc & cfg & Hsc & Ep & E)|[Ht Hx]]; rewrite Em in *; simpl in *.
  2:{ subst t. split; [by intros ?%elem_of_nil|auto]. }
  injection E as -> ->.
  destruct (run_cases sc cfg) as [(e & _ & ->)|[(config & e & _ & _ & ->)|(config & mgr & Hc & Hm & ->)]];
    simpl; [split; [by intros ?%elem_of_nil|done]| |].
  { split; [|done]. intros Hs. apply list_elem_of_singleton in Hs. done. }
  destruct (registryMustRegister MustRegister) eqn:E1; simpl; [|split; [set_solver|done]].
  destruct (builderComplete _ _ _ _) eqn:E2; simpl; [|split; [set_solver|done]].
  destruct (AddHealthzCheck _ _) eqn:E3; simpl; [|split; [set_solver|done]].
  destruct (AddReadyzCheck _ _) eqn:E4; simpl; [|split; [set_solver|done]].
  split; [|destruct (isOk _); set_solver]. intros _. exists sc, cfg, config, mgr.
  destruct (mgrStart mgr) as [[]|] eqn:E5; simpl; split_and!; try done;
    rewrite ?E1, ?E2, ?E3, ?E4; repeat constructor.
Qed.

Lemma mainFlags_lookup n v (fs : FlagSet) :
  (n, v) ∈ mainFlags -> (list_to_map mainFlags ∪ fs : FlagSet) !! n = Some v.
Proof.
  intros Hin. apply lookup_union_Some_l, elem_of_list_to_map; [|done].
  by apply (bool_decide_unpack _).
Qed.

Lemma Parse_string fs name v value rest :
  plainName name -> fs !! name = Some (FString v) ->
  Parse fs (assignment name value :: rest) = Parse (<[name := FString value]> fs) rest.
Proof. intros. by eapply Parse_assignment. Qed.

Lemma Parse_bool fs name v b rest :
  plainName name -> fs !! name = Some (FBool v) ->
  Parse fs (assignment name (fmtBool b) :: rest) = Parse (<[name := FBool b]> fs) rest.
Proof. intros. eapply Parse_assignment; [done..|]. simpl. by rewrite ParseBool_fmtBool. Qed.

(** Membership in a literal list, possibly finding the element. *)
Ltac in_list := repeat first [apply list_elem_of_here | apply list_elem_of_further].

Lemma Parse_renderConfig cfg (fs : FlagSet) :
  (forall n v, (n, v) ∈ mainFlags -> fs !! n = Some v) ->
  exists fs', Parse fs (renderConfig cfg) = Parsed fs' [] /\ readConfig fs' = cfg.
Proof.
  intros Hl. unfold mainFlags in Hl. unfold renderConfig.
  eexists. split.
  - do 11 first
      [erewrite Parse_string;
         [|by vm_compute|rewrite ?lookup_insert_ne by done; solve [apply Hl; in_list]]
      |erewrite Parse_bool;
         [|by vm_compute|rewrite ?lookup_insert_ne by done; solve [apply Hl; in_list]]].
    reflexivity.
  - destruct cfg; unfold readConfig, flagString, flagBool. by simpl_map.
Qed.

(** Every configuration of main can be given on the command line: whatever
    the values of the variables (addresses, paths with any characters, flags),
    parsing the arguments that state them yields exactly these values. *)
Theorem parseFlags_renderConfig cfg :
  flagsDistinct = true ->
  parseFlags (renderConfig cfg) = ([], inr cfg).
Proof.
  intros Hd. destruct (Parse_renderConfig cfg (list_to_map mainFlags ∪ libraryFlags))
    as (fs & E & Er); [intros; by apply mainFlags_lookup|].
  unfold parseFlags, commandLine. rewrite Hd.
  unfold mbind, P_bind, mret, P_ret. rewrite E. by rewrite Er.
Qed.

Lemma run_options sc cfg opts : ENewManager opts ∈ (run sc cfg).1 -> opts = managerOptions sc cfg.
Proof.
  destruct (run_cases sc cfg) as [(e & _ & ->)|[(config & e & _ & _ & ->)|(config & mgr & _ & _ & ->)]];
    simpl; intros Hin.
  - by apply elem_of_nil in Hin.
  - apply list_elem_of_singleton in Hin. by injection Hin.
  - change (ENewManager opts ∈ take (S (leading (startConditions mgr))) (startSequence sc cfg mgr))
      in Hin. apply (subseteq_take _ _) in Hin. set_solver.
Qed.

(** *** From the command line to the options *)

(** The flags that need no value: three of main, and those of the libraries. *)
Definition standsAlone (name : string) : bool :=
  bool_decide (name ∈ ["leader-elect"; "metrics-secure"; "enable-http2"]) ||
  match libraryFlags !! name with Some v => isBoolFlag v | None => false end.

(** What the command line gives for a flag: the value stated last, if any. *)
Definition given (args : list string) (name : string) : option string :=
  lastSetting name (settings standsAlone args).

Definition givenBool (args : list string) (name : string) (dflt : bool) : bool :=
  default dflt (given args name ≫= ParseBool).

Lemma commandLine_flags fs : commandLine = ([], inr fs) -> fs = list_to_map mainFlags ∪ libraryFlags.
Proof. unfold commandLine. destruct flagsDistinct; [by intros [= <-]|done]. Qed.

Lemma commandLine_knows : flagsDistinct = true -> knows standsAlone (list_to_map mainFlags ∪ libraryFlags).
Proof.
  intros Hd n v. unfold standsAlone. rewrite lookup_union_Some_raw. intros [Hm|[Hm ->]].
  - unfold flagsDistinct in Hd. rewrite forallb_forall in Hd.
    apply elem_of_list_to_map_2 in Hm. pose proof (Hd (n, v) (proj1 (list_elem_of_In _ _) Hm)) as Hl.
    simpl in Hl. destruct (libraryFlags !! n); [done|]. rewrite orb_false_r.
    unfold mainFlags in Hm. rewrite !elem_of_cons, elem_of_nil in Hm.
    by destruct_or!; simplify_eq/=.
  - assert (Hno : n ∉ ["leader-elect"; "metrics-secure"; "enable-http2"]).
    { rewrite !elem_of_cons, elem_of_nil. intros Hin. by destruct_or!; subst. }
    by rewrite bool_decide_eq_false_2.
Qed.

(** The parsed flags hold what was given, or the defaults. *)
Lemma parsed_flag fs args fs' rest name d :
  commandLine = ([], inr fs) -> Parse fs args = Parsed fs' rest -> (name, d) ∈ mainFlags ->
  exists v, fs' !! name = Some v /\ setTo d (given args name) v.
Proof.
  intros Hc Hp Hin. assert (Hd : flagsDistinct = true).
  { revert Hc. unfold commandLine. by destruct flagsDistinct. }
  apply commandLine_flags in Hc as ->. pose proof (mainFlags_lookup _ _ libraryFlags Hin) as Hl.
  pose proof (Parse_sameFlags _ _ _ _ Hp name) as Hs. rewrite Hl in Hs.
  destruct (fs' !! name) as [v|] eqn:Ev; [|done]. exists v. split; [done|].
  eapply Parse_settings; [done|by apply commandLine_knows|done|done].
Qed.

Lemma parsed_string fs args fs' rest name d :
  commandLine = ([], inr fs) -> Parse fs args = Parsed fs' rest -> (name, FString d) ∈ mainFlags ->
  flagString fs' name = default d (given args name).
Proof.
  intros Hc Hp Hin. destruct (parsed_flag _ _ _ _ _ _ Hc Hp Hin) as (v & Hv & Ht).
  unfold flagString. rewrite Hv. simpl in Ht. by destruct (given args name); subst.
Qed.

Lemma parsed_bool fs args fs' rest name d :
  commandLine = ([], inr fs) -> Parse fs args = Parsed fs' rest -> (name, FBool d) ∈ mainFlags ->
  flagBool fs' name = givenBool args name d.
Proof.
  intros Hc Hp Hin. destruct (parsed_flag _ _ _ _ _ _ Hc Hp Hin) as (v & Hv & Ht).
  unfold flagBool, givenBool. rewrite Hv. simpl in Ht.
  destruct (given args name) as [x|]; simpl; [|by subst]. by destruct Ht as (b & -> & ->).
Qed.

(** The variables of main, from its command line. *)
Lemma parseFlags_given args cfg :
  parseFlags args = ([], inr cfg) ->
  cfg = mkMainConfig (default "0" (given args "metrics-bind-address"))
    (default "" (given args "metrics-cert-path")) (default "tls.crt" (given args "metrics-cert-name"))
    (default "tls.key" (given args "metrics-cert-key")) (default "" (given args "webhook-cert-path"))
    (default "tls.crt" (given args "webhook-cert-name"))
    (default "tls.key" (given args "webhook-cert-key")) (givenBool args "leader-elect" false)
    (default ":8081" (given args "health-probe-bind-address"))
    (givenBool args "metrics-secure" true) (givenBool args "enable-http2" false).
Proof.
  unfold parseFlags. destruct commandLine as [tc [ec|fs]] eqn:Ec; [by intros [=]|].
  assert (tc = []) as -> by (revert Ec; unfold commandLine; destruct flagsDistinct; by intros [= <-]).
  simpl. destruct (Parse fs args) as [fs' rest| |] eqn:Ep; simpl; [|by intros [=]..].
  intros [= <-]. unfold readConfig.
  f_equal; (eapply parsed_string || eapply parsed_bool); eauto; unfold mainFlags; in_list.
Qed.

(** C30. What the command line does to the endpoints, for every command line.
    A manager is created with options that are determined by the value each
    flag was given last, or by its default. Unless enable-http2 was last given
    a true value, the metrics and the webhook server negotiate HTTP/1.1 only,
    whatever protocols their TLS configuration had. Unless metrics-secure was
    given a false value, metrics are served over TLS and with authentication
    and authorization, and otherwise with neither. A certificate directory
    that was given is used with the given file names, and none is otherwise.
    The addresses and leader election are as given; without flags metrics are
    off, the probes are on port 8081 and there is no leader election. *)
Theorem main_servers args opts :
  ENewManager opts ∈ (main args).1 ->
  let str name dflt := default dflt (given args name) in
  let protos (c : tlsConfig) :=
    if givenBool args "enable-http2" false then NextProtos c else ["http/1.1"] in
  let cert dir name key := if bool_decide (dir = "") then ("", "", "") else (dir, name, key) in
  let m := mo_Metrics opts in let w := mo_WebhookServer opts in
  (forall c, NextProtos (applyTLS (ms_TLSOpts m) c) = protos c) /\
  (forall c, NextProtos (applyTLS (wh_TLSOpts w) c) = protos c) /\
  ms_SecureServing m = givenBool args "metrics-secure" true /\
  ms_FilterProvider m = givenBool args "metrics-secure" true /\
  ms_BindAddress m = str "metrics-bind-address" "0" /\
  (ms_CertDir m, ms_CertName m, ms_KeyName m) =
    cert (str "metrics-cert-path" "") (str "metrics-cert-name" "tls.crt")
      (str "metrics-cert-key" "tls.key") /\
  (wh_CertDir w, wh_CertName w, wh_KeyName w) =
    cert (str "webhook-cert-path" "") (str "webhook-cert-name" "tls.crt")
      (str "webhook-cert-key" "tls.key") /\
  mo_HealthProbeBindAddress opts = str "health-probe-bind-address" ":8081" /\
  mo_LeaderElection opts = givenBool args "leader-elect" false.
Proof.
  intros Hin. destruct (main_run args) as [(sc & cfg & _ & Ep & E)|[Ht _]].
  2:{ rewrite Ht in Hin. by apply elem_of_nil in Hin. }
  rewrite E in Hin. apply run_options in Hin as ->. clear E. apply parseFlags_given in Ep as ->.
  unfold managerOptions, metricsServerOptions, webhookServerOptions, tlsOptions. simpl.
  split_and!; repeat case_bool_decide; simpl; try done; try tauto;
    by destruct (givenBool args "enable-http2" false).
Qed.
End manager.

(** ** A runtime whose calls succeed *)

#[export] Instance sampleRuntime : Runtime (H := fakeExtern) := {|
  restCfg := unit; Manager := unit;
  Scheme := list (GroupVersion * string); NewScheme := [];
  clientgoAddToScheme s := Ok ((mkGV "" "v1", "Pod") :: s); AddToScheme kinds s := Ok (kinds ++ s);
  libraryFlags := {[ "zap-devel" := FExt (mkExtFlag true (fun _ => Ok tt)) [] ]};
  GetConfig := Ok tt; NewManager _ _ := Ok tt; mgrGetClient _ := site "local";
  registryMustRegister _ := true; builderComplete _ _ _ _ := Ok tt;
  AddHealthzCheck _ _ := Ok tt; AddReadyzCheck _ _ := Ok tt; mgrStart _ := Ok tt
|}.

(** The arguments of config/manager/manager.yaml. *)
Definition deployedArgs : list string := ["--leader-elect"; "--health-probe-bind-address=:8081"].

Lemma parseFlags_renderConfig_witness :
  parseFlags (renderConfig (mkMainConfig ":8443" "/certs=x" "" "--" "" "" "" true ":8081" false true))
  = ([], inr (mkMainConfig ":8443" "/certs=x" "" "--" "" "" "" true ":8081" false true)).
Proof. apply parseFlags_renderConfig. reflexivity. Defined.

Definition deployedConfig : MainConfig :=
  mkMainConfig "0" "" "tls.crt" "tls.key" "" "tls.crt" "tls.key" true ":8081" true false.

Definition deployedScheme : Scheme (Runtime := sampleRuntime) :=
  registeredKinds ++ [(mkGV "" "v1", "Pod")].

Lemma main_servers_witness :
  (main deployedArgs).1 = startSequence deployedScheme deployedConfig tt /\
  givenBool deployedArgs "leader-elect" false = true /\
  mo_LeaderElection (managerOptions deployedScheme deployedConfig) = true.
Proof.
  assert (E : (main deployedArgs).1 = startSequence deployedScheme deployedConfig tt) by reflexivity.
  split; [exact E|]. split; [reflexivity|].
  destruct (main_servers deployedArgs (managerOptions deployedScheme deployedConfig))
    as (_ & _ & _ & _ & _ & _ & _ & _ & Hle).
  { rewrite E. constructor. }
  exact Hle.
Defined.

Lemma main_start_order_witness :
  EStart ∈ (main deployedArgs).1 /\
  exists sc cfg mgr, parseFlags deployedArgs = ([], inr cfg) /\
    (main deployedArgs).1 = startSequence sc cfg mgr /\ (main deployedArgs).2 = Exit 0.
Proof.
  assert (Hs : EStart ∈ (main deployedArgs).1).
  { change (EStart ∈ startSequence deployedScheme deployedConfig tt). unfold startSequence.
    repeat first [apply list_elem_of_here | apply list_elem_of_further]. }
  split; [exact Hs|].
  pose proof (main_start_order deployedArgs) as Hm.
  destruct (main deployedArgs) as [t x] eqn:E. simpl in *.
  destruct Hm as [Hm _].
  destruct (Hm Hs) as (sc & cfg & config & mgr & _ & Ep & _ & _ & Et & _ & Hx).
  exists sc, cfg, mgr. split; [exact Ep|]. split; [exact Et|]. apply Hx. reflexivity.
Defined.
