(* ===== verification/DeepCopy.v ===== *)
(** * api/v1alpha1: the deep copies

    The controller-runtime cache hands out deep copies of the objects it
    holds, and Reconcile changes the object it was given (its status, its
    annotations): that is only sound if a copy shares no storage with the
    original. This file models the generated DeepCopy functions over an
    explicit heap.

    One record per Go struct serves for the two views of a value: over [mem]
    a pointer is an address and a slice an address with a length, over [val]
    they are the values themselves. [read] functions relate them and compute
    the addresses a value owns. A function that receives [out] by pointer
    returns the struct it leaves there: it writes nothing else but storage it
    has just allocated. *)

From S2P Require Import Prelude GoStd Api.

(** ** Structs, over a choice of pointers, slices and embedded types *)

Record kinds : Type := mkKinds {
  kptr : Type -> Type;
  kslice : Type -> Type;
  kSelector : Type;         (* corev1.SecretKeySelector *)
  kObjectMeta : Type;       (* metav1.ObjectMeta *)
  kListMeta : Type;         (* metav1.ListMeta *)
  kCondition : Type         (* metav1.Condition *)
}.

Module Go.
Record TypeMeta : Type := mkTypeMeta { Kind : string; APIVersion : string }.

Record PostgresProbeOf (K : kinds) : Type := mkProbe {
  ppEndpoint : string;
  ppPort : Z;
  ppDatabase : string;
  ppSSLMode : string;
  ppUserSecretRef : kSelector K;
  ppPasswordSecretRef : kSelector K
}.

Record PrimarySiteOf (K : kinds) : Type := mkPrimarySite {
  psName : string;
  psClusterRef : ClusterRef;
  psReplicationEndpoint : string;
  psPostgresProbe : kptr K (PostgresProbeOf K)
}.

Record ReplicaSiteOf (K : kinds) : Type := mkReplicaSite {
  rsName : string;
  rsKubeconfigSecretRef : kSelector K;
  rsClusterRef : ClusterRef;
  rsReplicationEndpoint : string;
  rsPostgresProbe : kptr K (PostgresProbeOf K)
}.

Record HAClusterSpecOf (K : kinds) : Type := mkSpec {
  spPrimary : PrimarySiteOf K;
  spReplicas : kslice K (ReplicaSiteOf K);
  spFailover : FailoverSpec
}.

Record SiteStatusOf (K : kinds) : Type := mkSiteStatus {
  ssName : string;
  ssRole : string;
  ssReachable : bool;
  ssReady : bool;
  ssPhase : string;
  ssMessage : string;
  ssLastObservedTime : kptr K Z;
  ssCurrentLSN : string;
  ssReplicationLagMilliseconds : kptr K Z
}.

Record HAClusterStatusOf (K : kinds) : Type := mkStatus {
  stCurrentPrimarySite : string;
  stLastFailoverTime : kptr K Z;
  stObservedGeneration : Z;
  stSites : kslice K (SiteStatusOf K);
  stConditions : kslice K (kCondition K)
}.

Record HAClusterOf (K : kinds) : Type := mkHACluster {
  haTypeMeta : TypeMeta;
  haObjectMeta : kObjectMeta K;
  haSpec : HAClusterSpecOf K;
  haStatus : HAClusterStatusOf K
}.

Record HAClusterList (K : kinds) : Type := mkList {
  lTypeMeta : TypeMeta;
  lListMeta : kListMeta K;
  lItems : kslice K (HAClusterOf K)
}.

Arguments mkProbe {K}. Arguments mkPrimarySite {K}. Arguments mkReplicaSite {K}.
Arguments mkSpec {K}. Arguments mkSiteStatus {K}. Arguments mkStatus {K}.
Arguments mkHACluster {K}. Arguments mkList {K}.
Arguments ppEndpoint {K}. Arguments ppPort {K}. Arguments ppDatabase {K}.
Arguments ppSSLMode {K}. Arguments ppUserSecretRef {K}. Arguments ppPasswordSecretRef {K}.
Arguments psName {K}. Arguments psClusterRef {K}. Arguments psReplicationEndpoint {K}.
Arguments psPostgresProbe {K}.
Arguments rsName {K}. Arguments rsKubeconfigSecretRef {K}. Arguments rsClusterRef {K}.
Arguments rsReplicationEndpoint {K}. Arguments rsPostgresProbe {K}.
Arguments spPrimary {K}. Arguments spReplicas {K}. Arguments spFailover {K}.
Arguments ssName {K}. Arguments ssRole {K}. Arguments ssReachable {K}. Arguments ssReady {K}.
Arguments ssPhase {K}. Arguments ssMessage {K}. Arguments ssLastObservedTime {K}.
Arguments ssCurrentLSN {K}. Arguments ssReplicationLagMilliseconds {K}.
Arguments stCurrentPrimarySite {K}. Arguments stLastFailoverTime {K}.
Arguments stObservedGeneration {K}. Arguments stSites {K}. Arguments stConditions {K}.
Arguments haTypeMeta {K}. Arguments haObjectMeta {K}. Arguments haSpec {K}.
Arguments haStatus {K}. Arguments lTypeMeta {K}. Arguments lListMeta {K}. Arguments lItems {K}.
End Go.

Definition loc : Type := positive.

(** The Kubernetes types embedded in the API, with the cells of the heap only
    they use. *)
Class ExtTypes : Type := {
  SelectorM : Type; SelectorV : Type;
  ObjectMetaM : Type; ObjectMetaV : Type;
  ListMetaM : Type; ListMetaV : Type;
  ConditionM : Type; ConditionV : Type;
  extCell : Type;
  zeroSelector : SelectorM;
  zeroObjectMeta : ObjectMetaM;
  zeroListMeta : ListMetaM;
  zeroCondition : ConditionM
}.

Section deepcopy.
Context {ET : ExtTypes}.

Definition mem : kinds :=
  mkKinds (fun _ => option loc) (fun _ => option (loc * nat))
    SelectorM ObjectMetaM ListMetaM ConditionM.

Definition val : kinds :=
  mkKinds option (fun T => option (list T)) SelectorV ObjectMetaV ListMetaV ConditionV.

(** ** The heap *)

Inductive cell : Type :=
  | CTime (t : Z)
  | CInt64 (z : Z)
  | CClusterRef (c : ClusterRef)
  | CFailoverSpec (f : FailoverSpec)
  | CProbe (p : Go.PostgresProbeOf mem)
  | CPrimarySite (p : Go.PrimarySiteOf mem)
  | CReplicaSite (r : Go.ReplicaSiteOf mem)
  | CSpec (s : Go.HAClusterSpecOf mem)
  | CSiteStatus (s : Go.SiteStatusOf mem)
  | CStatus (s : Go.HAClusterStatusOf mem)
  | CHACluster (h : Go.HAClusterOf mem)
  | CHAClusterList (l : Go.HAClusterList mem)
  | CReplicas (l : list (Go.ReplicaSiteOf mem))
  | CSites (l : list (Go.SiteStatusOf mem))
  | CConditions (l : list ConditionM)
  | CItems (l : list (Go.HAClusterOf mem))
  | CExt (e : extCell).

#[local] Notation heap := (gmap loc cell).

(** A type a cell can hold. *)
Class Cell (T : Type) : Type := {
  put : T -> cell;
  take_cell : cell -> option T;
  take_put x : take_cell (put x) = Some x
}.

Definition CellTime : Cell Z :=
  {| put := CTime; take_cell c := match c with CTime x => Some x | _ => None end;
     take_put x := eq_refl |}.
Definition CellInt64 : Cell Z :=
  {| put := CInt64; take_cell c := match c with CInt64 x => Some x | _ => None end;
     take_put x := eq_refl |}.
#[local] Instance Cell_ClusterRef : Cell ClusterRef :=
  {| put := CClusterRef; take_cell c := match c with CClusterRef x => Some x | _ => None end;
     take_put x := eq_refl |}.
#[local] Instance Cell_FailoverSpec : Cell FailoverSpec :=
  {| put := CFailoverSpec; take_cell c := match c with CFailoverSpec x => Some x | _ => None end;
     take_put x := eq_refl |}.
#[local] Instance Cell_Probe : Cell (Go.PostgresProbeOf mem) :=
  {| put := CProbe; take_cell c := match c with CProbe x => Some x | _ => None end;
     take_put x := eq_refl |}.
#[local] Instance Cell_PrimarySite : Cell (Go.PrimarySiteOf mem) :=
  {| put := CPrimarySite; take_cell c := match c with CPrimarySite x => Some x | _ => None end;
     take_put x := eq_refl |}.
#[local] Instance Cell_ReplicaSite : Cell (Go.ReplicaSiteOf mem) :=
  {| put := CReplicaSite; take_cell c := match c with CReplicaSite x => Some x | _ => None end;
     take_put x := eq_refl |}.
#[local] Instance Cell_Spec : Cell (Go.HAClusterSpecOf mem) :=
  {| put := CSpec; take_cell c := match c with CSpec x => Some x | _ => None end;
     take_put x := eq_refl |}.
#[local] Instance Cell_SiteStatus : Cell (Go.SiteStatusOf mem) :=
  {| put := CSiteStatus; take_cell c := match c with CSiteStatus x => Some x | _ => None end;
     take_put x := eq_refl |}.
#[local] Instance Cell_Status : Cell (Go.HAClusterStatusOf mem) :=
  {| put := CStatus; take_cell c := match c with CStatus x => Some x | _ => None end;
     take_put x := eq_refl |}.
#[local] Instance Cell_HACluster : Cell (Go.HAClusterOf mem) :=
  {| put := CHACluster; take_cell c := match c with CHACluster x => Some x | _ => None end;
     take_put x := eq_refl |}.
#[local] Instance Cell_HAClusterList : Cell (Go.HAClusterList mem) :=
  {| put := CHAClusterList; take_cell c := match c with CHAClusterList x => Some x | _ => None end;
     take_put x := eq_refl |}.
#[local] Instance Cell_Replicas : Cell (list (Go.ReplicaSiteOf mem)) :=
  {| put := CReplicas; take_cell c := match c with CReplicas x => Some x | _ => None end;
     take_put x := eq_refl |}.
#[local] Instance Cell_Sites : Cell (list (Go.SiteStatusOf mem)) :=
  {| put := CSites; take_cell c := match c with CSites x => Some x | _ => None end;
     take_put x := eq_refl |}.
#[local] Instance Cell_Conditions : Cell (list ConditionM) :=
  {| put := CConditions; take_cell c := match c with CConditions x => Some x | _ => None end;
     take_put x := eq_refl |}.
#[local] Instance Cell_Items : Cell (list (Go.HAClusterOf mem)) :=
  {| put := CItems; take_cell c := match c with CItems x => Some x | _ => None end;
     take_put x := eq_refl |}.

(** ** Running on the heap

    [None] is an access to an address that does not hold such a value, which
    the Go runtime excludes. *)
Definition HM (A : Type) : Type := heap -> option (A * heap).
#[local] Instance H_ret : MRet HM := fun _ a h => Some (a, h).
#[local] Instance H_bind : MBind HM := fun _ _ k m h =>
  match m h with Some (a, h') => k a h' | None => None end.

Definition deref {T} `{Cell T} (l : loc) : HM T := fun h =>
  match h !! l ≫= take_cell with Some x => Some (x, h) | None => None end.

Definition new {T} `{Cell T} (x : T) : HM loc := fun h =>
  let l := fresh (dom h) in Some (l, <[l := put x]> h).

Definition store {T} `{Cell T} (l : loc) (x : T) : HM unit := fun h => Some (tt, <[l := put x]> h).

Definition storeAt {T} `{Cell (list T)} (l : loc) (i : nat) (x : T) : HM unit :=
  arr ← deref l; store l (<[i := x]> (arr : list T)).

Definition index {T} (arr : list T) (i : nat) : HM T := fun h =>
  match arr !! i with Some x => Some (x, h) | None => None end.

(** A pointer field: a fresh object is allocated and filled from the one the
    field points to, unless it is nil; also the shape of every DeepCopy. *)
Definition copyPtr {T} `{Cell T} (zero : T) (into : T -> HM T) (p : option loc) : HM (option loc) :=
  match p with
  | None => mret None
  | Some l =>
      out ← new zero;
      x ← deref l;
      y ← into x;
      store out y;;
      mret (Some out)
  end.

(** The loop over the elements of a slice, from index [i] with [k] to go: each
    is copied into the element of the new array at the same index. *)
Fixpoint copyLoop {T} `{Cell (list T)} (into : T -> HM T) (src dst : loc) (i k : nat) : HM unit :=
  match k with
  | O => mret tt
  | S k' =>
      arr ← deref src;
      x ← index (arr : list T) i;
      y ← into x;
      storeAt dst i y;;
      copyLoop into src dst (S i) k'
  end.

(** A slice field: an array of zero values of the same length, then the loop,
    unless it is nil. *)
Definition copySlice {T} `{Cell (list T)} (zero : T) (into : T -> HM T)
    (s : option (loc * nat)) : HM (option (loc * nat)) :=
  match s with
  | None => mret None
  | Some (src, n) =>
      dst ← new (replicate n zero);
      copyLoop into src dst 0 n;;
      mret (Some (dst, n))
  end.

(** ** Reading a value: what it denotes and the addresses it owns *)

Definition R (A : Type) : Type := heap -> option (A * gset loc).
#[local] Instance R_ret : MRet R := fun _ a _ => Some (a, ∅).
#[local] Instance R_bind : MBind R := fun _ _ k m h =>
  match m h with
  | Some (a, F) => match k a h with Some (b, G) => Some (b, F ∪ G) | None => None end
  | None => None
  end.

Definition readAt {T} `{Cell T} (l : loc) : R T := fun h =>
  match h !! l ≫= take_cell with Some x => Some (x, {[l]}) | None => None end.

Fixpoint readAll {T V} (rd : T -> R V) (l : list T) : R (list V) :=
  match l with
  | [] => mret []
  | x :: l' => v ← rd x; vs ← readAll rd l'; mret (v :: vs)
  end.

Definition readPtr {T V} `{Cell T} (rd : T -> R V) (p : option loc) : R (option V) :=
  match p with
  | None => mret None
  | Some l => x ← readAt l; v ← rd x; mret (Some v)
  end.

Definition readSlice {T V} `{Cell (list T)} (rd : T -> R V) (s : option (loc * nat))
    : R (option (list V)) :=
  match s with
  | None => mret None
  | Some (l, n) =>
      arr ← readAt l;
      if bool_decide (n <= length (arr : list T))%nat
      then vs ← readAll rd (take n arr); mret (Some vs)
      else fun _ => None
  end.

(** A reading depends only on the addresses it reports, which are allocated. *)
Definition local_read {A} (m : R A) : Prop := forall h a F, m h = Some (a, F) ->
  F ⊆ dom h /\ forall h', (forall l, l ∈ F -> h' !! l = h !! l) -> m h' = Some (a, F).

(** [into] is a deep copy for values read by [rd]: it succeeds on every value
    that can be read, changes no allocated cell, and its result denotes the
    same value in storage that was not allocated before. *)
Definition copies {T V} (rd : T -> R V) (into : T -> HM T) : Prop :=
  forall h x v F, rd x h = Some (v, F) ->
  exists y h' F', into x h = Some (y, h') /\ h ⊆ h' /\ rd y h' = Some (v, F') /\ F' ## dom h.

Lemma bind_R_inv {A B} (m : R A) (k : A -> R B) h b F :
  (m ≫= k) h = Some (b, F) ->
  exists a F1 F2, m h = Some (a, F1) /\ k a h = Some (b, F2) /\ F = F1 ∪ F2.
Proof. unfold mbind, R_bind. intros E. case_go. eauto 10. Qed.

Lemma bind_R_eq {A B} (m : R A) (k : A -> R B) h a F1 b F2 :
  m h = Some (a, F1) -> k a h = Some (b, F2) -> (m ≫= k) h = Some (b, F1 ∪ F2).
Proof. unfold mbind, R_bind. by intros -> ->. Qed.

Lemma bind_H_eq {A B} (m : HM A) (k : A -> HM B) h a h' :
  m h = Some (a, h') -> (m ≫= k) h = k a h'.
Proof. unfold mbind, H_bind. by intros ->. Qed.

Lemma local_ret {A} (a : A) : local_read (mret a).
Proof. intros h b F [= <- <-]. split; [set_solver|done]. Qed.

Lemma local_bind {A B} (m : R A) (k : A -> R B) :
  local_read m -> (forall a, local_read (k a)) -> local_read (m ≫= k).
Proof.
  intros Hm Hk h b F (a & F1 & F2 & E1 & E2 & ->)%bind_R_inv.
  destruct (Hm _ _ _ E1) as [D1 L1], (Hk _ _ _ _ E2) as [D2 L2].
  split; [set_solver|]. intros h' Hh'. eapply bind_R_eq; [apply L1|apply L2]; set_solver.
Qed.

Lemma local_readAt {T} `{Cell T} l : local_read (readAt l).
Proof.
  intros h x F E. unfold readAt in E. destruct (h !! l) as [c|] eqn:El; simplify_eq/=.
  case_go. split; [apply singleton_subseteq_l, elem_of_dom; eauto|].
  intros h' Hh'. unfold readAt. rewrite Hh' by set_solver. by simplify_option_eq.
Qed.

Lemma local_readAll {T V} (rd : T -> R V) l :
  (forall x, local_read (rd x)) -> local_read (readAll rd l).
Proof.
  intros Hr. induction l; simpl; eauto using local_ret, local_bind.
Qed.

Lemma local_readPtr {T V} `{Cell T} (rd : T -> R V) p :
  (forall x, local_read (rd x)) -> local_read (readPtr rd p).
Proof. intros. destruct p; simpl; eauto using local_ret, local_bind, local_readAt. Qed.

Lemma local_readSlice {T V} `{Cell (list T)} (rd : T -> R V) s :
  (forall x, local_read (rd x)) -> local_read (readSlice rd s).
Proof.
  intros. destruct s as [[l n]|]; simpl; [|apply local_ret].
  apply local_bind; [apply local_readAt|]. intros arr. case_bool_decide; [|by intros ? ? ?].
  eauto using local_ret, local_bind, local_readAll.
Qed.

(** Reading survives an extension of the heap. *)
Lemma read_extends {A} (m : R A) h h' a F :
  local_read m -> m h = Some (a, F) -> h ⊆ h' -> m h' = Some (a, F).
Proof.
  intros Hl E Hs. destruct (Hl _ _ _ E) as [D L]. apply L. intros l Hl'.
  assert (is_Some (h !! l)) as [c Hc] by (apply elem_of_dom; set_solver).
  rewrite Hc. by eapply lookup_weaken.
Qed.

Lemma fresh_dom (h : heap) : fresh (dom h) ∉ dom h.
Proof. apply is_fresh. Qed.

Lemma insert_fresh (h : heap) l c : l ∉ dom h -> h ⊆ <[l := c]> h.
Proof. intros Hl. apply insert_subseteq. by apply not_elem_of_dom. Qed.

Lemma readAt_deref {T} `{Cell T} l h x F :
  readAt l h = Some (x, F) -> deref l h = Some (x, h) /\ F = {[l]}.
Proof. unfold readAt, deref. intros. by case_go. Qed.

Lemma readAt_put {T} `{Cell T} l (h : heap) x :
  h !! l = Some (put x) -> readAt l h = Some (x, {[l]}).
Proof. unfold readAt. intros ->. simpl. by rewrite take_put. Qed.

Lemma copies_ret {T V} (rd : T -> V) : copies (fun x => mret (rd x)) mret.
Proof. intros h x v F [= <- <-]. exists x, h, ∅. split_and!; [done..|set_solver]. Qed.

Lemma copyPtr_copies {T V} `{Cell T} (rd : T -> R V) zero into :
  (forall x, local_read (rd x)) -> copies rd into ->
  copies (readPtr rd) (copyPtr zero into).
Proof.
  intros Hl Hc h [l|] v F E; simpl in E.
  2:{ injection E as <- <-. exists None, h, ∅. split_and!; [done..|set_solver]. }
  apply bind_R_inv in E as (x & F1 & F2 & E1 & E2 & ->).
  apply bind_R_inv in E2 as (w & F3 & F4 & E3 & [= <- <-] & ->).
  set (d := fresh (dom h)). pose proof (fresh_dom h : d ∉ dom h) as Hd.
  assert (S1 : h ⊆ <[d := put zero]> h) by by apply insert_fresh.
  pose proof (read_extends _ _ _ _ _ (local_readAt l) E1 S1) as [E1' _]%readAt_deref.
  destruct (Hc (<[d := put zero]> h) x w F3) as (y & h2 & F' & Ei & S2 & Er & HF).
  { by eapply read_extends. }
  assert (Hdy : d ∉ F') by (rewrite dom_insert_L in HF; set_solver).
  exists (Some d), (<[d := put y]> h2), ({[d]} ∪ (F' ∪ ∅)). split_and!.
  - unfold copyPtr. erewrite bind_H_eq by reflexivity. fold d.
    erewrite bind_H_eq by exact E1'. by erewrite bind_H_eq by exact Ei.
  - apply insert_subseteq_r; [by apply not_elem_of_dom|]. by trans (<[d := put zero]> h).
  - simpl. eapply bind_R_eq; [apply readAt_put, lookup_insert_eq|].
    eapply bind_R_eq; [|done]. apply (Hl y h2 w F' Er). intros k Hk.
    apply lookup_insert_ne. set_solver.
  - rewrite dom_insert_L in HF. set_solver.
Qed.
(** [readAll] element by element; [P] bounds the addresses of each. *)
Definition element_reads {T V} (rd : T -> R V) (P : gset loc -> Prop) (h : heap)
    (l : list T) (vs : list V) (j : nat) : Prop :=
  exists x v F, l !! j = Some x /\ vs !! j = Some v /\ rd x h = Some (v, F) /\ P F.

Lemma readAll_elements {T V} (rd : T -> R V) l h vs F :
  readAll rd l h = Some (vs, F) ->
  length vs = length l /\
  forall j, (j < length l)%nat -> element_reads rd (fun G => G ⊆ F) h l vs j.
Proof.
  revert vs F. induction l as [|x l IH]; intros vs F E; simpl in E.
  { injection E as <- <-. split; [done|simpl; lia]. }
  apply bind_R_inv in E as (v & F1 & F2 & E1 & E2 & ->).
  apply bind_R_inv in E2 as (vs' & F3 & F4 & E3 & [= <- <-] & ->).
  destruct (IH _ _ E3) as [Hlen IH']. split; [simpl; by rewrite Hlen|].
  intros [|j] Hj; simpl in *; [exists x, v, F1; split_and!; set_solver|].
  destruct (IH' j) as (x' & v' & G & ? & ? & ? & ?); [lia|].
  exists x', v', G. split_and!; set_solver.
Qed.

Lemma elements_readAll {T V} (rd : T -> R V) (P : gset loc -> Prop) h l vs :
  P ∅ -> (forall F G, P F -> P G -> P (F ∪ G)) ->
  length vs = length l ->
  (forall j, (j < length l)%nat -> element_reads rd P h l vs j) ->
  exists F, readAll rd l h = Some (vs, F) /\ P F.
Proof.
  intros P0 PU. revert vs. induction l as [|x l IH]; intros [|v vs] Hlen Hel; simplify_eq/=.
  { by exists ∅. }
  destruct (Hel 0%nat) as (x' & v' & F & ? & ? & Er & HF); [lia|simplify_eq/=].
  destruct (IH vs) as (G & Ea & HG); [done| |].
  { intros j Hj. destruct (Hel (S j)) as (? & ? & ? & ?); [lia|]. by eexists _, _, _. }
  exists (F ∪ (G ∪ ∅)). split; [|auto]. eapply bind_R_eq; [done|]. by eapply bind_R_eq.
Qed.

(** The state of the loop before index [i]: what was allocated is unchanged,
    and the first [i] elements of the new array are copies. *)
Record loop_inv {T V} `{Cell (list T)} (rd : T -> R V) (h0 : heap) (vs : list V) (d : loc)
    (n i : nat) (h : heap) (darr : list T) : Prop := {
  li_old : h0 ⊆ h;
  li_dst : h !! d = Some (put darr);
  li_len : length darr = n;
  li_done j : (j < i)%nat -> element_reads rd (fun F => F ## dom h0 /\ d ∉ F) h darr vs j
}.

Lemma loop_inv_step {T V} `{Cell (list T)} (rd : T -> R V) h0 vs d n i h darr y v h' F :
  (forall x, local_read (rd x)) -> d ∉ dom h0 -> (i < n)%nat ->
  loop_inv rd h0 vs d n i h darr ->
  vs !! i = Some v -> h ⊆ h' -> rd y h' = Some (v, F) -> F ## dom h ->
  loop_inv rd h0 vs d n (S i) (<[d := put (<[i := y]> darr)]> h') (<[i := y]> darr).
Proof.
  intros Hl Hd Hi [Ho Hdst Hlen Hdone] Hv Hs Hy HF.
  assert (Hd' : d ∈ dom h) by (apply elem_of_dom; eauto).
  assert (dom h0 ⊆ dom h) by by apply subseteq_dom.
  split.
  - apply insert_subseteq_r; [by apply not_elem_of_dom|by trans h].
  - apply lookup_insert_eq.
  - by rewrite length_insert.
  - intros j Hj. destruct (decide (j = i)) as [->|Hne].
    + exists y, v, F. split_and!; [apply list_lookup_insert_eq; lia|done| |set_solver..].
      apply (Hl y h' v F Hy). intros k Hk. apply lookup_insert_ne. set_solver.
    + destruct (Hdone j) as (x & w & G & Hx & Hw & Er & HG & HdG); [lia|].
      exists x, w, G. split_and!; [by rewrite list_lookup_insert_ne|done| |done|done].
      apply (read_extends _ _ h') in Er; [|done|done].
      apply (Hl x h' w G Er). intros k Hk. apply lookup_insert_ne. set_solver.
Qed.

Lemma copyLoop_spec {T V} `{Cell (list T)} (rd : T -> R V) into h0 src arr vs d n k i h darr :
  (forall x, local_read (rd x)) -> copies rd into -> d ∉ dom h0 ->
  readAt src h0 = Some (arr, {[src]}) -> (i + k = n)%nat ->
  (forall j, (j < n)%nat -> element_reads rd (fun F => True) h0 arr vs j) ->
  loop_inv rd h0 vs d n i h darr ->
  exists h' darr', copyLoop into src d i k h = Some (tt, h') /\
    loop_inv rd h0 vs d n n h' darr'.
Proof.
  intros Hl Hc Hd Hsrc. revert i h darr. induction k as [|k IH]; intros i h darr Hik Hel Hinv.
  { exists h, darr. split; [done|]. by assert (i = n) as <- by lia. }
  destruct (Hel i) as (x & v & F & Hx & Hv & Er & _); [lia|].
  pose proof (li_old _ _ _ _ _ _ _ _ Hinv) as Ho.
  apply (read_extends _ _ h) in Er; [|done|done].
  pose proof (read_extends _ _ h _ _ (local_readAt src) Hsrc Ho) as [Es _]%readAt_deref.
  destruct (Hc h x v F Er) as (y & h1 & F' & Ei & S1 & Ey & HF).
  pose proof (loop_inv_step rd h0 vs d n i h darr y v h1 F' Hl Hd ltac:(lia) Hinv Hv S1 Ey HF) as Hinv'.
  destruct (IH (S i) _ _ ltac:(lia) Hel Hinv') as (h' & darr' & Eloop & Hfin).
  exists h', darr'. split; [|done]. simpl.
  erewrite bind_H_eq by exact Es.
  rewrite (bind_H_eq (index arr i) _ h x h) by (unfold index; by rewrite Hx).
  erewrite bind_H_eq by exact Ei.
  erewrite bind_H_eq; [exact Eloop|].
  unfold storeAt. rewrite (bind_H_eq _ _ h1 darr h1); [done|].
  unfold deref. rewrite (lookup_weaken _ h1 _ _ (li_dst _ _ _ _ _ _ _ _ Hinv) S1). simpl.
  by rewrite take_put.
Qed.

Lemma copySlice_copies {T V} `{Cell (list T)} (rd : T -> R V) zero into :
  (forall x, local_read (rd x)) -> copies rd into ->
  copies (readSlice rd) (copySlice zero into).
Proof.
  intros Hl Hc h [[src n]|] v F E; simpl in E.
  2:{ injection E as <- <-. exists None, h, ∅. split_and!; [done..|set_solver]. }
  apply bind_R_inv in E as (arr & F1 & F2 & E1 & E2 & ->).
  case_bool_decide as Hn; [|done].
  apply bind_R_inv in E2 as (vs & F3 & F4 & E3 & [= <- <-] & ->).
  pose proof (readAt_deref _ _ _ _ E1) as [_ ->].
  apply readAll_elements in E3 as [Hlen Hel]. rewrite length_take_le in Hlen, Hel by done.
  set (d := fresh (dom h)). pose proof (fresh_dom h : d ∉ dom h) as Hd.
  destruct (copyLoop_spec rd into h src arr vs d n n 0 (<[d := put (replicate n zero)]> h)
    (replicate n zero) Hl Hc Hd E1) as (h' & darr' & El & [Ho Hdst Hlen' Hdone]).
  { done. }
  { intros j Hj. destruct (Hel j Hj) as (x & w & G & Hx & Hw & Er & _).
    rewrite lookup_take_lt in Hx by done. by exists x, w, G. }
  { split; [by apply insert_fresh|apply lookup_insert_eq|apply length_replicate|lia]. }
  destruct (elements_readAll rd (fun F => F ## dom h /\ d ∉ F) h' darr' vs) as (G & Er & HG & HdG).
  { set_solver. } { set_solver. } { congruence. } { by rewrite Hlen'. }
  exists (Some (d, n)), h', ({[d]} ∪ (G ∪ ∅)). split_and!; [| |simpl|set_solver].
  - unfold copySlice. erewrite bind_H_eq by reflexivity. fold d. by erewrite bind_H_eq by exact El.
  - done.
  - eapply bind_R_eq; [by apply readAt_put|]. rewrite bool_decide_eq_true_2 by lia.
    rewrite take_ge by lia. by eapply bind_R_eq.
Qed.
(** Copying field after field: [m], run after some fields of a value read in
    [h0] were copied, leaves a value that reads as [v] in fresh storage. *)
Definition copying {T V} (rd : T -> R V) (h0 : heap) (v : V) (m : HM T) (h : heap) : Prop :=
  exists y h' F, m h = Some (y, h') /\ h ⊆ h' /\ rd y h' = Some (v, F) /\ F ## dom h0.

Lemma copying_ret {T V} (rd : T -> R V) h0 v y h F :
  rd y h = Some (v, F) -> F ## dom h0 -> copying rd h0 v (mret y) h.
Proof. intros. by exists y, h, F. Qed.

Lemma copying_field {T V U W} (rd : T -> R V) (rf : U -> R W) into h0 v x w G k h :
  (forall u, local_read (rf u)) -> copies rf into -> rf x h0 = Some (w, G) -> h0 ⊆ h ->
  (forall y h1 G', h ⊆ h1 -> h0 ⊆ h1 -> (forall h2, h1 ⊆ h2 -> rf y h2 = Some (w, G')) ->
    G' ## dom h0 -> copying rd h0 v (k y) h1) ->
  copying rd h0 v (into x ≫= k) h.
Proof.
  intros Hl Hc E S Hk. pose proof (read_extends _ _ _ _ _ (Hl x) E S) as E'.
  destruct (Hc _ _ _ _ E') as (y & h1 & G' & Ei & S1 & Er & HG).
  assert (HG0 : G' ## dom h0) by (apply subseteq_dom in S; set_solver).
  destruct (Hk y h1 G') as (z & h2 & F & Ek & S2 & ? & ?); [done|by trans h| |done|].
  { intros h2 S2. by eapply read_extends. }
  exists z, h2, F. split_and!; [by erewrite bind_H_eq|by trans h1|done|done].
Qed.

Lemma copies_copying {T V} (rd : T -> R V) into :
  (forall x v F h, rd x h = Some (v, F) -> copying rd h v (into x) h) -> copies rd into.
Proof. intros Hc h x v F E. exact (Hc x v F h E). Qed.

(** ** The embedded Kubernetes types *)

(** Their readings and deep copies; a [Time] is the instant it denotes. *)
Class ExtCopy : Type := {
  read_Selector : SelectorM -> R SelectorV;
  read_ObjectMeta : ObjectMetaM -> R ObjectMetaV;
  read_ListMeta : ListMetaM -> R ListMetaV;
  read_Condition : ConditionM -> R ConditionV;
  Selector_DeepCopyInto : SelectorM -> HM SelectorM;
  ObjectMeta_DeepCopyInto : ObjectMetaM -> HM ObjectMetaM;
  ListMeta_DeepCopyInto : ListMetaM -> HM ListMetaM;
  Condition_DeepCopyInto : ConditionM -> HM ConditionM;
  Time_DeepCopy : loc -> HM loc
}.

Definition read_Time (t : Z) : R Z := mret t.

(** "DeepCopyInto is a deepcopy function, copying the receiver": they are deep
    copies of their own types. *)
Class ExtCopyLaws `{ExtCopy} : Prop := {
  Selector_local x : local_read (read_Selector x);
  ObjectMeta_local x : local_read (read_ObjectMeta x);
  ListMeta_local x : local_read (read_ListMeta x);
  Condition_local x : local_read (read_Condition x);
  Selector_copies : copies read_Selector Selector_DeepCopyInto;
  ObjectMeta_copies : copies read_ObjectMeta ObjectMeta_DeepCopyInto;
  ListMeta_copies : copies read_ListMeta ListMeta_DeepCopyInto;
  Condition_copies : copies read_Condition Condition_DeepCopyInto;
  Time_copies (h : heap) l t :
    h !! l = Some (CTime t) ->
    exists l' h', Time_DeepCopy l h = Some (l', h') /\ h ⊆ h' /\
      h' !! l' = Some (CTime t) /\ l' ∉ dom h
}.

(** ** The generated functions *)

Section generated.
Context `{ExtCopy}.

Definition zeroClusterRef : ClusterRef := mkClusterRef "" "".
Definition zeroFailoverSpec : FailoverSpec := mkFailoverSpec "" 0 0 "" "".
Definition zeroProbe : Go.PostgresProbeOf mem :=
  @Go.mkProbe mem "" 0 "" "" zeroSelector zeroSelector.
Definition zeroPrimarySite : Go.PrimarySiteOf mem := @Go.mkPrimarySite mem "" zeroClusterRef "" None.
Definition zeroReplica : Go.ReplicaSiteOf mem :=
  @Go.mkReplicaSite mem "" zeroSelector zeroClusterRef "" None.
Definition zeroSpec : Go.HAClusterSpecOf mem := @Go.mkSpec mem zeroPrimarySite None zeroFailoverSpec.
Definition zeroSiteStatus : Go.SiteStatusOf mem :=
  @Go.mkSiteStatus mem "" "" false false "" "" None "" None.
Definition zeroStatus : Go.HAClusterStatusOf mem := @Go.mkStatus mem "" None 0 None None.
Definition zeroHACluster : Go.HAClusterOf mem :=
  @Go.mkHACluster mem (Go.mkTypeMeta "" "") zeroObjectMeta zeroSpec zeroStatus.
Definition zeroHAClusterList : Go.HAClusterList mem :=
  @Go.mkList mem (Go.mkTypeMeta "" "") zeroListMeta None.

(** A field of type pointer to [Time]. *)
Definition copyTime (p : option loc) : HM (option loc) :=
  match p with
  | None => mret None
  | Some l => out ← Time_DeepCopy l; mret (Some out)
  end.

Definition ClusterRef_DeepCopyInto (inp : ClusterRef) : HM ClusterRef := mret inp.
Definition ClusterRef_DeepCopy : option loc -> HM (option loc) :=
  copyPtr zeroClusterRef ClusterRef_DeepCopyInto.

Definition FailoverSpec_DeepCopyInto (inp : FailoverSpec) : HM FailoverSpec := mret inp.
Definition FailoverSpec_DeepCopy : option loc -> HM (option loc) :=
  copyPtr zeroFailoverSpec FailoverSpec_DeepCopyInto.

Definition PostgresProbe_DeepCopyInto (inp : Go.PostgresProbeOf mem) : HM (Go.PostgresProbeOf mem) :=
  user ← Selector_DeepCopyInto (Go.ppUserSecretRef inp);
  password ← Selector_DeepCopyInto (Go.ppPasswordSecretRef inp);
  mret (@Go.mkProbe mem (Go.ppEndpoint inp) (Go.ppPort inp) (Go.ppDatabase inp)
          (Go.ppSSLMode inp) user password).
Definition PostgresProbe_DeepCopy : option loc -> HM (option loc) :=
  copyPtr zeroProbe PostgresProbe_DeepCopyInto.

Definition PrimarySite_DeepCopyInto (inp : Go.PrimarySiteOf mem) : HM (Go.PrimarySiteOf mem) :=
  probe ← copyPtr zeroProbe PostgresProbe_DeepCopyInto (Go.psPostgresProbe inp);
  mret (@Go.mkPrimarySite mem (Go.psName inp) (Go.psClusterRef inp)
          (Go.psReplicationEndpoint inp) probe).
Definition PrimarySite_DeepCopy : option loc -> HM (option loc) :=
  copyPtr zeroPrimarySite PrimarySite_DeepCopyInto.

Definition ReplicaSite_DeepCopyInto (inp : Go.ReplicaSiteOf mem) : HM (Go.ReplicaSiteOf mem) :=
  kubeconfig ← Selector_DeepCopyInto (Go.rsKubeconfigSecretRef inp);
  probe ← copyPtr zeroProbe PostgresProbe_DeepCopyInto (Go.rsPostgresProbe inp);
  mret (@Go.mkReplicaSite mem (Go.rsName inp) kubeconfig (Go.rsClusterRef inp)
          (Go.rsReplicationEndpoint inp) probe).
Definition ReplicaSite_DeepCopy : option loc -> HM (option loc) :=
  copyPtr zeroReplica ReplicaSite_DeepCopyInto.

Definition HAClusterSpec_DeepCopyInto (inp : Go.HAClusterSpecOf mem) : HM (Go.HAClusterSpecOf mem) :=
  primary ← PrimarySite_DeepCopyInto (Go.spPrimary inp);
  replicas ← copySlice zeroReplica ReplicaSite_DeepCopyInto (Go.spReplicas inp);
  mret (@Go.mkSpec mem primary replicas (Go.spFailover inp)).
Definition HAClusterSpec_DeepCopy : option loc -> HM (option loc) :=
  copyPtr zeroSpec HAClusterSpec_DeepCopyInto.

Definition SiteStatus_DeepCopyInto (inp : Go.SiteStatusOf mem) : HM (Go.SiteStatusOf mem) :=
  observed ← copyTime (Go.ssLastObservedTime inp);
  lag ← copyPtr (H := CellInt64) 0 mret (Go.ssReplicationLagMilliseconds inp);
  mret (@Go.mkSiteStatus mem (Go.ssName inp) (Go.ssRole inp) (Go.ssReachable inp)
          (Go.ssReady inp) (Go.ssPhase inp) (Go.ssMessage inp) observed (Go.ssCurrentLSN inp) lag).
Definition SiteStatus_DeepCopy : option loc -> HM (option loc) :=
  copyPtr zeroSiteStatus SiteStatus_DeepCopyInto.

Definition HAClusterStatus_DeepCopyInto (inp : Go.HAClusterStatusOf mem)
    : HM (Go.HAClusterStatusOf mem) :=
  failover ← copyTime (Go.stLastFailoverTime inp);
  sites ← copySlice zeroSiteStatus SiteStatus_DeepCopyInto (Go.stSites inp);
  conditions ← copySlice zeroCondition Condition_DeepCopyInto (Go.stConditions inp);
  mret (@Go.mkStatus mem (Go.stCurrentPrimarySite inp) failover (Go.stObservedGeneration inp)
          sites conditions).
Definition HAClusterStatus_DeepCopy : option loc -> HM (option loc) :=
  copyPtr zeroStatus HAClusterStatus_DeepCopyInto.

Definition HACluster_DeepCopyInto (inp : Go.HAClusterOf mem) : HM (Go.HAClusterOf mem) :=
  meta ← ObjectMeta_DeepCopyInto (Go.haObjectMeta inp);
  spec ← HAClusterSpec_DeepCopyInto (Go.haSpec inp);
  status ← HAClusterStatus_DeepCopyInto (Go.haStatus inp);
  mret (@Go.mkHACluster mem (Go.haTypeMeta inp) meta spec status).
Definition HACluster_DeepCopy : option loc -> HM (option loc) :=
  copyPtr zeroHACluster HACluster_DeepCopyInto.

(** A runtime.Object holding an HACluster or an HAClusterList, or a nil
    interface. *)
Inductive RuntimeObject : Type :=
  | NilObject
  | HAClusterObject (l : loc)
  | HAClusterListObject (l : loc).

Definition HACluster_DeepCopyObject (inp : option loc) : HM RuntimeObject :=
  c ← HACluster_DeepCopy inp;
  match c with Some l => mret (HAClusterObject l) | None => mret NilObject end.

Definition HAClusterList_DeepCopyInto (inp : Go.HAClusterList mem) : HM (Go.HAClusterList mem) :=
  meta ← ListMeta_DeepCopyInto (Go.lListMeta inp);
  items ← copySlice zeroHACluster HACluster_DeepCopyInto (Go.lItems inp);
  mret (@Go.mkList mem (Go.lTypeMeta inp) meta items).
Definition HAClusterList_DeepCopy : option loc -> HM (option loc) :=
  copyPtr zeroHAClusterList HAClusterList_DeepCopyInto.

Definition HAClusterList_DeepCopyObject (inp : option loc) : HM RuntimeObject :=
  c ← HAClusterList_DeepCopy inp;
  match c with Some l => mret (HAClusterListObject l) | None => mret NilObject end.

(** ** What the structs denote *)

Definition read_ClusterRef (c : ClusterRef) : R ClusterRef := mret c.
Definition read_FailoverSpec (f : FailoverSpec) : R FailoverSpec := mret f.

Definition read_Probe (p : Go.PostgresProbeOf mem) : R (Go.PostgresProbeOf val) :=
  user ← read_Selector (Go.ppUserSecretRef p);
  password ← read_Selector (Go.ppPasswordSecretRef p);
  mret (@Go.mkProbe val (Go.ppEndpoint p) (Go.ppPort p) (Go.ppDatabase p) (Go.ppSSLMode p)
          user password).

Definition read_PrimarySite (p : Go.PrimarySiteOf mem) : R (Go.PrimarySiteOf val) :=
  probe ← readPtr read_Probe (Go.psPostgresProbe p);
  mret (@Go.mkPrimarySite val (Go.psName p) (Go.psClusterRef p) (Go.psReplicationEndpoint p) probe).

Definition read_ReplicaSite (r : Go.ReplicaSiteOf mem) : R (Go.ReplicaSiteOf val) :=
  kubeconfig ← read_Selector (Go.rsKubeconfigSecretRef r);
  probe ← readPtr read_Probe (Go.rsPostgresProbe r);
  mret (@Go.mkReplicaSite val (Go.rsName r) kubeconfig (Go.rsClusterRef r)
          (Go.rsReplicationEndpoint r) probe).

Definition read_Spec (s : Go.HAClusterSpecOf mem) : R (Go.HAClusterSpecOf val) :=
  primary ← read_PrimarySite (Go.spPrimary s);
  replicas ← readSlice read_ReplicaSite (Go.spReplicas s);
  mret (@Go.mkSpec val primary replicas (Go.spFailover s)).

Definition read_SiteStatus (s : Go.SiteStatusOf mem) : R (Go.SiteStatusOf val) :=
  observed ← readPtr (H := CellTime) read_Time (Go.ssLastObservedTime s);
  lag ← readPtr (H := CellInt64) mret (Go.ssReplicationLagMilliseconds s);
  mret (@Go.mkSiteStatus val (Go.ssName s) (Go.ssRole s) (Go.ssReachable s) (Go.ssReady s)
          (Go.ssPhase s) (Go.ssMessage s) observed (Go.ssCurrentLSN s) lag).

Definition read_Status (s : Go.HAClusterStatusOf mem) : R (Go.HAClusterStatusOf val) :=
  failover ← readPtr (H := CellTime) read_Time (Go.stLastFailoverTime s);
  sites ← readSlice read_SiteStatus (Go.stSites s);
  conditions ← readSlice read_Condition (Go.stConditions s);
  mret (@Go.mkStatus val (Go.stCurrentPrimarySite s) failover (Go.stObservedGeneration s)
          sites conditions).

Definition read_HACluster (ha : Go.HAClusterOf mem) : R (Go.HAClusterOf val) :=
  meta ← read_ObjectMeta (Go.haObjectMeta ha);
  spec ← read_Spec (Go.haSpec ha);
  status ← read_Status (Go.haStatus ha);
  mret (@Go.mkHACluster val (Go.haTypeMeta ha) meta spec status).

Definition read_HAClusterList (l : Go.HAClusterList mem) : R (Go.HAClusterList val) :=
  meta ← read_ListMeta (Go.lListMeta l);
  items ← readSlice read_HACluster (Go.lItems l);
  mret (@Go.mkList val (Go.lTypeMeta l) meta items).

Definition read_Object (o : RuntimeObject)
    : R (option (Go.HAClusterOf val) + option (Go.HAClusterList val)) :=
  match o with
  | NilObject => fun _ => None
  | HAClusterObject l => v ← readPtr read_HACluster (Some l); mret (inl v)
  | HAClusterListObject l => v ← readPtr read_HAClusterList (Some l); mret (inr v)
  end.

(** ** Correctness *)

Context `{!ExtCopyLaws}.

Lemma copyTime_copies : copies (readPtr (H := CellTime) read_Time) copyTime.
Proof.
  intros h [l|] v F E; simpl in E.
  2:{ injection E as <- <-. exists None, h, ∅. split_and!; [done..|set_solver]. }
  apply bind_R_inv in E as (t & F1 & F2 & E1 & E2 & ->). injection E2 as <- <-.
  unfold readAt in E1. destruct (h !! l) as [[]|] eqn:El; simplify_eq/=.
  destruct (Time_copies h l t El) as (l' & h' & Ec & Hs & Hl' & Hf).
  exists (Some l'), h', ({[l']} ∪ (∅ ∪ ∅)). split_and!; [|done| |set_solver].
  - simpl. by erewrite bind_H_eq.
  - simpl. eapply bind_R_eq; [by apply (readAt_put (H := CellTime))|done].
Qed.

Create HintDb deepcopy discriminated.
#[local] Hint Resolve Selector_local ObjectMeta_local ListMeta_local Condition_local : deepcopy.
#[local] Hint Resolve copies_ret copyTime_copies
  Selector_copies ObjectMeta_copies ListMeta_copies Condition_copies : deepcopy.

Lemma local_Time t : local_read (read_Time t).
Proof. apply local_ret. Qed.
#[local] Hint Resolve local_Time : deepcopy.

Lemma local_int64 p : local_read (readPtr (H := CellInt64) mret p).
Proof. apply local_readPtr. intros. apply local_ret. Qed.
#[local] Hint Resolve local_int64 : deepcopy.

Lemma copies_int64 :
  copies (readPtr (H := CellInt64) mret) (copyPtr (H := CellInt64) 0 mret).
Proof. apply copyPtr_copies; [apply local_ret|apply (copies_ret id)]. Qed.
#[local] Hint Resolve copies_int64 : deepcopy.

(** A reading that reads field after field. *)
Ltac local_struct :=
  repeat first
    [apply local_ret | apply local_bind; [|intros] | apply local_readPtr; intros
    |apply local_readSlice; intros | solve [auto with deepcopy]].

Lemma local_Probe p : local_read (read_Probe p).
Proof. unfold read_Probe. local_struct. Qed.
#[local] Hint Resolve local_Probe : deepcopy.

Lemma local_PrimarySite p : local_read (read_PrimarySite p).
Proof. unfold read_PrimarySite. local_struct. Qed.
Lemma local_ReplicaSite r : local_read (read_ReplicaSite r).
Proof. unfold read_ReplicaSite. local_struct. Qed.
#[local] Hint Resolve local_PrimarySite local_ReplicaSite : deepcopy.

Lemma local_Spec s : local_read (read_Spec s).
Proof. unfold read_Spec. local_struct. Qed.
Lemma local_SiteStatus s : local_read (read_SiteStatus s).
Proof. unfold read_SiteStatus. local_struct. Qed.
#[local] Hint Resolve local_Spec local_SiteStatus : deepcopy.

Lemma local_Status s : local_read (read_Status s).
Proof. unfold read_Status. local_struct. Qed.
#[local] Hint Resolve local_Status : deepcopy.

Lemma local_HACluster ha : local_read (read_HACluster ha).
Proof. unfold read_HACluster. local_struct. Qed.
#[local] Hint Resolve local_HACluster : deepcopy.

Lemma local_HAClusterList l : local_read (read_HAClusterList l).
Proof. unfold read_HAClusterList. local_struct. Qed.
#[local] Hint Resolve local_HAClusterList : deepcopy.

(** Split the reading of a struct into those of its fields. *)
Ltac read_fields E :=
  lazymatch type of E with
  | (_ ≫= _) _ = _ =>
      let E1 := fresh "Hfield" in
      apply bind_R_inv in E as (? & ? & ? & E1 & E & ->); read_fields E
  | _ => injection E as <- <-
  end.

(** A field copied in an earlier heap still reads as it did. *)
Ltac read_kept :=
  match goal with
  | Hr : forall h2 : gmap loc cell, _ ⊆ h2 -> _ = Some _ |- _ =>
      apply Hr; solve [reflexivity | assumption | etransitivity; eassumption
                      | etransitivity; [eassumption|etransitivity; eassumption]]
  end.

(** The copy of one field. *)
Ltac copy_part :=
  first [apply copyPtr_copies; [intros; local_struct|auto with deepcopy]
        |apply copySlice_copies; [intros; local_struct|auto with deepcopy]
        |solve [auto with deepcopy]].

(** A struct whose fields are copied one after the other. *)
Tactic Notation "copy_struct" reference(rd) reference(into) :=
  apply copies_copying; let E := fresh in intros ? ? ? ? E;
  unfold rd in E; read_fields E; unfold into;
  repeat (eapply copying_field; [| |eassumption|first [eassumption|reflexivity]|];
    [intros; local_struct|copy_part|intros ? ? ? ? ? ? ?]);
  eapply copying_ret;
    [unfold rd; simpl; repeat (eapply bind_R_eq; [read_kept|]); reflexivity|set_solver].

Lemma copies_Probe : copies read_Probe PostgresProbe_DeepCopyInto.
Proof. copy_struct read_Probe PostgresProbe_DeepCopyInto. Qed.
#[local] Hint Resolve copies_Probe : deepcopy.

Lemma copies_PrimarySite : copies read_PrimarySite PrimarySite_DeepCopyInto.
Proof. copy_struct read_PrimarySite PrimarySite_DeepCopyInto. Qed.
Lemma copies_ReplicaSite : copies read_ReplicaSite ReplicaSite_DeepCopyInto.
Proof. copy_struct read_ReplicaSite ReplicaSite_DeepCopyInto. Qed.
#[local] Hint Resolve copies_PrimarySite copies_ReplicaSite : deepcopy.

Lemma copies_Spec : copies read_Spec HAClusterSpec_DeepCopyInto.
Proof. copy_struct read_Spec HAClusterSpec_DeepCopyInto. Qed.
Lemma copies_SiteStatus : copies read_SiteStatus SiteStatus_DeepCopyInto.
Proof. copy_struct read_SiteStatus SiteStatus_DeepCopyInto. Qed.
#[local] Hint Resolve copies_Spec copies_SiteStatus : deepcopy.

Lemma copies_Status : copies read_Status HAClusterStatus_DeepCopyInto.
Proof. copy_struct read_Status HAClusterStatus_DeepCopyInto. Qed.
#[local] Hint Resolve copies_Status : deepcopy.

Lemma copies_HACluster : copies read_HACluster HACluster_DeepCopyInto.
Proof. copy_struct read_HACluster HACluster_DeepCopyInto. Qed.
#[local] Hint Resolve copies_HACluster : deepcopy.

Lemma copies_HAClusterList : copies read_HAClusterList HAClusterList_DeepCopyInto.
Proof. copy_struct read_HAClusterList HAClusterList_DeepCopyInto. Qed.
#[local] Hint Resolve copies_HAClusterList : deepcopy.

(** Two heaps that differ at most at the addresses [F]. *)
Definition agreeOutside (F : gset loc) (h h' : heap) : Prop :=
  forall l, l ∉ F -> h' !! l = h !! l.

(** What a DeepCopy method promises: the copy denotes the same value, nothing
    allocated is changed, and whatever is later written to the storage of one
    of the two leaves the other as it is. *)
Definition deepCopies {T V} `{Cell T} (rd : T -> R V) (dc : option loc -> HM (option loc)) : Prop :=
  forall h p v F, readPtr rd p h = Some (v, F) ->
  exists q h' G, dc p h = Some (q, h') /\ h ⊆ h' /\ readPtr rd q h' = Some (v, G) /\
    (forall h2, agreeOutside G h' h2 -> readPtr rd p h2 = Some (v, F)) /\
    (forall h2, agreeOutside F h' h2 -> readPtr rd q h2 = Some (v, G)).

Lemma copies_deepCopies {T V} `{Cell T} (rd : T -> R V) zero into :
  (forall x, local_read (rd x)) -> copies rd into -> deepCopies rd (copyPtr zero into).
Proof.
  intros Hl Hc h p v F E. pose proof (local_readPtr rd p Hl) as Lp.
  destruct (copyPtr_copies rd zero into Hl Hc h p v F E) as (q & h' & G & Ec & S & Er & HG).
  destruct (Lp _ _ _ E) as [HF _].
  exists q, h', G. split_and!; [done..| |].
  - intros h2 Ha. apply (Lp h' v F); [by eapply read_extends|].
    intros l Hin. apply Ha. set_solver.
  - intros h2 Ha. apply (local_readPtr rd q Hl h' v G Er). intros l Hin. apply Ha. set_solver.
Qed.

(** C24. Every generated DeepCopy returns a copy that denotes the same value
    (nil pointers, nil slices and lengths included) without changing anything
    allocated, and the copy shares no storage with the original: any later
    writes to what one of them owns leave the value of the other unchanged.
    DeepCopyObject returns that copy, and a nil interface for nil. *)
Theorem DeepCopy_isolated :
  (deepCopies read_ClusterRef ClusterRef_DeepCopy /\
   deepCopies read_FailoverSpec FailoverSpec_DeepCopy /\
   deepCopies read_Probe PostgresProbe_DeepCopy /\
   deepCopies read_PrimarySite PrimarySite_DeepCopy /\
   deepCopies read_ReplicaSite ReplicaSite_DeepCopy /\
   deepCopies read_Spec HAClusterSpec_DeepCopy /\
   deepCopies read_SiteStatus SiteStatus_DeepCopy /\
   deepCopies read_Status HAClusterStatus_DeepCopy /\
   deepCopies read_HACluster HACluster_DeepCopy /\
   deepCopies read_HAClusterList HAClusterList_DeepCopy) /\
  (forall p h q h', HACluster_DeepCopy p h = Some (q, h') ->
     HACluster_DeepCopyObject p h = Some (from_option HAClusterObject NilObject q, h')) /\
  (forall p h q h', HAClusterList_DeepCopy p h = Some (q, h') ->
     HAClusterList_DeepCopyObject p h = Some (from_option HAClusterListObject NilObject q, h')).
Proof.
  split; [|split].
  - split_and!; apply copies_deepCopies; auto with deepcopy;
      first [intros; apply local_ret | apply (copies_ret id)].
  - intros p h q h' E. unfold HACluster_DeepCopyObject.
    rewrite (bind_H_eq _ _ _ _ _ E). by destruct q.
  - intros p h q h' E. unfold HAClusterList_DeepCopyObject.
    rewrite (bind_H_eq _ _ _ _ _ E). by destruct q.
Qed.
End generated.
End deepcopy.

(** ** A concrete instance

    A selector with its optional flag, metadata with a name and a shared
    annotation map, conditions without pointers. *)
Module Sample.
Inductive scell : Type := SBool (b : bool) | SMap (m : list (string * string)).

Definition types : ExtTypes := {|
  SelectorM := string * string * option loc; SelectorV := string * string * option bool;
  ObjectMetaM := string * option loc; ObjectMetaV := string * option (list (string * string));
  ListMetaM := string; ListMetaV := string;
  ConditionM := string * string; ConditionV := string * string;
  extCell := scell;
  zeroSelector := ("", "", None); zeroObjectMeta := ("", None);
  zeroListMeta := ""; zeroCondition := ("", "")
|}.
#[local] Existing Instance types.

Definition CellBool : Cell bool :=
  {| put b := CExt (SBool b);
     take_cell c := match c with CExt (SBool b) => Some b | _ => None end;
     take_put x := eq_refl |}.
Definition CellMap : Cell (list (string * string)) :=
  {| put m := CExt (SMap m);
     take_cell c := match c with CExt (SMap m) => Some m | _ => None end;
     take_put x := eq_refl |}.

Definition read_sel (s : string * string * option loc) : R (string * string * option bool) :=
  mbind (MBind := R_bind) (fun o => R_ret _ (s.1, o)) (readPtr (H := CellBool) (R_ret _) s.2).
Definition read_meta (m : string * option loc) : R (string * option (list (string * string))) :=
  mbind (MBind := R_bind) (fun a => R_ret _ (m.1, a)) (readPtr (H := CellMap) (R_ret _) m.2).
Definition copy_sel (s : string * string * option loc) : HM (string * string * option loc) :=
  mbind (MBind := H_bind) (fun o => H_ret _ (s.1, o))
    (copyPtr (H := CellBool) false (H_ret _) s.2).
Definition copy_meta (m : string * option loc) : HM (string * option loc) :=
  mbind (MBind := H_bind) (fun a => H_ret _ (m.1, a))
    (copyPtr (H := CellMap) [] (H_ret _) m.2).
Definition copy_time (l : loc) : HM loc :=
  mbind (MBind := H_bind) (fun t => new (H := CellTime) t) (deref (H := CellTime) l).

Definition ops : ExtCopy := {|
  read_Selector := read_sel; read_ObjectMeta := read_meta;
  read_ListMeta := R_ret _; read_Condition := R_ret _;
  Selector_DeepCopyInto := copy_sel; ObjectMeta_DeepCopyInto := copy_meta;
  ListMeta_DeepCopyInto := H_ret _; Condition_DeepCopyInto := H_ret _;
  Time_DeepCopy := copy_time
|}.
#[local] Existing Instance ops.

Lemma local_pair {A B} (a : A) (m : R B) :
  local_read m -> local_read (mbind (MBind := R_bind) (fun b => R_ret _ (a, b)) m).
Proof. intros. apply local_bind; [done|]. intros. apply local_ret. Qed.

Lemma copies_pair {A T V} (rd : T -> R V) into :
  (forall x, local_read (rd x)) -> copies rd into ->
  copies (fun s : A * T => mbind (MBind := R_bind) (fun b => R_ret _ (s.1, b)) (rd s.2))
    (fun s : A * T => mbind (MBind := H_bind) (fun b => H_ret _ (s.1, b)) (into s.2)).
Proof.
  intros Hl Hc. apply copies_copying. intros [a x] v F h E.
  apply bind_R_inv in E as (w & F1 & F2 & E1 & [= <- <-] & ->). simpl in *.
  eapply copying_field; [done|done|done|reflexivity|]. intros y h1 G _ _ Hr HG.
  eapply copying_ret; [eapply bind_R_eq; [by apply Hr|done]|set_solver].
Qed.

Lemma laws : ExtCopyLaws.
Proof.
  assert (Hb : forall p, local_read (readPtr (H := CellBool) (R_ret _) p))
    by (intros; apply local_readPtr; intros; apply local_ret).
  assert (Hm : forall p, local_read (readPtr (H := CellMap) (R_ret _) p))
    by (intros; apply local_readPtr; intros; apply local_ret).
  split.
  - intros. by apply local_pair.
  - intros. by apply local_pair.
  - intros. apply local_ret.
  - intros. apply local_ret.
  - apply copies_pair; [done|]. apply copyPtr_copies; [intros; apply local_ret|apply (copies_ret id)].
  - apply copies_pair; [done|]. apply copyPtr_copies; [intros; apply local_ret|apply (copies_ret id)].
  - apply (copies_ret id).
  - apply (copies_ret id).
  - intros h l t Hl. exists (fresh (dom h)), (<[fresh (dom h) := CTime t]> h).
    pose proof (fresh_dom h). split_and!; [|by apply insert_fresh|apply lookup_insert_eq|done].
    simpl. unfold copy_time. erewrite bind_H_eq; [done|]. unfold deref. by rewrite Hl.
Qed.
#[local] Existing Instance laws.

(** An HACluster with a replica, a probed primary and a failover time. *)
Definition sampleHeap : gmap loc cell :=
  {[ 1%positive := CHACluster (@Go.mkHACluster mem (Go.mkTypeMeta "HACluster" "ha.cnpg.io/v1alpha1")
       ("ha", Some 2%positive)
       (@Go.mkSpec mem
         (@Go.mkPrimarySite mem "a" (mkClusterRef "pg" "db") "pg-a" (Some 3%positive))
         (Some (4%positive, 1%nat)) (mkFailoverSpec "Manual" 10 3 "Ordered" "Manual"))
       (@Go.mkStatus mem "a" (Some 5%positive) 1 None None));
     2%positive := CExt (SMap [("ha.cnpg.io/promote", "b")]);
     3%positive := CProbe (@Go.mkProbe mem "" 5432 "" "" ("u", "k", None) ("p", "k", Some 6%positive));
     4%positive := CReplicas [@Go.mkReplicaSite mem "b" ("s", "kubeconfig", None)
                                (mkClusterRef "pg" "db") "pg-b" None];
     5%positive := CTime 7;
     6%positive := CExt (SBool true) ]}.

Lemma DeepCopy_isolated_witness :
  exists v F q h' G,
    readPtr (H := Cell_HACluster) read_HACluster (Some 1%positive) sampleHeap = Some (v, F) /\
    HACluster_DeepCopy (Some 1%positive) sampleHeap = Some (q, h') /\
    readPtr (H := Cell_HACluster) read_HACluster q h' = Some (v, G).
Proof.
  destruct (readPtr (H := Cell_HACluster) read_HACluster (Some 1%positive) sampleHeap)
    as [[v F]|] eqn:E; [|vm_compute in E; discriminate].
  destruct (@DeepCopy_isolated types ops laws) as [(_ & _ & _ & _ & _ & _ & _ & _ & Hc & _) _].
  destruct (Hc _ _ _ _ E) as (q & h' & G & Ec & _ & Er & _).
  exists v, F, q, h', G. split; [reflexivity|]. split; [exact Ec|exact Er].
Defined.
End Sample.
