(* ===== verification/Schema.v ===== *)
(** * api/v1alpha1: the validation and the defaults of the API

    The kubebuilder markers of hacluster_types.go, from which the CRD schema is
    generated: which objects the API server admits, which defaults it fills
    in, and which statuses it accepts. The theorems relate them to the code:
    its fallbacks agree with the defaults, and what a reconcile sends is
    accepted exactly when the site names are distinct and the messages of the
    conditions are not too long. *)

From S2P Require Import Prelude GoStd Api External FakeKube Operator Fixtures.
From S2P Require Import Metrics Health Promotion RemoteClient Decision Observe Status Failover.
From S2P Require Import Postgres Automatic Reconcile Publish.

(** ** Patterns *)

Definition isLower (a : ascii) : bool := (97 <=? byteOf a) && (byteOf a <=? 122).
Definition isUpper (a : ascii) : bool := (65 <=? byteOf a) && (byteOf a <=? 90).
Definition isDigit (a : ascii) : bool := (48 <=? byteOf a) && (byteOf a <=? 57).
Definition isLowerNum (a : ascii) : bool := isLower a || isDigit a.
Definition isLetter (a : ascii) : bool := isLower a || isUpper a.
Definition isAlphaNum (a : ascii) : bool := isLetter a || isDigit a.
Definition isOneOf (s : string) (a : ascii) : bool := ContainsByte a s.

(** What may follow: characters of [mid], the last of them in [last]. *)
Fixpoint endsIn (mid last : ascii -> bool) (s : string) : bool :=
  match s with
  | EmptyString => false
  | String c EmptyString => last c
  | String c s' => mid c && endsIn mid last s'
  end.

(** The pattern first(mid*last)? over the whole string. *)
Definition shaped (first mid last : ascii -> bool) (s : string) : bool :=
  match s with
  | EmptyString => false
  | String c EmptyString => first c
  | String c s' => first c && endsIn mid last s'
  end.

(** Site names: [a-z0-9]([-a-z0-9]*[a-z0-9])? *)
Definition siteNamePattern : string -> bool :=
  shaped isLowerNum (fun a => isLowerNum a || isOneOf "-" a) isLowerNum.

(** metav1.Condition reasons, at most 1024 characters:
    [A-Za-z]([A-Za-z0-9_,:]*[A-Za-z0-9_])? *)
Definition reasonPattern (s : string) : bool :=
  shaped isLetter (fun a => isAlphaNum a || isOneOf "_,:" a)
    (fun a => isAlphaNum a || isOneOf "_" a) s && (Z.of_nat (String.length s) <=? 1024).

(** DNS names, [a-z0-9]([-a-z0-9]*[a-z0-9])? repeated with dots between: where
    a label starts, after a letter or digit, and after a dash. *)
Inductive labelState : Type := LabelStart | InLabel | AfterDash.

Fixpoint domainFrom (q : labelState) (s : string) : bool :=
  match s with
  | EmptyString => match q with InLabel => true | _ => false end
  | String c s' =>
      if isLowerNum c then domainFrom InLabel s'
      else match q with
           | LabelStart => false
           | InLabel =>
               if isOneOf "-" c then domainFrom AfterDash s'
               else isOneOf "." c && domainFrom LabelStart s'
           | AfterDash => isOneOf "-" c && domainFrom AfterDash s'
           end
  end.

(** Condition types, at most 316 characters: an optional DNS name and a slash,
    then ([A-Za-z0-9][-A-Za-z0-9_.]* )?[A-Za-z0-9]. *)
Definition conditionTypePattern (s : string) : bool :=
  let qualified := shaped isAlphaNum (fun a => isAlphaNum a || isOneOf "-_." a) isAlphaNum in
  match Cut "/" s with
  | Some (domain, name) => domainFrom LabelStart domain && qualified name
  | None => qualified s
  end && (Z.of_nat (String.length s) <=? 316).

(** ** Defaults

    The API server fills a field in where it is absent, inside an object that
    is present: an omitted spec.failover has no default of its own. A zero
    value in a record is an absent field: omitempty leaves it out of the JSON. *)
Definition zeroFailover : FailoverSpec := mkFailoverSpec "" 0 0 "" "".

Definition orString (s d : string) : string := if bool_decide (s = "") then d else s.
Definition orInt (z d : Z) : Z := if z =? 0 then d else z.

Definition defaultProbe (p : PostgresProbe) : PostgresProbe :=
  mkPostgresProbe (pp_Endpoint p) (orInt (pp_Port p) 5432) (orString (pp_Database p) "postgres")
    (orString (pp_SSLMode p) "require") (pp_UserSecretRef p) (pp_PasswordSecretRef p).

Definition defaultFailover (f : FailoverSpec) : FailoverSpec :=
  mkFailoverSpec (orString (fs_Mode f) FailoverModeManual)
    (orInt (fs_HealthCheckIntervalSeconds f) 10) (orInt (fs_FailureThreshold f) 3)
    (orString (fs_PromotionPolicy f) PromotionPolicyMostAdvancedLSN)
    (orString (fs_RejoinPolicy f) RejoinPolicyManual).

(** The stored spec.failover of an object submitted with it or without. *)
Definition admitFailover (f : option FailoverSpec) : FailoverSpec :=
  match f with Some f => defaultFailover f | None => zeroFailover end.

(** ** The spec *)

Definition oneOf (l : list string) (s : string) : bool := bool_decide (s ∈ l).
Definition within (lo hi z : Z) : bool := (lo <=? z) && (z <=? hi).

Definition validFailover (f : FailoverSpec) : bool :=
  oneOf [FailoverModeAutomatic; FailoverModeManual] (fs_Mode f) &&
  within 1 300 (fs_HealthCheckIntervalSeconds f) &&
  within 2 20 (fs_FailureThreshold f) &&
  oneOf [PromotionPolicyMostAdvancedLSN; PromotionPolicyOrdered] (fs_PromotionPolicy f) &&
  oneOf [RejoinPolicyManual; RejoinPolicyAutoReplica] (fs_RejoinPolicy f).

Definition validClusterRef (c : ClusterRef) : bool :=
  negb (bool_decide (cr_Name c = "")) && negb (bool_decide (cr_Namespace c = "")).

Definition sslModes : list string :=
  ["disable"; "allow"; "prefer"; "require"; "verify-ca"; "verify-full"].

Definition validProbe (p : option PostgresProbe) : bool :=
  match p with
  | None => true
  | Some p =>
      within 1 65535 (pp_Port (defaultProbe p)) && oneOf sslModes (pp_SSLMode (defaultProbe p))
  end.

Definition validPrimary (p : PrimarySite) : bool :=
  siteNamePattern (ps_Name p) && validClusterRef (ps_ClusterRef p) &&
  validProbe (ps_PostgresProbe p).

Definition validReplica (r : ReplicaSite) : bool :=
  siteNamePattern (rs_Name r) && validClusterRef (rs_ClusterRef r) &&
  validProbe (rs_PostgresProbe r).

(** MinItems=1, listType=map with key name. *)
Definition validReplicas (l : list ReplicaSite) : bool :=
  negb (bool_decide (l = [])) && bool_decide (NoDup (rs_Name <$> l)) && forallb validReplica l.

Definition validSpec (failover : option FailoverSpec) (s : HAClusterSpec) : bool :=
  validPrimary (spec_Primary s) && validReplicas (spec_Replicas s) &&
  match failover with Some f => validFailover (defaultFailover f) | None => true end.

(** ** The status *)

Definition siteRoles : list string := [SiteRolePrimary; SiteRoleReplica; SiteRoleUnknown].

Definition validCondition (c : Condition) : bool :=
  oneOf [ConditionTrue; ConditionFalse; "Unknown"] (cond_Status c) &&
  reasonPattern (cond_Reason c) && conditionTypePattern (cond_Type c) &&
  (0 <=? cond_ObservedGeneration c).

(** The characters of a UTF-8 text: the bytes that continue none. *)
Fixpoint characters (s : string) : Z :=
  match s with
  | EmptyString => 0
  | String c s' => (if Z.land (byteOf c) 192 =? 128 then 0 else 1) + characters s'
  end.

(** maxLength counts characters. *)
Definition shortMessage (c : Condition) : bool := characters (cond_Message c) <=? 32768.

(** All but the length of the messages. *)
Record conditionsOk (l : list Condition) : Prop := {
  co_keys : NoDup (cond_Type <$> l);
  co_each : Forall (fun c => validCondition c = true) l
}.

Definition validConditions (l : list Condition) : Prop :=
  conditionsOk l /\ Forall (fun c => shortMessage c = true) l.

Record validStatus (st : HAClusterStatus) : Prop := {
  vs_keys : NoDup (ss_Name <$> st_Sites st);
  vs_roles : Forall (fun s => ss_Role s ∈ siteRoles) (st_Sites st);
  vs_conditions : validConditions (st_Conditions st)
}.

(** ** The code's fallbacks *)

Lemma orInt_cases z d : (z = 0 /\ orInt z d = d) \/ (z <> 0 /\ orInt z d = z).
Proof. unfold orInt. destruct (Z.eqb_spec z 0); auto. Qed.

Section fallbacks.
Context `{Extern}.

Lemma connString_defaults host port db user password ssl :
  connString (mkConfig host (orInt port 5432) (orString db "postgres") user password
                (orString ssl "require"))
  = connString (mkConfig host port db user password ssl).
Proof.
  unfold connString, orInt, orString. simpl.
  repeat case_bool_decide; subst; destruct (Z.eqb_spec port 0) as [->|Hp]; simpl;
    try done; by rewrite (proj2 (Z.eqb_neq _ _) Hp).
Qed.

(** The SQL prober sees the configuration through the connection string. *)
Lemma SQLProber_connString cfg cfg' :
  connString cfg = connString cfg' -> SQLProber_Probe cfg = SQLProber_Probe cfg'.
Proof. intros E. unfold SQLProber_Probe. by rewrite E. Qed.

Lemma probePostgres_defaults r obs cli ref endpoint p s :
  r_PostgresProber r = None ->
  probePostgres r obs cli ref endpoint (Some (defaultProbe p)) s
  = probePostgres r obs cli ref endpoint (Some p) s.
Proof.
  intros Hr. unfold probePostgres, postgresProbeConfig. rewrite Hr. simpl.
  destruct (negb _ || negb _); [done|].
  destruct (bool_decide (_ = "")); [done|]. unfold mbind, M_bind, mret, M_ret.
  destruct (secretValue _ _ (pp_UserSecretRef p) s) as [[[user|]|] s1]; [|done..].
  destruct (secretValue _ _ (pp_PasswordSecretRef p) s1) as [[[password|]|] s2]; [|done..].
  by rewrite (SQLProber_connString _ _ (connString_defaults _ _ _ _ _ _)).
Qed.

(** C40. The fallbacks of the code agree with the defaults of the API. For every
    spec.failover that the API server admits, reading the threshold, the
    interval and the rejoin policy from the submitted object, as code that
    meets a hand-built object does, gives the values the API server would have
    stored; and probing a site with the submitted probe settings makes the
    same calls and yields the same observation as with the stored ones. *)
Theorem fallbacks_match_defaults ha f :
  spec_Failover (ha_Spec ha) = f -> validFailover (defaultFailover f) = true ->
  effectiveFailureThreshold f = fs_FailureThreshold (defaultFailover f) /\
  effectiveHealthInterval f = fs_HealthCheckIntervalSeconds (defaultFailover f) * Second /\
  effectiveRejoin ha = fs_RejoinPolicy (defaultFailover f) /\
  (forall r obs cli ref endpoint p s, r_PostgresProber r = None ->
     probePostgres r obs cli ref endpoint (Some (defaultProbe p)) s
     = probePostgres r obs cli ref endpoint (Some p) s).
Proof.
  intros Hf Hv. unfold validFailover, within in Hv. simpl in Hv. bool_prop.
  unfold effectiveFailureThreshold, effectiveHealthInterval, effectiveRejoin. rewrite Hf. simpl.
  split_and!; [| |done|intros; by apply probePostgres_defaults].
  - destruct (orInt_cases (fs_FailureThreshold f) 3) as [[-> E]|[? E]]; rewrite E in *; [done|].
    by rewrite (proj2 (Z.ltb_ge _ _)) by lia.
  - destruct (orInt_cases (fs_HealthCheckIntervalSeconds f) 10) as [[-> E]|[? E]]; rewrite E in *;
      [done|]. rewrite (proj2 (Z.ltb_ge _ _)) by lia.
    unfold Second. rewrite wrap_int64_id; unfold int64_range; lia.
Qed.
End fallbacks.

(** ** The status a reconcile sends *)

Section status_valid.
Context `{Extern} `{!StatusLaws}.

(** An object as the API server returns it: its conditions were accepted. *)
Definition admitted (ha : HACluster) : Prop :=
  conditionsOk (st_Conditions (ha_Status ha)) /\ 0 <= ha_Generation ha.

(** Every object an API server answered with was admitted. *)
Definition admittedAnswer (a : apicall) : Prop :=
  match a with CGetHA _ _ (Ok ha) | CPatchHA _ _ _ (Ok ha) => admitted ha | _ => True end.

Lemma setCondition_admitted c ha :
  cond_ObservedGeneration c = ha_Generation ha -> oneOf [ConditionTrue; ConditionFalse; "Unknown"] (cond_Status c) = true ->
  reasonPattern (cond_Reason c) = true -> conditionTypePattern (cond_Type c) = true ->
  admitted ha -> admitted (setCondition c ha).
Proof.
  intros Hg Hs Hr Ht [[Hk He] Hgen]. split; [|done]. simpl. split.
  - rewrite SetStatusCondition_types. case_decide; [done|].
    apply NoDup_app. split_and!; [done|set_solver|apply NoDup_singleton].
  - apply Forall_forall. intros x Hx. rewrite Forall_forall in He.
    destruct (SetStatusCondition_elements _ _ _ Hx) as [Hin|(E1 & E2 & E3 & _ & E5)]; [auto|].
    unfold validCondition. rewrite E1, E2, E3, E5, Hs, Hr, Ht, Hg. simpl. by apply Z.leb_le.
Qed.

Lemma setConditions_value ha av sb p rs R G :
  (forall t, G (CNow t)) ->
  assured R G (admitted ha) (setConditions ha av sb p rs) (fun ha' =>
    conditionsOk (st_Conditions (ha_Status ha')) /\
    st_Sites (ha_Status ha') = st_Sites (ha_Status ha)).
Proof.
  intros HG. eapply assured_bind; [apply (assured_call _ _ _ _ _ (fun _ => True)); [done|auto]|].
  intros t. apply assured_ret. intros [Ha _]. split; [|done].
  apply setCondition_admitted; [| | | |].
  - unfold degradedCondition. destruct (foldl _ _ _). by repeat case_bool_decide.
  - unfold degradedCondition. destruct (foldl _ _ _). by repeat case_bool_decide.
  - unfold degradedCondition. destruct (foldl _ _ _). by repeat case_bool_decide.
  - unfold degradedCondition. destruct (foldl _ _ _). by repeat case_bool_decide.
  - apply setCondition_admitted; [unfold splitBrainCondition; by case_bool_decide..|].
    apply setCondition_admitted; [by destruct av..|done].
Qed.

Lemma setFailoverInProgress_admitted R G C ha b n :
  (forall t, G (CNow t)) -> (C -> admitted ha) ->
  assured R G C (setFailoverInProgress ha b n) admitted.
Proof.
  intros HG Ha. eapply assured_bind; [apply (assured_call _ _ _ _ _ (fun _ => True)); [done|auto]|].
  intros t. apply assured_ret. intros [HC _].
  apply setCondition_admitted; [| | | |auto]; destruct b; try case_bool_decide; done.
Qed.

Lemma clearPromoteAnnotation_admitted G C r ha :
  (forall c h b x, G (CPatchHA c h b x)) -> (C -> admitted ha) ->
  assured admittedAnswer G C (clearPromoteAnnotation r ha) (fun res => admitted res.1).
Proof.
  intros HG Ha. unfold clearPromoteAnnotation. destruct (hasPromote ha); [|by apply assured_ret].
  eapply (assured_bind _ _ _ _ _ (fun rp => match rp with Ok ha' => admitted ha' | Err _ => True end)).
  { apply assured_call; [done|]. intros [ha'|e] _ Hr; split; done. }
  intros [ha'|e]; apply assured_ret; [by intros [_ ?]|intros [HC _]; auto].
Qed.

Lemma rejectPromote_admitted G C r ha msg :
  (forall c h b x, G (CPatchHA c h b x)) -> (C -> admitted ha) ->
  assured admittedAnswer G C (rejectPromote r ha msg) (fun res => admitted res.1).
Proof.
  intros HG Ha. eapply assured_bind; [apply assured_emits, event_emits|]. intros ?.
  eapply assured_bind; [apply clearPromoteAnnotation_admitted; [done|tauto]|].
  intros res. apply assured_ret. by intros [_ ?].
Qed.

(** Step over an operation whose value does not matter, or over a change of
    the FailoverInProgress condition. *)
Ltac assured_step :=
  lazymatch goal with
  | |- assured _ _ _ (mret _) _ => apply assured_ret; simpl; tauto
  | |- assured _ _ _ (mbind _ (setFailoverInProgress _ _ _)) _ =>
      eapply assured_bind;
        [apply setFailoverInProgress_admitted; [done|unfold admitted in *; simpl in *; tauto]|intros]
  | |- assured _ _ _ (mbind _ _) _ =>
      eapply assured_bind;
        [apply assured_emits; first [apply event_emits | apply WithLabelValues_emits
           | apply runPromotion_notStatus | apply resetFailCount_emits | by apply emits_call]
        |intros]
  end.

Lemma handlePromoteAnnotation_admitted r ha p rs :
  assured admittedAnswer notStatus (admitted ha) (handlePromoteAnnotation r ha p rs)
    (fun res => admitted res.1).
Proof.
  unfold handlePromoteAnnotation. destruct (hasPromote ha) as [target|]; [|by apply assured_ret].
  destruct (negb _); [by apply rejectPromote_admitted|].
  destruct (findReplica ha target) as [[rep i] found].
  destruct (negb found); [by apply rejectPromote_admitted|].
  destruct (rs !! i) as [o|]; [|apply assured_panic].
  destruct (negb _); [by apply rejectPromote_admitted|].
  destruct (currentPrimaryForPromotion ha p rs) as [old|e]; [|by apply rejectPromote_admitted].
  do 4 assured_step. destruct a2 as [[]|e]; [|by repeat assured_step].
  do 2 assured_step.
  eapply assured_bind; [apply clearPromoteAnnotation_admitted; [done|tauto]|].
  intros [ha2 [[]|e]]; by repeat assured_step.
Qed.

Lemma handleAutomaticFailover_admitted r ha p rs :
  assured admittedAnswer notStatus (admitted ha) (handleAutomaticFailover r ha p rs)
    (fun res => admitted res.1).
Proof.
  assert (Hreset : forall C : Prop, (C -> admitted ha) -> assured admittedAnswer notStatus C
    (resetFailCount (haKey ha);; mret (ha, Ok noEffect : result promotionEffect))
    (fun res => admitted res.1)).
  { intros C HC. assured_step. apply assured_ret. simpl. tauto. }
  unfold handleAutomaticFailover. destruct (negb _); [by apply assured_ret|].
  destruct (bool_decide _); [by apply Hreset|].
  eapply assured_bind; [eapply assured_quiet; [apply stabilizing_quiet|apply reads_notStatus]|].
  intros []; [apply Hreset; tauto|]. destruct (healthyPrimary _); [apply Hreset; tauto|].
  eapply assured_bind; [apply assured_emits, bumpFailCount_emits|]. intros n.
  destruct (n <? _); [by repeat assured_step|]. unfold autoPromote.
  destruct (chooseTarget _ _ _) as [[[target i] []]|]; simpl;
    [|by repeat assured_step|apply assured_panic].
  do 4 assured_step. destruct a2 as [[]|e]; by repeat assured_step.
Qed.

(** The status [st] of a pass over [ha] is accepted exactly when the site
    names of [ha] are distinct and no message of a condition is too long. *)
Definition acceptable (ha : HACluster) (st : HAClusterStatus) : Prop :=
  validStatus st <->
  NoDup (siteNames ha) /\ Forall (fun c => shortMessage c = true) (st_Conditions st).

Definition acceptedStatus (ha : HACluster) (a : apicall) : Prop :=
  match a with
  | CStatusUpdate _ hs _ => acceptable ha (ha_Status hs)
  | _ => True
  end.

Lemma notStatus_accepted ha a : notStatus a -> acceptedStatus ha a.
Proof. by destruct a. Qed.

Lemma assured_weaken {A} R (G G' : apicall -> Prop) C (m : M A) P :
  assured R G C m P -> (forall a, G a -> G' a) -> assured R G' C m P.
Proof.
  intros Hm HG s. eapply wpt_mono; [apply Hm|]. intros o s' t Ht HC HR.
  destruct (Ht HC HR). split; [by eapply Forall_impl|done].
Qed.

Lemma buildSiteStatuses_roles p rs t :
  Forall (fun s => ss_Role s ∈ siteRoles) (buildSiteStatuses p rs t).
Proof.
  assert (Ho : forall o, ss_Role (toSiteStatus o t) ∈ siteRoles).
  { intros o. simpl. unfold siteRoles. destruct (o_reachable o), (o_primary o); set_solver. }
  constructor; [done|]. apply Forall_fmap, Forall_true. intros o. apply Ho.
Qed.

Lemma writeStatus_accepted ha ha1 prior cur av sb p rs :
  assured admittedAnswer (acceptedStatus ha) (admitted ha1 /\ o_name <$> p :: rs = siteNames ha)
    (writeStatus ha1 prior cur av sb p rs)
    (fun hs => acceptable ha (ha_Status hs)).
Proof.
  eapply assured_bind; [apply (assured_call _ _ _ _ _ (fun _ => True)); [done|auto]|].
  intros t. eapply assured_mono; [by apply setConditions_value|by intros [[? _] _]|].
  intros hs [[_ Hn] _] [Hc Hs]. unfold acceptable.
  rewrite <- Hn, <- (toSiteStatus_names p rs t). simpl in Hs.
  rewrite <- Hs. split; [by intros [? _ []]|]. intros [Hd Hm]. split; [done| |done].
  rewrite Hs. apply buildSiteStatuses_roles.
Qed.

Lemma handlePromotions_admitted r ha p rs :
  assured admittedAnswer notStatus (admitted ha) (handlePromotions r ha p rs)
    (fun res => admitted res.1.1).
Proof.
  eapply assured_bind; [apply handlePromoteAnnotation_admitted|].
  intros [ha1 [pe|e]]; [|apply assured_ret; simpl; tauto].
  eapply assured_bind; [eapply assured_mono; [apply handleAutomaticFailover_admitted|simpl; tauto|done]|].
  intros [ha2 []]; apply assured_ret; simpl; tauto.
Qed.

(** C23. What a reconcile sends passes the validation of the API: if the objects
    it was given had been admitted, every status update of the pass has roles
    of the enumeration and conditions with distinct types, known statuses and
    well-formed reasons; it is a valid status exactly when the site names of
    the spec are distinct and no message of a condition exceeds its limit. So
    with a replica named like the primary, every status is refused. *)
Theorem Reconcile_status_valid r req s :
  reconcilerOk r ->
  wpt (Reconcile r req) (fun _ _ t => Forall admittedAnswer t ->
    (exists e, t = [CGetHA (r_Client r) req (Err e)]) \/
    (exists ha t', t = CGetHA (r_Client r) req (Ok ha) :: t' /\
       Forall (acceptedStatus ha) t')) s.
Proof.
  intros Hr. unfold Reconcile. apply wpt_bind, wpt_call; [done|]. intros [ha|e] w _.
  2:{ apply wpt_ret. left. by exists e. }
  eapply (wpt_mono _ (fun _ _ t => admitted ha -> Forall admittedAnswer t ->
    Forall (acceptedStatus ha) t /\ forall a : CtrlResult * option goerr, a = a -> True)).
  2:{ intros o s' t Ht [Ha Hall]%Forall_cons_1. right. exists ha, t.
      split; [done|]. by apply Ht. }
  revert w. match goal with |- forall w, wpt ?m _ _ => assert (Hm : assured admittedAnswer
    (acceptedStatus ha) (admitted ha) m (fun _ => True)) end.
  2:{ intros w. eapply wpt_mono; [apply Hm|]. intros o s' t Ht Ha HR. by destruct (Ht Ha HR). }
  eapply assured_bind; [eapply assured_quiet; [by apply observePrimary_quiet|by intros []]|].
  intros p. eapply assured_bind;
    [eapply assured_quiet; [by apply observeReplicas_quiet|by intros []]|].
  intros rs. eapply assured_bind; [eapply assured_mono;
    [eapply assured_weaken; [apply handlePromotions_admitted|apply notStatus_accepted]|tauto|done]|].
  intros [[ha1 pe] err]. destruct (applyPromotionEffect pe (p, rs)) as [p' rs'] eqn:Ea.
  unfold publishAndConverge. destruct (decideCurrentPrimary p' rs') as [cur av].
  eapply assured_bind; [eapply assured_mono; [apply (writeStatus_accepted ha)| |done]|].
  { intros [[[_ Hp] Hrs] Ha]. split; [done|].
    rewrite (applyPromotionEffect_names _ _ _ _ _ Ea), fmap_cons. unfold siteNames. congruence. }
  intros ha2. eapply assured_bind; [apply assured_emits, publishMetrics_emits|]. intros ?.
  eapply assured_bind; [apply (assured_call _ _ _ _ _ (fun _ => True)); [done|simpl; tauto]|].
  assert (Hemit : forall C A (m : M A), emits notStatus m ->
    assured admittedAnswer (acceptedStatus ha) C m (fun _ => True)).
  { intros. eapply assured_weaken; [by apply assured_emits|apply notStatus_accepted]. }
  intros [ha3|e]; apply Hemit; [|apply emits_ret].
  destruct err; [apply emits_ret|]. apply emits_bind; [apply topology_notStatus|].
  intros []; apply emits_ret.
Qed.
End status_valid.

Lemma fallbacks_match_defaults_witness :
  effectiveFailureThreshold zeroFailover = 3 /\ effectiveHealthInterval zeroFailover = 10 * Second.
Proof.
  destruct (fallbacks_match_defaults
    (mkHACluster "" "" 0 "" None (mkSpec (mkPrimarySite "" (mkClusterRef "" "") "" None) []
       zeroFailover) (mkStatus "" None 0 [] [])) zeroFailover eq_refl eq_refl) as (E1 & E2 & _).
  split; [exact E1|exact E2].
Defined.

Definition sentStatuses (t : list apicall) : list HAClusterStatus :=
  omap (fun a => match a with CStatusUpdate _ hs _ => Some (ha_Status hs) | _ => None end) t.

Lemma Reconcile_status_valid_witness :
  length (sentStatuses
    (op_calls (Reconcile sampleReconciler (NN "ops" "ha") (fakeState twoSitesHA)).2)) = 1%nat /\
  wpt (Reconcile sampleReconciler (NN "ops" "ha")) (fun _ _ t => Forall admittedAnswer t ->
    (exists e, t = [CGetHA (site "local") (NN "ops" "ha") (Err e)]) \/
    (exists ha t', t = CGetHA (site "local") (NN "ops" "ha") (Ok ha) :: t' /\
       Forall (acceptedStatus ha) t')) (fakeState twoSitesHA).
Proof.
  split; [reflexivity|].
  exact (Reconcile_status_valid sampleReconciler (NN "ops" "ha") (fakeState twoSitesHA) I).
Defined.

(** An HACluster whose replica has the name of the primary. *)
Definition clashingSpec : HAClusterSpec :=
  mkSpec (mkPrimarySite "a" (mkClusterRef "pg" "db") "a-host" None) [sampleReplicaSite "a"]
    (mkFailoverSpec "Manual" 10 3 "Ordered" "Manual").

Definition clashingHA : HACluster :=
  mkHACluster "ha" "ops" 1 "1" None clashingSpec (mkStatus "a" None 0 [] []).

Definition clashingWorld : fakeWorld :=
  setHA {[("local", NN "ops" "ha") := clashingHA]} None twoSitesKc.

(** The API admits a replica named like the primary, and then no status can
    be published: the spec passes the validation, the one status the reconcile
    sends lists the name twice, and so has a duplicate key. *)
Theorem name_clash_blocks_status :
  validSpec (Some (spec_Failover clashingSpec)) clashingSpec = true /\
  (fun st => ss_Name <$> st_Sites st) <$> sentStatuses
    (op_calls (Reconcile sampleReconciler (NN "ops" "ha") (fakeState clashingWorld)).2)
  = [["a"; "a"]] /\
  ~ NoDup ["a"; "a"].
Proof.
  split_and!; [reflexivity|reflexivity|].
  intros Hd. inversion Hd as [|? ? Hn]. apply Hn. constructor.
Qed.

Section omitted.
Context `{Extern}.

(** An object created without spec.failover is inert: it gets no default
    mode, so that every promote annotation is rejected without touching a
    site, and the automatic failover does nothing, although the mode is
    documented to default to Manual. *)
Theorem omitted_failover_is_inert r ha p rs s :
  spec_Failover (ha_Spec ha) = admitFailover None ->
  fs_Mode (admitFailover (Some zeroFailover)) = FailoverModeManual /\
  wpt (handlePromoteAnnotation r ha p rs) (fun _ _ t => Forall notSiteWrite t) s /\
  handleAutomaticFailover r ha p rs s = (Val (ha, Ok noEffect), s).
Proof.
  intros Hf. split_and!; [done| |].
  - eapply wpt_mono; [apply handlePromoteAnnotation_trace|].
    intros o s' t [_ [Hn|(target & i & _ & Hm & _)]]; [done|]. by rewrite Hf in Hm.
  - unfold handleAutomaticFailover. by rewrite Hf.
Qed.
End omitted.

Lemma omitted_failover_is_inert_witness :
  handleAutomaticFailover sampleReconciler
    (mkHACluster "ha" "ops" 1 "1" None (mkSpec (spec_Primary clashingSpec) [] zeroFailover)
       (mkStatus "a" None 0 [] [])) (sampleObs "a" false true false) [] (fakeState twoSitesHA)
  = (Val (mkHACluster "ha" "ops" 1 "1" None (mkSpec (spec_Primary clashingSpec) [] zeroFailover)
       (mkStatus "a" None 0 [] []), Ok noEffect), fakeState twoSitesHA).
Proof.
  refine (proj2 (proj2 (omitted_failover_is_inert sampleReconciler _ (sampleObs "a" false true false)
    [] (fakeState twoSitesHA) _))). reflexivity.
Defined.
