(* ===== verification/Passes.v ===== *)
(** * What a whole reconcile does to the sites

    A reconcile, whatever the environment answers and even if it panics,
    touches the sites only through the steps of the promotion package. Its
    trace is abstracted to the list of these steps, and that list follows a
    plan for the deployment: at most one promotion (fence the old primary, flip
    its Service, promote, flip), and, unless that failed and once the status was
    acknowledged, convergence steps on the sites other than the primary this
    status records. *)

From S2P Require Import Prelude GoStd Api External FakeKube Operator Fixtures.
From S2P Require Import Metrics Health Promotion RemoteClient Decision Observe Status Failover.
From S2P Require Import Postgres Automatic Reconcile Publish.

Section passes.
Context `{Extern}.

(** One step on one site, with its result. *)
Record stepRec : Type := mkStep {
  sr_step : step;
  sr_client : client;
  sr_ref : Ref;
  sr_result : result unit
}.

(** The steps a trace is made of; the other calls write to no site. *)
Inductive siteTrace : list stepRec -> list apicall -> Prop :=
  | siteTrace_nil : siteTrace [] []
  | siteTrace_call a l t : siteWrite a = false -> siteTrace l t -> siteTrace l (a :: t)
  | siteTrace_step st c ref r ts l t :
      step_run st c ref ts r -> siteTrace l t -> siteTrace (mkStep st c ref r :: l) (ts ++ t).

Lemma siteTrace_app l t l' t' : siteTrace l t -> siteTrace l' t' -> siteTrace (l ++ l') (t ++ t').
Proof.
  induction 1; intros Ht'; simpl; [done|by constructor; auto|].
  rewrite <- app_assoc. constructor; auto.
Qed.

Lemma siteTrace_calls t : Forall notSiteWrite t -> siteTrace [] t.
Proof. induction 1; by constructor. Qed.

Lemma siteTrace_one st c ref ts r : step_run st c ref ts r -> siteTrace [mkStep st c ref r] ts.
Proof. intros Hr. rewrite <- (app_nil_r ts). by repeat constructor. Qed.

(** ** The deployment

    What the objects a pass is given say: their spec, the site their status may
    record as current primary, and for each cache key the REST configurations
    and the clients that lead to its site. *)
Record deployment : Type := mkDeployment {
  dp_namespace : string;
  dp_spec : HAClusterSpec;
  dp_recorded : string -> Prop;
  dp_config : string -> restConfig -> Prop;
  dp_client : string -> client -> Prop
}.

Section plan.
Context (d : deployment) (r : HAClusterReconciler).

Definition ofDeployment (ha : HACluster) : Prop :=
  ha_Namespace ha = dp_namespace d /\ ha_Spec ha = dp_spec d.

Definition recordedPrimary (ha : HACluster) : string := st_CurrentPrimarySite (ha_Status ha).

Definition current (ha : HACluster) : Prop :=
  ofDeployment ha /\ dp_recorded d (recordedPrimary ha).

(** The answers agree with the deployment: HAClusters have its spec, those that
    were read before the status was sent record the primary it allows, a
    kubeconfig names the site of its key, and a client leads where its
    configuration says. *)
Definition faithful (a : apicall) : Prop :=
  match a with
  | CGetHA _ _ (Ok ha) | CPatchHA _ _ _ (Ok ha) => current ha
  | CStatusUpdate _ _ (Ok ha) => ofDeployment ha
  | CGetSecret _ k (Ok sec) =>
      forall key kc cfg, secretBytes sec key = Some kc -> RESTConfigFromKubeConfig kc = Ok cfg ->
      dp_config d (cacheKey (nn_namespace k) (mkSelector (nn_name k) key)) cfg
  | CNewClient cfg (Ok c) => forall key, dp_config d key cfg -> dp_client d key c
  | _ => True
  end.

(** The cached clients lead to their sites. *)
Definition cacheLeads (s : opstate) : Prop :=
  forall key e, op_clients s !! key = Some e -> dp_client d key (cc_cli e).

(** ** The plan *)

(** [c] and [ref] are a client and the Cluster of the replica [rep]. *)
Definition replicaAt (rep : ReplicaSite) (c : client) (ref : Ref) : Prop :=
  rep ∈ spec_Replicas (dp_spec d) /\
  dp_client d (cacheKey (dp_namespace d) (rs_KubeconfigSecretRef rep)) c /\
  ref = refOf (rs_ClusterRef rep).

(** The same for a site of the spec, by name. *)
Definition siteAt (name : string) (c : client) (ref : Ref) : Prop :=
  (name = ps_Name (spec_Primary (dp_spec d)) /\ c = r_Client r /\
   ref = refOf (ps_ClusterRef (spec_Primary (dp_spec d)))) \/
  exists rep, rs_Name rep = name /\ replicaAt rep c ref.

(** A promotion of the replica [target] while the site [old] is taken for the
    primary: each step is reached only if those before it went through; the
    index says whether it was completed. *)
Inductive promotionPlan (old : string) (target : ReplicaSite) : bool -> list stepRec -> Prop :=
  | plan_fence oc oref rf :
      siteAt old oc oref ->
      promotionPlan old target false [mkStep StepFence oc oref rf]
  | plan_flip oc oref rf rs :
      siteAt old oc oref -> aborting rf = None ->
      promotionPlan old target false
        [mkStep StepFence oc oref rf; mkStep (StepFlip RoleRemote) oc oref rs]
  | plan_promote oc oref rf rs nc nref rp :
      siteAt old oc oref -> aborting rf = None -> aborting rs = None ->
      replicaAt target nc nref -> rs_Name target <> old ->
      promotionPlan old target false
        [mkStep StepFence oc oref rf; mkStep (StepFlip RoleRemote) oc oref rs;
         mkStep StepPromote nc nref rp]
  | plan_whole oc oref rf rs nc nref rl :
      siteAt old oc oref -> aborting rf = None -> aborting rs = None ->
      replicaAt target nc nref -> rs_Name target <> old ->
      promotionPlan old target (isOk rl)
        [mkStep StepFence oc oref rf; mkStep (StepFlip RoleRemote) oc oref rs;
         mkStep StepPromote nc nref (Ok tt); mkStep (StepFlip RoleLocal) nc nref rl].

(** The site a promotion takes the writes from is the recorded one, unless
    none is. *)
Definition takenOver (old : string) : Prop := dp_recorded d old \/ dp_recorded d "".

(** Convergence toward the site [ep]: the other sites are fenced or made to
    follow [host]. *)
Inductive convergePlan (ep host : string) : list stepRec -> Prop :=
  | converge_nil : convergePlan ep host []
  | converge_fence name c ref res l :
      siteAt name c ref -> name <> ep -> convergePlan ep host l ->
      convergePlan ep host (mkStep StepFence c ref res :: l)
  | converge_follow name c ref res l :
      siteAt name c ref -> name <> ep -> convergePlan ep host l ->
      convergePlan ep host (mkStep (StepReconfigure host) c ref res :: l).

(** [host] is the replication endpoint the spec gives a site named [name]. *)
Definition siteEndpoint (name host : string) : Prop :=
  (name = ps_Name (spec_Primary (dp_spec d)) /\
   host = ps_ReplicationEndpoint (spec_Primary (dp_spec d))) \/
  exists rep, rep ∈ spec_Replicas (dp_spec d) /\ rs_Name rep = name /\
    host = rs_ReplicationEndpoint rep.

(** What the handlers do: at most one promotion; the index says whether it went
    through, if there was one. *)
Inductive handlersPlan : bool -> list stepRec -> Prop :=
  | no_promotion : handlersPlan true []
  | one_promotion old target b pl :
      takenOver old -> promotionPlan old target b pl -> handlersPlan b pl.

(** A pass, with its trace: the handlers and nothing else, or the handlers, an
    acknowledged status, and then convergence toward the site that status
    records as the primary, which the spec gives the endpoint [host]. *)
Inductive passPlan : list apicall -> list stepRec -> Prop :=
  | pass_stops b pl t : siteTrace pl t -> handlersPlan b pl -> passPlan t pl
  | pass_converges pl t1 hs ha' host cl t2 :
      siteTrace pl t1 -> handlersPlan true pl ->
      siteEndpoint (recordedPrimary hs) host -> host <> "" -> recordedPrimary hs <> "" ->
      siteTrace cl t2 -> convergePlan (recordedPrimary hs) host cl ->
      passPlan (t1 ++ CStatusUpdate (r_Client r) hs (Ok ha') :: t2) (pl ++ cl).

Lemma passPlan_quiet t : siteTrace [] t -> passPlan t [].
Proof. intros Ht. eapply pass_stops; [done|constructor]. Qed.

Lemma converge_app ep host l l' :
  convergePlan ep host l -> convergePlan ep host l' -> convergePlan ep host (l ++ l').
Proof. induction 1; simpl; [done|econstructor; eauto..]. Qed.

(** ** Following a plan

    Under [C], from a cache that leads to the sites and with faithful answers,
    [m] leaves such a cache, and its outcome and its steps satisfy [Q]. *)
Definition plans {A} (C : Prop) (Q : outcome A -> list stepRec -> Prop) (m : M A) : Prop :=
  forall s, wpt m (fun o s' t => C -> cacheLeads s -> Forall faithful t ->
    cacheLeads s' /\ exists l, siteTrace l t /\ Q o l) s.

(** No step, and a value in [P]. *)
Definition idle {A} (P : A -> Prop) (o : outcome A) (l : list stepRec) : Prop :=
  l = [] /\ forall a, o = Val a -> P a.

Lemma plans_ret {A} (C : Prop) Q (a : A) : (C -> Q (Val a) []) -> plans C Q (mret a).
Proof. intros HQ s. apply wpt_ret. intros HC Hs _. split; [done|]. exists []. split; [constructor|auto]. Qed.

Lemma plans_value {A} (C : Prop) (P : A -> Prop) a : (C -> P a) -> plans C (idle P) (mret a).
Proof. intros HP. apply plans_ret. intros HC. split; [done|]. intros b [= <-]. auto. Qed.

Lemma plans_panic {A} (C : Prop) (Q : outcome A -> list stepRec -> Prop) :
  (C -> Q Panicked []) -> plans C Q panic.
Proof. intros HQ s. apply wpt_panic. intros HC Hs _. split; [done|]. exists []. split; [constructor|auto]. Qed.

Lemma plans_mono {A} (C C' : Prop) (Q Q' : outcome A -> list stepRec -> Prop) m :
  plans C Q m -> (C' -> C) -> (forall o l, C' -> Q o l -> Q' o l) -> plans C' Q' m.
Proof.
  intros Hm HC HQ s. eapply wpt_mono; [apply Hm|]. intros o s' t Ht H' Hs Hf.
  destruct (Ht (HC H') Hs Hf) as (? & l & ? & ?). split; [done|]. exists l. auto.
Qed.

(** The same with the calls. *)
Definition plansT {A} (C : Prop) (Q : outcome A -> list apicall -> list stepRec -> Prop) (m : M A) : Prop :=
  forall s, wpt m (fun o s' t => C -> cacheLeads s -> Forall faithful t ->
    cacheLeads s' /\ exists l, siteTrace l t /\ Q o t l) s.

Lemma plansT_plans {A} (C : Prop) Q Q' (m : M A) :
  plansT C Q m -> (forall o t l, C -> siteTrace l t -> Q o t l -> Q' o l) -> plans C Q' m.
Proof.
  intros Hm HQ s. eapply wpt_mono; [apply Hm|]. intros o s' t Ht HC Hs Hf.
  destruct (Ht HC Hs Hf) as (? & l & ? & ?). split; [done|]. exists l. eauto.
Qed.

Lemma plansT_ret {A} (C : Prop) Q (a : A) : (C -> Q (Val a) [] []) -> plansT C Q (mret a).
Proof. intros HQ s. apply wpt_ret. intros HC Hs _. split; [done|]. exists []. split; [constructor|auto]. Qed.

Lemma plansT_mono {A} (C C' : Prop) Q Q' (m : M A) :
  plansT C Q m -> (C' -> C) -> (forall o t l, C' -> siteTrace l t -> Q o t l -> Q' o t l) ->
  plansT C' Q' m.
Proof.
  intros Hm HC HQ s. eapply wpt_mono; [apply Hm|]. intros o s' t Ht H' Hs Hf.
  destruct (Ht (HC H') Hs Hf) as (? & l & ? & ?). split; [done|]. exists l. auto.
Qed.

Lemma plansT_bind {A B} (C : Prop) Q1 Q (m : M A) (k : A -> M B) :
  plansT C Q1 m ->
  (forall a t l, plansT (C /\ siteTrace l t /\ Q1 (Val a) t l)
     (fun o t' l' => Q o (t ++ t') (l ++ l')) (k a)) ->
  (forall t l, C -> siteTrace l t -> Q1 Panicked t l -> Q Panicked t l) -> plansT C Q (m ≫= k).
Proof.
  intros Hm Hk Hp s. apply wpt_bind. eapply wpt_mono; [apply Hm|].
  intros [a|] s1 t1 H1.
  - destruct (Hk a [] [] s1) as (t2 & Ht & Hx & _). exists t2. split; [done|]. split; [done|].
    intros HC Hs [F1 F2]%Forall_app. destruct (H1 HC Hs F1) as (Hs1 & l1 & Hl1 & HQ1).
    destruct (Hk a t1 l1 s1) as (t2' & Ht' & _ & H2). rewrite Ht in Ht'. apply app_inv_head in Ht' as <-.
    destruct (H2 (conj HC (conj Hl1 HQ1)) Hs1 F2) as (? & l2 & ? & ?). split; [done|].
    exists (l1 ++ l2). split; [by apply siteTrace_app|done].
  - intros HC Hs Hf. destruct (H1 HC Hs Hf) as (? & l & ? & ?). split; [done|]. exists l. auto.
Qed.

Lemma plansT_bind_idle {A B} (C : Prop) (P : A -> Prop) Q (m : M A) (k : A -> M B) :
  plans C (idle P) m ->
  (forall a t, plansT (C /\ siteTrace [] t /\ P a) (fun o t' l => Q o (t ++ t') l) (k a)) ->
  (forall t, C -> siteTrace [] t -> Q Panicked t []) -> plansT C Q (m ≫= k).
Proof.
  intros Hm Hk Hp. eapply (plansT_bind _ (fun o _ l => idle P o l)); [apply Hm| |].
  - intros a t l s. eapply wpt_mono; [apply (Hk a t)|].
    intros o s' t' Ht (HC & Hl & [-> HP]). apply Ht. auto.
  - intros t l HC Hl [-> _]. auto.
Qed.

Lemma plans_bind {A B} (C : Prop) Q1 Q (m : M A) (k : A -> M B) :
  plans C Q1 m ->
  (forall a l, plans (C /\ Q1 (Val a) l) (fun o l' => Q o (l ++ l')) (k a)) ->
  (forall l, C -> Q1 Panicked l -> Q Panicked l) -> plans C Q (m ≫= k).
Proof.
  intros Hm Hk Hp. apply (plansT_bind _ (fun o _ l => Q1 o l) (fun o _ l => Q o l)); [done| |auto].
  intros a t l. eapply (plansT_mono _ _ (fun o _ l' => Q o (l ++ l'))); [apply Hk|tauto|done].
Qed.

Lemma plans_bind_idle {A B} (C : Prop) (P : A -> Prop) Q (m : M A) (k : A -> M B) :
  plans C (idle P) m -> (forall a, plans (C /\ P a) Q (k a)) -> (C -> Q Panicked []) ->
  plans C Q (m ≫= k).
Proof.
  intros Hm Hk Hp. eapply plans_bind; [apply Hm| |intros l HC [-> _]; auto].
  intros a l s. eapply wpt_mono; [apply Hk|]. intros o s' t Ht [HC [-> HP]]. apply Ht. auto.
Qed.

Lemma plans_and {A} C Q (P : A -> Prop) (m : M A) :
  plans C Q m -> isQuiet m P -> plans C (fun o l => Q o l /\ forall a, o = Val a -> P a) m.
Proof.
  intros Hm Hq s. eapply wpt_mono; [apply wpt_and; [apply Hm|apply Hq]|].
  intros o s' t [Ht (a & -> & Ha & _)] HC Hs Hf. destruct (Ht HC Hs Hf) as (? & l & ? & ?).
  split; [done|]. exists l. split_and!; [done|done|]. by intros b [= <-].
Qed.

(** Programs that touch neither the sites nor the cache. *)
Lemma plans_other {A} C (m : M A) :
  emits notSiteWrite m -> keepsClients m -> plans C (idle (fun _ => True)) m.
Proof.
  intros He Hk s. destruct (He s) as (t & Ht & Hx & Hf). exists t. split; [done|]. split; [done|].
  intros _ Hs _. split; [unfold cacheLeads; by rewrite Hk|].
  exists []. split; [by apply siteTrace_calls|done].
Qed.

Lemma plans_call {A} (C : Prop) (P : A -> Prop) (f : World -> A * World) log :
  (forall a w w', f w = (a, w') -> answers (log a) w w') ->
  (forall a, siteWrite (log a) = false) -> (forall a, C -> faithful (log a) -> P a) ->
  plans C (idle P) (call f log).
Proof.
  intros Ha Hw HP s. apply wpt_call; [done|]. intros a w' _ HC Hs Hf. split; [done|].
  exists []. split; [by repeat constructor|]. split; [done|]. intros b [= <-].
  apply HP; [done|]. by inversion Hf.
Qed.

Lemma plans_talks {A} C (Q : outcome A -> list stepRec -> Prop) (m : M A) R :
  talks m R -> (forall t a, C -> R t a -> exists l, siteTrace l t /\ Q (Val a) l) -> plans C Q m.
Proof.
  intros Hm HR s. eapply wpt_talks; [done|]. intros t a w' Hr _ HC Hs _. split; [done|]. auto.
Qed.

(** ** Clients of the sites *)

Lemma kubeconfigOf_bytes ns ref rs kc rv :
  kubeconfigOf ns ref rs = Ok (kc, rv) ->
  exists sec, rs = Ok sec /\ secretBytes sec (sel_Key ref) = Some kc.
Proof.
  unfold kubeconfigOf. destruct rs as [sec|e]; [|done].
  destruct (secretBytes sec (sel_Key ref)) as [b|] eqn:E; intros [= <- <-]. by exists sec.
Qed.

(** A client for a key leads to its site. *)
Lemma GetOrCreate_plans C hub ns ref :
  plans C (idle (fun res => forall c, res = Ok c -> dp_client d (cacheKey ns ref) c))
    (GetOrCreate hub ns ref).
Proof.
  intros s. destruct (GetOrCreate_run hub ns ref s) as (t & res & upd & w & E & Hx & Hr).
  exists t. rewrite E. split; [done|]. split; [done|]. intros _ Hs Hf. simpl.
  assert (Ht : siteTrace [] t).
  { apply siteTrace_calls. inversion Hr; subst; repeat constructor.
    match goal with D : _ \/ _ |- _ => destruct D as [[-> _]|(? & ? & ->)] end; repeat constructor. }
  enough (cacheLeads (cacheState w t (cacheKey ns ref) upd s) /\
    forall c, res = Ok c -> dp_client d (cacheKey ns ref) c) as [? Hc].
  { split; [done|]. exists []. split; [done|]. split; [done|]. by intros a [= <-]. }
  inversion Hr as [rs e c Ek Ee|rs e Ek Ee|rs kc rv cli Ek Ee|rs kc rv t' e Ek Ee|
                   rs kc rv cfg cli Ek Ee Ecfg]; subst.
  - split; [exact Hs|]. intros ? [= <-]. by apply Hs.
  - split; [exact Hs|done].
  - split; [exact Hs|]. intros ? [= <-]. by apply (Hs _ (mkCached cli rv)).
  - split; [exact Hs|done].
  - apply kubeconfigOf_bytes in Ek as (sec & -> & Eb).
    apply Forall_cons in Hf as [Hsec Hf]. apply Forall_cons in Hf as [Hnew _]. simpl in *.
    assert (Hc : dp_client d (cacheKey ns ref) cli).
    { apply Hnew. destruct ref as [n key]. by eapply Hsec. }
    split; [|by intros ? [= <-]]. intros key e. unfold cacheState. simpl.
    destruct (decide (key = cacheKey ns ref)) as [->|Hne];
      [rewrite lookup_insert_eq; by intros [= <-]|rewrite lookup_insert_ne by done; apply Hs].
Qed.

Lemma siteClientAndRef_plans C ha name :
  (C -> ofDeployment ha) ->
  plans C (idle (fun res => forall c ref, res = Some (c, ref) -> siteAt name c ref))
    (siteClientAndRef r ha name).
Proof.
  intros Hd. unfold siteClientAndRef. case_bool_decide as Hn.
  { apply plans_ret. intros HC. destruct (Hd HC) as [_ Hsp]. split; [done|].
    intros a [= <-] c ref [= <- <-]. left. by rewrite <- Hsp. }
  destruct (list_find _ _) as [[i rep]|] eqn:El; [|by apply plans_ret; split; [|intros ? [= <-]]].
  apply list_find_Some in El as (Hi & Hname & _).
  eapply plans_bind_idle; [apply GetOrCreate_plans| |by split].
  intros [cli|e]; apply plans_ret; [|by split; [|intros ? [= <-]]].
  intros [HC Hcli]. destruct (Hd HC) as [Hns Hsp]. split; [done|].
  intros a [= <-] c ref [= <- <-]. right. exists rep. split; [done|].
  unfold replicaAt. rewrite <- Hns, <- Hsp. split; [by eapply list_elem_of_lookup_2|].
  split; [by apply Hcli|done].
Qed.

(** ** The promotion *)

(** A run of the protocol, as its steps. *)
Lemma protocol_run_plan old oc oref target nc nref t res :
  siteAt old oc oref -> replicaAt target nc nref -> rs_Name target <> old ->
  protocol_run oc oref nc nref t res ->
  exists l b, siteTrace l t /\ promotionPlan old target b l /\ (b = true <-> res = Ok tt).
Proof.
  intros Hold Htgt Hne. destruct 1 as [t rf e Hf|t rf t1 rs e Hf Ha Hs|t rf t1 rs t2 e Hf Ha Hs As Hp|
    t rf t1 rs t2 t3 rl Hf Ha Hs As Hp Hl].
  - eexists _, false. split; [eapply (siteTrace_one StepFence), Hf|]. split; [by eapply plan_fence|done].
  - eexists _, false. split.
    { eapply (siteTrace_step StepFence); [exact Hf|]. eapply (siteTrace_one (StepFlip RoleRemote)), Hs. }
    split; [by eapply plan_flip|done].
  - eexists _, false. split.
    { eapply (siteTrace_step StepFence); [exact Hf|]. eapply (siteTrace_step (StepFlip RoleRemote)); [exact Hs|].
      eapply (siteTrace_one StepPromote), Hp. }
    split; [by eapply plan_promote|done].
  - eexists _, _. split.
    { eapply (siteTrace_step StepFence); [exact Hf|]. eapply (siteTrace_step (StepFlip RoleRemote)); [exact Hs|].
      eapply (siteTrace_step StepPromote); [exact Hp|]. eapply (siteTrace_one (StepFlip RoleLocal)), Hl. }
    split; [by eapply plan_whole|]. destruct rl as [[]|]; simpl; split; congruence.
Qed.

(** A promotion that ran to its end, or did not and gave an error. *)
Definition ran (old : string) (target : ReplicaSite) (o : outcome (result unit))
    (l : list stepRec) : Prop :=
  promotionPlan old target true l \/
  (o <> Val (Ok tt) /\ (l = [] \/ promotionPlan old target false l)).

Lemma runPromotion_plans C ha old target :
  (C -> ofDeployment ha /\ target ∈ spec_Replicas (dp_spec d)) ->
  plans C (ran old target) (runPromotion r ha old target).
Proof.
  intros Hd. assert (Hno : forall C' e, plans C' (ran old target) (mret (Err e))).
  { intros. apply plans_ret. right. by split; [|left]. }
  unfold runPromotion. case_bool_decide; [apply Hno|]. case_bool_decide as Hne; [apply Hno|].
  eapply plans_bind_idle; [apply siteClientAndRef_plans; apply Hd| |right; by split; [|left]].
  intros [[oc oref]|]; [|apply Hno].
  eapply plans_bind_idle; [apply GetOrCreate_plans| |right; by split; [|left]].
  intros [nc|e]; [|apply Hno].
  eapply plans_talks; [apply promotionSteps_talks|]. intros t res [[HC Hold] Hnc] Hr.
  destruct (Hd HC) as [[Hns Hsp] Htgt].
  destruct (protocol_run_plan old oc oref target nc (refOf (rs_ClusterRef target)) t res)
    as (l & b & Ht & Hp & Hb); [auto| |congruence|done|].
  { unfold replicaAt. rewrite <- Hns. auto. }
  exists l. split; [done|]. destruct b; [by left|]. right. split; [|by right].
  intros [= ->]. by destruct Hb as [_ ?%(fun f => f eq_refl)].
Qed.

(** ** The handlers *)

Lemma reads_notSiteWrite a : isWrite a = false -> notSiteWrite a.
Proof. by destruct a. Qed.

(** The condition it sets changes neither the spec nor the recorded primary. *)
Lemma setFailoverInProgress_plans C (P : HACluster -> Prop) ha b n :
  (forall ha', ha_Namespace ha' = ha_Namespace ha -> ha_Spec ha' = ha_Spec ha ->
     recordedPrimary ha' = recordedPrimary ha -> C -> P ha') ->
  plans C (idle P) (setFailoverInProgress ha b n).
Proof.
  intros Hd. eapply plans_bind_idle; [by eapply (plans_call _ (fun _ => True))| |by split].
  intros t. apply plans_ret. intros [HC _]. split; [done|]. intros a [= <-]. by apply Hd.
Qed.

Lemma clearPromoteAnnotation_plans C ha :
  (C -> current ha) ->
  plans C (idle (fun res => current res.1)) (clearPromoteAnnotation r ha).
Proof.
  intros Hd. unfold clearPromoteAnnotation.
  destruct (hasPromote ha); [|by apply plans_ret; split; [|intros a [= <-]; auto]].
  eapply plans_bind_idle; [|intros [ha'|e]; apply plans_ret|by split].
  - apply (plans_call _ (fun res => forall ha', res = Ok ha' -> current ha')); [done..|].
    intros [ha'|e] _ Hf; [by intros ? [= <-]|done].
  - intros [_ Hp]. split; [done|]. intros a [= <-]. simpl. by apply (Hp ha').
  - intros [HC _]. split; [done|]. intros a [= <-]. by apply Hd.
Qed.

(** The replica [target] was observed as a healthy one. *)
Definition chosenReplica (rs : list siteObservation) (target : ReplicaSite) : Prop :=
  exists i o, rs !! i = Some o /\ spec_Replicas (dp_spec d) !! i = Some target /\
    o_name o = rs_Name target /\ healthyReplica o = true.

(** The observations are those of the replicas of the spec. *)
Definition aligned (rs : list siteObservation) : Prop :=
  o_name <$> rs = rs_Name <$> spec_Replicas (dp_spec d).

Lemma aligned_name rs i o rep :
  aligned rs -> rs !! i = Some o -> spec_Replicas (dp_spec d) !! i = Some rep ->
  o_name o = rs_Name rep.
Proof.
  intros Ha Ho Hr. assert (E : (o_name <$> rs) !! i = Some (o_name o)) by by rewrite list_lookup_fmap, Ho.
  rewrite Ha, list_lookup_fmap, Hr in E. by injection E.
Qed.

(** Step over an operation on the object or over one whose value does not
    matter; the last goal is about a panic. *)
Ltac plans_step :=
  lazymatch goal with
  | |- plans _ _ (mbind _ (setFailoverInProgress _ _ _)) =>
      eapply plans_bind_idle;
        [first [apply (setFailoverInProgress_plans _ current); unfold current, ofDeployment in *;
                  intros ? -> -> ->; intros; destruct_and?; simpl in *; destruct_and?; solve [auto]
               |apply (setFailoverInProgress_plans _ ofDeployment); unfold current, ofDeployment in *;
                  intros ? -> -> _; intros; destruct_and?; simpl in *; destruct_and?; solve [auto]]|intros|]
  | |- plans _ _ (mbind _ _) =>
      eapply plans_bind_idle;
        [apply plans_other;
          [first [apply event_emits | apply WithLabelValues_emits | apply resetFailCount_emits
                 | apply bumpFailCount_emits | by apply emits_call]
          |solve [unfold event; keeps_clients
                 |unfold ObserveFailoverDuration, IncFailover, WithLabelValues; keeps_clients]]
        |intros|]
  end.

Section handlers.
Context (p : siteObservation) (rs : list siteObservation).

(** What a handler did in its mode: nothing, or a promotion, whose effect it
    reports if it was completed, and otherwise an error. *)
Record nothingDone (o : outcome (HACluster * result promotionEffect)) (l : list stepRec) : Prop := {
  nd_steps : l = [];
  nd_object ha' res : o = Val (ha', res) -> current ha';
  nd_effect ha' eff : o = Val (ha', Ok eff) -> eff = noEffect
}.

Record promotionDone (mode : string) (o : outcome (HACluster * result promotionEffect))
    (l : list stepRec) (old : string) (target : ReplicaSite) : Prop := {
  pd_mode : fs_Mode (spec_Failover (dp_spec d)) = mode;
  pd_old : takenOver old;
  pd_target : chosenReplica rs target;
  pd_object ha' res : o = Val (ha', res) -> ofDeployment ha';
  pd_effect ha' eff : o = Val (ha', Ok eff) -> eff = mkEffect old (rs_Name target);
  pd_steps : promotionPlan old target true l \/
    (promotionPlan old target false l /\ forall ha' eff, o <> Val (ha', Ok eff))
}.

Definition handled (mode : string) (o : outcome (HACluster * result promotionEffect))
    (l : list stepRec) : Prop :=
  nothingDone o l \/ exists old target, promotionDone mode o l old target.

Lemma handled_value mode ha res :
  current ha -> (forall eff, res = Ok eff -> eff = noEffect) -> handled mode (Val (ha, res)) [].
Proof. intros Ha He. left. split; [done|by intros ? ? [= <- _]|intros ? ? [= _ ->]; auto]. Qed.

Lemma handled_panicked mode : handled mode Panicked [].
Proof. left. by split. Qed.

(** The end of a handler that ran a promotion. *)
Lemma handled_ran mode old target rp l o :
  ran old target (Val rp) l -> fs_Mode (spec_Failover (dp_spec d)) = mode -> takenOver old ->
  chosenReplica rs target -> (forall ha' res, o = Val (ha', res) -> ofDeployment ha') ->
  (rp <> Ok tt -> forall ha' res, o = Val (ha', res) -> current ha' /\ exists e, res = Err e) ->
  (forall ha' eff, o = Val (ha', Ok eff) -> eff = mkEffect old (rs_Name target)) ->
  handled mode o (l ++ []).
Proof.
  intros Hr Hm Ho Ht Hd He Heff. rewrite app_nil_r.
  destruct Hr as [Hp|[Hn [->|Hp]]].
  - right. exists old, target. split; auto.
  - left. assert (Hn' : rp <> Ok tt) by congruence. split; [done|intros; by eapply He|].
    intros ha' eff E. by destruct (He Hn' _ _ E) as (_ & e & ?).
  - right. exists old, target. split; auto. right. split; [done|]. intros ha' eff E.
    destruct (He ltac:(congruence) _ _ E) as (_ & e & ?). done.
Qed.

(** The end of a promotion that panicked, which a run of the protocol excludes
    and the plan allows. *)
Lemma handled_panic mode old target l :
  ran old target Panicked l -> fs_Mode (spec_Failover (dp_spec d)) = mode -> takenOver old ->
  chosenReplica rs target -> handled mode Panicked l.
Proof.
  intros Hr Hm Ho Ht. rewrite <- (app_nil_r l).
  apply (handled_ran _ old target (Err (ErrorString ""))); try done.
  destruct Hr as [?|[_ ?]]; [by left|by right].
Qed.

Lemma rejectPromote_plans C mode ha msg :
  (C -> current ha) -> plans C (handled mode) (rejectPromote r ha msg).
Proof.
  intros Hd. eapply plans_bind_idle; [apply plans_other; [apply event_emits|unfold event; keeps_clients]| |].
  - intros u. eapply plans_bind_idle; [apply clearPromoteAnnotation_plans; tauto| |].
    + intros [ha' res]. apply plans_ret. intros [_ Hres]. apply handled_value; [done|].
      intros eff. by destruct res; intros [= <-].
    + intros _. apply handled_panicked.
  - intros _. apply handled_panicked.
Qed.

(** The end of a handler that ran a promotion. *)
Ltac ran_end :=
  intros; destruct_and?; eapply handled_ran; [eassumption|auto|auto|auto| | |];
    try solve [intros; simplify_eq; unfold current in *; destruct_and?; eauto].

(** What a promotion is given by the decisions before it. *)
Lemma currentPrimary_takenOver ha old :
  current ha -> currentPrimaryForPromotion ha p rs = Ok old -> takenOver old.
Proof.
  intros [_ Hc]. unfold currentPrimaryForPromotion, takenOver, recordedPrimary in *.
  case_bool_decide; [done|]. case_bool_decide as He; simpl; [|by intros [= <-]; left].
  rewrite He in Hc. by right.
Qed.

Lemma watchedPrimary_takenOver ha : current ha -> takenOver (watchedPrimary ha).
Proof.
  intros [_ Hc]. unfold watchedPrimary, takenOver, recordedPrimary in *.
  case_bool_decide as He; [rewrite He in Hc; by right|by left].
Qed.

Lemma chosenReplica_at ha i o rep :
  ofDeployment ha -> aligned rs -> rs !! i = Some o ->
  spec_Replicas (ha_Spec ha) !! i = Some rep -> healthyReplica o = true ->
  chosenReplica rs rep /\ rep ∈ spec_Replicas (dp_spec d) /\ o_name o = rs_Name rep.
Proof.
  intros [_ ->] Ha Ho Hr Hh. pose proof (aligned_name _ _ _ _ Ha Ho Hr).
  split_and!; [by exists i, o|by eapply list_elem_of_lookup_2|done].
Qed.

Lemma handlePromoteAnnotation_plans C ha :
  (C -> current ha) -> (C -> aligned rs) ->
  plans C (handled FailoverModeManual) (handlePromoteAnnotation r ha p rs).
Proof.
  intros Hd Hal. pose proof handled_panicked as Hpan. unfold handlePromoteAnnotation.
  destruct (hasPromote ha) as [target|].
  2:{ apply plans_ret. intros HC. apply handled_value; [auto|by intros ? [= <-]]. }
  case_bool_decide as Hm; simpl; [|by apply rejectPromote_plans].
  destruct (findReplica ha target) as [[rep i] found] eqn:Ef.
  destruct found; simpl; [|by apply rejectPromote_plans].
  destruct (rs !! i) as [o|] eqn:Eo; [|by apply plans_panic].
  destruct (healthyReplica o) eqn:Eh; simpl; [|by apply rejectPromote_plans].
  destruct (currentPrimaryForPromotion ha p rs) as [old|e] eqn:Ec; [|by apply rejectPromote_plans].
  assert (Htgt : C -> chosenReplica rs rep /\ rep ∈ spec_Replicas (dp_spec d) /\ o_name o = rs_Name rep).
  { intros HC. apply findReplica_found in Ef as [Hi _]. eapply chosenReplica_at; eauto. by apply Hd. }
  assert (Hold : C -> takenOver old) by (intros HC; eapply currentPrimary_takenOver; eauto).
  assert (Hmode : C -> fs_Mode (spec_Failover (dp_spec d)) = FailoverModeManual).
  { intros HC. by destruct (Hd HC) as [[_ <-] _]. }
  assert (Hch := fun HC => proj1 (Htgt HC)). assert (Hname := fun HC => proj2 (proj2 (Htgt HC))).
  do 3 (plans_step; [|done]).
  eapply plans_bind; [apply runPromotion_plans; unfold current in *; tauto| |].
  2:{ intros l HC Hr. eapply handled_panic; [exact Hr|tauto..]. }
  intros [[]|e] l.
  2:{ do 2 (plans_step; [|ran_end]). apply plans_ret. ran_end. }
  do 2 (plans_step; [|ran_end]).
  eapply plans_bind_idle; [apply clearPromoteAnnotation_plans; tauto| |ran_end].
  intros [ha2 [[]|e]]; simpl; [|apply plans_ret; ran_end].
  do 4 (plans_step; [|ran_end]). apply plans_ret. ran_end.
  intros ? ? [= _ <-]. by rewrite Hname.
Qed.

Lemma chooseTarget_found ha obs failed rep i :
  chooseTarget ha obs failed = Val (rep, i, true) -> spec_Replicas (ha_Spec ha) !! i = Some rep.
Proof. unfold chooseTarget. intros E. by case_go. Qed.

Lemma aligned_length ha : ofDeployment ha -> aligned rs -> length rs = length (spec_Replicas (ha_Spec ha)).
Proof. intros [_ ->] Ha. by rewrite <- (length_fmap o_name), Ha, length_fmap. Qed.

Lemma autoPromote_plans C ha n th :
  (C -> current ha) -> (C -> aligned rs) ->
  fs_Mode (spec_Failover (ha_Spec ha)) = FailoverModeAutomatic ->
  plans C (handled FailoverModeAutomatic) (autoPromote r ha rs (watchedPrimary ha) n th).
Proof.
  intros Hd Hal Hm. pose proof handled_panicked as Hpan. unfold autoPromote.
  destruct (chooseTarget _ _ _) as [[[target i] ok]|] eqn:Ec; [|by apply plans_panic].
  destruct ok; simpl.
  2:{ plans_step; [|done]. apply plans_ret. intros [HC _].
      apply handled_value; [auto|by intros ? [= <-]]. }
  assert (Htgt : C -> chosenReplica rs target /\ target ∈ spec_Replicas (dp_spec d)).
  { intros HC. destruct (Hd HC) as [Hof _].
    destruct (chooseTarget_healthy _ _ _ _ _ (aligned_length ha Hof (Hal HC)) Ec) as (o & Ho & Hh).
    apply chooseTarget_found in Ec. edestruct chosenReplica_at as (? & ? & _); eauto. }
  assert (Hold : C -> takenOver (watchedPrimary ha)) by (intros HC; apply watchedPrimary_takenOver; auto).
  assert (Hmode : C -> fs_Mode (spec_Failover (dp_spec d)) = FailoverModeAutomatic).
  { intros HC. by destruct (Hd HC) as [[_ <-] _]. }
  assert (Hch := fun HC => proj1 (Htgt HC)).
  do 3 (plans_step; [|done]).
  eapply plans_bind; [apply runPromotion_plans; unfold current in *; tauto| |].
  2:{ intros l HC Hr. eapply handled_panic; [exact Hr|tauto..]. }
  intros [[]|e] l.
  - do 6 (plans_step; [|ran_end]). plans_step; [|ran_end]. apply plans_ret. ran_end.
  - do 2 (plans_step; [|ran_end]). apply plans_ret. ran_end.
Qed.

Lemma handleAutomaticFailover_plans C ha :
  (C -> current ha) -> (C -> aligned rs) ->
  plans C (handled FailoverModeAutomatic) (handleAutomaticFailover r ha p rs).
Proof.
  intros Hd Hal. pose proof handled_panicked as Hpan.
  assert (Hno : forall C', (C' -> C) -> plans C' (handled FailoverModeAutomatic)
    (mret (ha, Ok noEffect))).
  { intros C' HC. apply plans_ret. intros. apply handled_value; [auto|by intros ? [= <-]]. }
  assert (Hreset : forall C', (C' -> C) -> plans C' (handled FailoverModeAutomatic)
    (resetFailCount (haKey ha);; mret (ha, Ok noEffect))).
  { intros C' HC. plans_step; [|done]. apply Hno. tauto. }
  unfold handleAutomaticFailover. case_bool_decide as Hm; simpl; [|by apply Hno].
  destruct (bool_decide _); [by apply Hreset|].
  eapply plans_bind_idle; [apply plans_other;
    [eapply emits_quiet; [apply stabilizing_quiet|apply reads_notSiteWrite]
    |unfold stabilizing, now; keeps_clients]| |done].
  intros []; [apply Hreset; tauto|]. destruct (healthyPrimary _); [apply Hreset; tauto|].
  plans_step; [|done].
  destruct (_ <? _); [plans_step; [apply Hno; tauto|done]|].
  apply autoPromote_plans; [tauto|tauto|done].
Qed.

(** Outside its mode the automatic failover does nothing. *)
Lemma handleAutomaticFailover_off ha :
  fs_Mode (spec_Failover (ha_Spec ha)) <> FailoverModeAutomatic ->
  handleAutomaticFailover r ha p rs = mret (ha, Ok noEffect).
Proof. intros Hm. unfold handleAutomaticFailover. by rewrite bool_decide_eq_false_2. Qed.

(** Both handlers: at most one of them promotes, as the spec has one mode. The
    effect is that of the promotion, or there is an error. *)
Record effectReported (o : outcome (HACluster * promotionEffect * option goerr))
    (l : list stepRec) (old : string) (target : ReplicaSite) : Prop := {
  pr_old : takenOver old;
  pr_target : chosenReplica rs target;
  pr_effect ha' pe err : o = Val (ha', pe, err) -> rs_Name target <> "" ->
    pe = mkEffect old (rs_Name target) \/ (pe = noEffect /\ exists e, err = Some e);
  pr_steps : promotionPlan old target true l \/
    (promotionPlan old target false l /\ forall ha' pe err, o = Val (ha', pe, err) ->
       pe = noEffect /\ exists e, err = Some e)
}.

Definition promoted (o : outcome (HACluster * promotionEffect * option goerr))
    (l : list stepRec) : Prop :=
  (forall ha' pe err, o = Val (ha', pe, err) -> ofDeployment ha') /\
  ((l = [] /\ forall ha' pe err, o = Val (ha', pe, err) -> pe = noEffect) \/
   exists old target, effectReported o l old target).

Lemma handled_object mode o l ha' res : handled mode o l -> o = Val (ha', res) -> ofDeployment ha'.
Proof. intros [[_ Ho _]|(old & target & [])] E; [by destruct (Ho _ _ E)|eauto]. Qed.

(** The handler [o] decides alone what both report. *)
Lemma handled_promoted mode o l o' :
  handled mode o l ->
  (forall ha' pe err, o' = Val (ha', pe, err) -> exists res, o = Val (ha', res) /\
     match res with
     | Err e => pe = noEffect /\ err = Some e
     | Ok eff => (pe = eff \/ (didPromote eff = false /\ pe = noEffect)) /\ err = None
     end) -> promoted o' l.
Proof.
  intros Hh Ho'. split.
  { intros ha' pe err E. destruct (Ho' _ _ _ E) as (res & E' & _). by eapply handled_object. }
  destruct Hh as [[-> _ Heff]|(old & target & [_ Hold Htgt _ Heff Hst])].
  - left. split; [done|]. intros ha' pe err E. destruct (Ho' _ _ _ E) as ([eff|e] & E' & Hp); [|tauto].
    apply Heff in E'. naive_solver.
  - right. exists old, target. split; [done|done| |].
    + intros ha' pe err E Hne. destruct (Ho' _ _ _ E) as ([eff|e] & E' & Hp); [|naive_solver].
      left. rewrite (Heff _ _ E') in Hp. unfold didPromote in Hp. simpl in Hp.
      rewrite bool_decide_eq_false_2 in Hp by done. naive_solver.
    + destruct Hst as [?|[? Hno]]; [by left|right]. split; [done|]. intros ha' pe err E.
      destruct (Ho' _ _ _ E) as ([eff|e] & E' & Hp); [by destruct (Hno ha' eff)|naive_solver].
Qed.

Lemma handlePromotions_plans C ha :
  (C -> current ha) -> (C -> aligned rs) -> plans C promoted (handlePromotions r ha p rs).
Proof.
  intros Hd Hal. eapply plans_bind; [by apply handlePromoteAnnotation_plans| |].
  2:{ intros l _ Hl. by eapply handled_promoted. }
  intros [ha1 [pe|e]] l.
  2:{ apply plans_ret. intros [_ Hl]. rewrite app_nil_r. eapply handled_promoted; [exact Hl|].
      intros ? ? ? [= <- <- <-]. eexists. by split_and!. }
  destruct (decide (fs_Mode (spec_Failover (ha_Spec ha1)) = FailoverModeAutomatic)) as [Hm|Hm].
  2:{ rewrite handleAutomaticFailover_off by done. apply plans_ret. intros [_ Hl].
      rewrite app_nil_r. eapply handled_promoted; [exact Hl|]. intros ? ? ? [= <- <- <-].
      exists (Ok pe). split_and!; [done|by left|done]. }
  assert (Hcur : handled FailoverModeManual (Val (ha1, Ok pe)) l ->
    (l = [] /\ pe = noEffect) /\ current ha1).
  { intros Hh. pose proof (handled_object _ _ _ _ _ Hh eq_refl) as [_ Hsp].
    destruct Hh as [[-> Ho He]|(old & target & [Hm' _ _ _ _ _])]; [eauto|].
    rewrite Hsp, Hm' in Hm. done. }
  eapply (plans_bind _ (handled FailoverModeAutomatic));
    [apply handleAutomaticFailover_plans; [intros [_ Hh]; by apply Hcur|tauto]| |].
  - intros [ha2 [eff|e]] l'; apply plans_ret; intros [[_ Hl] Hl']; destruct (Hcur Hl) as [[-> ->] _];
      rewrite app_nil_r; (eapply handled_promoted; [exact Hl'|]); intros ? ? ? [= <- <- <-].
    + exists (Ok eff). split_and!; [done| |done]. destruct (didPromote eff); [by left|by right].
    + eexists. by split_and!.
  - intros l' [_ Hl] Hl'. destruct (Hcur Hl) as [[-> _] _]. by eapply handled_promoted.
Qed.
End handlers.

(** ** Observation and convergence *)

Lemma Probe_other C cli ref : plans C (idle (fun _ => True)) (Probe cli ref).
Proof.
  apply plans_other; [eapply emits_quiet; [apply Probe_quiet|apply reads_notSiteWrite]|].
  unfold Probe, getCluster. keeps_clients.
Qed.

Lemma probePostgres_other C obs cli ref ep spec :
  reconcilerOk r -> plans C (idle (fun _ => True)) (probePostgres r obs cli ref ep spec).
Proof.
  intros Hr. apply plans_other;
    [eapply emits_quiet; [by apply probePostgres_quiet|apply reads_notSiteWrite]|].
  unfold probePostgres, postgresProbeConfig, secretValue, getSecret.
  assert (Hp : forall cfg, keepsClients (default SQLProber_Probe (r_PostgresProber r) cfg)).
  { intros cfg. unfold reconcilerOk in Hr. destruct (r_PostgresProber r); apply prober_clients. }
  repeat first [apply Hp | apply keepsClients_ret | apply keepsClients_call
               | apply keepsClients_bind; [|intros] | case_match].
Qed.

Lemma observePrimary_plans C ha :
  reconcilerOk r -> plans C (idle (fun _ => True)) (observePrimary r ha).
Proof.
  intros Hr. eapply plans_bind_idle; [apply Probe_other| |by split].
  intros h. by apply probePostgres_other.
Qed.

Lemma observeReplica_plans C ha rep :
  reconcilerOk r -> plans C (idle (fun _ => True)) (observeReplica r ha rep).
Proof.
  intros Hr. eapply plans_bind_idle; [apply GetOrCreate_plans| |by split].
  intros [cli|e]; [|by apply plans_value].
  eapply plans_bind_idle; [apply Probe_other| |by split]. intros h. by apply probePostgres_other.
Qed.

Lemma observeReplicas_plans C ha reps :
  reconcilerOk r -> plans C (idle (fun _ => True)) (observeReplicas r ha reps).
Proof.
  intros Hr. revert C. induction reps as [|rep reps IH]; intros C; simpl; [by apply plans_value|].
  eapply plans_bind_idle; [by apply observeReplica_plans| |by split].
  intros o. eapply plans_bind_idle; [apply IH| |by split]. intros os. by apply plans_value.
Qed.

Lemma observeReplicas_aligned C ha :
  reconcilerOk r -> (C -> ofDeployment ha) ->
  plans C (idle aligned) (observeReplicas r ha (spec_Replicas (ha_Spec ha))).
Proof.
  intros Hr Hd. eapply plans_mono;
    [apply plans_and; [by apply (observeReplicas_plans C)|by apply observeReplicas_quiet]|done|].
  intros o l HC [[-> _] Hn]. split; [done|]. intros rs ->.
  unfold aligned. destruct (Hd HC) as [_ <-]. by apply Hn.
Qed.

Lemma step_plans {A} C Q st c ref (m : M (result unit)) (k : result unit -> M A) :
  talks m (step_run st c ref) ->
  (forall res, plans C (fun o l => Q o (mkStep st c ref res :: l)) (k res)) ->
  plans C Q (m ≫= k).
Proof.
  intros Ht Hk. eapply (plans_bind _ (fun o l => exists res, o = Val res /\ l = [mkStep st c ref res])).
  - eapply plans_talks; [apply Ht|]. intros t res _ Hr. eexists. split; [by apply siteTrace_one|eauto].
  - intros res l. eapply plans_mono; [apply Hk|tauto|].
    intros o l' [_ (res' & [= <-] & ->)] HQ. exact HQ.
  - intros l _ (res & ? & _). done.
Qed.

Lemma convergeSite_plans C ha ep host name c ref :
  (C -> siteAt name c ref) -> name <> ep ->
  plans C (fun _ l => convergePlan ep host l) (convergeSite r ha ep host name c ref).
Proof.
  intros Hs Hne. eapply plans_bind_idle; [apply Probe_other| |constructor]. intros h. cbv zeta.
  assert (Hend : forall C' A (a : A), plans C' (fun _ l => convergePlan ep host l) (mret a)).
  { intros. apply plans_ret. constructor. }
  assert (Hone : forall C' A st res (m : M A), (C' -> siteAt name c ref) ->
    st = StepFence \/ st = StepReconfigure host ->
    plans C' (idle (fun _ => True)) m ->
    plans C' (fun _ l => convergePlan ep host (mkStep st c ref res :: l)) m).
  { intros C' A st res m HC Hst Hm. eapply plans_mono; [apply Hm|done|].
    intros o l HC1 [-> _]. destruct Hst as [-> | ->]; econstructor; eauto; constructor. }
  assert (Hev : forall C' ty reason msg, plans C' (idle (fun _ => True))
    (event r ha ty reason msg;; mret (Ok tt : result unit))).
  { intros. plans_step; [by apply plans_value|by split]. }
  destruct (negb _); [apply Hend|].
  destruct (o_primary _); [destruct (bool_decide _)|].
  - eapply (step_plans _ _ (StepReconfigure host)); [apply Reconfigure_talks|].
    intros [[]|e]; apply Hone; try tauto; [apply Hev|by apply plans_value].
  - eapply (step_plans _ _ StepFence); [apply Fence_talks|].
    intros [[]|e]; apply Hone; try tauto; [apply Hev|by apply plans_value].
  - eapply (step_plans _ _ (StepReconfigure host)); [apply Reconfigure_talks|].
    intros res; apply Hone; try tauto. by apply plans_value.
Qed.

Lemma topologyLoop_plans C ha ep host all :
  (C -> ofDeployment ha) ->
  plans C (fun _ l => convergePlan ep host l) (topologyLoop r ha ep host all).
Proof.
  revert C. induction all as [|o all IH]; intros C Hd; simpl; [apply plans_ret; constructor|].
  case_bool_decide as Hn; [by apply IH|].
  eapply plans_bind_idle; [by apply siteClientAndRef_plans| |constructor].
  intros [[cli ref]|]; [|apply IH; tauto].
  eapply plans_bind; [apply (convergeSite_plans _ _ _ _ _ cli ref); [intros [_ Hs]; auto|done]| |done].
  intros res l. eapply plans_mono with (Q := fun _ l' => convergePlan ep host l');
    [|exact id|intros o' l' [_ Hl] Hl'; by apply converge_app].
  destruct res; [apply IH; tauto|apply plans_ret; constructor].
Qed.

Lemma replicationEndpointFor_site ha name host :
  ofDeployment ha -> replicationEndpointFor ha name = host -> host <> "" -> siteEndpoint name host.
Proof.
  intros [_ Hsp] <-. unfold replicationEndpointFor, siteEndpoint. rewrite Hsp.
  case_bool_decide as Hn; [by left|]. destruct (list_find _ _) as [[i rep]|] eqn:El; [|done].
  apply list_find_Some in El as (Hi & Hname & _). intros _. right.
  exists rep. by eapply list_elem_of_lookup_2 in Hi.
Qed.

(** Convergence toward [ep]: nothing without a primary that has an endpoint. *)
Definition converges (ep : string) (l : list stepRec) : Prop :=
  l = [] \/ exists host, ep <> "" /\ host <> "" /\ siteEndpoint ep host /\ convergePlan ep host l.

Lemma topology_plans C ha ep p rs :
  (C -> ofDeployment ha) ->
  plans C (fun _ l => converges ep l) (reconcileReplicaTopology r ha ep p rs).
Proof.
  intros Hd. unfold reconcileReplicaTopology.
  do 2 (case_bool_decide; [by apply plans_ret; left|]).
  eapply plans_mono; [by apply (topologyLoop_plans _ ha ep (replicationEndpointFor ha ep))|done|].
  intros o l HC Hl. right. exists (replicationEndpointFor ha ep).
  split_and!; [done|done|by eapply replicationEndpointFor_site; eauto|done].
Qed.

(** ** The pass *)

Lemma publishMetrics_clients ha cur sb p rs : keepsClients (publishMetrics ha cur sb p rs).
Proof.
  unfold publishMetrics. cbv zeta. generalize (primaryLSN cur (p :: rs)). intros lsn.
  generalize (p :: rs). intros all.
  apply keepsClients_bind; [|intros; unfold SetSplitBrain, setGauge, WithLabelValues; keeps_clients].
  induction all as [|o all IH]; simpl; [apply keepsClients_ret|]. apply keepsClients_bind; [|intros; apply IH].
  unfold publishSite, SetSite, SetReplicaLag, ClearReplicaLag, SetReplicaLagBytes,
    ClearReplicaLagBytes, SetSiteCurrentLSNBytes, ClearSiteCurrentLSNBytes, SetSiteLSNInfo,
    ClearSiteLSNInfo, setGauge, WithLabelValues. keeps_clients.
Qed.

(** What the handlers did, as far as the plan is concerned. *)
Lemma promoted_plan rs o l : promoted rs o l -> exists b, handlersPlan b l.
Proof.
  intros [_ [[-> _]|(old & target & [Ho _ _ [Hp|[Hp _]]])]]; eexists; [constructor|..];
    by eapply one_promotion.
Qed.

Lemma promoted_through rs ha pe l : promoted rs (Val (ha, pe, None)) l -> handlersPlan true l.
Proof.
  intros [_ [[-> _]|(old & target & [Ho _ _ [Hp|[_ Hn]]])]]; [constructor|by eapply one_promotion|].
  by destruct (Hn _ _ _ eq_refl) as (_ & e & ?).
Qed.

(** The end of a pass: convergence toward the primary of the status that was
    acknowledged, and none after an error. *)
Definition endPlan (err : option goerr) (t : list apicall) (l : list stepRec) : Prop :=
  l = [] \/ err = None /\ exists t1 hs ha' t2, t = t1 ++ CStatusUpdate (r_Client r) hs (Ok ha') :: t2 /\
    siteTrace [] t1 /\ siteTrace l t2 /\ converges (recordedPrimary hs) l.

Lemma writeStatus_plans C ha prior cur av sb p rs :
  plans C (idle (fun hs => recordedPrimary hs = if bool_decide (cur = "") then prior else cur))
    (writeStatus ha prior cur av sb p rs).
Proof.
  unfold writeStatus. eapply plans_bind_idle; [by eapply (plans_call _ (fun _ => True))| |by split].
  intros t. eapply plans_bind_idle; [by eapply (plans_call _ (fun _ => True))| |by split].
  intros t'. apply plans_value. intros _. unfold recordedPrimary. simpl. by case_bool_decide.
Qed.

Lemma statusUpdate_plansT C hs :
  plansT C (fun o t l => l = [] /\ exists res, o = Val res /\ t = [CStatusUpdate (r_Client r) hs res] /\
    forall ha, res = Ok ha -> ofDeployment ha) (statusUpdate (r_Client r) hs).
Proof.
  intros s. apply wpt_call; [done|]. intros res w' _ _ Hs Hf. split; [done|]. exists [].
  split; [by repeat constructor|]. split; [done|]. exists res. split_and!; [done..|].
  intros ha ->. by inversion Hf.
Qed.

Lemma publishAndConverge_plansT C ha1 prior err p rs :
  plansT C (fun _ => endPlan err) (publishAndConverge r ha1 prior err p rs).
Proof.
  unfold publishAndConverge. destruct (decideCurrentPrimary p rs) as [cur av].
  eapply plansT_bind_idle; [apply writeStatus_plans| |by left]. intros hs t0.
  eapply plansT_bind_idle;
    [apply plans_other; [apply publishMetrics_emits|apply publishMetrics_clients]| |by left]. intros u t1.
  eapply plansT_bind; [apply statusUpdate_plansT| |by intros t l _ _ [-> _]; left].
  intros [ha3|e] t2 l2; [|apply plansT_ret; intros (_ & _ & -> & _); by left].
  destruct err as [e|]; [apply plansT_ret; intros (_ & _ & -> & _); by left|].
  assert (Hend : forall t l,
    (((C /\ siteTrace [] t0 /\ recordedPrimary hs = if bool_decide (cur = "") then prior else cur) /\
      siteTrace [] t1 /\ True) /\ siteTrace l2 t2 /\ l2 = [] /\ exists res, Val (Ok ha3) = Val res /\
      t2 = [CStatusUpdate (r_Client r) hs res] /\ forall ha, res = Ok ha -> ofDeployment ha) ->
    siteTrace l t -> converges (if bool_decide (cur = "") then prior else cur) l ->
    endPlan None (t0 ++ t1 ++ t2 ++ t) (l2 ++ l)).
  { intros t l (((_ & Ht0 & Hq) & Ht1 & _) & _ & -> & res & [= <-] & -> & _) Ht Hc.
    right. split; [done|]. exists (t0 ++ t1), hs, ha3, t. rewrite Hq.
    split_and!; [by rewrite <- app_assoc|by apply (siteTrace_app []) |done|done]. }
  eapply plansT_bind; [apply topology_plans|..].
  - intros (_ & _ & _ & res & [= <-] & _ & Ho). by apply Ho.
  - intros rt t l. destruct rt as [[]|e]; apply plansT_ret; intros (HC & Ht & Hc);
      rewrite !app_nil_r; by apply Hend.
  - intros t l HC Ht Hc. by apply Hend.
Qed.

(** The end of the pass only converges, and does not after an error. *)
Lemma publishAndConverge_plans C ha1 prior err p rs :
  plans C (fun _ l => (err <> None -> l = []) /\ exists ep host, convergePlan ep host l)
    (publishAndConverge r ha1 prior err p rs).
Proof.
  eapply plansT_plans; [apply publishAndConverge_plansT|].
  assert (Hnil : exists ep host, convergePlan ep host []) by (exists "", ""; constructor).
  intros o t l _ _ [->|(-> & t1 & hs & ha' & t2 & _ & _ & _ & [->|(host & _ & _ & _ & ?)])]; [done..|].
  split; [done|]. by eexists _, host.
Qed.

(** The end of a pass whose handlers made the steps [l] during [t]. *)
Lemma passPlan_end rs ha1 pe err t l t' l' :
  promoted rs (Val (ha1, pe, err)) l -> siteTrace l t -> siteTrace l' t' -> endPlan err t' l' ->
  passPlan (t ++ t') (l ++ l').
Proof.
  intros Hp Ht Ht' He. assert (Hstop : l' = [] -> passPlan (t ++ t') (l ++ l')).
  { intros ->. destruct (promoted_plan _ _ _ Hp) as [b ?]. rewrite app_nil_r.
    eapply pass_stops; [|done]. rewrite <- (app_nil_r l). by apply siteTrace_app. }
  destruct He as [?|(-> & t1 & hs & ha' & t2 & -> & Ht1 & Ht2 & [?|(host & Hne & Hh & Hs & Hc)])]; [auto..|].
  rewrite app_assoc. eapply pass_converges; [| |done..].
  - rewrite <- (app_nil_r l). by apply siteTrace_app.
  - by eapply promoted_through.
Qed.

Lemma Reconcile_plans req :
  reconcilerOk r -> plansT True (fun _ => passPlan) (Reconcile r req).
Proof.
  intros Hr. pose proof passPlan_quiet as Hq. unfold Reconcile.
  eapply (plansT_bind_idle _ (fun rg => forall ha, rg = Ok ha -> current ha)); [| |auto].
  { apply plans_call; [done..|]. intros [ha|e] _ Hf; [by intros ? [= <-]|done]. }
  intros [ha|e] t1; [|apply plansT_ret; intros (_ & ? & _); rewrite app_nil_r; auto].
  eapply plansT_bind_idle; [by apply observePrimary_plans| |].
  2:{ intros t (_ & ? & _) ?. by apply Hq, (siteTrace_app []). }
  intros p t2.
  eapply plansT_bind_idle; [apply observeReplicas_aligned; [done|]; intros ((_ & _ & Ha) & _); by apply Ha| |].
  2:{ intros t ((_ & ? & _) & ? & _) ?. by apply Hq, (siteTrace_app []); [|apply (siteTrace_app [])]. }
  intros rs t3. eapply plansT_bind.
  { apply (handlePromotions_plans p rs);
      [intros (((_ & _ & Ha) & _) & _); auto|intros (_ & _ & ?); done]. }
  - intros [[ha1 pe] err] t4 l. simpl. destruct (applyPromotionEffect pe (p, rs)) as [p' rs'].
    eapply plansT_mono; [apply publishAndConverge_plansT|exact id|].
    intros o t5 cl ((((_ & H1 & _) & H2 & _) & H3 & _) & H4 & Hl) H5 He.
    rewrite !(app_assoc _ _ t5). rewrite <- !app_assoc, !(app_assoc _ _ (t4 ++ t5)).
    rewrite (app_assoc _ t4). eapply passPlan_end; [done| |done..].
    change l with (([] ++ [] ++ []) ++ l). rewrite <- !app_assoc. auto 6 using siteTrace_app.
  - intros t l (((_ & H1 & _) & H2 & _) & H3 & _) H4 Hl. simpl in *.
    destruct (promoted_plan _ _ _ Hl) as [b Hb]. eapply pass_stops; [|done].
    change l with ([] ++ [] ++ [] ++ l). auto 6 using siteTrace_app.
Qed.

(** C8. A reconcile refines the plan. Whatever the environment answers in
    agreement with the deployment, and whether the reconcile returns or
    panics, all its calls that change a Cluster or a Service belong to runs of
    the promotion steps on sites of the spec: first at most one promotion of a
    replica, in which each step is reached only after those before it went
    through and the first fences another site, the recorded primary if there
    is one. Then, only if no promotion failed and only after the API server
    acknowledged a status, fences and reconfigurations: of sites with other
    names than the one this status records as the primary, and always toward
    the replication endpoint the spec gives that primary. *)
Theorem Reconcile_refines_plan req s :
  reconcilerOk r -> cacheLeads s ->
  wpt (Reconcile r req) (fun _ _ t => Forall faithful t ->
    exists l, siteTrace l t /\ passPlan t l) s.
Proof.
  intros Hr Hs. eapply wpt_mono; [by apply Reconcile_plans|].
  intros o s' t Ht Hf. by destruct (Ht I Hs Hf) as [_ ?].
Qed.
End plan.
End passes.

(** ** A deployment of the in-memory environment

    There a kubeconfig is the name of a server; any site may be recorded as the
    primary. *)
Definition fakeDeployment (ns : string) (spec : HAClusterSpec) (kubeconfigs : list (string * string))
    : @deployment fakeExtern :=
  mkDeployment (H := fakeExtern) ns spec (fun _ => True) (fun key cfg => (key, cfg) ∈ kubeconfigs)
    (fun key c => (key, c) ∈ kubeconfigs).

(** Whether an answer agrees with it. *)
Definition faithfulb (ns : string) (spec : HAClusterSpec) (kubeconfigs : list (string * string))
    (a : @apicall fakeExtern) : bool :=
  match a with
  | CGetHA _ _ (Ok ha) | CPatchHA _ _ _ (Ok ha) | CStatusUpdate _ _ (Ok ha) =>
      bool_decide (ha_Namespace ha = ns) && bool_decide (ha_Spec ha = spec)
  | CGetSecret _ k (Ok sec) =>
      forallb (fun kv => bool_decide
        ((cacheKey (nn_namespace k) (mkSelector (nn_name k) kv.1), kv.2) ∈ kubeconfigs))
        (map_to_list (default ∅ (sec_Data sec)))
  | CNewClient cfg (Ok c) => bool_decide ((c : string) = cfg)
  | _ => true
  end.

Lemma faithfulb_sound ns spec kcs t :
  forallb (faithfulb ns spec kcs) t = true -> Forall (faithful (fakeDeployment ns spec kcs)) t.
Proof.
  intros Ht. apply Forall_forall. intros a Ha. rewrite forallb_forall in Ht.
  apply list_elem_of_In, Ht in Ha. destruct a as [| | | | |c k [sec|]| | | |cfg [c|]| | |];
    simpl in *; try done; repeat case_match; try done; simplify_eq.
  all: try (apply andb_true_iff in Ha as [?%bool_decide_eq_true_1 ?%bool_decide_eq_true_1]; by repeat split).
  - intros key kc cfg Hb Hc. case_bool_decide; [done|]. injection Hc as <-.
    unfold secretBytes in Hb. destruct (sec_Data sec) as [m|]; [|done]. simpl in *.
    destruct (m !! key) as [b|] eqn:Em; [|done]. case_bool_decide; [done|]. injection Hb as ->.
    rewrite forallb_forall in Ha. specialize (Ha (key, kc)). apply bool_decide_eq_true_1 in Ha; [done|].
    apply list_elem_of_In. by apply elem_of_map_to_list.
  - apply bool_decide_eq_true_1 in Ha as <-. auto.
Qed.

Lemma fakeCacheLeads ns spec kcs (s : @opstate fakeExtern) :
  forallb (fun ke => bool_decide ((ke.1, (cc_cli ke.2 : string)) ∈ kcs)) (map_to_list (op_clients s)) = true ->
  cacheLeads (fakeDeployment ns spec kcs) s.
Proof.
  intros Hs key e Hkey. rewrite forallb_forall in Hs. specialize (Hs (key, e)).
  apply bool_decide_eq_true_1 in Hs; [done|]. apply list_elem_of_In. by apply elem_of_map_to_list.
Qed.

Lemma Reconcile_refines_plan_witness :
  let s := fakeState twoSitesHA in
  let t := op_calls (Reconcile sampleReconciler (NN "ops" "ha") s).2 in
  existsb siteWrite t = true /\
  exists l, siteTrace l t /\
    passPlan (fakeDeployment "ops" (ha_Spec (sampleHA "Manual" "")) [("ops/b#value", "remote")])
      sampleReconciler t l.
Proof.
  cbv zeta. split; [reflexivity|].
  destruct (Reconcile_refines_plan
    (fakeDeployment "ops" (ha_Spec (sampleHA "Manual" "")) [("ops/b#value", "remote")])
    sampleReconciler (NN "ops" "ha") (fakeState twoSitesHA) I) as (t & Ht & _ & Hl).
  { by apply fakeCacheLeads. }
  rewrite Ht. apply Hl. change (op_calls (fakeState twoSitesHA) ++ t) with t in Ht. rewrite <- Ht.
  apply faithfulb_sound. reflexivity.
Defined.
