(* ===== verification/History.v ===== *)
(** * Histories of reconciles, with crashes

    The process may die at any point of a reconcile, between two calls or
    while a write is on its way, and lose its memory; it then starts again.
    The theorems hold over every history of complete and interrupted
    reconciles of a deployment: what was fenced stays fenced, a site that
    became a primary did so with another site out of the way, and two sites
    never both accept writes. Concrete histories show what is not guaranteed
    with three. *)

From S2P Require Import Prelude GoStd Api External FakeKube Operator Fixtures.
From S2P Require Import Metrics Health Promotion RemoteClient Decision Observe Status Failover.
From S2P Require Import Automatic Reconcile Publish Passes Total.

Section history.
Context `{Extern}.

(** ** Crashes

    When the process dies, what was done is a prefix of the calls: the answer
    of the last one may have been lost with the process. *)

(** A step cut short made a read at most. *)
Lemma step_run_prefix st c ref ts r t t' :
  step_run st c ref ts r -> t' `prefix_of` ts ++ t ->
  siteTrace [] t' \/ exists t1, t' = ts ++ t1 /\ t1 `prefix_of` t.
Proof.
  intros Hr Hp. assert (Hshape : ts = [] \/ exists a, siteWrite a = false /\ (ts = [a] \/ exists b, ts = [a; b])).
  { destruct st; simpl in Hr; inversion Hr; subst; (by left) || (right; eexists; split; [|eauto]; done). }
  destruct Hshape as [->|(a & Ha & [->|[b ->]])]; [right; by exists t'| |];
    (destruct t' as [|x t']; [left; constructor|]);
    apply prefix_cons_inv_1 in Hp as Hx; apply prefix_cons_inv_2 in Hp; subst x.
  - right. by exists t'.
  - destruct t' as [|y t']; [left; by repeat constructor|].
    apply prefix_cons_inv_1 in Hp as Hx; apply prefix_cons_inv_2 in Hp; subst y.
    right. by exists t'.
Qed.

Lemma siteTrace_prefix l t t' :
  siteTrace l t -> t' `prefix_of` t -> exists l', l' `prefix_of` l /\ siteTrace l' t'.
Proof.
  intros Ht. revert t'. induction Ht as [|a l t Ha Ht IH|st c ref r ts l t Hr Ht IH]; intros t' Hp.
  - apply prefix_nil_inv in Hp as ->. exists []. split; [done|constructor].
  - destruct t' as [|x t']; [exists []; split; [apply prefix_nil|constructor]|].
    apply prefix_cons_inv_1 in Hp as Hx; apply prefix_cons_inv_2 in Hp; subst x.
    destruct (IH _ Hp) as (l' & ? & ?). exists l'. split; [done|by constructor].
  - destruct (step_run_prefix _ _ _ _ _ _ _ Hr Hp) as [H0|(t1 & -> & Hp1)].
    + exists []. split; [apply prefix_nil|done].
    + destruct (IH _ Hp1) as (l' & ? & ?). exists (mkStep st c ref r :: l').
      split; [by apply prefix_cons|by constructor].
Qed.

(** ** The stored Clusters *)

Section store.
Context `{!UnstructuredLaws} `{!ErrorLaws} `{!Store} `{!StoreLaws} `{!OtherCallsLaws}.

#[export] Instance writeDisabled_dec w s k : Decision (writeDisabled w s k).
Proof. unfold writeDisabled. destruct (clusterAt w s k); apply _. Defined.

Lemma answers_clusters a w w' :
  siteWrite a = false -> answers a w w' -> forall s k, clusterAt w' s k = clusterAt w s k.
Proof.
  destruct a; simpl; try done; intros _ E s k'.
  - pose proof (timeNow_store w) as L. rewrite E in L. apply L.
  - apply getCluster_law in E as [L _]. apply L.
  - apply getService_law in E as [L _]. apply L.
  - apply getSecret_law in E as [L _]. apply L.
  - pose proof (getHA_clusters c k w s k') as L. by rewrite E in L.
  - pose proof (patchHA_clusters c ha body w s k') as L. by rewrite E in L.
  - pose proof (statusUpdate_clusters c ha w s k') as L. by rewrite E in L.
  - pose proof (clientNew_store cfg w) as L. rewrite E in L. apply L.
  - pose proof (pgConnect_clusters dsn w s k') as L. by rewrite E in L.
  - pose proof (pgQuery_clusters c q w s k') as L. by rewrite E in L.
  - subst w'. apply pgClose_clusters.
Qed.

(** What a step did to the Clusters: nothing, or its change. *)
Lemma step_run_change st c ref ts r w w' :
  exec w ts w' -> step_run st c ref ts r -> sameStore w w' \/ step_change st c ref w w'.
Proof.
  intros Hx Hr. pose proof (step_run_effect _ _ _ _ _ _ _ Hx Hr) as He.
  destruct r; [by right|]. by destruct He; [left|right].
Qed.

(** The Cluster of a site that a step touched, or any other. *)
Lemma step_change_cluster st c ref w w' s k :
  step_change st c ref w w' ->
  clusterAt w' s k = clusterAt w s k \/
  ((s, k) = (serverOf c, refKey ref) /\ exists u u', clusterAt w s k = Some u /\
     clusterAt w' s k = Some u' /\
     (forall host, st = StepReconfigure host -> reconfigure_change host u u') /\
     (st = StepFence -> fence_change u u') /\ (forall role, st <> StepFlip role)).
Proof.
  intros Hch. destruct st as [| |host|role]; simpl in Hch.
  4:{ left. apply Hch. }
  all: destruct (decide ((s, k) = (serverOf c, refKey ref))) as [[= -> ->]|Hne];
    [|left; by apply Hch]; destruct Hch as ((u & u' & Hu & Hu' & HR) & _); right;
    (split; [done|]); exists u, u'; split_and!; try done; by intros ? [= <-].
Qed.

Lemma step_keeps_disabled st c ref ts r w w' s k :
  exec w ts w' -> step_run st c ref ts r -> writeDisabled w s k -> writeDisabled w' s k.
Proof.
  intros Hx Hr Hd. unfold writeDisabled in *.
  destruct (step_run_change _ _ _ _ _ _ _ Hx Hr) as [Hs|Hch]; [by rewrite (same_cluster _ _ Hs)|].
  destruct (clusterAt w s k) as [u|] eqn:E.
  - destruct (step_keeps_fence _ _ _ _ _ _ _ _ Hch E Hd) as (u' & -> & Hf). done.
  - destruct (step_change_cluster _ _ _ _ _ s k Hch) as [->|(_ & u & u' & ? & _)]; [by rewrite E|congruence].
Qed.

(** A Cluster that is not a replica. *)
Definition primaryAt (w : World) (s : Server) (k : NamespacedName) : Prop :=
  exists u, clusterAt w s k = Some u /\ ~ clusterIsReplica u.

#[export] Instance primaryAt_dec w s k : Decision (primaryAt w s k).
Proof.
  unfold primaryAt. destruct (clusterAt w s k) as [u|]; [destruct (decide (clusterIsReplica u))|].
  - right. by intros (u' & [= <-] & Hn).
  - left. by exists u.
  - right. by intros (u' & ? & _).
Defined.

(** Only a promotion makes a primary. *)
Lemma step_new_primary st c ref ts r w w' s k :
  exec w ts w' -> step_run st c ref ts r -> primaryAt w' s k ->
  primaryAt w s k \/ (st = StepPromote /\ (s, k) = (serverOf c, refKey ref)).
Proof.
  intros Hx Hr (u' & E' & Hnot).
  destruct (step_run_change _ _ _ _ _ _ _ Hx Hr) as [Hs|Hch].
  { left. exists u'. by rewrite <- (same_cluster _ _ Hs). }
  destruct (step_change_cluster _ _ _ _ _ s k Hch) as [E|(Hk & u & u1 & Eu & E1 & HR & HF & Hn)];
    [left; exists u'; by rewrite <- E|].
  assert (u1 = u') as -> by congruence.
  destruct st as [| |host|role]; [left|by right| |by destruct (Hn role)].
  - exists u. split; [done|]. destruct (HF eq_refl) as (_ & _ & Hspec).
    unfold clusterIsReplica, replicaEnabledPath in *. by rewrite <- Hspec.
  - destruct Hnot. destruct (HR host eq_refl) as ((Hst & _) & _). done.
Qed.

(** What the steps [l] of a trace did between [w] and [w']. *)
Record traceEffect (l : list stepRec) (w w' : World) : Prop := {
  te_disabled s k : writeDisabled w s k -> writeDisabled w' s k;
  te_fenced oc oref rf :
    mkStep StepFence oc oref rf ∈ l -> aborting rf = None ->
    writeDisabled w' (serverOf oc) (refKey oref);
  te_primary s k :
    primaryAt w' s k -> primaryAt w s k \/
    exists l1 nc nref rp l2, l = l1 ++ mkStep StepPromote nc nref rp :: l2 /\
      (s, k) = (serverOf nc, refKey nref)
}.

Lemma siteTrace_effect l t w w' : siteTrace l t -> exec w t w' -> traceEffect l w w'.
Proof.
  intros Ht. revert w. induction Ht as [|a l t Ha Ht IH|st c ref r ts l t Hr Ht IH]; intros w Hx.
  - inversion Hx; subst. split; [done|by intros ? ? ? ?%elem_of_nil|by left].
  - inversion Hx as [|? ? w1 ? ? Hans Hx1]; subst.
    pose proof (answers_clusters _ _ _ Ha Hans) as Hc. destruct (IH _ Hx1) as [D F P].
    split; [|done|].
    + intros s k Hd. apply D. unfold writeDisabled in *. by rewrite Hc.
    + intros s k Hp. destruct (P s k Hp) as [(u & Hu & Hn)|?]; [left|by right].
      exists u. by rewrite <- Hc.
  - apply exec_app_inv in Hx as (w1 & Hx1 & Hx2). destruct (IH _ Hx2) as [D F P]. split.
    + intros s k Hd. apply D. by eapply step_keeps_disabled.
    + intros oc oref rf [E|Hin]%elem_of_cons Ha; [|by eapply F]. injection E as <- <- <- <-.
      apply D. by eapply fence_passed.
    + intros s k Hp. destruct (P s k Hp) as [Hp1|(l1 & nc & nref & rp & l2 & -> & Hk)].
      2:{ right. exists (mkStep st c ref r :: l1), nc, nref, rp, l2. done. }
      destruct (step_new_primary _ _ _ _ _ _ _ _ _ Hx1 Hr Hp1) as [?|[-> Hk]]; [by left|right].
      by exists [], c, ref, r, l.
Qed.

(** ** Histories *)

(** Between reconciles others may act, as long as nobody removes a fence or
    makes a primary. *)
Record calm (w w' : World) : Prop := {
  calm_disabled s k : writeDisabled w s k -> writeDisabled w' s k;
  calm_primary s k : primaryAt w' s k -> primaryAt w s k
}.

(** *** Promotions come after the fence *)

Section deployment.
Context (d : deployment) (r : HAClusterReconciler).

(** Every promotion in [l] is that of a replica of the spec, and before it
    there is a fence that went through, of a site under another name. *)
Definition fencedFirst (l : list stepRec) : Prop :=
  forall l1 nc nref rp l2, l = l1 ++ mkStep StepPromote nc nref rp :: l2 ->
  exists old target oc oref rf,
    mkStep StepFence oc oref rf ∈ l1 /\ aborting rf = None /\ siteAt d r old oc oref /\
    replicaAt d target nc nref /\ rs_Name target <> old.

Lemma fencedFirst_app l l' : fencedFirst l -> fencedFirst l' -> fencedFirst (l ++ l').
Proof.
  intros Hl Hl' l1 nc nref rp l2 E.
  apply app_eq_inv in E as [(k & -> & E)|(k & -> & E)].
  - destruct k as [|x k]; simplify_eq/=.
    + destruct (Hl' [] nc nref rp l2 eq_refl) as (old & target & oc & oref & rf & Hin & _).
      by apply elem_of_nil in Hin.
    + by eapply Hl.
  - destruct (Hl' k nc nref rp l2 E) as (old & target & oc & oref & rf & Hin & ?).
    exists old, target, oc, oref, rf. split; [|done]. apply elem_of_app. by right.
Qed.

Lemma promotionPlan_fencedFirst old target b l : promotionPlan d r old target b l -> fencedFirst l.
Proof.
  intros Hp l1 nc nref rp l2 E.
  destruct Hp; destruct l1 as [|x1 [|x2 [|x3 [|x4 l1]]]]; simplify_eq/=;
    try (by destruct l1); eexists _, _, _, _, _; (split; [apply elem_of_cons; by left|]);
    (split_and!; [eassumption|eassumption|eassumption|assumption]).
Qed.

Lemma convergePlan_fencedFirst ep host l : convergePlan d r ep host l -> fencedFirst l.
Proof.
  induction 1 as [|? ? ? ? ? _ _ _ IH|? ? ? ? ? _ _ _ IH]; intros l1 nc nref rp l2 E;
    (destruct l1 as [|x l1]; simplify_eq/=);
    destruct (IH _ _ _ _ _ eq_refl) as (old & target & oc & oref & rf & Hin & ?);
    exists old, target, oc, oref, rf; (split; [apply elem_of_cons; by right|done]).
Qed.

Lemma handlersPlan_fencedFirst b l : handlersPlan d r b l -> fencedFirst l.
Proof.
  destruct 1 as [|old target b pl _ Hp]; [|by eapply promotionPlan_fencedFirst].
  intros l1 nc nref rp l2 E. by destruct l1.
Qed.

Lemma passPlan_fencedFirst t l : passPlan d r t l -> fencedFirst l.
Proof.
  destruct 1 as [b pl t _ Hp|pl t1 hs ha' host cl t2 _ Hp _ _ _ _ Hc].
  - by eapply handlersPlan_fencedFirst.
  - apply fencedFirst_app; [by eapply handlersPlan_fencedFirst|by eapply convergePlan_fencedFirst].
Qed.

Lemma fencedFirst_prefix l l' : fencedFirst l -> l' `prefix_of` l -> fencedFirst l'.
Proof.
  intros Hf [k ->] l1 nc nref rp l2 E. apply (Hf l1 nc nref rp (l2 ++ k)).
  by rewrite E, <- app_assoc.
Qed.

(** *** The events *)

(** One event: the environment acts, or a reconcile runs, from any memory of
    the process whose cached clients lead to their sites and with answers that
    agree with the deployment, for as long as the process lives. *)
Inductive historyStep (req : NamespacedName) : World -> World -> Prop :=
  | history_env w w' : calm w w' -> historyStep req w w'
  | history_pass s t t' w' :
      cacheLeads d s -> op_calls (Reconcile r req s).2 = op_calls s ++ t ->
      Forall (faithful d) t -> t' `prefix_of` t ->
      exec (op_world s) t' w' -> historyStep req (op_world s) w'.

(** A reconcile that is not interrupted. *)
Lemma history_whole_pass req s :
  reconcilerOk r -> cacheLeads d s ->
  Forall (faithful d) (drop (length (op_calls s)) (op_calls (Reconcile r req s).2)) ->
  historyStep req (op_world s) (op_world (Reconcile r req s).2).
Proof.
  intros Hr Hs Hf. destruct (Reconcile_plans d r req Hr s) as (t & Ht & Hx & _).
  rewrite Ht, drop_app_length in Hf. by eapply history_pass.
Qed.

(** ** Where the sites are

    The server a client leads to is determined by its cache key. *)
Context (srv : string -> Server).
Context (Hsrv : forall key c, dp_client d key c -> serverOf c = srv key).

Definition primaryAddr : Server * NamespacedName :=
  (serverOf (r_Client r), refKey (refOf (ps_ClusterRef (spec_Primary (dp_spec d))))).

Definition replicaAddr (rep : ReplicaSite) : Server * NamespacedName :=
  (srv (cacheKey (dp_namespace d) (rs_KubeconfigSecretRef rep)), refKey (refOf (rs_ClusterRef rep))).

(** [a] is where the Cluster of the site [name] of the spec is. *)
Definition siteAddr (name : string) (a : Server * NamespacedName) : Prop :=
  (name = ps_Name (spec_Primary (dp_spec d)) /\ a = primaryAddr) \/
  exists rep, rep ∈ spec_Replicas (dp_spec d) /\ rs_Name rep = name /\ a = replicaAddr rep.

Lemma replicaAt_addr rep c ref :
  replicaAt d rep c ref ->
  rep ∈ spec_Replicas (dp_spec d) /\ (serverOf c, refKey ref) = replicaAddr rep.
Proof. intros (Hin & Hc & ->). split; [done|]. unfold replicaAddr. by rewrite (Hsrv _ _ Hc). Qed.

Lemma siteAt_addr name c ref : siteAt d r name c ref -> siteAddr name (serverOf c, refKey ref).
Proof.
  intros [(-> & -> & ->)|(rep & Hn & Hr)]; [by left|right].
  apply replicaAt_addr in Hr as [? ?]. by exists rep.
Qed.

(** A replica of the spec is at [s], [k], and a site of the spec under another
    name accepts no writes. *)
Definition promotedSafely (w : World) (s : Server) (k : NamespacedName) : Prop :=
  exists target old s' k', target ∈ spec_Replicas (dp_spec d) /\ (s, k) = replicaAddr target /\
    rs_Name target <> old /\ siteAddr old (s', k') /\ writeDisabled w s' k'.

Lemma historyStep_safe req w w' :
  reconcilerOk r -> historyStep req w w' ->
  (forall s k, writeDisabled w s k -> writeDisabled w' s k) /\
  (forall s k, primaryAt w' s k -> primaryAt w s k \/ promotedSafely w' s k).
Proof.
  intros Hr [w1 w1' [Hd Hp]|s t t' w1' Hs Ht Hf Hpre Hx]; [split; [done|]; by left; auto|].
  destruct (Reconcile_plans d r req Hr s) as (t0 & Ht0 & _ & Hpl).
  rewrite Ht in Ht0. apply app_inv_head in Ht0 as <-.
  destruct (Hpl I Hs Hf) as (_ & l & Hl & Hplan).
  destruct (siteTrace_prefix _ _ _ Hl Hpre) as (l' & Hpl' & Hl').
  destruct (siteTrace_effect _ _ _ _ Hl' Hx) as [D F P]. split; [done|].
  intros s0 k Hp. destruct (P s0 k Hp) as [?|(l1 & nc & nref & rp & l2 & E & Hk)]; [by left|right].
  pose proof (fencedFirst_prefix _ _ (passPlan_fencedFirst _ _ Hplan) Hpl') as Hff.
  destruct (Hff _ _ _ _ _ E) as (old & target & oc & oref & rf & Hin & Ha & Hsite & Htg & Hne).
  apply replicaAt_addr in Htg as [Htg Haddr].
  exists target, old, (serverOf oc), (refKey oref).
  split_and!; [done|congruence|done|by apply siteAt_addr|].
  eapply F; [|done]. rewrite E. apply elem_of_app. by left.
Qed.

Lemma history_safe req w0 w :
  reconcilerOk r -> rtc (historyStep req) w0 w ->
  (forall s k, writeDisabled w0 s k -> writeDisabled w s k) /\
  (forall s k, primaryAt w s k -> primaryAt w0 s k \/ promotedSafely w s k).
Proof.
  intros Hr Hh. induction Hh as [w|w0 w1 w2 Hs Hh [IHd IHp]]; [split; auto|].
  destruct (historyStep_safe _ _ _ Hr Hs) as [D P]. split; [auto|].
  intros s k Hp. destruct (IHp s k Hp) as [Hp1|?]; [|by right].
  destruct (P s k Hp1) as [?|(target & old & s' & k' & ? & ? & ? & ? & ?)]; [by left|right].
  exists target, old, s', k'. split_and!; auto.
Qed.

(** C7. Crashes are safe. Over every history of reconciles of a deployment,
    complete or cut short after any call by the death of the process, each
    from whatever memory the process has, and with calm activity of others in
    between: a site that accepts no writes (its Cluster is fenced or gone)
    never accepts them again, and every Cluster that is a primary at the end
    was one at the start, or is that of a replica of the spec while another
    site of the spec accepts no writes. *)
Theorem crash_history_safe req w0 w :
  reconcilerOk r -> rtc (historyStep req) w0 w ->
  (forall s k, writeDisabled w0 s k -> writeDisabled w s k) /\
  (forall s k, primaryAt w s k -> primaryAt w0 s k \/ promotedSafely w s k).
Proof. apply history_safe. Qed.

(** The Cluster at [a] serves writes. *)
Definition acceptsWrites (w : World) (a : Server * NamespacedName) : Prop :=
  primaryAt w a.1 a.2 /\ ~ writeDisabled w a.1 a.2.

#[export] Instance acceptsWrites_dec w a : Decision (acceptsWrites w a).
Proof. unfold acceptsWrites. apply _. Defined.

(** C4. Two sites never both accept writes. In a deployment with one replica, if
    at most one of the two Clusters accepts writes at the start, then this
    stays so over every history of reconciles, complete or cut short after any
    call, with calm activity of others in between. *)
Theorem two_sites_single_writer req rep w0 w :
  reconcilerOk r -> spec_Replicas (dp_spec d) = [rep] ->
  ~ (acceptsWrites w0 primaryAddr /\ acceptsWrites w0 (replicaAddr rep)) ->
  rtc (historyStep req) w0 w ->
  ~ (acceptsWrites w primaryAddr /\ acceptsWrites w (replicaAddr rep)).
Proof.
  intros Hr Hone Hstart Hh [[Pp Np] [Pr Nr]]. destruct (history_safe _ _ _ Hr Hh) as [D P].
  assert (Hsafe : forall s k, ~ promotedSafely w s k).
  { intros s k (target & old & s' & k' & Ht & _ & Hne & Hold & Hd). rewrite Hone in Ht.
    apply list_elem_of_singleton in Ht as ->.
    destruct Hold as [(-> & E)|(rep' & Hin & Hn & _)].
    - apply Np. by rewrite <- E.
    - rewrite Hone in Hin. by apply list_elem_of_singleton in Hin as ->. }
  apply Hstart. split; split; try (intros ?; eauto).
  - destruct (P _ _ Pp) as [?|[]%Hsafe]. done.
  - destruct (P _ _ Pr) as [?|[]%Hsafe]. done.
Qed.
End deployment.
End store.
End history.

(** Their decision procedures are found by name, without unfolding. *)
#[global] Typeclasses Opaque writeDisabled primaryAt acceptsWrites.

(** ** A second promotion

    Three sites in Automatic mode: "a", the recorded primary, is down to no
    ready instance; "b" and "c" are healthy replicas; "b" has no read-write
    Service. The spec gives no replication endpoint for "a", so the topology
    is not reconciled while "a" is taken for the primary. *)
Definition brokenServiceHA : HACluster :=
  mkHACluster "ha" "ops" 1 "1" None
    (mkSpec (mkPrimarySite "a" (mkClusterRef "pg" "db") "" None)
       [sampleReplicaSite "b"; sampleReplicaSite "c"] (mkFailoverSpec "Automatic" 10 3 "Ordered" ""))
    (mkStatus "a" None 0 [] []).

Definition downPrimary : json :=
  obj [("metadata", sampleMeta "db" "pg"); ("status", sampleStatus 0)].

Definition brokenServiceWorld : fakeWorld :=
  mkFake
    (list_to_map
       [(("local", NN "db" "pg"), downPrimary);
        (("siteb", NN "db" "pg"), sampleReplica "db" "pg" "peer" "a-host");
        (("sitec", NN "db" "pg"), sampleReplica "db" "pg" "peer" "a-host")])
    (list_to_map
       [(("local", NN "db" "pg-rw"), sampleService "db" "pg-rw");
        (("sitec", NN "db" "pg-rw"), sampleService "db" "pg-rw")])
    (list_to_map
       [(("local", NN "ops" "b"), mkSecret "1" (Some {["value" := "siteb"]}));
        (("local", NN "ops" "c"), mkSecret "1" (Some {["value" := "sitec"]}))])
    {[("local", NN "ops" "ha") := brokenServiceHA]} 1000 [] None ∅.

(** The state after [n] reconciles. *)
Fixpoint afterPasses (n : nat) (s : @opstate fakeExtern) : @opstate fakeExtern :=
  match n with
  | O => s
  | S n' => (Reconcile sampleReconciler (NN "ops" "ha") (afterPasses n' s)).2
  end.

Definition writers (w : fakeWorld) : bool * bool * bool :=
  (writerAt w "local", writerAt w "siteb", writerAt w "sitec").

(** A failover that fails at its last step leads to two writers. The third
    pass fences "a", promotes "b" and then fails on its Service, which leaves
    "a" recorded as primary; the fourth finds "b" no longer eligible and
    promotes "c": from then on "b" and "c" both accept writes, and the status
    still names "a". *)
Theorem failed_flip_promotes_second_site :
  let at_ n := op_world (afterPasses n (fakeState brokenServiceWorld)) in
  writers (at_ 2%nat) = (true, false, false) /\
  writers (at_ 3%nat) = (false, true, false) /\
  writers (at_ 4%nat) = (false, true, true) /\
  st_CurrentPrimarySite (ha_Status (default brokenServiceHA (fw_ha (at_ 4%nat) !! ("local", NN "ops" "ha"))))
  = "a".
Proof. cbv zeta. split_and!; reflexivity. Qed.

Definition brokenSpec : HAClusterSpec := ha_Spec brokenServiceHA.

(** Its kubeconfigs by cache key, and the servers they name. *)
Definition brokenKubeconfigs : list (string * string) :=
  [("ops/b#value", "siteb"); ("ops/c#value", "sitec")].

Definition serverOfKey (key : string) : @Server fakeExtern fakeStore :=
  default "" (snd <$> (list_find (fun kv => kv.1 = key) brokenKubeconfigs ≫= fun x => Some x.2)).

Definition brokenDeployment : @deployment fakeExtern :=
  fakeDeployment "ops" brokenSpec brokenKubeconfigs.

Lemma broken_servers key c : dp_client brokenDeployment key c -> serverOf c = serverOfKey key.
Proof.
  unfold brokenDeployment, brokenKubeconfigs. simpl. rewrite !elem_of_cons, elem_of_nil.
  by intros [[= -> ->]|[[= -> ->]|[]]].
Qed.

Definition secondPass : @opstate fakeExtern := afterPasses 2 (fakeState brokenServiceWorld).
Definition thirdPass : @opstate fakeExtern :=
  (Reconcile sampleReconciler (NN "ops" "ha") secondPass).2.

Lemma thirdPass_history :
  rtc (historyStep brokenDeployment sampleReconciler (NN "ops" "ha"))
    (op_world secondPass) (op_world thirdPass).
Proof.
  apply rtc_once. unfold thirdPass. apply history_whole_pass; [exact I| |].
  - apply fakeCacheLeads. reflexivity.
  - apply faithfulb_sound. reflexivity.
Qed.

(** The server of "b". *)
Definition serverB : @Server fakeExtern fakeStore := "siteb".

Lemma crash_history_safe_witness :
  bool_decide (writeDisabled (op_world thirdPass) (serverOf (site "local")) (NN "db" "pg")) = true /\
  (forall s k, writeDisabled (op_world secondPass) s k -> writeDisabled (op_world thirdPass) s k) /\
  (primaryAt (op_world secondPass) serverB (NN "db" "pg") \/
   promotedSafely brokenDeployment sampleReconciler serverOfKey (op_world thirdPass) serverB
     (NN "db" "pg")).
Proof.
  destruct (crash_history_safe brokenDeployment sampleReconciler serverOfKey broken_servers
    (NN "ops" "ha") (op_world secondPass) (op_world thirdPass) I thirdPass_history) as [Hd Hp].
  split; [reflexivity|]. split; [exact Hd|]. apply Hp.
  apply (bool_decide_eq_true_1 (primaryAt (op_world thirdPass) serverB (NN "db" "pg"))).
  reflexivity.
Defined.

(** The same sites without "c". *)
Definition pairHA : HACluster :=
  mkHACluster "ha" "ops" 1 "1" None
    (mkSpec (mkPrimarySite "a" (mkClusterRef "pg" "db") "" None) [sampleReplicaSite "b"]
       (mkFailoverSpec "Automatic" 10 3 "Ordered" ""))
    (mkStatus "a" None 0 [] []).

Definition pairPass (n : nat) : @opstate fakeExtern :=
  afterPasses n (fakeState (setHA {[("local", NN "ops" "ha") := pairHA]} None brokenServiceWorld)).

Definition pairDeployment : @deployment fakeExtern :=
  fakeDeployment "ops" (ha_Spec pairHA) [("ops/b#value", "siteb")].

Lemma pair_servers key c : dp_client pairDeployment key c -> serverOf c = serverOfKey key.
Proof. simpl. rewrite elem_of_cons, elem_of_nil. by intros [[= -> ->]|[]]. Qed.

(** Three passes, the last of which promotes "b" and fails. *)
Lemma pair_history :
  rtc (historyStep pairDeployment sampleReconciler (NN "ops" "ha"))
    (op_world (pairPass 0)) (op_world (pairPass 3)).
Proof.
  assert (Hstep : forall n,
    forallb (fun ke => bool_decide ((ke.1, (cc_cli ke.2 : string)) ∈ [("ops/b#value", "siteb")]))
      (map_to_list (op_clients (pairPass n))) = true ->
    forallb (faithfulb "ops" (ha_Spec pairHA) [("ops/b#value", "siteb")])
      (drop (length (op_calls (pairPass n))) (op_calls (pairPass (S n)))) = true ->
    historyStep pairDeployment sampleReconciler (NN "ops" "ha")
      (op_world (pairPass n)) (op_world (pairPass (S n)))).
  { intros n Hc Hf. apply (history_whole_pass _ _ _ (pairPass n)); [exact I| |].
    - by apply fakeCacheLeads.
    - by apply faithfulb_sound. }
  do 3 (eapply rtc_l; [apply Hstep; reflexivity|]). apply rtc_refl.
Qed.

Lemma two_sites_single_writer_witness :
  (writerAt (op_world (pairPass 3)) "local", writerAt (op_world (pairPass 3)) "siteb") = (false, true) /\
  ~ (acceptsWrites (op_world (pairPass 3)) (primaryAddr pairDeployment sampleReconciler) /\
     acceptsWrites (op_world (pairPass 3))
       (replicaAddr pairDeployment serverOfKey (sampleReplicaSite "b"))).
Proof.
  split; [reflexivity|].
  apply (two_sites_single_writer pairDeployment sampleReconciler serverOfKey pair_servers
    (NN "ops" "ha") (sampleReplicaSite "b") (op_world (pairPass 0)) (op_world (pairPass 3)) I eq_refl).
  - intros [_ Hb]. apply (bool_decide_eq_true_2 _) in Hb. discriminate Hb.
  - exact pair_history.
Defined.

(** ** A retry that is refused

    The same sites in Manual mode, with an annotation that asks for "b". *)
Definition manualHA : HACluster :=
  mkHACluster "ha" "ops" 1 "1" (Some {["ha.cnpg.io/promote" := "b"]})
    (mkSpec (mkPrimarySite "a" (mkClusterRef "pg" "db") "" None)
       [sampleReplicaSite "b"; sampleReplicaSite "c"] (mkFailoverSpec "Manual" 10 3 "Ordered" ""))
    (mkStatus "a" None 0 [] []).

Definition manualState : @opstate fakeExtern :=
  fakeState (setHA {[("local", NN "ops" "ha") := manualHA]} None brokenServiceWorld).

(** The Service of "b" appears. *)
Definition repairService (s : @opstate fakeExtern) : @opstate fakeExtern :=
  setWorld (setServices (<[("siteb", NN "db" "pg-rw") := sampleService "db" "pg-rw"]>
    (fw_services (op_world s))) (op_world s)) s.

(** A manual promotion that fails at its last step is not retried. The first
    pass fences "a" and promotes "b", then fails on its Service and leaves the
    annotation in place; once the Service is there, the second pass rejects
    the annotation, because "b" is not a replica any more, removes it, and
    leaves the Service without the annotations that route the writes to it. *)
Theorem failed_manual_promotion_not_retried :
  let s1 := (Reconcile sampleReconciler (NN "ops" "ha") manualState).2 in
  let s2 := (Reconcile sampleReconciler (NN "ops" "ha") (repairService s1)).2 in
  let stored s := fw_ha (op_world s) !! ("local", NN "ops" "ha") in
  writers (op_world s1) = (false, true, false) /\
  (stored s1 ≫= hasPromote) = Some "b" /\
  (stored s2 ≫= hasPromote) = None /\
  (ev_reason <$> op_events s2) =
    [eventReasonFailoverStarted; eventReasonFailoverFailed; eventReasonPromoteRejected;
     eventReasonRejoinFenced] /\
  serviceAt (op_world s2) "siteb" (NN "db" "pg-rw") = Some (sampleService "db" "pg-rw").
Proof. cbv zeta. split_and!; reflexivity. Qed.
