(* ===== verification/SingleWriter.v ===== *)
(** * One writer, for any number of sites

    A reconcile starts from the primary the status records. As long as only
    that site accepts writes, a promotion takes the writes from it, and the
    status that is sent afterwards names the site that has them: the invariant
    that only the recorded primary accepts writes goes from pass to pass. What
    breaks it is a promotion whose status is never sent, because the process
    died or the last step failed: [History.failed_flip_promotes_second_site]. *)

From S2P Require Import Prelude GoStd Api External FakeKube Operator Fixtures.
From S2P Require Import Metrics Health Promotion RemoteClient Decision Observe Status Failover.
From S2P Require Import Automatic Reconcile Publish Passes Total History.

(** ** Runs whose answers satisfy [F]

    Unlike with [wpt] alone, what the first part of a program learns from its
    answers can be used to reason about the rest. *)
Section rely.
Context `{Extern}.

Definition wpf {A} (F : apicall -> Prop) (m : M A)
    (Q : outcome A -> opstate -> list apicall -> Prop) (s : opstate) : Prop :=
  wpt m (fun o s' t => Forall F t -> Q o s' t) s.

(** Every run has a trace. *)
Definition traced {A} (m : M A) : Prop := emits (fun _ => True) m.

Lemma wpt_guard {A} (G : Prop) (m : M A) Q s :
  traced m -> (G -> wpt m Q s) -> wpt m (fun o s' t => G -> Q o s' t) s.
Proof.
  intros Hm Hq. destruct (Hm s) as (t & Ht & Hx & _). exists t. split_and!; [done|done|].
  intros HG. destruct (Hq HG) as (t' & Ht' & _ & HQ). rewrite Ht in Ht'.
  by apply app_inv_head in Ht' as <-.
Qed.

Lemma wpf_bind {A B} F (m : M A) (k : A -> M B) Q s :
  wpf F m (fun o s1 t1 => match o with
    | Val a => wpf F (k a) (fun o' s' t' => Q o' s' (t1 ++ t')) s1
    | Panicked => Q Panicked s1 t1
    end) s ->
  (forall a, traced (k a)) -> wpf F (m ≫= k) Q s.
Proof.
  intros Hm Hk. apply wpt_bind. eapply wpt_mono; [apply Hm|].
  intros [a|] s1 t1 H1; [|done].
  eapply wpt_mono; [apply (wpt_guard (Forall F t1)); [apply Hk|exact H1]|].
  intros o s' t' H2 [F1 F2]%Forall_app. by apply H2.
Qed.

Lemma wpf_mono {A} F (m : M A) (P Q : outcome A -> opstate -> list apicall -> Prop) s :
  wpf F m P s -> (forall o s' t, Forall F t -> P o s' t -> Q o s' t) -> wpf F m Q s.
Proof. intros Hm HPQ. eapply wpt_mono; [apply Hm|]. eauto. Qed.

Lemma wpf_and {A} F (m : M A) (P Q : outcome A -> opstate -> list apicall -> Prop) s :
  wpf F m P s -> wpf F m Q s -> wpf F m (fun o s' t => P o s' t /\ Q o s' t) s.
Proof.
  intros Hp Hq. eapply wpt_mono; [apply (wpt_and _ _ _ _ Hp Hq)|]. intros o s' t [Hp' Hq'] Hf. auto.
Qed.

Lemma wpt_wpf {A} F (m : M A) Q s : wpt m Q s -> wpf F m Q s.
Proof. intros Hm. by eapply wpt_mono. Qed.

Lemma plans_wpf {A} d C (Q : outcome A -> list stepRec -> Prop) m s :
  plans d C Q m -> C -> cacheLeads d s ->
  wpf (faithful d) m (fun o s' t => cacheLeads d s' /\ exists l, siteTrace l t /\ Q o l) s.
Proof. intros Hm HC Hs. eapply wpt_mono; [apply Hm|]. auto. Qed.

Lemma plans_traced {A} d Q (m : M A) : plans d True Q m -> traced m.
Proof. intros Hm s. eapply wpt_mono; [apply Hm|]. intros. by apply Forall_true. Qed.

Lemma quiet_traced {A} (m : M A) P : isQuiet m P -> traced m.
Proof. intros Hm. by eapply emits_quiet. Qed.
End rely.

Section single_writer.
Context `{Extern} `{!UnstructuredLaws} `{!ErrorLaws} `{!Store} `{!StoreLaws} `{!OtherCallsLaws}.

(** ** What was read is what is stored *)

Lemma exec_clusters w t w' :
  Forall notSiteWrite t -> exec w t w' -> forall s k, clusterAt w' s k = clusterAt w s k.
Proof.
  intros Ht Hx. induction Hx as [|w a w1 t w2 Ha _ IH]; [done|]. intros s k.
  apply Forall_cons in Ht as [Hn Ht]. rewrite (IH Ht). by eapply answers_clusters.
Qed.

Lemma exec_read w t w' c k u :
  Forall notSiteWrite t -> exec w t w' -> CGetCluster c k (Ok u) ∈ t ->
  clusterAt w (serverOf c) k = Some u.
Proof.
  intros Ht Hx. induction Hx as [|w a w1 t w2 Ha _ IH]; [by intros ?%elem_of_nil|].
  apply Forall_cons in Ht as [Hn Ht]. intros [<-|Hin]%elem_of_cons.
  - by apply getCluster_law in Ha as [_ [? _]].
  - rewrite <- (answers_clusters _ _ _ Hn Ha). auto.
Qed.

(** A Cluster that is a primary and has a ready instance. *)
Definition servesAt (w : World) (a : Server * NamespacedName) : Prop :=
  exists u, clusterAt w a.1 a.2 = Some u /\ ~ clusterIsReplica u /\ 0 < readyInstancesOf u.

Lemma servesAt_proper w w' a :
  (forall s k, clusterAt w' s k = clusterAt w s k) -> servesAt w' a -> servesAt w a.
Proof. intros Hc (u & Hu & ?). exists u. by rewrite <- Hc. Qed.

Section sites.
Context (d : deployment) (r : HAClusterReconciler) (Hr : reconcilerOk r).
Context (srv : string -> Server).
Context (Hsrv : forall key c, dp_client d key c -> serverOf c = srv key).

Lemma probe_site_quiet cli ref ep spec name :
  isQuiet (h ← Probe cli (siteKey ref);
    probePostgres r (siteObsFromHealth name h) cli ref ep spec) (fun _ => True).
Proof.
  eapply isQuiet_bind; [apply Probe_quiet|]. intros h _.
  eapply isQuiet_mono; [by apply probePostgres_quiet|done].
Qed.

(** Probing a site shows a primary only where there is one. *)
Lemma probe_site_serves cli ref ep spec name s :
  wpt (h ← Probe cli (siteKey ref);
       probePostgres r (siteObsFromHealth name h) cli ref ep spec) (fun o s' t =>
    forall obs, o = Val obs -> servesWrites obs ->
    servesAt (op_world s) (serverOf cli, siteKey ref)) s.
Proof.
  destruct (wpt_and _ _ _ _ (probe_site_faithful r cli ref ep spec name s Hr)
      (probe_site_quiet cli ref ep spec name s))
    as (t & Ht & Hx & (obs & Eo & _ & Hobs) & (a & _ & _ & [Hread _ _ _])).
  exists t. split_and!; [done|done|]. intros obs' E Hs. rewrite Eo in E. injection E as <-.
  unfold servesWrites, primaryReady in Hs. apply andb_true_iff in Hs as [[Hre Hp]%andb_true_iff Hy].
  rewrite Hre in Hobs. destruct Hobs as (u & Hin & Op & Oy & _).
  exists u. destruct (parseCluster_fields u) as (Pp & Py & _). split_and!.
  - eapply exec_read; [|exact Hx|exact Hin]. eapply Forall_impl; [exact Hread|apply reads_notSiteWrite].
  - rewrite Op, Pp in Hp. by apply negb_true_iff, bool_decide_eq_false in Hp.
  - rewrite Oy, Py in Hy. by apply Z.ltb_lt.
Qed.

Lemma observePrimary_serves ha s :
  ofDeployment d ha ->
  wpt (observePrimary r ha) (fun o s' t => forall obs, o = Val obs -> servesWrites obs ->
    servesAt (op_world s) (primaryAddr d r)) s.
Proof.
  intros [_ Hsp]. eapply wpt_mono; [apply probe_site_serves|]. intros o s' t Ho obs E Hs.
  specialize (Ho _ E Hs). unfold primaryAddr. by rewrite <- Hsp.
Qed.

(** The Clusters after an observation are those before it. *)
Lemma quiet_clusters {A} (m : M A) P s :
  isQuiet m P ->
  wpt m (fun o s' t => exists a, o = Val a /\ P a /\ readOnly t /\
    forall sv k, clusterAt (op_world s') sv k = clusterAt (op_world s) sv k) s.
Proof.
  intros Hq. destruct (Hq s) as (t & Ht & Hx & a & Ea & Pa & [Hrd _ _ _]).
  exists t. split_and!; [done|done|]. exists a. split_and!; [done..|].
  eapply exec_clusters; [|exact Hx]. eapply Forall_impl; [exact Hrd|apply reads_notSiteWrite].
Qed.

Lemma observeReplica_serves ha rep s :
  ofDeployment d ha -> cacheLeads d s ->
  wpf (faithful d) (observeReplica r ha rep) (fun o s' t => forall obs, o = Val obs ->
    servesWrites obs -> servesAt (op_world s) (replicaAddr d srv rep)) s.
Proof.
  intros [Hns _] Hs. apply wpf_bind.
  2:{ intros [cli|e]; [|apply emits_ret]. eapply quiet_traced, probe_site_quiet. }
  eapply wpf_mono; [apply wpf_and;
    [by apply (plans_wpf d True); [apply GetOrCreate_plans|..]
    |apply wpt_wpf, quiet_clusters, GetOrCreate_quiet]|].
  intros o s1 t1 _ [[_ (l & _ & _ & Hcli)] (res & -> & _ & _ & Hc)].
  destruct res as [cli|e].
  - eapply wpt_mono; [apply probe_site_serves|]. intros o s2 t2 Ho _ obs Eo Hobs.
    apply (servesAt_proper _ _ _ Hc). unfold replicaAddr. rewrite <- Hns.
    rewrite <- (Hsrv _ _ (Hcli _ eq_refl _ eq_refl)). by eapply Ho.
  - apply wpt_ret. by intros _ obs [= <-].
Qed.

(** What the observations of the replicas show is there. *)
Definition seen (w : World) (reps : list ReplicaSite) (rs : list siteObservation) : Prop :=
  Forall2 (fun rep o => o_name o = rs_Name rep /\
    (servesWrites o -> servesAt w (replicaAddr d srv rep))) reps rs.

Lemma seen_proper w w' reps rs :
  (forall s k, clusterAt w' s k = clusterAt w s k) -> seen w' reps rs -> seen w reps rs.
Proof.
  intros Hc Hs. eapply Forall2_impl; [exact Hs|]. intros rep o [? Hse]. split; [done|].
  intros Hw. eapply servesAt_proper; eauto.
Qed.

Lemma observeReplicas_serves ha reps s :
  ofDeployment d ha -> cacheLeads d s ->
  wpf (faithful d) (observeReplicas r ha reps) (fun o s' t =>
    exists rs, o = Val rs /\ seen (op_world s) reps rs) s.
Proof.
  intros Hd. revert s. induction reps as [|rep reps IH]; intros s Hs; simpl.
  { apply wpt_ret. intros _. eexists. split; [done|constructor]. }
  apply wpf_bind.
  2:{ intros o. eapply (emits_bind _ (observeReplicas r ha reps));
        [by eapply quiet_traced, observeReplicas_quiet|]. intros. apply emits_ret. }
  eapply wpf_mono; [apply wpf_and; [apply wpf_and|]|].
  { apply (plans_wpf d True); [by apply (observeReplica_plans d r)|done..]. }
  { by apply observeReplica_serves. }
  { by apply wpt_wpf, quiet_clusters, observeReplica_quiet. }
  intros o s1 t1 _ [[[Hs1 _] Ho] (obs & -> & Hn & _ & Hc)]. specialize (Ho obs eq_refl).
  apply wpf_bind; [|intros; apply emits_ret].
  eapply wpf_mono; [by apply IH|]. intros o s2 t2 _ (rs & -> & Hrs). apply wpt_ret.
  intros _. eexists. split; [done|]. constructor; [done|].
  by eapply seen_proper.
Qed.

(** ** The invariant *)

(** Of the sites only [p] accepts writes. *)
Definition soleWriter (w : World) (p : string) : Prop :=
  forall n a, siteAddr d r srv n a -> acceptsWrites w a -> n = p.

(** CNPG has caught up with the fences: a fenced Cluster reports no ready
    instance. *)
Definition caughtUp (w : World) : Prop :=
  forall n a u, siteAddr d r srv n a -> clusterAt w a.1 a.2 = Some u -> fenced u ->
  readyInstancesOf u <= 0.

(** The sites of the spec have distinct names and distinct Clusters. *)
Record distinctSites : Prop := {
  ds_names : NoDup (ps_Name (spec_Primary (dp_spec d)) :: (rs_Name <$> spec_Replicas (dp_spec d)));
  ds_named : "" ∉ ps_Name (spec_Primary (dp_spec d)) :: (rs_Name <$> spec_Replicas (dp_spec d));
  ds_addresses n n' a : siteAddr d r srv n a -> siteAddr d r srv n' a -> n = n'
}.

Lemma servesAt_accepts w n a :
  caughtUp w -> siteAddr d r srv n a -> servesAt w a -> acceptsWrites w a.
Proof.
  intros Hc Ha (u & Hu & Hn & Hy). split; [by exists u|].
  unfold writeDisabled. rewrite Hu. intros Hf. specialize (Hc _ _ _ Ha Hu Hf). lia.
Qed.

Lemma replica_site rep :
  rep ∈ spec_Replicas (dp_spec d) -> siteAddr d r srv (rs_Name rep) (replicaAddr d srv rep).
Proof. intros Hin. right. by exists rep. Qed.

Lemma siteAddr_unique n a a' :
  distinctSites -> siteAddr d r srv n a -> siteAddr d r srv n a' -> a = a'.
Proof.
  intros [[Hp Hnd]%NoDup_cons _ _] Ha Ha'.
  assert (Hin : forall rep, rep ∈ spec_Replicas (dp_spec d) ->
    rs_Name rep <> ps_Name (spec_Primary (dp_spec d))).
  { intros rep Hrep E. apply Hp. rewrite <- E. by apply list_elem_of_fmap_2. }
  destruct Ha as [[-> ->]|(rep & Hi & <- & ->)], Ha' as [[E ->]|(rep' & Hj & E & ->)];
    [done|by destruct (Hin rep')|by destruct (Hin rep)|].
  apply list_elem_of_lookup in Hi as [i Hi], Hj as [j Hj].
  assert (i = j) as ->.
  { eapply (NoDup_lookup _ _ _ (rs_Name rep) Hnd); rewrite list_lookup_fmap, ?Hi, ?Hj; simpl; congruence. }
  congruence.
Qed.

(** These depend on the stored Clusters only. *)
Lemma acceptsWrites_proper w w' a :
  (forall s k, clusterAt w' s k = clusterAt w s k) -> acceptsWrites w' a -> acceptsWrites w a.
Proof. intros Hc. unfold acceptsWrites, primaryAt, writeDisabled. by rewrite Hc. Qed.

Lemma seen_names w reps rs : seen w reps rs -> o_name <$> rs = rs_Name <$> reps.
Proof.
  induction 1 as [|rep o reps os [Hn _] _ IH]; [done|]. rewrite !fmap_cons. by rewrite Hn, IH.
Qed.

Section observed.
Context (p : string) (w : World) (po : siteObservation) (rs : list siteObservation).
Context (Hsole : soleWriter w p) (Hup : caughtUp w).
Context (Hpn : o_name po = ps_Name (spec_Primary (dp_spec d))).
Context (Hps : servesWrites po -> servesAt w (primaryAddr d r)).
Context (Hrs : seen w (spec_Replicas (dp_spec d)) rs).

(** A site observed serving writes is the recorded primary. *)
Lemma observed_primary i o : (po :: rs) !! i = Some o -> servesWrites o -> o_name o = p.
Proof.
  intros Hi Hs. destruct i as [|i]; simpl in Hi.
  - injection Hi as <-. assert (Ha : siteAddr d r srv (o_name po) (primaryAddr d r)) by by left.
    eapply Hsole; [exact Ha|]. eapply servesAt_accepts; eauto.
  - destruct (Forall2_lookup_r _ _ _ _ _ Hrs Hi) as (rep & Hrep & Hn & Hse). rewrite Hn.
    assert (Ha := replica_site rep (list_elem_of_lookup_2 _ _ _ Hrep)).
    eapply Hsole; [exact Ha|]. eapply servesAt_accepts; eauto.
Qed.

Lemma decided_observed cur av : decideCurrentPrimary po rs = (cur, av) -> cur = "" \/ cur = p.
Proof.
  intros E. destruct av.
  - apply decide_filter in E as (o & (i & Hi & Hs & _)%filter_one_position & <-). right.
    by eapply observed_primary.
  - left. unfold decideCurrentPrimary in E. destruct (primaryReadyCandidates po rs) as [|? []]; congruence.
Qed.

Lemma decided_promoted target po' rs' :
  distinctSites -> chosenReplica d rs target -> rs_Name target <> p ->
  applyPromotionEffect (mkEffect p (rs_Name target)) (po, rs) = (po', rs') ->
  decideCurrentPrimary po' rs' = (rs_Name target, true).
Proof.
  intros [Hnd Hne _] (i & o & Hi & Hrep & Hn & (Hre & Hy & _)%healthyReplica_true) Hdiff E.
  pose proof (seen_names _ _ _ Hrs) as Hal.
  apply (applyPromotionEffect_decides (mkEffect p (rs_Name target)) po rs po' rs' (S i) o); try done.
  - rewrite fmap_cons, Hal, Hpn. exact Hnd.
  - simpl. intros E0. apply Hne. rewrite <- E0. apply elem_of_cons. right.
    eapply list_elem_of_fmap_2, list_elem_of_lookup_2, Hrep.
  - intros j x Hj Hs. left. by eapply observed_primary.
Qed.
End observed.

(** ** The status that is sent *)

Lemma writeStatus_recorded ha prior cur av sb po rs s :
  wpt (writeStatus ha prior cur av sb po rs) (fun o _ t => exists hs, o = Val hs /\
    recordedPrimary hs = (if bool_decide (cur = "") then prior else cur) /\ Forall notStatus t) s.
Proof.
  unfold writeStatus. apply wpt_bind, wpt_call; [done|]. intros t w1 _.
  apply wpt_bind, wpt_call; [done|]. intros t' w2 _. apply wpt_ret. eexists. split; [done|].
  split; [|by repeat constructor]. unfold recordedPrimary. simpl. by case_bool_decide.
Qed.

Definition records (q : string) (a : apicall) : Prop :=
  match a with CStatusUpdate _ hs _ => recordedPrimary hs = q | _ => True end.

Lemma notStatus_records q a : notStatus a -> records q a.
Proof. by destruct a. Qed.

Lemma emits_weaken {A} (P Q : apicall -> Prop) (m : M A) :
  emits P m -> (forall a, P a -> Q a) -> emits Q m.
Proof. intros Hm HPQ s. eapply wpt_mono; [apply Hm|]. intros o s' t Ht. eapply Forall_impl; [exact Ht|done]. Qed.

(** A status was acknowledged. *)
Definition statusAcked (t : list apicall) : Prop :=
  exists hs ha', CStatusUpdate (r_Client r) hs (Ok ha') ∈ t.

Lemma publishAndConverge_records ha1 prior err po rs cur av s :
  decideCurrentPrimary po rs = (cur, av) ->
  wpt (publishAndConverge r ha1 prior err po rs) (fun o _ t =>
    Forall (records (if bool_decide (cur = "") then prior else cur)) t /\
    forall ctrl, o = Val (ctrl, None) -> err = None /\ statusAcked t) s.
Proof.
  intros Ed. unfold publishAndConverge. rewrite Ed. cbv zeta.
  set (q := if bool_decide (cur = "") then prior else cur).
  assert (Htop : forall A ha3 (k : result unit -> M A), (forall res, emits (records q) (k res)) ->
    emits (records q) (reconcileReplicaTopology r ha3 q po rs ≫= k)).
  { intros A ha3 k Hk. apply emits_bind; [|done].
    eapply emits_weaken; [apply topology_notStatus|apply notStatus_records]. }
  apply wpt_bind. eapply wpt_mono; [apply writeStatus_recorded|].
  intros o s1 t1 (hs & -> & Hq & Ht1). fold q in Hq.
  match goal with |- wpt ?m _ _ => assert (He : emits (records q) m) end.
  { apply emits_bind; [apply publishMetrics_emits|]. intros [].
    apply emits_bind; [by apply emits_call|]. intros [ha3|e]; [|apply emits_ret].
    destruct err; [apply emits_ret|]. apply Htop. intros []; apply emits_ret. }
  eapply wpt_mono; [apply wpt_and; [apply He|]|].
  - instantiate (1 := fun o _ t => forall ctrl, o = Val (ctrl, None) -> err = None /\ statusAcked t).
    apply wpt_bind. eapply wpt_mono; [apply (publishMetrics_emits (fun _ => True))|].
    intros [[]|] s2 t2 _; [|done].
    apply wpt_bind, wpt_call; [done|]. intros [ha3|e] w3 _; [|by apply wpt_ret].
    destruct err as [e|]; [by apply wpt_ret|].
    eapply wpt_mono; [apply (Htop _ ha3); intros []; apply emits_ret|].
    intros o s3 t3 _ ctrl _. split; [done|]. exists hs, ha3. set_solver.
  - intros o s' t [Hrec Hack]. split.
    + apply Forall_app. split; [|done]. eapply Forall_impl; [exact Ht1|apply notStatus_records].
    + intros ctrl E. destruct (Hack _ E) as [-> (hs' & ha' & Hin)]. split; [done|].
      exists hs', ha'. set_solver.
Qed.

(** ** One pass *)

(** What the steps [l] of the handlers and the primary [q] that is recorded
    after them have to do with each other, in a pass that started from [p]. *)
Inductive passRecord (p : string) (o : outcome (CtrlResult * option goerr))
    : list stepRec -> string -> Prop :=
  | record_same : passRecord p o [] p
  | record_moved target l :
      promotionPlan d r p target true l -> passRecord p o l (rs_Name target)
  | record_missed target b l :
      promotionPlan d r p target b l -> (forall ctrl, o <> Val (ctrl, None)) -> passRecord p o l p.

(** The shape of a pass: the steps of the handlers, then the status, then
    convergence. *)
Record passShape (req : NamespacedName) (p : string) (o : outcome (CtrlResult * option goerr))
    (t : list apicall) : Prop := {
  ps_split : exists t1 t2 l1 l2 q ep host, t = t1 ++ t2 /\ Forall notStatus t1 /\
    siteTrace l1 t1 /\ siteTrace l2 t2 /\ convergePlan d r ep host l2 /\
    Forall (records q) t2 /\ passRecord p o l1 q;
  ps_acked ctrl : o = Val (ctrl, None) ->
    statusAcked t \/ exists e, t = [CGetHA (r_Client r) req (Err e)]
}.

Lemma publishAndConverge_traced ha1 prior err po rs :
  traced (publishAndConverge r ha1 prior err po rs).
Proof. eapply (plans_traced d), publishAndConverge_plans. Qed.

Lemma handlePromotions_traced ha po rs : traced (handlePromotions r ha po rs).
Proof. eapply emits_weaken; [apply handlePromotions_notStatus|done]. Qed.

(** The end of a pass whose handlers made the steps [l1] during [t1]. *)
Lemma passShape_end req p ha1 err po rs cur av t1 l1 s :
  decideCurrentPrimary po rs = (cur, av) -> cacheLeads d s ->
  Forall notStatus t1 -> siteTrace l1 t1 ->
  (forall o : outcome (CtrlResult * option goerr),
     (err <> None -> forall ctrl, o <> Val (ctrl, None)) ->
     passRecord p o l1 (if bool_decide (cur = "") then p else cur)) ->
  wpf (faithful d) (publishAndConverge r ha1 p err po rs) (fun o _ t => passShape req p o (t1 ++ t)) s.
Proof.
  intros Ed Hs Hn1 Hl1 Hrec. eapply wpf_mono; [apply wpf_and;
    [by apply (plans_wpf d True); [apply publishAndConverge_plans|..]
    |by eapply wpt_wpf, publishAndConverge_records]|].
  intros o s' t _ [[_ (l2 & Hl2 & _ & ep & host & Hc)] [Hq Hack]]. split.
  - eexists t1, t, l1, l2, _, ep, host. split_and!; [done..| |apply Hrec]; [exact Hq|].
    intros He ctrl E. by destruct He, (Hack _ E).
  - intros ctrl E. destruct (Hack _ E) as [_ (hs & ha' & Hin)]. left. exists hs, ha'. set_solver.
Qed.

(** The pass shows what it records. *)
Section pass.
Context (req : NamespacedName) (p : string) (Hne : p <> "") (Hrec : forall n, dp_recorded d n -> n = p).
Context (Hds : distinctSites).

Lemma takenOver_recorded old : takenOver d old -> old = p.
Proof. intros [?%Hrec|E%Hrec]; [done|]. by destruct Hne. Qed.

Lemma promotionPlan_diff old target l : promotionPlan d r old target true l -> rs_Name target <> old.
Proof. by inversion 1. Qed.

Lemma chosenReplica_named rs target : chosenReplica d rs target -> rs_Name target <> "".
Proof.
  intros (i & o & _ & Hrep & _) E. apply (ds_named Hds). rewrite <- E. apply elem_of_cons. right.
  eapply list_elem_of_fmap_2, list_elem_of_lookup_2, Hrep.
Qed.

(** The handlers and the decision after them. *)
Lemma promoted_records w po rs ha1 pe err l po' rs' cur av :
  soleWriter w p -> caughtUp w -> o_name po = ps_Name (spec_Primary (dp_spec d)) ->
  (servesWrites po -> servesAt w (primaryAddr d r)) -> seen w (spec_Replicas (dp_spec d)) rs ->
  promoted d r rs (Val (ha1, pe, err)) l -> applyPromotionEffect pe (po, rs) = (po', rs') ->
  decideCurrentPrimary po' rs' = (cur, av) ->
  forall o : outcome (CtrlResult * option goerr),
    (err <> None -> forall ctrl, o <> Val (ctrl, None)) ->
    passRecord p o l (if bool_decide (cur = "") then p else cur).
Proof.
  intros Hsole Hup Hpn Hps Hrs [_ Hpr] Ea Ed o He.
  assert (Hsame : pe = noEffect -> (if bool_decide (cur = "") then p else cur) = p).
  { intros ->. injection Ea as <- <-.
    destruct (decided_observed p w po rs Hsole Hup Hpn Hps Hrs cur av Ed) as [-> | ->];
      by case_bool_decide. }
  destruct Hpr as [[-> Hpe]|(old & target & [Hold Htgt Heff Hst])].
  { rewrite Hsame by eauto. constructor. }
  apply takenOver_recorded in Hold as ->. pose proof (chosenReplica_named _ _ Htgt) as Hname.
  destruct Hst as [Hp|[Hp Hno]].
  - destruct (Heff _ _ _ eq_refl Hname) as [->|(-> & e & ->)].
    + pose proof (decided_promoted p w po rs Hsole Hup Hpn Hps Hrs target po' rs' Hds Htgt
        (promotionPlan_diff _ _ _ Hp) Ea) as Ed'. rewrite Ed in Ed'. injection Ed' as -> _.
      rewrite bool_decide_eq_false_2 by done. by eapply record_moved.
    + rewrite Hsame by done. eapply record_missed; [exact Hp|]. by apply He.
  - destruct (Hno _ _ _ eq_refl) as (-> & e & ->). rewrite Hsame by done.
    eapply record_missed; [exact Hp|]. by apply He.
Qed.

Lemma promoted_panicked rs l (o : outcome (CtrlResult * option goerr)) :
  promoted d r rs Panicked l -> o = Panicked -> passRecord p o l p.
Proof.
  intros [_ [[-> _]|(old & target & [Hold _ _ Hst])]] ->; [constructor|].
  apply takenOver_recorded in Hold as ->.
  by destruct Hst as [Hp|[Hp _]]; eapply record_missed.
Qed.

(** A pass without steps, up to its end. *)
Lemma passShape_quiet o t :
  Forall notStatus t -> Forall notSiteWrite t ->
  (forall ctrl, o = Val (ctrl, None) -> exists e, t = [CGetHA (r_Client r) req (Err e)]) ->
  passShape req p o t.
Proof.
  intros Hn Hw Ho. split; [|by right; eapply Ho].
  exists t, [], [], [], p, "", "". rewrite app_nil_r.
  split_and!; try done; try constructor. by apply siteTrace_calls.
Qed.

(** From the observations on. *)
Definition passBody (ha : HACluster) : M (CtrlResult * option goerr) :=
  po ← observePrimary r ha;
  rs ← observeReplicas r ha (spec_Replicas (ha_Spec ha));
  promo ← handlePromotions r ha po rs;
  let '(ha1, pe, err) := promo in
  let '(po', rs') := applyPromotionEffect pe (po, rs) in
  publishAndConverge r ha1 (st_CurrentPrimarySite (ha_Status ha)) err po' rs'.

Lemma passBody_handled ha po rs : traced (promo ← handlePromotions r ha po rs;
  let '(ha1, pe, err) := promo in let '(po', rs') := applyPromotionEffect pe (po, rs) in
  publishAndConverge r ha1 (st_CurrentPrimarySite (ha_Status ha)) err po' rs').
Proof.
  apply emits_bind; [apply handlePromotions_traced|]. intros [[ha1 pe] err].
  destruct (applyPromotionEffect pe (po, rs)). apply publishAndConverge_traced.
Qed.

Lemma passBody_observed ha : traced (passBody ha).
Proof.
  apply emits_bind; [by eapply quiet_traced, observePrimary_quiet|]. intros po.
  apply emits_bind; [by eapply quiet_traced, observeReplicas_quiet|]. intros rs. apply passBody_handled.
Qed.

(** What the reads [t] of an observation are. *)
Lemma reads_shape t : readOnly t -> Forall notStatus t /\ siteTrace [] t.
Proof.
  intros Ht. split; [eapply Forall_impl; [exact Ht|apply reads_notStatus]|].
  apply siteTrace_calls. eapply Forall_impl; [exact Ht|apply reads_notSiteWrite].
Qed.

(** The handlers and what follows, after observations that are accurate. *)
Lemma passBody_promotes w ha po rs t0 s :
  current d ha -> cacheLeads d s -> soleWriter w p -> caughtUp w ->
  o_name po = ps_Name (spec_Primary (dp_spec d)) ->
  (servesWrites po -> servesAt w (primaryAddr d r)) -> seen w (spec_Replicas (dp_spec d)) rs ->
  readOnly t0 ->
  wpf (faithful d) (promo ← handlePromotions r ha po rs;
    let '(ha1, pe, err) := promo in let '(po', rs') := applyPromotionEffect pe (po, rs) in
    publishAndConverge r ha1 p err po' rs') (fun o _ t => passShape req p o (t0 ++ t)) s.
Proof.
  intros Hcur Hs Hsole Hup Hpn Hps Hrs [Hn0 Hl0]%reads_shape. apply wpf_bind.
  2:{ intros [[ha1 pe] err]. destruct (applyPromotionEffect pe (po, rs)).
      apply publishAndConverge_traced. }
  eapply wpf_mono; [apply wpf_and|].
  { apply (plans_wpf d True); [|done..]. apply handlePromotions_plans; [done|].
    intros _. by eapply seen_names. }
  { apply wpt_wpf, handlePromotions_notStatus. }
  intros [[[ha1 pe] err]|] s1 t1 _ [[Hs1 (l & Hl & Hpr)] Hn1].
  - destruct (applyPromotionEffect pe (po, rs)) as [po' rs'] eqn:Ea.
    destruct (decideCurrentPrimary po' rs') as [cur av] eqn:Ed.
    eapply wpf_mono; [eapply (passShape_end req p ha1 err po' rs' cur av (t0 ++ t1) l); try done|].
    + by apply Forall_app.
    + change l with ([] ++ l). by apply siteTrace_app.
    + by eapply promoted_records.
    + intros o s2 t2 _. by rewrite app_assoc.
  - split; [|done]. exists (t0 ++ t1), [], l, [], p, "", "". rewrite app_nil_r.
    split_and!; try done; [by apply Forall_app| |constructor|constructor|by eapply promoted_panicked].
    change l with ([] ++ l). by apply siteTrace_app.
Qed.

Lemma passBody_shape ha t0 s :
  current d ha -> cacheLeads d s -> soleWriter (op_world s) p -> caughtUp (op_world s) ->
  readOnly t0 -> wpf (faithful d) (passBody ha) (fun o _ t => passShape req p o (t0 ++ t)) s.
Proof.
  intros Hcur Hs Hsole Hup Ht0. pose proof Hcur as [Hof Hp%Hrec].
  assert (Hsp : spec_Replicas (ha_Spec ha) = spec_Replicas (dp_spec d)) by by destruct Hof as [_ ->].
  unfold passBody, recordedPrimary in *. rewrite Hp. apply wpf_bind.
  2:{ intros po. apply emits_bind; [by eapply quiet_traced, observeReplicas_quiet|]. intros rs.
      rewrite <- Hp. apply passBody_handled. }
  eapply wpf_mono; [apply wpf_and; [apply wpf_and|]|].
  { apply (plans_wpf d True); [by apply (observePrimary_plans d r)|done..]. }
  { by apply wpt_wpf, observePrimary_serves. }
  { by apply wpt_wpf, quiet_clusters, observePrimary_quiet. }
  intros o s1 t1 _ [[[Hs1 _] Hps] (po & -> & Hpn & Ht1 & Hc1)]. apply wpf_bind.
  2:{ intros rs. rewrite <- Hp. apply passBody_handled. }
  eapply wpf_mono; [apply wpf_and; [apply wpf_and|]|].
  { apply (plans_wpf d True); [by apply (observeReplicas_plans d r)|done..]. }
  { by apply observeReplicas_serves. }
  { by apply wpt_wpf, quiet_clusters, observeReplicas_quiet. }
  intros o s2 t2 _ [[[Hs2 _] (rs & -> & Hrs)] (rs' & [= <-] & _ & Ht2 & _)].
  eapply wpf_mono; [apply (passBody_promotes (op_world s) ha po rs (t0 ++ t1 ++ t2)); try done|].
  - destruct Hof as [_ <-]. done.
  - by apply Hps.
  - rewrite <- Hsp. by eapply seen_proper.
  - by repeat apply Forall_app_2.
  - simpl. intros o s3 t3 _. by rewrite <- !app_assoc.
Qed.

Lemma Reconcile_shape s :
  cacheLeads d s -> soleWriter (op_world s) p -> caughtUp (op_world s) ->
  wpf (faithful d) (Reconcile r req) (fun o _ t => passShape req p o t) s.
Proof.
  intros Hs Hsole Hup. apply wpf_bind; [|intros [ha|e]; [apply passBody_observed|apply emits_ret]].
  apply wpt_call; [done|]. intros [ha|e] w0 Hget Hf0.
  2:{ apply wpt_ret. intros _. apply passShape_quiet; [by repeat constructor..|]. intros. eauto. }
  apply Forall_cons in Hf0 as [Hcur _].
  assert (Hc : forall sv k, clusterAt w0 sv k = clusterAt (op_world s) sv k)
    by (eapply answers_clusters; [|exact Hget]; done).
  eapply (passBody_shape ha [_]); [done|done| | |by repeat constructor].
  - intros n a Ha Hw. eapply Hsole; [exact Ha|]. by eapply acceptsWrites_proper.
  - intros n a u Ha Hu. simpl in Hu. rewrite Hc in Hu. by eapply Hup.
Qed.

(** ** What a pass leaves behind *)

Lemma promotionPlan_promotes old target b l nc nref rp :
  promotionPlan d r old target b l -> mkStep StepPromote nc nref rp ∈ l -> replicaAt d target nc nref.
Proof. destruct 1; rewrite !elem_of_cons, elem_of_nil; intros; by destruct_or!; simplify_eq. Qed.

Lemma promotionPlan_fences old target l :
  promotionPlan d r old target true l ->
  exists oc oref rf, mkStep StepFence oc oref rf ∈ l /\ siteAt d r old oc oref /\ aborting rf = None.
Proof. inversion 1; subst. eexists _, _, _. split; [by apply elem_of_cons; left|done]. Qed.

Lemma promotionPlan_named old target l :
  promotionPlan d r old target true l -> rs_Name target <> "".
Proof.
  inversion 1 as [| | |oc oref rf rs nc nref rl _ _ _ (Hin & _) _]; subst. intros E.
  apply (ds_named Hds). rewrite <- E. apply elem_of_cons. right. by apply list_elem_of_fmap_2.
Qed.

Lemma convergePlan_promotes ep host l nc nref rp :
  convergePlan d r ep host l -> mkStep StepPromote nc nref rp ∉ l.
Proof. induction 1; rewrite ?elem_of_cons, ?elem_of_nil; naive_solver. Qed.

(** A promotion that was completed leaves its target as the only writer. *)
Lemma moved_sole target l1 l2 w w' :
  promotionPlan d r p target true l1 -> (forall nc nref rp, mkStep StepPromote nc nref rp ∉ l2) ->
  traceEffect (l1 ++ l2) w w' -> soleWriter w p -> soleWriter w' (rs_Name target).
Proof.
  intros Hp Hno [D F P] Hsole n [s k] Ha [Hpr Hdis]. simpl in *.
  destruct (P s k Hpr) as [Hold|(la & nc & nref & rp & lb & E & Hk)].
  - exfalso. assert (n = p) as ->.
    { eapply Hsole; [exact Ha|]. split; [done|]. simpl. intros ?. apply Hdis. auto. }
    destruct (promotionPlan_fences _ _ _ Hp) as (oc & oref & rf & Hin & Hsite & Hrf).
    apply (siteAt_addr d r srv Hsrv) in Hsite.
    injection (siteAddr_unique _ _ _ Hds Ha Hsite) as -> ->.
    apply Hdis. eapply F; [|exact Hrf]. apply elem_of_app. by left.
  - assert (Hin : mkStep StepPromote nc nref rp ∈ l1 ++ l2) by (rewrite E; set_solver).
    apply elem_of_app in Hin as [Hin|Hin]; [|by destruct (Hno nc nref rp)].
    apply (promotionPlan_promotes _ _ _ _ _ _ _ Hp) in Hin.
    apply (replicaAt_addr d srv Hsrv) in Hin as [Hin Haddr].
    apply (ds_addresses Hds _ _ (s, k)); [done|]. rewrite Hk, Haddr. by apply replica_site.
Qed.

(** A pass, for as long as it ran. *)
Lemma shape_disabled o t t' w w' :
  passShape req p o t -> t' `prefix_of` t -> exec w t' w' ->
  forall s k, writeDisabled w s k -> writeDisabled w' s k.
Proof.
  intros [(t1 & t2 & l1 & l2 & q & ep & host & -> & _ & Hl1 & Hl2 & _) _] Hpre Hx.
  destruct (siteTrace_prefix _ _ _ (siteTrace_app _ _ _ _ Hl1 Hl2) Hpre) as (l' & _ & Hl').
  apply (siteTrace_effect _ _ _ _ Hl' Hx).
Qed.

Lemma shape_moved o t t' w w' c hs res :
  passShape req p o t -> t' `prefix_of` t -> exec w t' w' -> soleWriter w p ->
  CStatusUpdate c hs res ∈ t' -> recordedPrimary hs <> p ->
  soleWriter w' (recordedPrimary hs) /\ recordedPrimary hs <> "".
Proof.
  intros [(t1 & t2 & l1 & l2 & q & ep & host & -> & Hn & Hl1 & Hl2 & Hc & Hq & Hrc) _] Hpre Hx Hsole Hin Hd.
  assert (Hnot : CStatusUpdate c hs res ∉ t1).
  { intros Hin1. rewrite Forall_forall in Hn. exact (Hn _ Hin1). }
  destruct Hpre as [tr Hpre]. apply app_eq_inv in Hpre as [(k & -> & ->)|(k & -> & ->)].
  { destruct Hnot. apply elem_of_app. by left. }
  apply elem_of_app in Hin as [?|Hin]; [done|].
  assert (recordedPrimary hs = q) as Eq.
  { rewrite Forall_forall in Hq. apply (Hq (CStatusUpdate c hs res)). apply elem_of_app. by left. }
  rewrite Eq in *. destruct Hrc as [|target l1 Hp|target b l1 _ _]; [done| |done].
  split; [|by eapply promotionPlan_named].
  destruct (siteTrace_prefix _ _ k Hl2) as (l2' & [lr ->] & Hl2'); [by eexists|].
  eapply moved_sole; [exact Hp| |by eapply siteTrace_effect; [apply siteTrace_app|]|done].
  intros nc nref rp Hin2. eapply (convergePlan_promotes ep host _ nc nref rp Hc).
  apply elem_of_app. by left.
Qed.

(** A pass that ended without an error. *)
Lemma shape_clean ctrl t w w' :
  passShape req p (Val (ctrl, None)) t -> exec w t w' -> soleWriter w p ->
  (exists e, t = [CGetHA (r_Client r) req (Err e)]) \/
  exists hs ha', CStatusUpdate (r_Client r) hs (Ok ha') ∈ t /\ soleWriter w' (recordedPrimary hs).
Proof.
  intros Hsh Hx Hsole. destruct (ps_acked _ _ _ _ Hsh _ eq_refl) as [(hs & ha' & Hin)|?]; [right|by left].
  exists hs, ha'. split; [done|]. destruct (decide (recordedPrimary hs = p)) as [Ep|Hd].
  2:{ by apply (shape_moved _ _ t w w' _ _ _ Hsh (reflexivity _) Hx Hsole Hin). }
  destruct Hsh as [(t1 & t2 & l1 & l2 & q & ep & host & -> & Hn & Hl1 & Hl2 & Hc & Hq & Hrc) _].
  assert (recordedPrimary hs = q) as Eq.
  { apply elem_of_app in Hin as [Hin|Hin]; [rewrite Forall_forall in Hn; by destruct (Hn _ Hin)|].
    rewrite Forall_forall in Hq. exact (Hq _ Hin). }
  destruct (siteTrace_effect _ _ _ _ (siteTrace_app _ _ _ _ Hl1 Hl2) Hx) as [D _ P].
  rewrite Ep. rewrite Ep in Eq. destruct Hrc as [|target l1 Hp|target b l1 _ Hno].
  - intros n [s k] Ha [Hpr Hdis]. eapply Hsole; [exact Ha|]. split; [|intros ?; apply Hdis, D; done].
    destruct (P _ _ Hpr) as [?|(la & nc & nref & rp & lb & E & _)]; [done|].
    destruct (convergePlan_promotes ep host l2 nc nref rp Hc). simpl in E. rewrite E. set_solver.
  - by destruct (promotionPlan_diff _ _ _ Hp).
  - by destruct (Hno ctrl).
Qed.
End pass.
End sites.

(** ** Histories in which failovers are recorded *)

(** The deployment while [p] is recorded. *)
Definition recording (d : deployment) (p : string) : deployment :=
  mkDeployment (dp_namespace d) (dp_spec d) (eq p) (dp_config d) (dp_client d).

Section recorded.
Context (d : deployment) (r : HAClusterReconciler) (srv : string -> Server).
Context (Hsrv : forall key c, dp_client d key c -> serverOf c = srv key).

(** One event, on the world and the recorded primary: the environment acts, or
    a reconcile runs for as long as the process lives, reading objects that
    record [p], once CNPG has caught up. What is recorded afterwards is the
    same, or what a status of the pass said, and no site became a primary
    unrecorded. *)
Inductive recordedStep (req : NamespacedName) : World * string -> World * string -> Prop :=
  | recorded_env w w' p : calm w w' -> recordedStep req (w, p) (w', p)
  | recorded_pass s t t' w' p p' :
      cacheLeads d s -> caughtUp d r srv (op_world s) ->
      op_calls (Reconcile r req s).2 = op_calls s ++ t ->
      Forall (faithful (recording d p)) t -> t' `prefix_of` t -> exec (op_world s) t' w' ->
      (p' = p \/ exists c hs res, CStatusUpdate c hs res ∈ t' /\ recordedPrimary hs = p') ->
      (forall n a, siteAddr d r srv n a -> primaryAt w' a.1 a.2 ->
         primaryAt (op_world s) a.1 a.2 \/ n = p') ->
      recordedStep req (op_world s, p) (w', p').

Lemma distinct_recording p : distinctSites d r srv -> distinctSites (recording d p) r srv.
Proof. intros [? ? ?]. by split. Qed.

Lemma recordedStep_sole req w p w' p' :
  reconcilerOk r -> distinctSites d r srv -> recordedStep req (w, p) (w', p') ->
  p <> "" -> soleWriter d r srv w p -> p' <> "" /\ soleWriter d r srv w' p'.
Proof.
  intros Hr Hds Hst Hne Hsole.
  inversion Hst as [w1 w1' q [Dis Pr]|s t t' w1' q q' Hs Hup Ht Hf Hpre Hx Hp' Hnew]; subst.
  { split; [done|]. intros n a Ha [? Hd]. eapply Hsole; [exact Ha|]. split; auto. }
  destruct (Reconcile_shape (recording d p) r Hr srv Hsrv req p Hne ltac:(done)
      (distinct_recording p Hds) s Hs Hsole Hup)
    as (t0 & Ht0 & _ & Hsh).
  rewrite Ht in Ht0. apply app_inv_head in Ht0 as <-. specialize (Hsh Hf).
  destruct (decide (p' = p)) as [->|Hd].
  - split; [done|]. intros n a Ha [Hp Hdis]. destruct (Hnew n a Ha Hp) as [Hold|?]; [|done].
    eapply Hsole; [exact Ha|]. split; [done|]. intros ?. apply Hdis.
    by eapply (shape_disabled (recording d p) r req).
  - destruct Hp' as [?|(c & hs & res & Hin & <-)]; [done|].
    destruct (shape_moved (recording d p) r Hr srv Hsrv req p Hne
      ltac:(done) (distinct_recording p Hds) _ _ _ _ _ _ _ _ Hsh Hpre Hx Hsole Hin Hd)
      as [? ?]. done.
Qed.

(** C5. Only the recorded primary accepts writes. For any number of sites with
    distinct names and Clusters: if at the start no site but the recorded
    primary accepts writes, this stays so over every history of reconciles,
    complete or cut short after any call, and of activity of others that lifts
    no fence and makes no primary, as long as every pass gets answers that
    agree with the deployment and objects that record the primary, starts when
    every fenced Cluster reports no ready instance, and leaves no site newly a
    primary unless a status of that pass that was sent names it. *)
Theorem recorded_primary_sole_writer req w0 p0 w p :
  reconcilerOk r -> distinctSites d r srv -> p0 <> "" -> soleWriter d r srv w0 p0 ->
  rtc (recordedStep req) (w0, p0) (w, p) -> soleWriter d r srv w p.
Proof.
  intros Hr Hds Hne Hsole Hh.
  enough (snd (w, p) <> "" /\ soleWriter d r srv (fst (w, p)) (snd (w, p))) by tauto.
  apply (rtc_ind_r (fun x => snd x <> "" /\ soleWriter d r srv (fst x) (snd x)) (w0, p0)
    ltac:(done)) in Hh; [done|].
  intros [w1 p1] [w2 p2] _ Hst [Hne1 Hs1]. by eapply recordedStep_sole.
Qed.

(** C6. A reconcile that ends without an error hands the writes over. With
    distinct sites, if no site but the recorded primary accepts writes and
    every fenced Cluster reports no ready instance, and the answers agree with
    the deployment and with what is recorded, then after a reconcile that
    returns no error either the HACluster could not be read, which was the only
    call, or a status was acknowledged, and the primary it records is the only
    site that may accept writes. *)
Theorem Reconcile_hands_over req p s :
  reconcilerOk r -> distinctSites d r srv -> p <> "" -> cacheLeads d s ->
  soleWriter d r srv (op_world s) p -> caughtUp d r srv (op_world s) ->
  wpt (Reconcile r req) (fun o s' t => Forall (faithful (recording d p)) t ->
    forall ctrl, o = Val (ctrl, None) ->
    (exists e, t = [CGetHA (r_Client r) req (Err e)]) \/
    exists hs ha', CStatusUpdate (r_Client r) hs (Ok ha') ∈ t /\
      soleWriter d r srv (op_world s') (recordedPrimary hs)) s.
Proof.
  intros Hr Hds Hne Hs Hsole Hup.
  destruct (Reconcile_shape (recording d p) r Hr srv Hsrv req p Hne ltac:(done)
      (distinct_recording p Hds) s Hs Hsole Hup)
    as (t & Ht & Hx & Hsh).
  exists t. split_and!; [done|done|]. intros Hf ctrl Eo. specialize (Hsh Hf). rewrite Eo in Hsh.
  exact (shape_clean (recording d p) r Hr srv Hsrv req p Hne
      ltac:(done) (distinct_recording p Hds) _ _ _ _ Hsh Hx Hsole).
Qed.

(** A reconcile that is not interrupted. *)
Lemma recorded_whole_pass req p p' s :
  let t := drop (length (op_calls s)) (op_calls (Reconcile r req s).2) in
  reconcilerOk r -> cacheLeads d s -> caughtUp d r srv (op_world s) ->
  Forall (faithful (recording d p)) t ->
  (p' = p \/ exists c hs res, CStatusUpdate c hs res ∈ t /\ recordedPrimary hs = p') ->
  (forall n a, siteAddr d r srv n a -> primaryAt (op_world (Reconcile r req s).2) a.1 a.2 ->
     primaryAt (op_world s) a.1 a.2 \/ n = p') ->
  recordedStep req (op_world s, p) (op_world (Reconcile r req s).2, p').
Proof.
  intros t Hr Hs Hup. destruct (Reconcile_plans d r req Hr s) as (t0 & Ht & Hx & _).
  assert (t = t0) as -> by (unfold t; by rewrite Ht, drop_app_length).
  intros Hf Hp Hnew. by eapply recorded_pass.
Qed.
End recorded.
End single_writer.

(** ** A failover of three sites

    The sites of [brokenServiceWorld], and "b" has its read-write Service. *)
Definition repairedWorld : fakeWorld :=
  setServices (<[("siteb", NN "db" "pg-rw") := sampleService "db" "pg-rw"]>
    (fw_services brokenServiceWorld)) brokenServiceWorld.

Definition repairedPass (n : nat) : @opstate fakeExtern := afterPasses n (fakeState repairedWorld).

(** Its sites, with their addresses. *)
Definition brokenSites : list (string * (@Server fakeExtern fakeStore * NamespacedName)) :=
  [("a", (serverOf (site "local"), NN "db" "pg")); ("b", (serverOf (site "siteb"), NN "db" "pg"));
   ("c", (serverOf (site "sitec"), NN "db" "pg"))].

Lemma broken_siteAddr n a :
  siteAddr brokenDeployment sampleReconciler serverOfKey n a -> (n, a) ∈ brokenSites.
Proof.
  intros [[-> ->]|(rep & Hin & <- & ->)]; [by apply elem_of_cons; left|].
  unfold brokenDeployment in Hin. simpl in Hin. rewrite !elem_of_cons, elem_of_nil in Hin.
  apply elem_of_cons. right. destruct Hin as [->|[->|[]]];
    [by apply elem_of_cons; left|apply elem_of_cons; right; by apply elem_of_cons; left].
Qed.

Lemma broken_distinct : distinctSites brokenDeployment sampleReconciler serverOfKey.
Proof.
  split.
  - apply (bool_decide_unpack _). reflexivity.
  - apply (bool_decide_unpack _). reflexivity.
  - intros n n' a Hn%broken_siteAddr Hn'%broken_siteAddr. unfold brokenSites in *.
    rewrite !elem_of_cons, elem_of_nil in Hn, Hn'. by destruct_or!; simplify_eq.
Qed.

(** The sites one by one. *)
Lemma broken_forall (P : string -> @Server fakeExtern fakeStore * NamespacedName -> Prop) :
  Forall (fun na => P na.1 na.2) brokenSites ->
  forall n a, siteAddr brokenDeployment sampleReconciler serverOfKey n a -> P n a.
Proof. intros HP n a Ha%broken_siteAddr. rewrite Forall_forall in HP. exact (HP _ Ha). Qed.

Definition caughtUpAt (w : fakeWorld) (a : @Server fakeExtern fakeStore * NamespacedName) : bool :=
  match clusterAt w a.1 a.2 with
  | Some u => negb (bool_decide (fenced u)) || bool_decide (readyInstancesOf u <= 0)
  | None => true
  end.

Lemma broken_caughtUp w :
  forallb (fun na => caughtUpAt w na.2) brokenSites = true ->
  caughtUp brokenDeployment sampleReconciler serverOfKey w.
Proof.
  intros Hw n a u Ha Hu Hf. apply broken_siteAddr in Ha. rewrite forallb_forall in Hw.
  apply list_elem_of_In, Hw in Ha. simpl in Ha. unfold caughtUpAt in Ha. rewrite Hu in Ha.
  rewrite (bool_decide_eq_true_2 _ Hf) in Ha. by apply bool_decide_eq_true_1 in Ha.
Qed.

Lemma broken_soleWriter w p :
  forallb (fun na => negb (bool_decide (acceptsWrites w na.2)) || bool_decide (na.1 = p)) brokenSites
  = true -> soleWriter brokenDeployment sampleReconciler serverOfKey w p.
Proof.
  intros Hw n a Ha Hacc. apply broken_siteAddr in Ha. rewrite forallb_forall in Hw.
  apply list_elem_of_In, Hw in Ha. simpl in Ha.
  rewrite (bool_decide_eq_true_2 _ Hacc) in Ha. by apply bool_decide_eq_true_1 in Ha.
Qed.

(** Answers that record [p]. *)
Definition recordedb (p : string) (a : @apicall fakeExtern) : bool :=
  match a with
  | CGetHA _ _ (Ok ha) | CPatchHA _ _ _ (Ok ha) => bool_decide (p = recordedPrimary ha)
  | _ => true
  end.

Lemma recordedb_sound (d : @deployment fakeExtern) p t :
  Forall (faithful d) t -> forallb (recordedb p) t = true -> Forall (faithful (recording d p)) t.
Proof.
  intros Hf Hp. apply Forall_forall. intros a Ha. rewrite forallb_forall in Hp.
  pose proof (proj1 (list_elem_of_In _ _) Ha) as Hb%Hp.
  rewrite Forall_forall in Hf. specialize (Hf a Ha).
  destruct a as [| | | | | |c k [ha|]|c ha body [ha'|]| | | | |]; simpl in *; try done;
    (split; [apply Hf|by apply bool_decide_eq_true_1 in Hb]).
Qed.

(** A status that records [p]. *)
Definition sendsb (p : string) (a : @apicall fakeExtern) : bool :=
  match a with CStatusUpdate _ hs _ => bool_decide (recordedPrimary hs = p) | _ => false end.

Lemma sendsb_sound p t :
  existsb (sendsb p) t = true ->
  exists c hs res, CStatusUpdate c hs res ∈ t /\ recordedPrimary hs = p.
Proof.
  intros ([] & Hin%list_elem_of_In & Ha)%existsb_exists; try done. simpl in Ha.
  apply bool_decide_eq_true_1 in Ha. eauto.
Qed.

(** The third pass fails over from "a" to "b". *)
Lemma repaired_step :
  recordedStep brokenDeployment sampleReconciler serverOfKey (NN "ops" "ha")
    (op_world (repairedPass 2), "a") (op_world (repairedPass 3), "b").
Proof.
  apply (recorded_whole_pass _ _ _ _ _ _ (repairedPass 2)); [exact I| | | | |].
  - apply fakeCacheLeads. reflexivity.
  - apply broken_caughtUp. reflexivity.
  - apply recordedb_sound; [apply faithfulb_sound|]; reflexivity.
  - right. apply sendsb_sound. reflexivity.
  - apply (broken_forall (fun n a => primaryAt (op_world (repairedPass 3)) a.1 a.2 ->
      primaryAt (op_world (repairedPass 2)) a.1 a.2 \/ n = "b")).
    unfold brokenSites. rewrite !Forall_cons. split_and!; [| | |constructor]; intros Hp.
    + left. apply (bool_decide_eq_true_1 (primaryAt (op_world (repairedPass 2))
        (serverOf (site "local")) (NN "db" "pg"))). reflexivity.
    + by right.
    + destruct (bool_decide_eq_false_1 (primaryAt (op_world (repairedPass 3))
        (serverOf (site "sitec")) (NN "db" "pg"))); [reflexivity|exact Hp].
Qed.

Lemma recorded_primary_sole_writer_witness :
  writers (op_world (repairedPass 3)) = (false, true, false) /\
  soleWriter brokenDeployment sampleReconciler serverOfKey (op_world (repairedPass 3)) "b".
Proof.
  split; [reflexivity|].
  apply (recorded_primary_sole_writer brokenDeployment sampleReconciler serverOfKey broken_servers
    (NN "ops" "ha") (op_world (repairedPass 2)) "a" (op_world (repairedPass 3)) "b" I broken_distinct).
  - discriminate.
  - apply broken_soleWriter. reflexivity.
  - apply rtc_once, repaired_step.
Defined.

Lemma Reconcile_hands_over_witness :
  (Reconcile sampleReconciler (NN "ops" "ha") (repairedPass 2)).1 = Val (mkCtrl (10 * Second), None) /\
  wpt (Reconcile sampleReconciler (NN "ops" "ha")) (fun o s' t =>
    Forall (faithful (recording brokenDeployment "a")) t ->
    forall ctrl, o = Val (ctrl, None) ->
    (exists e, t = [CGetHA (r_Client sampleReconciler) (NN "ops" "ha") (Err e)]) \/
    exists hs ha', CStatusUpdate (r_Client sampleReconciler) hs (Ok ha') ∈ t /\
      soleWriter brokenDeployment sampleReconciler serverOfKey (op_world s') (recordedPrimary hs))
    (repairedPass 2).
Proof.
  split; [reflexivity|].
  apply (Reconcile_hands_over brokenDeployment sampleReconciler serverOfKey broken_servers
    (NN "ops" "ha") "a" (repairedPass 2) I broken_distinct).
  - discriminate.
  - apply fakeCacheLeads. reflexivity.
  - apply broken_soleWriter. reflexivity.
  - apply broken_caughtUp. reflexivity.
Defined.
