(* ===== verification/Utils.v ===== *)
(** * test/utils: the helpers of the end-to-end tests

    Running commands in the project directory, cert-manager, kind, and the
    editing of the kustomize files. The operating system, the processes that
    are started and Ginkgo's writer are parameters. *)

From S2P Require Import Prelude GoStd.

(** ** Strings *)

Definition newline : ascii := asciiOf 10.
Definition carriageReturn : ascii := asciiOf 13.
Definition nl : string := String newline "".

Fixpoint HasPrefix (s prefix : string) : bool :=
  match prefix, s with
  | EmptyString, _ => true
  | String p prefix', String c s' => Ascii.eqb c p && HasPrefix s' prefix'
  | _, _ => false
  end.

Definition TrimPrefix (s prefix : string) : string :=
  if HasPrefix s prefix then dropStr (String.length prefix) s else s.

(** [strings.Index], None for -1. *)
Fixpoint Index (s substr : string) : option nat :=
  if HasPrefix s substr then Some 0%nat
  else match s with
       | EmptyString => None
       | String _ s' => S <$> Index s' substr
       end.

Definition Contains (s substr : string) : bool := bool_decide (is_Some (Index s substr)).

(** [strings.Split] and [strings.SplitSeq] for a one-byte separator. *)
Fixpoint Split (s : string) (sep : ascii) : list string :=
  match s with
  | EmptyString => [EmptyString]
  | String c s' =>
      if Ascii.eqb c sep then EmptyString :: Split s' sep
      else match Split s' sep with
           | [] => [String c EmptyString]
           | x :: rest => String c x :: rest
           end
  end.

(** [strings.ReplaceAll(s, old, "")] for an [old] that is not empty; [skip] is
    how much of a match is still to be passed over. *)
Fixpoint removeAll (s old : string) (skip : nat) : string :=
  match s with
  | EmptyString => EmptyString
  | String c s' =>
      match skip with
      | S k => removeAll s' old k
      | O => if HasPrefix s old then removeAll s' old (String.length old - 1)
             else String c (removeAll s' old 0)
      end
  end.

(** ** [bufio.Scanner] with [bufio.ScanLines] *)

Definition MaxScanTokenSize : nat := 64 * 1024.

(** dropCR *)
Fixpoint dropCR (s : string) : string :=
  match s with
  | EmptyString => EmptyString
  | String c EmptyString => if Ascii.eqb c carriageReturn then EmptyString else s
  | String c s' => String c (dropCR s')
  end.

(** The lines of the text: what follows a final line break is no line. *)
Fixpoint dropLastEmpty (l : list string) : list string :=
  match l with
  | [] => []
  | [x] => if bool_decide (x = "") then [] else [x]
  | x :: rest => x :: dropLastEmpty rest
  end.

(** The tokens the calls of Scan deliver: a line that does not fit in the
    buffer ends the scan. *)
Fixpoint scanTokens (lines : list string) : list string :=
  match lines with
  | [] => []
  | l :: rest => if (MaxScanTokenSize <=? String.length l)%nat then [] else dropCR l :: scanTokens rest
  end.

Definition scanLines (text : string) : list string := scanTokens (dropLastEmpty (Split text newline)).

(** ** The environment *)

Class TestEnv : Type := {
  OS : Type;
  osReadFile : string -> OS -> result string * OS;
  osWriteFile : string -> string -> OS -> result unit * OS;
  osGetwd : OS -> string * option goerr;
  osChdir : string -> OS -> option goerr * OS;
  osEnviron : OS -> list string;
  osLookupEnv : string -> OS -> option string;
  (** cmd.CombinedOutput of a command with these Args, Dir and Env. *)
  combinedOutput : list string -> string -> list string -> OS -> (string * option goerr) * OS;
  (** Fprintf to GinkgoWriter. *)
  ginkgoWrite : string -> OS -> OS
}.

(** Programs over the environment. *)
Definition U `{TestEnv} (A : Type) : Type := OS -> A * OS.
#[export] Instance U_ret `{TestEnv} : MRet U := fun A a w => (a, w).
#[export] Instance U_bind `{TestEnv} : MBind U := fun A B k m w => let '(a, w') := m w in k a w'.

Section utils.
Context `{TestEnv}.

Definition asks {A} (f : OS -> A) : U A := fun w => (f w, w).
Definition fprint (s : string) : U unit := fun w => (tt, ginkgoWrite s w).
Definition chdir (dir : string) : U (option goerr) := osChdir dir.
Definition readFile (name : string) : U (result string) := osReadFile name.
Definition writeFile (name content : string) : U (result unit) := osWriteFile name content.
Definition output (args : list string) (dir : string) (env : list string) : U (string * option goerr) :=
  combinedOutput args dir env.

Definition warnError (err : goerr) : U unit := fprint ("warning: " +:+ Error err +:+ nl).

Definition GetProjectDir : U (string * option goerr) :=
  got ← asks osGetwd;
  mret (match got with
        | (wd, Some err) => (wd, Some (Wrap "failed to get current working directory" err))
        | (wd, None) => (removeAll wd "/test/e2e" 0, None)
        end).

(** The command line, as the tests print it. *)
Definition joinedArgs (args : list string) : string := Join args " ".

Definition Run (args : list string) : U (string * option goerr) :=
  project ← GetProjectDir;
  let dir := project.1 in
  cd ← chdir dir;
  (match cd with
  | Some err => fprint ("chdir dir: " +:+ Quote (Error err) +:+ nl)
  | None => mret tt
  end);;
  environ ← asks osEnviron;
  fprint ("running: " +:+ Quote (joinedArgs args) +:+ nl);;
  got ← output args dir (environ ++ ["GO111MODULE=on"]);
  mret (match got with
        | (out, Some err) =>
            (out, Some (Wrap (Quote (joinedArgs args) +:+ " failed with error " +:+ Quote out) err))
        | (out, None) => (out, None)
        end).

(** *** cert-manager *)

Definition certmanagerVersion : string := "v1.20.2".
Definition certmanagerURL : string :=
  "https://github.com/cert-manager/cert-manager/releases/download/" +:+ certmanagerVersion
  +:+ "/cert-manager.yaml".

(** [if _, err := Run(cmd); err != nil { warnError(err) }] *)
Definition runOrWarn (args : list string) : U unit :=
  got ← Run args;
  match got.2 with Some err => warnError err | None => mret tt end.

Definition leaseArgs (lease : string) : list string :=
  ["kubectl"; "delete"; "lease"; lease; "-n"; "kube-system"; "--ignore-not-found"; "--force";
   "--grace-period=0"].

Fixpoint deleteLeases (leases : list string) : U unit :=
  match leases with
  | [] => mret tt
  | lease :: rest => runOrWarn (leaseArgs lease);; deleteLeases rest
  end.

Definition UninstallCertManager : U unit :=
  runOrWarn ["kubectl"; "delete"; "-f"; certmanagerURL];;
  deleteLeases ["cert-manager-cainjector-leader-election"; "cert-manager-controller"].

Definition InstallCertManager : U (option goerr) :=
  applied ← Run ["kubectl"; "apply"; "-f"; certmanagerURL];
  match applied.2 with
  | Some err => mret (Some err)
  | None =>
      waited ← Run ["kubectl"; "wait"; "deployment.apps/cert-manager-webhook"; "--for";
                    "condition=Available"; "--namespace"; "cert-manager"; "--timeout"; "5m"];
      mret waited.2
  end.

Definition GetNonEmptyLines (output : string) : list string :=
  filter (fun element => element <> "") (Split output newline).

Definition certManagerCRDs : list string :=
  ["certificates.cert-manager.io"; "issuers.cert-manager.io"; "clusterissuers.cert-manager.io";
   "certificaterequests.cert-manager.io"; "orders.acme.cert-manager.io";
   "challenges.acme.cert-manager.io"].

Definition IsCertManagerCRDsInstalled : U bool :=
  got ← Run ["kubectl"; "get"; "crds"];
  match got with
  | (_, Some _) => mret false
  | (out, None) =>
      let crdList := GetNonEmptyLines out in
      mret (existsb (fun crd => existsb (fun line => Contains line crd) crdList) certManagerCRDs)
  end.

(** *** kind *)

Definition LoadImageToKindClusterWithName (name : string) : U (option goerr) :=
  cluster ← asks (osLookupEnv "KIND_CLUSTER");
  kindBinary ← asks (osLookupEnv "KIND");
  got ← Run [default "kind" kindBinary; "load"; "docker-image"; name; "--name"; default "kind" cluster];
  mret got.2.

(** *** Editing a file *)

(** The loop over the scanner, after its first token. *)
Fixpoint uncommentLoop (prefix line : string) (rest : list string) : string :=
  TrimPrefix line prefix +:+
  match rest with
  | [] => ""
  | line' :: rest' => nl +:+ uncommentLoop prefix line' rest'
  end.

(** Writes to a bytes.Buffer do not fail. *)
Definition UncommentCode (filename target prefix : string) : U (option goerr) :=
  read ← readFile filename;
  match read with
  | Err err => mret (Some (Wrap ("failed to read file " +:+ Quote filename) err))
  | Ok content =>
      match Index content target with
      | None => mret (Some (ErrorString ("unable to find the code " +:+ Quote target
                                         +:+ " to be uncommented")))
      | Some idx =>
          match scanLines target with
          | [] => mret None
          | line :: rest =>
              let out := takeStr idx content +:+ uncommentLoop prefix line rest
                         +:+ dropStr (idx + String.length target) content in
              wrote ← writeFile filename out;
              mret (match wrote with
                    | Err err => Some (Wrap ("failed to write file " +:+ Quote filename) err)
                    | Ok _ => None
                    end)
          end
      end
  end.
End utils.

(** ** Facts about the strings *)

Lemma HasPrefix_nil s : HasPrefix s "" = true.
Proof. by destruct s. Qed.

Lemma HasPrefix_app p r : HasPrefix (p +:+ r) p = true.
Proof. induction p as [|c p IH]; simpl; [by destruct r|]. by rewrite Ascii.eqb_refl, IH. Qed.

Lemma length_string_app a b : String.length (a +:+ b) = (String.length a + String.length b)%nat.
Proof. induction a as [|c a IH]; simpl; [done|by rewrite IH]. Qed.

Lemma dropStr_app2 a b c : dropStr (String.length a + String.length b) (a +:+ b +:+ c) = c.
Proof. by rewrite <- length_string_app, <- string_app_assoc, dropStr_app. Qed.

Lemma TrimPrefix_app p r : TrimPrefix (p +:+ r) p = r.
Proof. unfold TrimPrefix. by rewrite HasPrefix_app, dropStr_app. Qed.

Lemma Split_cons s sep : exists x rest, Split s sep = x :: rest.
Proof. destruct s as [|c s]; simpl; [eauto|]. destruct (Ascii.eqb c sep), (Split s sep); eauto. Qed.

Lemma Split_line x sep : ContainsByte sep x = false -> Split x sep = [x].
Proof.
  induction x as [|c x IH]; simpl; [done|]. intros [-> Hx]%orb_false_iff. by rewrite IH.
Qed.

Lemma Split_app x s sep :
  ContainsByte sep x = false -> Split (x +:+ String sep s) sep = x :: Split s sep.
Proof.
  induction x as [|c x IH]; simpl; [by rewrite Ascii.eqb_refl|].
  intros [-> Hx]%orb_false_iff. by rewrite IH.
Qed.

(** Joining lines and splitting the text again. *)
Lemma Split_Join lines sep :
  lines <> [] -> Forall (fun l => ContainsByte sep l = false) lines ->
  Split (Join lines (String sep "")) sep = lines.
Proof.
  intros Hne Hl. induction Hl as [|x [|y ys] Hx Hl IH]; [done|by apply Split_line|].
  change (Join (x :: y :: ys) (String sep ""))
    with (x +:+ String sep (Join (y :: ys) (String sep ""))).
  rewrite Split_app by done. by rewrite IH.
Qed.

Lemma uncommentLoop_Join prefix line rest :
  uncommentLoop prefix line rest = Join ((fun l => TrimPrefix l prefix) <$> line :: rest) nl.
Proof.
  revert line. induction rest as [|l rest IH]; intros line; simpl; [by rewrite string_app_nil_r|].
  by rewrite IH.
Qed.

(** *** Lines and substrings *)

Lemma Contains_nil sub : sub <> "" -> Contains "" sub = false.
Proof. destruct sub; [done|]. intros _. unfold Contains. apply bool_decide_eq_false. by intros []. Qed.

Lemma Contains_cons c s sub : Contains (String c s) sub = HasPrefix (String c s) sub || Contains s sub.
Proof.
  unfold Contains. change (Index (String c s) sub) with
    (if HasPrefix (String c s) sub then Some 0%nat else S <$> Index s sub).
  destruct (HasPrefix (String c s) sub); simpl; [done|].
  apply bool_decide_ext. apply fmap_is_Some.
Qed.

(** A prefix without line breaks is one of the first line. *)
Lemma HasPrefix_line s sub x rest :
  ContainsByte newline sub = false -> Split s newline = x :: rest ->
  HasPrefix s sub = HasPrefix x sub.
Proof.
  revert sub x rest. induction s as [|c s IH]; intros [|p sub] x rest Hs E;
    rewrite ?HasPrefix_nil; simpl in *; simplify_eq; try done.
  apply orb_false_iff in Hs as [Hp Hs]. destruct (Ascii.eqb c newline) eqn:Ec.
  - simplify_eq. simpl. apply Ascii.eqb_eq in Ec as ->. rewrite Ascii.eqb_sym in Hp. by rewrite Hp.
  - destruct (Split_cons s newline) as (y & ys & Ey). rewrite Ey in E. simplify_eq. simpl.
    by rewrite (IH sub y rest Hs Ey).
Qed.

(** Looking through the lines is looking through the text. *)
Lemma Contains_lines s sub :
  sub <> "" -> ContainsByte newline sub = false ->
  existsb (fun line => Contains line sub) (Split s newline) = Contains s sub.
Proof.
  intros Hne Hs. induction s as [|c s IH]; simpl; [by rewrite orb_false_r|].
  rewrite Contains_cons. destruct (Ascii.eqb c newline) eqn:Ec.
  - simpl. rewrite Contains_nil, IH by done. apply Ascii.eqb_eq in Ec as ->.
    destruct sub as [|p sub]; [done|]. simpl in Hs. apply orb_false_iff in Hs as [Hp _].
    change (HasPrefix (String newline s) (String p sub)) with (Ascii.eqb newline p && HasPrefix s sub).
    by rewrite Ascii.eqb_sym, Hp.
  - destruct (Split_cons s newline) as (x & xs & Ex). rewrite Ex in *. simpl in *.
    rewrite Contains_cons, <- IH, orb_assoc. f_equal. f_equal.
    destruct sub as [|p sub]; [done|]. simpl in *. apply orb_false_iff in Hs as [_ Hs].
    by rewrite (HasPrefix_line s sub x xs Hs Ex).
Qed.

(** ** Commenting and uncommenting *)

(** The lines under a comment prefix, as they stand in a file. *)
Definition commented (prefix : string) (lines : list string) : string :=
  Join ((fun l => prefix +:+ l) <$> lines) nl.

(** A line the scanner delivers as it is. *)
Definition plainLine (l : string) : Prop :=
  ContainsByte newline l = false /\ dropCR l = l /\ (String.length l < MaxScanTokenSize)%nat.

Lemma scanTokens_plain lines : Forall plainLine lines -> scanTokens lines = lines.
Proof.
  induction 1 as [|l lines (_ & Hcr & Hlen) _ IH]; [done|]. cbn [scanTokens].
  rewrite (proj2 (Nat.leb_gt _ _) Hlen). by rewrite Hcr, IH.
Qed.

Lemma dropLastEmpty_last lines x : x <> "" -> dropLastEmpty (lines ++ [x]) = lines ++ [x].
Proof.
  intros Hx. induction lines as [|y lines IH]; simpl; [by rewrite bool_decide_eq_false_2|].
  rewrite IH. by destruct (lines ++ [x]) eqn:E; [destruct lines|].
Qed.

Lemma scanLines_Join lines x :
  Forall plainLine (lines ++ [x]) -> x <> "" -> scanLines (Join (lines ++ [x]) nl) = lines ++ [x].
Proof.
  intros Hl Hx. unfold scanLines, nl. rewrite Split_Join.
  - by rewrite dropLastEmpty_last, scanTokens_plain.
  - by destruct lines.
  - eapply Forall_impl; [exact Hl|]. by intros l [? _].
Qed.

(** A line is searched whether or not the empty ones are dropped. *)
Lemma nonEmptyLines_existsb s sub :
  sub <> "" ->
  existsb (fun line => Contains line sub) (GetNonEmptyLines s) =
  existsb (fun line => Contains line sub) (Split s newline).
Proof.
  intros Hne. unfold GetNonEmptyLines. induction (Split s newline) as [|x l IH]; [done|].
  rewrite filter_cons. case_decide as Hx; simpl; rewrite IH; [done|].
  subst x. by rewrite Contains_nil.
Qed.

Lemma crd_lines s crd :
  In crd certManagerCRDs ->
  existsb (fun line => Contains line crd) (GetNonEmptyLines s) = Contains s crd.
Proof.
  intros Hin. assert (Hc : crd <> "" /\ ContainsByte newline crd = false).
  { destruct Hin as [<-|[<-|[<-|[<-|[<-|[<-|[]]]]]]]; (split; [discriminate|reflexivity]). }
  destruct Hc. rewrite nonEmptyLines_existsb by done. by apply Contains_lines.
Qed.

Section editing.
Context `{TestEnv}.

(** What is written when the target stands at its first occurrence. *)
Lemma UncommentCode_writes filename before target after prefix line rest w w1 :
  osReadFile filename w = (Ok (before +:+ target +:+ after), w1) ->
  Index (before +:+ target +:+ after) target = Some (String.length before) ->
  scanLines target = line :: rest ->
  UncommentCode filename target prefix w =
  (wrote ← writeFile filename (before +:+ Join ((fun l => TrimPrefix l prefix) <$> line :: rest) nl +:+ after);
   mret (match wrote with
         | Err err => Some (Wrap ("failed to write file " +:+ Quote filename) err)
         | Ok _ => None
         end)) w1.
Proof.
  intros Er Ei Es. unfold UncommentCode, mbind, U_bind at 1, readFile. rewrite Er, Ei, Es.
  by rewrite takeStr_app, dropStr_app2, uncommentLoop_Join.
Qed.

(** C37. Uncommenting undoes commenting. In a file where lines stand under a
    comment prefix, uncommenting that block, at its first occurrence, writes
    the file once, with exactly the lines without the prefix in place of the
    block and everything before and after it unchanged, and reports whether
    the write went through. The lines have no line breaks and no trailing
    carriage return and fit the scanner's buffer, and the block does not end
    in a line break. *)
Theorem UncommentCode_roundtrip filename before after prefix lines x w w1 :
  let block := lines ++ [x] in
  Forall plainLine ((fun l => prefix +:+ l) <$> block) -> prefix +:+ x <> "" ->
  osReadFile filename w = (Ok (before +:+ commented prefix block +:+ after), w1) ->
  Index (before +:+ commented prefix block +:+ after) (commented prefix block)
    = Some (String.length before) ->
  UncommentCode filename (commented prefix block) prefix w =
  (wrote ← writeFile filename (before +:+ Join block nl +:+ after);
   mret (match wrote with
         | Err err => Some (Wrap ("failed to write file " +:+ Quote filename) err)
         | Ok _ => None
         end)) w1.
Proof.
  intros block Hl Hx Er Ei.
  assert (Es : scanLines (commented prefix block) = (fun l => prefix +:+ l) <$> block).
  { unfold commented, block. rewrite fmap_app. apply scanLines_Join; [|done].
    unfold block in Hl. by rewrite fmap_app in Hl. }
  destruct ((fun l => prefix +:+ l) <$> block) as [|line rest] eqn:Eb.
  { unfold block in Eb. by destruct lines. }
  rewrite (UncommentCode_writes _ _ _ _ _ _ _ _ _ Er Ei Es), <- Eb, <- list_fmap_compose.
  rewrite (list_fmap_ext _ id block), list_fmap_id; [done|].
  intros i l _. apply TrimPrefix_app.
Qed.

(** The check for cert-manager looks at the output as a whole: it answers
    yes exactly when kubectl could list the CRDs and the name of one of those
    of cert-manager occurs in what it printed; splitting the output into lines
    and dropping the empty ones loses none of the names. *)
Theorem IsCertManagerCRDsInstalled_spec w :
  let listed := Run ["kubectl"; "get"; "crds"] w in
  IsCertManagerCRDsInstalled w =
  (bool_decide (listed.1.2 = None /\ Exists (fun crd => Contains listed.1.1 crd = true) certManagerCRDs),
   listed.2).
Proof.
  intros listed. unfold IsCertManagerCRDsInstalled, mbind, U_bind at 1. fold listed.
  destruct listed as [[out [e|]] w']; cbn [fst snd].
  { done. }
  unfold mret, U_ret. f_equal. apply Bool.eq_iff_eq_true.
  rewrite bool_decide_eq_true, existsb_exists, Exists_exists. split.
  - intros (crd & Hin & Hc). split; [done|]. exists crd. rewrite list_elem_of_In. split; [done|].
    by rewrite <- (crd_lines out crd Hin).
  - intros [_ (crd & Hin%list_elem_of_In & Hc)]. exists crd. split; [done|].
    by rewrite (crd_lines out crd Hin).
Qed.

(** A line that does not fit the buffer ends the scan without an error that
    anyone looks at. *)
Lemma scanTokens_long pre long post :
  Forall plainLine pre -> (MaxScanTokenSize <= String.length long)%nat ->
  scanTokens (pre ++ long :: post) = pre.
Proof.
  intros Hp Hlong. induction Hp as [|l pre (_ & Hcr & Hlen) _ IH]; cbn [scanTokens app].
  - by rewrite (proj2 (Nat.leb_le _ _) Hlong).
  - rewrite (proj2 (Nat.leb_gt _ _) Hlen). by rewrite Hcr, IH.
Qed.

(** So UncommentCode loses the target from the first line of 64 KiB on: such a
    line and everything after it in the target are missing from the file that
    is written, and the result is that of the write. *)
Theorem UncommentCode_truncates filename before after prefix first pre long post x w w1 :
  let target := Join (first :: pre ++ long :: post ++ [x]) nl in
  Forall plainLine (first :: pre) -> (MaxScanTokenSize <= String.length long)%nat ->
  Forall (fun l => ContainsByte newline l = false) (long :: post ++ [x]) -> x <> "" ->
  osReadFile filename w = (Ok (before +:+ target +:+ after), w1) ->
  Index (before +:+ target +:+ after) target = Some (String.length before) ->
  UncommentCode filename target prefix w =
  (wrote ← writeFile filename
     (before +:+ Join ((fun l => TrimPrefix l prefix) <$> first :: pre) nl +:+ after);
   mret (match wrote with
         | Err err => Some (Wrap ("failed to write file " +:+ Quote filename) err)
         | Ok _ => None
         end)) w1.
Proof.
  intros target Hp Hlong Hl Hx Er Ei. eapply UncommentCode_writes; [exact Er|exact Ei|].
  unfold scanLines, target, nl. rewrite Split_Join; [|done|].
  - change (first :: pre ++ long :: post ++ [x]) with ((first :: pre) ++ long :: post ++ [x]).
    rewrite (app_comm_cons post [x] long), app_assoc, dropLastEmpty_last by done.
    rewrite <- app_assoc. by apply scanTokens_long.
  - change (first :: pre ++ long :: post ++ [x]) with ((first :: pre) ++ long :: post ++ [x]).
    apply Forall_app. split; [|done]. eapply Forall_impl; [exact Hp|]. by intros l [? _].
Qed.
End editing.

(** ** A file system in memory *)

Record fakeOS : Type := mkFakeOS {
  fo_files : gmap string string;
  fo_wd : string;
  fo_log : string;
  fo_commands : list (list string)
}.

(** kubectl prints [crds]; other commands print nothing. *)
Definition fakeTestEnv (crds : string) : TestEnv := {|
  OS := fakeOS;
  osReadFile name w :=
    (match fo_files w !! name with
     | Some c => Ok c
     | None => Err (ErrorString ("open " +:+ name +:+ ": no such file or directory"))
     end, w);
  osWriteFile name c w := (Ok tt, mkFakeOS (<[name := c]> (fo_files w)) (fo_wd w) (fo_log w) (fo_commands w));
  osGetwd w := (fo_wd w, None);
  osChdir dir w := (None, mkFakeOS (fo_files w) dir (fo_log w) (fo_commands w));
  osEnviron _ := [];
  osLookupEnv _ _ := None;
  combinedOutput args dir env w :=
    ((if bool_decide (args = ["kubectl"; "get"; "crds"]) then crds else "", None),
     mkFakeOS (fo_files w) (fo_wd w) (fo_log w) (fo_commands w ++ [args]));
  ginkgoWrite s w := mkFakeOS (fo_files w) (fo_wd w) (fo_log w +:+ s) (fo_commands w)
|}.

Definition kustomization (body : string) : fakeOS :=
  mkFakeOS {["config/default/kustomization.yaml" := "resources:" +:+ nl +:+ body +:+ nl +:+ "patches:"]}
    "/src/cnpg-ha/test/e2e" "" [].

Lemma UncommentCode_roundtrip_witness :
  let block := ["- ../webhook"; "- ../certmanager"] in
  @UncommentCode (fakeTestEnv "") "config/default/kustomization.yaml" (commented "#" block) "#"
    (kustomization (commented "#" block))
  = (None, kustomization (Join block nl)).
Proof.
  cbv zeta.
  etransitivity; [apply (@UncommentCode_roundtrip (fakeTestEnv "") "config/default/kustomization.yaml"
    ("resources:" +:+ nl) (nl +:+ "patches:") "#" ["- ../webhook"] "- ../certmanager"
    (kustomization (commented "#" ["- ../webhook"; "- ../certmanager"]))
    (kustomization (commented "#" ["- ../webhook"; "- ../certmanager"])))|reflexivity].
  - repeat (apply Forall_cons; split; [split_and!; [reflexivity|reflexivity|
      apply Nat.ltb_lt; reflexivity]|]). constructor.
  - discriminate.
  - reflexivity.
  - reflexivity.
Defined.

(** A target that ends in a line break loses it, and its last line runs into
    the text that follows. *)
Theorem UncommentCode_joins_lines :
  @UncommentCode (fakeTestEnv "") "f" ("#a" +:+ nl) "#" (mkFakeOS {["f" := "#a" +:+ nl +:+ "b"]} "/" "" [])
  = (None, mkFakeOS {["f" := "ab"]} "/" "" []).
Proof. reflexivity. Qed.

(** A run of the check, from the test directory. *)
Example cert_manager_listed :
  (@IsCertManagerCRDsInstalled (fakeTestEnv ("NAME" +:+ nl +:+ "issuers.cert-manager.io   2026-01-01"))
    (kustomization "")).1 = true.
Proof. reflexivity. Qed.
